(** * The IR store of the decompiler core: Varnodes, PcodeOps, basic blocks

    A shallow embedding of the linkage edits, insertion routines and
    parameter-trial walks of [funcdata_op.cc] and [funcdata_varnode.cc].

    Pointers of the C++ code become indices into per-function arenas
    ([gmap nat _]); every member function of [Funcdata] becomes a
    computation in a small state-and-error monad over the store. *)

From stdpp Require Import gmap list.
From Stdlib Require Import ZArith Lia Bool.

Open Scope Z_scope.

(** ** Op-codes, address spaces, addresses *)

Inductive OpCode :=
| CPUI_COPY | CPUI_LOAD | CPUI_STORE
| CPUI_BRANCH | CPUI_CBRANCH | CPUI_BRANCHIND
| CPUI_CALL | CPUI_CALLIND | CPUI_CALLOTHER | CPUI_RETURN
| CPUI_INT_EQUAL | CPUI_INT_NOTEQUAL
| CPUI_INT_SLESS | CPUI_INT_SLESSEQUAL | CPUI_INT_LESS | CPUI_INT_LESSEQUAL
| CPUI_INT_ADD | CPUI_INT_SUB | CPUI_INT_REM | CPUI_INT_SREM
| CPUI_BOOL_NEGATE
| CPUI_MULTIEQUAL | CPUI_INDIRECT | CPUI_PIECE | CPUI_SUBPIECE
| CPUI_CAST | CPUI_PTRADD | CPUI_PTRSUB | CPUI_SEGMENTOP.

#[global] Instance OpCode_eq_dec : EqDecision OpCode.
Proof. solve_decision. Defined.

Inductive spacetype :=
| IPTR_CONSTANT | IPTR_PROCESSOR | IPTR_SPACEBASE | IPTR_INTERNAL
| IPTR_FSPEC | IPTR_IOP | IPTR_JOIN.

#[global] Instance spacetype_eq_dec : EqDecision spacetype.
Proof. solve_decision. Defined.

Record AddrSpace := mkAddrSpace {
  getType : spacetype;
  getIndex : nat
}.

#[global] Instance AddrSpace_eq_dec : EqDecision AddrSpace.
Proof. solve_decision. Defined.

Record Address := mkAddress {
  getSpace : AddrSpace;
  getOffset : Z
}.

#[global] Instance Address_eq_dec : EqDecision Address.
Proof. solve_decision. Defined.

Record SeqNum := mkSeqNum {
  getAddr : Address;      (* instruction address *)
  getTime : nat;          (* creation index of the op *)
  getOrder : nat          (* order within the basic block *)
}.

#[global] Instance SeqNum_eq_dec : EqDecision SeqNum.
Proof. solve_decision. Defined.

(** ** Property bits

    The [uint4 flags] words of Varnode and PcodeOp are bit sets over the
    named enumerators; they are kept as finite sets of those names, so
    that [&] is intersection, [|] union and [& ~] difference. *)

Inductive VnFlag :=
| Varnode_mark | Varnode_annotation | Varnode_input
| Varnode_typelock | Varnode_namelock | Varnode_volatil
| Varnode_externref | Varnode_readonly | Varnode_persist | Varnode_addrtied
| Varnode_unaffected | Varnode_spacebase | Varnode_directwrite
| Varnode_addrforce | Varnode_mapped | Varnode_indirect_creation
| Varnode_return_address | Varnode_incidental_copy | Varnode_auto_live
| Varnode_writemask.

#[global] Instance VnFlag_eq_dec : EqDecision VnFlag.
Proof. solve_decision. Defined.

Definition VnFlag_to_nat (f : VnFlag) : nat :=
  match f with
  | Varnode_mark => 0 | Varnode_annotation => 1 | Varnode_input => 2
  | Varnode_typelock => 3 | Varnode_namelock => 4 | Varnode_volatil => 5
  | Varnode_externref => 6 | Varnode_readonly => 7 | Varnode_persist => 8
  | Varnode_addrtied => 9 | Varnode_unaffected => 10
  | Varnode_spacebase => 11 | Varnode_directwrite => 12
  | Varnode_addrforce => 13 | Varnode_mapped => 14
  | Varnode_indirect_creation => 15 | Varnode_return_address => 16
  | Varnode_incidental_copy => 17 | Varnode_auto_live => 18
  | Varnode_writemask => 19
  end%nat.

Definition VnFlag_of_nat (n : nat) : option VnFlag :=
  match n with
  | 0 => Some Varnode_mark | 1 => Some Varnode_annotation
  | 2 => Some Varnode_input | 3 => Some Varnode_typelock
  | 4 => Some Varnode_namelock | 5 => Some Varnode_volatil
  | 6 => Some Varnode_externref | 7 => Some Varnode_readonly
  | 8 => Some Varnode_persist | 9 => Some Varnode_addrtied
  | 10 => Some Varnode_unaffected | 11 => Some Varnode_spacebase
  | 12 => Some Varnode_directwrite | 13 => Some Varnode_addrforce
  | 14 => Some Varnode_mapped | 15 => Some Varnode_indirect_creation
  | 16 => Some Varnode_return_address | 17 => Some Varnode_incidental_copy
  | 18 => Some Varnode_auto_live | 19 => Some Varnode_writemask
  | _ => None
  end%nat.

#[global] Instance VnFlag_countable : Countable VnFlag.
Proof. apply (inj_countable VnFlag_to_nat VnFlag_of_nat). by intros []. Defined.

Inductive OpFlag :=
| PcodeOp_startbasic | PcodeOp_startmark | PcodeOp_mark | PcodeOp_dead
| PcodeOp_indirect_source | PcodeOp_warning
| PcodeOp_halt | PcodeOp_badinstruction | PcodeOp_unimplemented
| PcodeOp_noreturn | PcodeOp_missing
| PcodeOp_special_prop | PcodeOp_indirect_creation.

#[global] Instance OpFlag_eq_dec : EqDecision OpFlag.
Proof. solve_decision. Defined.

Definition OpFlag_to_nat (f : OpFlag) : nat :=
  match f with
  | PcodeOp_startbasic => 0 | PcodeOp_startmark => 1 | PcodeOp_mark => 2
  | PcodeOp_dead => 3 | PcodeOp_indirect_source => 4 | PcodeOp_warning => 5
  | PcodeOp_halt => 6 | PcodeOp_badinstruction => 7
  | PcodeOp_unimplemented => 8 | PcodeOp_noreturn => 9
  | PcodeOp_missing => 10 | PcodeOp_special_prop => 11
  | PcodeOp_indirect_creation => 12
  end%nat.

Definition OpFlag_of_nat (n : nat) : option OpFlag :=
  match n with
  | 0 => Some PcodeOp_startbasic | 1 => Some PcodeOp_startmark
  | 2 => Some PcodeOp_mark | 3 => Some PcodeOp_dead
  | 4 => Some PcodeOp_indirect_source | 5 => Some PcodeOp_warning
  | 6 => Some PcodeOp_halt | 7 => Some PcodeOp_badinstruction
  | 8 => Some PcodeOp_unimplemented | 9 => Some PcodeOp_noreturn
  | 10 => Some PcodeOp_missing | 11 => Some PcodeOp_special_prop
  | 12 => Some PcodeOp_indirect_creation
  | _ => None
  end%nat.

#[global] Instance OpFlag_countable : Countable OpFlag.
Proof. apply (inj_countable OpFlag_to_nat OpFlag_of_nat). by intros []. Defined.

(** ** Varnodes, PcodeOps, basic blocks *)

(** A Varnode pointer is the index of the Varnode in the bank, a PcodeOp
    pointer the index of the op, a block pointer the index of the block. *)
Abbreviation vnptr := nat (only parsing).
Abbreviation opptr := nat (only parsing).
Abbreviation blptr := nat (only parsing).

Record Varnode := mkVarnode {
  getSize : Z;                      (* size in bytes *)
  vn_loc : Address;                 (* storage location *)
  vn_flags : gset VnFlag;
  getDef : option opptr;            (* defining op, if written *)
  descend : list opptr;             (* reading ops, in insertion order *)
  vn_cover : bool;                  (* a Cover object is allocated *)
  vn_high : bool;                   (* a HighVariable is assigned *)
  mapentry : option nat             (* symbol binding *)
}.

#[global] Instance Varnode_eq_dec : EqDecision Varnode.
Proof. solve_decision. Defined.

Record PcodeOp := mkPcodeOp {
  code : OpCode;
  op_flags : gset OpFlag;
  getOut : option vnptr;
  inrefs : list (option vnptr);     (* input slots; [None] is a null slot *)
  getParent : option blptr;         (* owning basic block, if inserted *)
  getSeqNum : SeqNum
}.

#[global] Instance PcodeOp_eq_dec : EqDecision PcodeOp.
Proof. solve_decision. Defined.

Record BlockBasic := mkBlockBasic {
  bl_op : list opptr;               (* the ops of the block, top to bottom *)
  bl_intothis : list blptr;         (* in-edges, by slot *)
  bl_outofthis : list blptr;        (* out-edges *)
  getStart : Address;               (* first address of the owning range *)
  bl_isDead : bool
}.

#[global] Instance BlockBasic_eq_dec : EqDecision BlockBasic.
Proof. solve_decision. Defined.

(** What the symbol database answers to [queryProperties]: the entry
    found (its identity and whether its symbol is type-locked) and the
    property bits of the storage. The database is an external
    collaborator; the store only consults it. *)
Record SymbolEntry := mkSymbolEntry {
  entry_id : nat;
  entry_isTypeLocked : bool
}.

(** The effect a function has on a storage location, as answered by its
    prototype ([funcp.hasEffect]). *)
Inductive EffectRecord :=
| unaffected | killedbycall | return_address | unknown_effect.

#[global] Instance EffectRecord_eq_dec : EqDecision EffectRecord.
Proof. solve_decision. Defined.

(** A parameter trial and the call specification of a CALL op. Both are
    declared in sources that are not at hand ([fspec.hh]); only the
    members read or written by the walks of [funcdata_varnode.cc] are
    kept. *)
Record ParamTrial := mkParamTrial {
  trial_getAddress : Address;       (* the storage the trial is about *)
  trial_getSlot : nat;              (* input slot of the trial at its op *)
  isChecked : bool;
  isActive : bool;
  isKilledByCall : bool;
  hasRemFormed : bool;
  hasIndCreateFormed : bool;
  hasCondExeEffect : bool
}.

#[global] Instance ParamTrial_eq_dec : EqDecision ParamTrial.
Proof. solve_decision. Defined.

Record FuncCallSpecs := mkFuncCallSpecs {
  getEntryAddress : Address;
  isInputActive : bool;
  getTrialForInputVarnode : nat → option ParamTrial
}.

Record Funcdata := mkFuncdata {
  vbank : gmap nat Varnode;
  vbank_create_index : nat;         (* next Varnode index *)
  vbank_uniqid : Z;                 (* next offset in the unique space *)
  obank : gmap nat PcodeOp;
  obank_uniqid : nat;               (* next op index *)
  bblocks : gmap nat BlockBasic;
  highlevel_on : bool;
  queryProperties : Address → Z → option SymbolEntry * gset VnFlag;
  hasEffect : Address → Z → EffectRecord;
  getCallSpecs : opptr → option FuncCallSpecs
}.

Definition set_vbank (f : gmap nat Varnode → gmap nat Varnode) (fd : Funcdata) : Funcdata :=
  mkFuncdata (f (vbank fd)) (vbank_create_index fd) (vbank_uniqid fd)
             (obank fd) (obank_uniqid fd) (bblocks fd) (highlevel_on fd)
             (queryProperties fd) (hasEffect fd) (getCallSpecs fd).

Definition set_obank (f : gmap nat PcodeOp → gmap nat PcodeOp) (fd : Funcdata) : Funcdata :=
  mkFuncdata (vbank fd) (vbank_create_index fd) (vbank_uniqid fd)
             (f (obank fd)) (obank_uniqid fd) (bblocks fd) (highlevel_on fd)
             (queryProperties fd) (hasEffect fd) (getCallSpecs fd).

Definition set_bblocks (f : gmap nat BlockBasic → gmap nat BlockBasic) (fd : Funcdata) : Funcdata :=
  mkFuncdata (vbank fd) (vbank_create_index fd) (vbank_uniqid fd)
             (obank fd) (obank_uniqid fd) (f (bblocks fd)) (highlevel_on fd)
             (queryProperties fd) (hasEffect fd) (getCallSpecs fd).

(** ** The store monad: state passing with exceptions *)

Inductive Error :=
| LowlevelError_NotFree            (* defining a Varnode which is not free *)
| LowlevelError_NoDescend          (* reader-list entry not found *)
| LowlevelError_Overlap            (* "Overlapping input varnodes" *)
| LowlevelError_Halt               (* "Only RETURN pcode ops can be marked as halt" *)
| LowlevelError_BadHalt            (* "Bad halt flag" *)
| Fault                            (* null or dangling pointer, slot out of range *)
| OutOfFuel.                       (* not an exception of the code: a loop or a
                                      recursion of the model used up its fuel *)

#[global] Instance Error_eq_dec : EqDecision Error.
Proof. solve_decision. Defined.

Inductive Res (A : Type) :=
| Ok (a : A) (fd : Funcdata)
| Throw (e : Error).
Arguments Ok {A} a fd.
Arguments Throw {A} e.

Definition M (A : Type) : Type := Funcdata → Res A.

Definition ret {A} (a : A) : M A := fun fd => Ok a fd.
Definition throw {A} (e : Error) : M A := fun _ => Throw e.
Definition bind {A B} (c : M A) (k : A → M B) : M B :=
  fun fd => match c fd with
            | Ok a fd' => k a fd'
            | Throw e => Throw e
            end.

Declare Scope store_scope.
Delimit Scope store_scope with store.
Notation "x <- c ;; k" := (bind c (fun x => k))
  (at level 100, c at next level, right associativity) : store_scope.
Notation "c ;; k" := (bind c (fun _ => k))
  (at level 100, right associativity) : store_scope.
Open Scope store_scope.

Definition get : M Funcdata := fun fd => Ok fd fd.
Definition modify (f : Funcdata → Funcdata) : M unit := fun fd => Ok tt (f fd).

Definition when (b : bool) (c : M unit) : M unit := if b then c else ret tt.

(** Dereferencing a pointer: a dangling index is a fault. *)
Definition getVn (vn : vnptr) : M Varnode :=
  fun fd => match vbank fd !! vn with Some v => Ok v fd | None => Throw Fault end.
Definition getOp (op : opptr) : M PcodeOp :=
  fun fd => match obank fd !! op with Some o => Ok o fd | None => Throw Fault end.
Definition getBlock (bl : blptr) : M BlockBasic :=
  fun fd => match bblocks fd !! bl with Some b => Ok b fd | None => Throw Fault end.

Definition modVn (vn : vnptr) (f : Varnode → Varnode) : M unit :=
  v <- getVn vn ;; modify (set_vbank (insert vn (f v))).
Definition modOp (op : opptr) (f : PcodeOp → PcodeOp) : M unit :=
  o <- getOp op ;; modify (set_obank (insert op (f o))).
Definition modBlock (bl : blptr) (f : BlockBasic → BlockBasic) : M unit :=
  b <- getBlock bl ;; modify (set_bblocks (insert bl (f b))).

Definition set_vbank_create_index (i : nat) (fd : Funcdata) : Funcdata :=
  mkFuncdata (vbank fd) i (vbank_uniqid fd)
             (obank fd) (obank_uniqid fd) (bblocks fd) (highlevel_on fd)
             (queryProperties fd) (hasEffect fd) (getCallSpecs fd).

Definition set_vbank_uniqid (u : Z) (fd : Funcdata) : Funcdata :=
  mkFuncdata (vbank fd) (vbank_create_index fd) u
             (obank fd) (obank_uniqid fd) (bblocks fd) (highlevel_on fd)
             (queryProperties fd) (hasEffect fd) (getCallSpecs fd).

Definition set_obank_uniqid (u : nat) (fd : Funcdata) : Funcdata :=
  mkFuncdata (vbank fd) (vbank_create_index fd) (vbank_uniqid fd)
             (obank fd) u (bblocks fd) (highlevel_on fd)
             (queryProperties fd) (hasEffect fd) (getCallSpecs fd).

(** ** Varnode: queries and member functions

    [varnode.hh] and [varnode.cc] are not among the sources at hand; the
    members used by [Funcdata] are modelled from the data model of the
    specification. *)

Definition vn_setFlags (fl : gset VnFlag) (v : Varnode) : Varnode :=
  mkVarnode (getSize v) (vn_loc v) (vn_flags v ∪ fl) (getDef v) (descend v)
            (vn_cover v) (vn_high v) (mapentry v).
Definition vn_clearFlags (fl : gset VnFlag) (v : Varnode) : Varnode :=
  mkVarnode (getSize v) (vn_loc v) (vn_flags v ∖ fl) (getDef v) (descend v)
            (vn_cover v) (vn_high v) (mapentry v).
Definition vn_setDef (d : option opptr) (v : Varnode) : Varnode :=
  mkVarnode (getSize v) (vn_loc v) (vn_flags v) d (descend v)
            (vn_cover v) (vn_high v) (mapentry v).
Definition vn_setDescend (l : list opptr) (v : Varnode) : Varnode :=
  mkVarnode (getSize v) (vn_loc v) (vn_flags v) (getDef v) l
            (vn_cover v) (vn_high v) (mapentry v).
Definition vn_setCover (c : bool) (v : Varnode) : Varnode :=
  mkVarnode (getSize v) (vn_loc v) (vn_flags v) (getDef v) (descend v)
            c (vn_high v) (mapentry v).
Definition vn_setHigh (h : bool) (v : Varnode) : Varnode :=
  mkVarnode (getSize v) (vn_loc v) (vn_flags v) (getDef v) (descend v)
            (vn_cover v) h (mapentry v).
Definition vn_setMapentry (e : option nat) (v : Varnode) : Varnode :=
  mkVarnode (getSize v) (vn_loc v) (vn_flags v) (getDef v) (descend v)
            (vn_cover v) (vn_high v) e.

Definition vn_hasFlag (f : VnFlag) (v : Varnode) : bool :=
  bool_decide (f ∈ vn_flags v).

(** Modelled from the spec: [Varnode::isConstant] is not in the sources;
    "constants are variables in a distinguished constant space whose
    offset is the constant value". *)
Definition isConstant (v : Varnode) : bool :=
  bool_decide (getType (getSpace (vn_loc v)) = IPTR_CONSTANT).

(** Modelled from the spec: a variable has "a pointer to its defining
    operation (absent => input/free)"; it is written when that pointer is
    set, free when it is neither written nor an input. *)
Definition isWritten (v : Varnode) : bool := bool_decide (is_Some (getDef v)).
Definition isInput (v : Varnode) : bool := vn_hasFlag Varnode_input v.
Definition isFree (v : Varnode) : bool := negb (isWritten v) && negb (isInput v).

Definition isSpacebase (v : Varnode) : bool := vn_hasFlag Varnode_spacebase v.
Definition isMark (v : Varnode) : bool := vn_hasFlag Varnode_mark v.
Definition isAnnotation (v : Varnode) : bool := vn_hasFlag Varnode_annotation v.
Definition isMapped (v : Varnode) : bool := vn_hasFlag Varnode_mapped v.
Definition isTypeLock (v : Varnode) : bool := vn_hasFlag Varnode_typelock v.
Definition isPersist (v : Varnode) : bool := vn_hasFlag Varnode_persist v.
Definition isAddrForce (v : Varnode) : bool := vn_hasFlag Varnode_addrforce v.
Definition isUnaffected (v : Varnode) : bool := vn_hasFlag Varnode_unaffected v.
Definition isDirectWrite (v : Varnode) : bool := vn_hasFlag Varnode_directwrite v.
Definition isReturnAddress (v : Varnode) : bool := vn_hasFlag Varnode_return_address v.
Definition isIncidentalCopy (v : Varnode) : bool := vn_hasFlag Varnode_incidental_copy v.
Definition isIndirectZero (v : Varnode) : bool :=
  vn_hasFlag Varnode_indirect_creation v && isConstant v.

Definition hasNoDescend (v : Varnode) : bool :=
  match descend v with [] => true | _ => false end.

(** The offset of the storage location; for a constant, its value. *)
Definition vn_getOffset (v : Varnode) : Z := getOffset (vn_loc v).

(** Modelled from the spec: [Varnode::hasCover] is not in the sources; a
    cover is kept for variables that take part in data-flow (written or
    input), not for constants and annotations. *)
Definition hasCover (v : Varnode) : bool :=
  negb (isFree v) && negb (isConstant v) && negb (isAnnotation v).

(** Modelled from the spec: [Varnode::calcCover] allocates a (fresh) cover
    for a variable that can have one. *)
Definition vn_calcCover (v : Varnode) : Varnode :=
  if hasCover v then vn_setCover true v else v.

(** Modelled from the spec: [Varnode::addDescend] appends the reader to
    the "insertion-ordered list of reading operations". *)
Definition Varnode_addDescend (vn : vnptr) (op : opptr) : M unit :=
  modVn vn (fun v => vn_setDescend (descend v ++ [op]) v).

Fixpoint erase_first (op : opptr) (l : list opptr) : option (list opptr) :=
  match l with
  | [] => None
  | x :: l' => if decide (x = op) then Some l'
               else match erase_first op l' with
                    | Some r => Some (x :: r)
                    | None => None
                    end
  end.

(** Modelled from the spec: [Varnode::eraseDescend] removes one entry of
    the reader list; the store "fails with invariant-violation when a
    reader-list entry cannot be found on unset". *)
Definition Varnode_eraseDescend (vn : vnptr) (op : opptr) : M unit :=
  v <- getVn vn ;;
  match erase_first op (descend v) with
  | Some l => modVn vn (vn_setDescend l)
  | None => throw LowlevelError_NoDescend
  end.

(** Modelled from the spec: [Varnode::clearCover] drops the cover. *)
Definition Varnode_clearCover (vn : vnptr) : M unit :=
  modVn vn (vn_setCover false).

(** Modelled from the spec: [Varnode::copySymbol] takes over the "optional
    symbol binding" of another variable together with its lock bits. *)
Definition Varnode_copySymbol (vn : vnptr) (fromVn : vnptr) : M unit :=
  f <- getVn fromVn ;;
  modVn vn (fun v =>
    vn_setFlags (vn_flags f ∩ {[Varnode_typelock; Varnode_namelock]})
      (vn_clearFlags {[Varnode_typelock; Varnode_namelock]}
         (vn_setMapentry (mapentry f) v))).

(** ** PcodeOp: queries and member functions ([op.hh] is not among the
    sources; modelled from the data model of the specification) *)

Definition op_setCode (c : OpCode) (o : PcodeOp) : PcodeOp :=
  mkPcodeOp c (op_flags o) (getOut o) (inrefs o) (getParent o) (getSeqNum o).
Definition op_setFlags (fl : gset OpFlag) (o : PcodeOp) : PcodeOp :=
  mkPcodeOp (code o) (op_flags o ∪ fl) (getOut o) (inrefs o) (getParent o) (getSeqNum o).
Definition op_clearFlags (fl : gset OpFlag) (o : PcodeOp) : PcodeOp :=
  mkPcodeOp (code o) (op_flags o ∖ fl) (getOut o) (inrefs o) (getParent o) (getSeqNum o).
Definition op_setOut (v : option vnptr) (o : PcodeOp) : PcodeOp :=
  mkPcodeOp (code o) (op_flags o) v (inrefs o) (getParent o) (getSeqNum o).
Definition op_setInrefs (l : list (option vnptr)) (o : PcodeOp) : PcodeOp :=
  mkPcodeOp (code o) (op_flags o) (getOut o) l (getParent o) (getSeqNum o).
Definition op_setParent (b : option blptr) (o : PcodeOp) : PcodeOp :=
  mkPcodeOp (code o) (op_flags o) (getOut o) (inrefs o) b (getSeqNum o).

Definition numInput (o : PcodeOp) : nat := length (inrefs o).

Definition op_hasFlag (f : OpFlag) (o : PcodeOp) : bool :=
  bool_decide (f ∈ op_flags o).

Definition isDead (o : PcodeOp) : bool := op_hasFlag PcodeOp_dead o.
Definition isIndirectCreation (o : PcodeOp) : bool :=
  op_hasFlag PcodeOp_indirect_creation o.

(** Modelled from the spec: the op-code determined properties of an op
    ([marker], [branch], [returns], [call] bits, installed by
    [PcodeOpBank::changeOpcode] from the op-code's behaviour) are read off
    the op-code. Phi-operations (MULTIEQUAL) and guard operations
    (INDIRECT) are the markers; a flow break is a branch or a return. *)
Definition opc_isMarker (c : OpCode) : bool :=
  match c with CPUI_MULTIEQUAL | CPUI_INDIRECT => true | _ => false end.
Definition opc_isFlowBreak (c : OpCode) : bool :=
  match c with
  | CPUI_BRANCH | CPUI_CBRANCH | CPUI_BRANCHIND | CPUI_RETURN => true
  | _ => false
  end.
Definition opc_isCall (c : OpCode) : bool :=
  match c with CPUI_CALL | CPUI_CALLIND => true | _ => false end.

Definition isMarker (o : PcodeOp) : bool := opc_isMarker (code o).
Definition isFlowBreak (o : PcodeOp) : bool := opc_isFlowBreak (code o).
Definition isCall (o : PcodeOp) : bool := opc_isCall (code o).

(** [op->getIn(slot)]: the content of an input slot ([None]: null). *)
Definition getIn (op : opptr) (slot : nat) : M (option vnptr) :=
  o <- getOp op ;;
  match inrefs o !! slot with
  | Some r => ret r
  | None => throw Fault
  end.

(** [op->getIn(slot)] where the result is dereferenced at once. *)
Definition getInVn (op : opptr) (slot : nat) : M vnptr :=
  r <- getIn op slot ;;
  match r with Some vn => ret vn | None => throw Fault end.

(** [op->setInput(vn,slot)] and [op->clearInput(slot)]: plain stores into
    the slot vector. *)
Definition PcodeOp_setInput (op : opptr) (vn : option vnptr) (slot : nat) : M unit :=
  o <- getOp op ;;
  if decide (slot < numInput o)%nat
  then modOp op (op_setInrefs (<[slot := vn]> (inrefs o)))
  else throw Fault.
Definition PcodeOp_clearInput (op : opptr) (slot : nat) : M unit :=
  PcodeOp_setInput op None slot.

Definition PcodeOp_setOutput (op : opptr) (vn : option vnptr) : M unit :=
  modOp op (op_setOut vn).

Definition PcodeOp_setFlag (op : opptr) (fl : gset OpFlag) : M unit :=
  modOp op (op_setFlags fl).

(** [op->removeInput(slot)], [op->insertInput(slot)], [op->setNumInputs(n)]:
    the slot vector shrinks, grows by a null slot, or is reset to [n] null
    slots. *)
Definition PcodeOp_removeInput (op : opptr) (slot : nat) : M unit :=
  modOp op (fun o => op_setInrefs (take slot (inrefs o) ++ drop (S slot) (inrefs o)) o).
Definition PcodeOp_insertInput (op : opptr) (slot : nat) : M unit :=
  modOp op (fun o => op_setInrefs (take slot (inrefs o) ++ None :: drop slot (inrefs o)) o).
Definition PcodeOp_setNumInputs (op : opptr) (n : nat) : M unit :=
  modOp op (op_setInrefs (replicate n None)).

Fixpoint find_slot (vn : vnptr) (l : list (option vnptr)) (i : nat) : nat :=
  match l with
  | [] => i
  | r :: l' => if decide (r = Some vn) then i else find_slot vn l' (S i)
  end.

(** [op->getSlot(vn)]: the first slot holding [vn]. *)
Definition getSlot (o : PcodeOp) (vn : vnptr) : nat := find_slot vn (inrefs o) 0.

(** ** The banks and the basic blocks

    [VarnodeBank], [PcodeOpBank] and [BlockBasic] live in sources that are
    not at hand; their members are modelled from the specification of the
    IR store (factories, lifecycle, invariant violations). *)

(** The constant and the unique address space of the architecture
    ([glb->getConstantSpace()], [glb->getUniqueSpace()]). *)
Definition constant_space : AddrSpace := mkAddrSpace IPTR_CONSTANT 0.
Definition unique_space : AddrSpace := mkAddrSpace IPTR_INTERNAL 1.

(** [glb->getConstant(val)]: the address of a constant value. *)
Definition getConstant (val : Z) : Address := mkAddress constant_space val.

(** Modelled from the spec: [VarnodeBank::create] makes a new free
    variable and "assigns a strictly increasing creation index". *)
Definition VarnodeBank_create (s : Z) (m : Address) : M vnptr :=
  fd <- get ;;
  let i := vbank_create_index fd in
  modify (fun fd => set_vbank_create_index (S i)
            (set_vbank (insert i (mkVarnode s m ∅ None [] false false None)) fd)) ;;
  ret i.

(** Modelled from the spec: [VarnodeBank::createUnique] makes a
    unique-space temporary at the next unused offset of that space. *)
Definition VarnodeBank_createUnique (s : Z) : M vnptr :=
  fd <- get ;;
  let u := vbank_uniqid fd in
  modify (set_vbank_uniqid (u + s)) ;;
  VarnodeBank_create s (mkAddress unique_space u).

(** Modelled from the spec: [VarnodeBank::createDef] is the atomic
    "create output-of-op": the new variable is bound to its definer. *)
Definition VarnodeBank_createDef (s : Z) (m : Address) (op : opptr) : M vnptr :=
  vn <- VarnodeBank_create s m ;;
  modVn vn (vn_setDef (Some op)) ;;
  ret vn.

Definition VarnodeBank_createDefUnique (s : Z) (op : opptr) : M vnptr :=
  vn <- VarnodeBank_createUnique s ;;
  modVn vn (vn_setDef (Some op)) ;;
  ret vn.

(** Modelled from the spec: [VarnodeBank::makeFree] "makes the output free
    but does not destroy it": no definer, not an input. *)
Definition VarnodeBank_makeFree (vn : vnptr) : M unit :=
  modVn vn (fun v =>
    vn_clearFlags {[Varnode_input; Varnode_indirect_creation]} (vn_setDef None v)).

(** Modelled from the spec: [VarnodeBank::setDef] binds a free variable to
    its definer; the store "fails with invariant-violation when an output
    variable is assigned while already bound". *)
Definition VarnodeBank_setDef (vn : vnptr) (op : opptr) : M vnptr :=
  v <- getVn vn ;;
  if isFree v
  then modVn vn (vn_setDef (Some op)) ;; ret vn
  else throw LowlevelError_NotFree.

(** Modelled from the spec: [VarnodeBank::setInput] marks the variable as
    an input of the function. *)
Definition VarnodeBank_setInput (vn : vnptr) : M vnptr :=
  modVn vn (vn_setFlags {[Varnode_input]}) ;; ret vn.

(** Modelled from the spec: [PcodeOpBank::create]: "operations are created
    detached", on the dead list, with [inputs] empty slots. *)
Definition PcodeOpBank_create (inputs : nat) (pc : Address) : M opptr :=
  fd <- get ;;
  let i := obank_uniqid fd in
  modify (fun fd => set_obank_uniqid (S i)
            (set_obank (insert i (mkPcodeOp CPUI_COPY {[PcodeOp_dead]} None
                                    (replicate inputs None) None
                                    (mkSeqNum pc i 0))) fd)) ;;
  ret i.

(** The same with a given sequence number (used for cloning). *)
Definition PcodeOpBank_create_seq (inputs : nat) (sq : SeqNum) : M opptr :=
  fd <- get ;;
  let i := obank_uniqid fd in
  modify (fun fd => set_obank_uniqid (S (i `max` getTime sq))
            (set_obank (insert i (mkPcodeOp CPUI_COPY {[PcodeOp_dead]} None
                                    (replicate inputs None) None sq)) fd)) ;;
  ret i.

(** Modelled from the spec: [PcodeOpBank::changeOpcode] sets the op-code
    (and with it the op-code determined properties). *)
Definition PcodeOpBank_changeOpcode (op : opptr) (opc : OpCode) : M unit :=
  modOp op (op_setCode opc).

(** Modelled from the spec: "operations live in one of two linked lists:
    alive or dead; movement between lists is explicit". *)
Definition PcodeOpBank_markAlive (op : opptr) : M unit :=
  modOp op (op_clearFlags {[PcodeOp_dead]}).
Definition PcodeOpBank_markDead (op : opptr) : M unit :=
  modOp op (op_setFlags {[PcodeOp_dead]}).

(** A [std::list] iterator into the ops of a block is the position it
    points at; [endOp()] is the length of the list. *)
Definition list_insert_at {A} (i : nat) (x : A) (l : list A) : list A :=
  take i l ++ x :: drop i l.

(** Modelled from the spec: [BlockBasic::insert] puts the op immediately
    before the iterator and records the owning block in the op. *)
Definition BlockBasic_insert (bl : blptr) (iter : nat) (op : opptr) : M unit :=
  modOp op (op_setParent (Some bl)) ;;
  modBlock bl (fun b =>
    mkBlockBasic (list_insert_at iter op (bl_op b)) (bl_intothis b)
                 (bl_outofthis b) (getStart b) (bl_isDead b)).

Fixpoint index_of (op : opptr) (l : list opptr) (i : nat) : option nat :=
  match l with
  | [] => None
  | x :: l' => if decide (x = op) then Some i else index_of op l' (S i)
  end.

(** [op->getBasicIter()]: the position of an inserted op in its block. *)
Definition getBasicIter (op : opptr) : M (blptr * nat) :=
  o <- getOp op ;;
  match getParent o with
  | None => throw Fault
  | Some bl =>
      b <- getBlock bl ;;
      match index_of op (bl_op b) 0 with
      | Some i => ret (bl, i)
      | None => throw Fault
      end
  end.

(** ** Funcdata members pertaining directly to varnodes: factories *)

Definition assignHigh (vn : vnptr) : M unit :=
  fd <- get ;;
  if highlevel_on fd then
    v <- getVn vn ;;
    when (hasCover v) (modVn vn vn_calcCover) ;;
    when (negb (isAnnotation v)) (modVn vn (vn_setHigh true))
  else ret tt.

(** [entry->updateType(vn)] forces the data-type of a locked symbol (and
    sets the type lock); data-types themselves are not tracked. *)
Definition SymbolEntry_updateType (entry : SymbolEntry) (v : Varnode) : Varnode :=
  if entry_isTypeLocked entry then vn_setFlags {[Varnode_typelock]} v else v.

Definition setVarnodeProperties (vn : vnptr) : M unit :=
  fd <- get ;;
  v <- getVn vn ;;
  when (negb (isMapped v))
    (let '(entry, vflags) := queryProperties fd (vn_loc v) (getSize v) in
     match entry with
     | Some e =>
         modVn vn (SymbolEntry_updateType e) ;;
         when (entry_isTypeLocked e) (modVn vn (vn_setMapentry (Some (entry_id e))))
     | None => ret tt
     end ;;
     modVn vn (vn_setFlags (vflags ∖ {[Varnode_typelock]}))) ;;
  v <- getVn vn ;;
  when (negb (vn_cover v)) (when (highlevel_on fd) (modVn vn vn_calcCover)).

Definition newConstant (s : Z) (constant_val : Z) : M vnptr :=
  vn <- VarnodeBank_create s (getConstant constant_val) ;;
  assignHigh vn ;;
  ret vn.

Definition newUnique (s : Z) : M vnptr :=
  vn <- VarnodeBank_createUnique s ;;
  assignHigh vn ;;
  ret vn.

Definition newUniqueOut (s : Z) (op : opptr) : M vnptr :=
  vn <- VarnodeBank_createDefUnique s op ;;
  PcodeOp_setOutput op (Some vn) ;;
  assignHigh vn ;;
  ret vn.

(** The property bits that survive cloning a Varnode. *)
Definition cloneVarnode_mask : gset VnFlag :=
  {[ Varnode_annotation; Varnode_externref; Varnode_readonly; Varnode_persist;
     Varnode_addrtied; Varnode_addrforce; Varnode_auto_live;
     Varnode_indirect_creation; Varnode_incidental_copy;
     Varnode_volatil; Varnode_mapped ]}.

(** [cloneVarnode] takes the Varnode to copy by value: the source of a
    clone may belong to another Funcdata. *)
Definition cloneVarnode (v : Varnode) : M vnptr :=
  newvn <- VarnodeBank_create (getSize v) (vn_loc v) ;;
  let vflags := vn_flags v ∩ cloneVarnode_mask in
  modVn newvn (vn_setFlags vflags) ;;
  ret newvn.

(** ** Funcdata members pertaining directly to ops: linkage edits *)

Definition opSetOpcode (op : opptr) (opc : OpCode) : M unit :=
  PcodeOpBank_changeOpcode op opc.

Definition opSetFlag (op : opptr) (fl : gset OpFlag) : M unit :=
  PcodeOp_setFlag op fl.

Definition opMarkHalt (op : opptr) (flag : gset OpFlag) : M unit :=
  o <- getOp op ;;
  if decide (code o ≠ CPUI_RETURN) then throw LowlevelError_Halt else
  let flag := flag ∩ {[PcodeOp_halt; PcodeOp_badinstruction;
                       PcodeOp_unimplemented; PcodeOp_noreturn;
                       PcodeOp_missing]} in
  if decide (flag = ∅) then throw LowlevelError_BadHalt else
  PcodeOp_setFlag op flag.

Definition opUnsetOutput (op : opptr) : M unit :=
  o <- getOp op ;;
  match getOut o with
  | None => ret tt                       (* Nothing to do *)
  | Some vn =>
      PcodeOp_setOutput op None ;;       (* This must come before make_free *)
      VarnodeBank_makeFree vn ;;
      Varnode_clearCover vn
  end.

Definition opSetOutput (op : opptr) (vn : vnptr) : M unit :=
  o <- getOp op ;;
  if decide (Some vn = getOut o) then ret tt   (* Already set to this vn *)
  else
    when (bool_decide (getOut o ≠ None)) (opUnsetOutput op) ;;
    v <- getVn vn ;;
    match getDef v with                  (* If this varnode is already an output *)
    | Some d => opUnsetOutput d
    | None => ret tt
    end ;;
    vn <- VarnodeBank_setDef vn op ;;
    setVarnodeProperties vn ;;
    PcodeOp_setOutput op (Some vn).

Definition opUnsetInput (op : opptr) (slot : nat) : M unit :=
  vn <- getInVn op slot ;;
  Varnode_eraseDescend vn op ;;
  PcodeOp_clearInput op slot.            (* Must be called AFTER descend_erase *)

Definition opSetInput (op : opptr) (vn : vnptr) (slot : nat) : M unit :=
  cur <- getIn op slot ;;
  if decide (Some vn = cur) then ret tt        (* Already set to this vn *)
  else
    v <- getVn vn ;;
    vn <- (if isConstant v && negb (hasNoDescend v) && negb (isSpacebase v)
           then (* Constants should have only one descendant,
                   unless they are a spacebase *)
             cvn <- newConstant (getSize v) (vn_getOffset v) ;;
             Varnode_copySymbol cvn vn ;;
             ret cvn
           else ret vn) ;;
    when (bool_decide (cur ≠ None)) (opUnsetInput op slot) ;;
    Varnode_addDescend vn op ;;          (* Add this op to list of vn's descendants *)
    PcodeOp_setInput op (Some vn) slot.  (* op must be up to date AFTER calling descend_add *)

Definition opSwapInput (op : opptr) (slot1 slot2 : nat) : M unit :=
  tmp <- getIn op slot1 ;;
  in2 <- getIn op slot2 ;;
  PcodeOp_setInput op in2 slot1 ;;
  PcodeOp_setInput op tmp slot2.

Definition opRemoveInput (op : opptr) (slot : nat) : M unit :=
  opUnsetInput op slot ;;
  PcodeOp_removeInput op slot.

Definition opInsertInput (op : opptr) (vn : vnptr) (slot : nat) : M unit :=
  PcodeOp_insertInput op slot ;;
  opSetInput op vn slot.

Definition newOp (inputs : nat) (pc : Address) : M opptr :=
  PcodeOpBank_create inputs pc.

Definition newOp_seq (inputs : nat) (sq : SeqNum) : M opptr :=
  PcodeOpBank_create_seq inputs sq.

(** ** Insertion of ops into basic blocks *)

Definition opInsert (op : opptr) (bl : blptr) (iter : nat) : M unit :=
  PcodeOpBank_markAlive op ;;
  BlockBasic_insert bl iter op.

(** The number of ops at the head of [l] whose op-code satisfies [p]:
    how far an iterator advances while the ops it meets satisfy [p]. *)
Fixpoint count_while (p : OpCode → bool) (l : list opptr) : M nat :=
  match l with
  | [] => ret 0%nat
  | x :: l' =>
      o <- getOp x ;;
      if p (code o) then n <- count_while p l' ;; ret (S n) else ret 0%nat
  end.

Definition is_code (c : OpCode) : OpCode → bool := fun c' => bool_decide (c' = c).

Definition opInsertBefore (op : opptr) (follow : opptr) : M unit :=
  pi <- getBasicIter follow ;;
  let '(parent, iter) := pi in
  b <- getBlock parent ;;
  o <- getOp op ;;
  iter <- (if decide (code o ≠ CPUI_INDIRECT)
           then (* There should not be an INDIRECT immediately preceding op *)
             n <- count_while (is_code CPUI_INDIRECT) (reverse (take iter (bl_op b))) ;;
             ret (iter - n)%nat
           else ret iter) ;;
  opInsert op parent iter.

(** [PcodeOp::getOpFromConst]: the op a Varnode of the iop space encodes. *)
Definition getOpFromConst (a : Address) : opptr := Z.to_nat (getOffset a).

Definition opInsertAfter (op : opptr) (prev : opptr) : M unit :=
  p <- getOp prev ;;
  prev <- (if isMarker p && bool_decide (code p = CPUI_INDIRECT)
           then invn <- getInVn prev 1 ;;
                iv <- getVn invn ;;
                if decide (getType (getSpace (vn_loc iv)) = IPTR_IOP)
                then ret (getOpFromConst (vn_loc iv))   (* Store or call *)
                else ret prev
           else ret prev) ;;
  pi <- getBasicIter prev ;;
  let '(parent, iter) := pi in
  b <- getBlock parent ;;
  let iter := S iter in
  o <- getOp op ;;
  iter <- (if decide (code o ≠ CPUI_MULTIEQUAL)
           then (* There should not be a MULTIEQUAL immediately after op *)
             n <- count_while (is_code CPUI_MULTIEQUAL) (drop iter (bl_op b)) ;;
             ret (iter + n)%nat
           else ret iter) ;;
  opInsert op parent iter.

Definition opInsertBegin (op : opptr) (bl : blptr) : M unit :=
  b <- getBlock bl ;;
  o <- getOp op ;;
  iter <- (if decide (code o ≠ CPUI_MULTIEQUAL)
           then count_while (is_code CPUI_MULTIEQUAL) (bl_op b)
           else ret 0%nat) ;;
  opInsert op bl iter.

Definition opInsertEnd (op : opptr) (bl : blptr) : M unit :=
  b <- getBlock bl ;;
  let iter := length (bl_op b) in
  iter <- (match last (bl_op b) with
           | Some l =>                   (* iter != bl->beginOp() *)
               lo <- getOp l ;;
               if isFlowBreak lo then ret (iter - 1)%nat else ret iter
           | None => ret iter
           end) ;;
  opInsert op bl iter.

(** Monadic iteration over a list, threading an accumulator. *)
Fixpoint foldM {A B} (f : B → A → M B) (l : list A) (b : B) : M B :=
  match l with
  | [] => ret b
  | x :: l' => b' <- f b x ;; foldM f l' b'
  end.

Definition forM_ {A} (l : list A) (f : A → M unit) : M unit :=
  foldM (fun _ x => f x) l tt.

Definition cloneOp (op : opptr) (seq : SeqNum) : M opptr :=
  o <- getOp op ;;
  newop <- newOp_seq (numInput o) seq ;;
  opSetOpcode newop (code o) ;;
  let flags := op_flags o ∩ {[PcodeOp_startmark; PcodeOp_startbasic]} in
  opSetFlag newop flags ;;
  match getOut o with
  | Some out => v <- getVn out ;; c <- cloneVarnode v ;; opSetOutput newop c
  | None => ret tt
  end ;;
  forM_ (List.seq 0 (numInput o)) (fun i =>
    vn <- getInVn op i ;;
    v <- getVn vn ;;
    c <- cloneVarnode v ;;
    opSetInput newop c i) ;;
  ret newop.

(** ** Input Varnodes *)

(** Modelled from the spec: the order of [Address] (by address space, then
    by offset) and [Address + size]; [address.hh] is not among the
    sources. Offsets are plain integers. *)
Definition Address_lt (a b : Address) : bool :=
  (getIndex (getSpace a) <? getIndex (getSpace b))%nat
  || ((getIndex (getSpace a) =? getIndex (getSpace b))%nat
      && (getOffset a <? getOffset b)).

Definition Address_add (a : Address) (off : Z) : Address :=
  mkAddress (getSpace a) (getOffset a + off).

(** Modelled from the spec: [Varnode::overlap] is not among the sources.
    [Varnode_overlap a b] is the position of the first byte of [a] within
    the storage of [b], or [-1] when that byte is not in [b]. *)
Definition Varnode_overlap (a b : Varnode) : Z :=
  if decide (getSpace (vn_loc a) = getSpace (vn_loc b)) then
    let dist := vn_getOffset a - vn_getOffset b in
    if (0 <=? dist) && (dist <? getSize b) then dist else -1
  else -1.

(** Modelled from the spec: the definition-ordered index of the bank
    ("by (definition-address, storage)"), in which the inputs, having no
    definition address, come first, ordered by storage address and size.
    [beginDef(Varnode::input,addr)] is the first entry at or after
    [addr] in the input section; stepping the iterator back from there
    yields the greatest input Varnode whose address is below [addr], and
    is impossible ([iter == beginDef()]) when there is none. *)
Definition defloc_le (a b : Varnode) : bool :=
  Address_lt (vn_loc a) (vn_loc b)
  || (negb (Address_lt (vn_loc b) (vn_loc a)) && (getSize a <=? getSize b)).

Definition def_pick (addr : Address) (best : option (vnptr * Varnode))
    (cand : vnptr * Varnode) : option (vnptr * Varnode) :=
  if isInput cand.2 && Address_lt (vn_loc cand.2) addr then
    match best with
    | None => Some cand
    | Some b => if defloc_le b.2 cand.2 then Some cand else Some b
    end
  else best.

Definition VarnodeBank_prevInputDef (fd : Funcdata) (addr : Address)
  : option (vnptr * Varnode) :=
  foldl (def_pick addr) None (map_to_list (vbank fd)).

Definition setInputVarnode (vn : vnptr) : M vnptr :=
  v <- getVn vn ;;
  if isInput v then ret vn                 (* Already an input *)
  else
    fd <- get ;;
    (* First we check if it overlaps any other varnode *)
    let check :=
      match VarnodeBank_prevInputDef fd (Address_add (vn_loc v) (getSize v)) with
      | Some (invn, iv) =>                 (* comes before vn or intersects *)
          if isInput iv
             && (negb (Varnode_overlap v iv =? -1) || negb (Varnode_overlap iv v =? -1))
          then
            if (getSize v =? getSize iv) && bool_decide (vn_loc v = vn_loc iv)
            then inl (Some invn)
            else inr LowlevelError_Overlap
          else inl None
      | None => inl None
      end in
    match check with
    | inr e => throw e
    | inl (Some invn) => ret invn
    | inl None =>
        vn <- VarnodeBank_setInput vn ;;
        setVarnodeProperties vn ;;
        v <- getVn vn ;;
        let effecttype := hasEffect fd (vn_loc v) (getSize v) in
        when (bool_decide (effecttype = unaffected))
          (modVn vn (vn_setFlags {[Varnode_unaffected]})) ;;
        when (bool_decide (effecttype = return_address))
          (modVn vn (vn_setFlags {[Varnode_unaffected]}) ;;
           modVn vn (vn_setFlags {[Varnode_return_address]})) ;;
        ret vn
    end.

(** ** Replacing the reads of a Varnode *)

Definition totalReplace (vn : vnptr) (newvn : vnptr) : M unit :=
  v <- getVn vn ;;
  forM_ (descend v) (fun op =>
    o <- getOp op ;;
    let i := getSlot o vn in
    opSetInput op newvn i).

(** [bl->getIn(i)]: the block at the other end of the [i]-th in-edge. *)
Definition BlockBasic_getIn (bl : blptr) (i : nat) : M blptr :=
  b <- getBlock bl ;;
  match bl_intothis b !! i with
  | Some inbl => ret inbl
  | None => throw Fault
  end.

Definition sizeIn (b : BlockBasic) : nat := length (bl_intothis b).
Definition sizeOut (b : BlockBasic) : nat := length (bl_outofthis b).

(** The parent block of an op that is assumed to be inserted. *)
Definition getParentBlock (o : PcodeOp) : M blptr :=
  match getParent o with Some bl => ret bl | None => throw Fault end.

(** The body of the loop of [descend2Undef], for one reading op. *)
Definition descend2Undef_read (vn : vnptr) (size : Z) (res : bool) (op : opptr)
  : M bool :=
  o <- getOp op ;;
  parent <- getParentBlock o ;;
  pb <- getBlock parent ;;
  if bl_isDead pb then ret res
  else
    let res := if decide (sizeIn pb ≠ 0%nat) then true else res in
    let i := getSlot o vn in
    badconst <- newConstant size 0xBADDEF ;;
    (if decide (code o = CPUI_MULTIEQUAL) then
       (* Cannot put constant directly into MULTIEQUAL *)
       inbl <- BlockBasic_getIn parent i ;;
       ib <- getBlock inbl ;;
       copyop <- newOp 1 (getStart ib) ;;
       inputvn <- newUniqueOut size copyop ;;
       opSetOpcode copyop CPUI_COPY ;;
       opSetInput copyop badconst 0 ;;
       opInsertEnd copyop inbl ;;
       opSetInput op inputvn i
     else if decide (code o = CPUI_INDIRECT) then
       (* Cannot put constant directly into INDIRECT *)
       copyop <- newOp 1 (getAddr (getSeqNum o)) ;;
       inputvn <- newUniqueOut size copyop ;;
       opSetOpcode copyop CPUI_COPY ;;
       opSetInput copyop badconst 0 ;;
       opInsertBefore copyop op ;;
       opSetInput op inputvn i
     else
       opSetInput op badconst i) ;;
    ret res.

Definition descend2Undef (vn : vnptr) : M bool :=
  v <- getVn vn ;;
  let size := getSize v in
  foldM (descend2Undef_read vn size) (descend v) false.

(** The body of the loop of [totalReplaceConstant], for one reading op;
    [copyop] is the COPY shared by the marker reads, once it exists. *)
Definition totalReplaceConstant_read (vn : vnptr) (val : Z)
    (copyop : option opptr) (op : opptr) : M (option opptr) :=
  o <- getOp op ;;
  let i := getSlot o vn in
  r <- (if isMarker o then               (* Do not put constant directly in marker *)
          match copyop with
          | None =>
              v <- getVn vn ;;
              match getDef v with
              | Some def =>              (* vn->isWritten() *)
                  d <- getOp def ;;
                  copyop <- newOp 1 (getAddr (getSeqNum d)) ;;
                  opSetOpcode copyop CPUI_COPY ;;
                  newrep <- newUniqueOut (getSize v) copyop ;;
                  c <- newConstant (getSize v) val ;;
                  opSetInput copyop c 0 ;;
                  opInsertAfter copyop def ;;
                  ret (Some copyop, newrep)
              | None =>
                  bb <- getBlock 0%nat ;;
                  copyop <- newOp 1 (getStart bb) ;;
                  opSetOpcode copyop CPUI_COPY ;;
                  newrep <- newUniqueOut (getSize v) copyop ;;
                  c <- newConstant (getSize v) val ;;
                  opSetInput copyop c 0 ;;
                  opInsertBegin copyop 0%nat ;;
                  ret (Some copyop, newrep)
              end
          | Some c =>
              co <- getOp c ;;
              match getOut co with
              | Some newrep => ret (copyop, newrep)
              | None => throw Fault
              end
          end
        else
          v <- getVn vn ;;
          newrep <- newConstant (getSize v) val ;;
          ret (copyop, newrep)) ;;
  opSetInput op r.2 i ;;
  ret r.1.

Definition totalReplaceConstant (vn : vnptr) (val : Z) : M unit :=
  v <- getVn vn ;;
  foldM (totalReplaceConstant_read vn val) (descend v) None ;;
  ret tt.

(** ** Less-equal normalization *)

(** [intb] is a signed 64-bit integer, [uintb] an unsigned one. *)
Definition intb_wrap (z : Z) : Z := (z + 2^63) mod 2^64 - 2^63.
Definition uintb_wrap (z : Z) : Z := z mod 2^64.

(** Modelled from the spec: [sign_extend(val,bit)] and [calc_mask(size)]
    come from [address.hh], which is not among the sources. The first
    treats bit [bit] of [val] as its sign and copies it into all higher
    bits; the second is the mask of the low [size] bytes of a [uintb]. *)
Definition sign_extend (val : Z) (bit : Z) : Z :=
  let mask := intb_wrap (Z.shiftl (-1) bit) in
  if Z.testbit val bit then intb_wrap (Z.lor val mask)
  else intb_wrap (Z.land val (Z.lnot mask)).

Definition calc_mask (size : Z) : Z :=
  if size <? 8 then 2 ^ (8 * size) - 1 else 2^64 - 1.

Definition replaceLessequal (op : opptr) : M bool :=
  o <- getOp op ;;
  vn0 <- getInVn op 0 ;;
  v0 <- getVn vn0 ;;
  sel <- (if isConstant v0 then ret (Some (vn0, -1, 0%nat))
          else
            vn1 <- getInVn op 1 ;;
            v1 <- getVn vn1 ;;
            if isConstant v1 then ret (Some (vn1, 1, 1%nat))
            else ret None) ;;
  match sel with
  | None => ret false
  | Some (vn, diff, i) =>
      v <- getVn vn ;;
      let val := intb_wrap (vn_getOffset v) in       (* Treat this as signed value *)
      let val := sign_extend val (8 * getSize v - 1) in
      let finish :=
        let res := Z.land (uintb_wrap (intb_wrap (val + diff))) (calc_mask (getSize v)) in
        newvn <- newConstant (getSize v) res ;;
        Varnode_copySymbol newvn vn ;;     (* Preserve data-type (and any Symbol info) *)
        opSetInput op newvn i ;;
        ret true in
      if decide (code o = CPUI_INT_SLESSEQUAL) then
        if (val <? 0) && (intb_wrap (val + diff) >? 0) then ret false  (* Check for sign overflow *)
        else if (val >? 0) && (intb_wrap (val + diff) <? 0) then ret false
        else opSetOpcode op CPUI_INT_SLESS ;; finish
      else                                 (* Check for unsigned overflow *)
        if (diff =? -1) && (val =? 0) then ret false
        else if (diff =? 1) && (val =? -1) then ret false
        else opSetOpcode op CPUI_INT_LESS ;; finish
  end.

(** Modelled from the spec: the truth value of an integer comparison on
    operands of [size] bytes. Operand values are the unsigned contents of
    the storage; the signed comparisons read them in two's complement. *)
Definition to_signed (size : Z) (x : Z) : Z :=
  if x <? 2 ^ (8 * size - 1) then x else x - 2 ^ (8 * size).

Definition eval_compare (opc : OpCode) (size : Z) (a b : Z) : option bool :=
  match opc with
  | CPUI_INT_LESS => Some (a <? b)
  | CPUI_INT_LESSEQUAL => Some (a <=? b)
  | CPUI_INT_SLESS => Some (to_signed size a <? to_signed size b)
  | CPUI_INT_SLESSEQUAL => Some (to_signed size a <=? to_signed size b)
  | _ => None
  end.

(** ** Parameter trials: is the Varnode only used by the call? *)

Definition vn_setMark (v : Varnode) : Varnode := vn_setFlags {[Varnode_mark]} v.
Definition vn_clearMark (v : Varnode) : Varnode := vn_clearFlags {[Varnode_mark]} v.

Definition trial_setRemFormed (t : ParamTrial) : ParamTrial :=
  mkParamTrial (trial_getAddress t) (trial_getSlot t) (isChecked t) (isActive t)
               (isKilledByCall t) true (hasIndCreateFormed t) (hasCondExeEffect t).
Definition trial_setIndCreateFormed (t : ParamTrial) : ParamTrial :=
  mkParamTrial (trial_getAddress t) (trial_getSlot t) (isChecked t) (isActive t)
               (isKilledByCall t) (hasRemFormed t) true (hasCondExeEffect t).
Definition trial_setCondExeEffect (t : ParamTrial) : ParamTrial :=
  mkParamTrial (trial_getAddress t) (trial_getSlot t) (isChecked t) (isActive t)
               (isKilledByCall t) (hasRemFormed t) (hasIndCreateFormed t) true.

Definition callSpecs (op : opptr) : M FuncCallSpecs :=
  fd <- get ;;
  match getCallSpecs fd op with Some fc => ret fc | None => throw Fault end.

Definition trialForInputVarnode (fc : FuncCallSpecs) (j : nat) : M ParamTrial :=
  match getTrialForInputVarnode fc j with Some t => ret t | None => throw Fault end.

Definition checkCallDoubleUse (opmatch : opptr) (op : opptr) (vn : vnptr)
    (trial : ParamTrial) : M bool :=
  o <- getOp op ;;
  om <- getOp opmatch ;;
  let j := getSlot o vn in
  if decide (j = 0)%nat then ret false   (* Flow traces to indirect call variable *)
  else
    fd <- get ;;
    legit <-
      (if decide (code o = code om) then
         let isdirect := bool_decide (code om = CPUI_CALL) in
         same <- (if isdirect then
                    matchfc <- callSpecs opmatch ;;
                    fc <- callSpecs op ;;
                    ret (bool_decide (getEntryAddress matchfc = getEntryAddress fc))
                  else
                    a <- getIn op 0 ;;
                    b <- getIn opmatch 0 ;;
                    ret (bool_decide (a = b))) ;;
         if same then                    (* If it is a call to the same function *)
           fc <- callSpecs op ;;
           curtrial <- trialForInputVarnode fc j ;;
           if decide (trial_getAddress curtrial = trial_getAddress trial) then
             (* Check for same memory location *)
             if decide (getParent o = getParent om) then
               ret (getOrder (getSeqNum om) <? getOrder (getSeqNum o))%nat
                                         (* opmatch has dibs, don't reject *)
             else ret true               (* Same function, different basic blocks *)
           else ret false
         else ret false
       else ret false) ;;
    if legit then ret true
    else
      fc <- callSpecs op ;;
      if isInputActive fc then
        curtrial <- trialForInputVarnode fc j ;;
        if negb (isChecked curtrial) || negb (isActive curtrial) then ret true
        else ret false
      else ret false.

(** What the [switch] of [onlyOpUse] decides for one reading op. *)
Inductive use_kind := use_continue | use_reject | use_follow.

(** The inner loop of [onlyOpUse]: the readers of [vn], in order. The
    result is the flag [res] and the work list as extended on the way. *)
Fixpoint onlyOpUse_descend (opmatch : opptr) (trial : ParamTrial) (vn : vnptr)
    (l : list opptr) (varlist : list vnptr) : M (bool * list vnptr) :=
  match l with
  | [] => ret (true, varlist)
  | op :: l' =>
      o <- getOp op ;;
      skip <- (if decide (op = opmatch) then
                 r <- getIn op (trial_getSlot trial) ;;
                 ret (bool_decide (r = Some vn))
               else ret false) ;;
      if skip then onlyOpUse_descend opmatch trial vn l' varlist
      else
        k <- match code o with
             | CPUI_BRANCH | CPUI_CBRANCH | CPUI_BRANCHIND
             | CPUI_LOAD | CPUI_STORE =>  (* These ops define a USE of a variable *)
                 ret use_reject
             | CPUI_CALL | CPUI_CALLIND =>
                 b <- checkCallDoubleUse opmatch op vn trial ;;
                 ret (if b then use_continue else use_reject)
             | CPUI_RETURN =>
                 om <- getOp opmatch ;;
                 if decide (code om = CPUI_RETURN) then  (* Are we in a different return *)
                   r <- getIn op (trial_getSlot trial) ;;
                   ret (if decide (r = Some vn)          (* But at the same slot *)
                        then use_continue else use_reject)
                 else ret use_reject
             | _ => ret use_follow
             end ;;
        match k with
        | use_continue => onlyOpUse_descend opmatch trial vn l' varlist
        | use_reject => ret (false, varlist)
        | use_follow =>
            match getOut o with
            | Some subvn =>
                sv <- getVn subvn ;;
                if isPersist sv then ret (false, varlist)
                else if negb (isMark sv) then
                  modVn subvn vn_setMark ;;
                  onlyOpUse_descend opmatch trial vn l' (varlist ++ [subvn])
                else onlyOpUse_descend opmatch trial vn l' varlist
            | None => onlyOpUse_descend opmatch trial vn l' varlist
            end
        end
  end.

(** The outer loop of [onlyOpUse]: [while(i < varlist.size())]. *)
Fixpoint onlyOpUse_loop (fuel : nat) (opmatch : opptr) (trial : ParamTrial)
    (varlist : list vnptr) (i : nat) : M (bool * list vnptr) :=
  match fuel with
  | O => throw OutOfFuel
  | S fuel' =>
      match varlist !! i with
      | None => ret (true, varlist)
      | Some vn =>
          v <- getVn vn ;;
          r <- onlyOpUse_descend opmatch trial vn (descend v) varlist ;;
          if r.1 then onlyOpUse_loop fuel' opmatch trial r.2 (S i)
          else ret r
      end
  end.

Definition onlyOpUse_fuel (fuel : nat) (invn : vnptr) (opmatch : opptr)
    (trial : ParamTrial) : M bool :=
  modVn invn vn_setMark ;;               (* Marks prevent infinite loops *)
  r <- onlyOpUse_loop fuel opmatch trial [invn] 0 ;;
  forM_ r.2 (fun vn => modVn vn vn_clearMark) ;;
  ret r.1.

(** Every Varnode enters the work list at most once, so the loop runs at
    most once per Varnode of the bank (and once more to leave). *)
Definition onlyOpUse (invn : vnptr) (opmatch : opptr) (trial : ParamTrial) : M bool :=
  fd <- get ;;
  onlyOpUse_fuel (S (S (size (vbank fd)))) invn opmatch trial.

(** ** Parameter trials: ancestors used only by the call *)

(** [int4] arithmetic wraps around. *)
Definition int4_wrap (z : Z) : Z := (z + 2^31) mod 2^32 - 2^31.

(** The loop over the inputs of a MULTIEQUAL or INDIRECT: the first
    ancestor that passes the test stops it. *)
Fixpoint ancestorOpUse_inputs (rec : vnptr → ParamTrial → M (bool * ParamTrial))
    (l : list (option vnptr)) (trial : ParamTrial) : M (bool * ParamTrial) :=
  match l with
  | [] => ret (false, trial)
  | r :: l' =>
      match r with
      | None => throw Fault
      | Some vn =>
          b <- rec vn trial ;;
          if b.1 then ret (true, b.2) else ancestorOpUse_inputs rec l' b.2
      end
  end.

(** [fuel] bounds the depth of the recursion of the model; the trial is
    passed by reference in the code and is returned here. *)
Fixpoint ancestorOpUse (fuel : nat) (maxlevel : Z) (invn : vnptr) (op : opptr)
    (trial : ParamTrial) : M (bool * ParamTrial) :=
  match fuel with
  | O => throw OutOfFuel
  | S fuel' =>
      if decide (maxlevel = 0) then ret (false, trial)
      else
        v <- getVn invn ;;
        let only := b <- onlyOpUse invn op trial ;; ret (b, trial) in
        match getDef v with
        | None =>                        (* !invn->isWritten() *)
            if negb (isInput v) then ret (false, trial)
            else if negb (isTypeLock v) then ret (false, trial)
            else only                    (* Test if varnode is only used in op *)
        | Some defop =>
            def <- getOp defop ;;
            let multi :=
              (* Check if there is any ancestor whose only use is in this op *)
              ancestorOpUse_inputs
                (fun vn t => ancestorOpUse fuel' (int4_wrap (maxlevel - 1)) vn op t)
                (inrefs def) trial in
            match code def with
            | CPUI_INDIRECT =>
                if isIndirectCreation def then ret (false, trial)
                else multi
            | CPUI_MULTIEQUAL => multi
            | CPUI_COPY =>
                if bool_decide (getType (getSpace (vn_loc v)) = IPTR_INTERNAL)
                   || isAddrForce v
                then (* We follow copys into uniques *)
                  in0 <- getInVn defop 0 ;;
                  b <- ancestorOpUse fuel' (int4_wrap (maxlevel - 1)) in0 op trial ;;
                  if negb b.1 then ret (false, b.2) else ret (true, b.2)
                else only
            | CPUI_PIECE =>
                (* recurse through the least significant part *)
                in1 <- getInVn defop 1 ;;
                ancestorOpUse fuel' (int4_wrap (maxlevel - 1)) in1 op trial
            | CPUI_SUBPIECE =>
                in1 <- getInVn defop 1 ;;
                v1 <- getVn in1 ;;
                trial <- (if decide (vn_getOffset v1 = 0) then
                            vn <- getInVn defop 0 ;;
                            v0 <- getVn vn ;;
                            match getDef v0 with
                            | Some remop =>
                                ro <- getOp remop ;;
                                if bool_decide (code ro = CPUI_INT_REM)
                                   || bool_decide (code ro = CPUI_INT_SREM)
                                then ret (trial_setRemFormed trial)
                                else ret trial
                            | None => ret trial
                            end
                          else ret trial) ;;
                b <- onlyOpUse invn op trial ;; ret (b, trial)
            | CPUI_CALL | CPUI_CALLIND =>
                ret (false, trial)       (* A call is never a good indication *)
            | _ => only
            end
        end
  end.

(** ** Parameter trials: realistic ancestors ([AncestorRealistic]) *)

Module State.
(** Node in a depth first traversal of ancestors. *)
Record t := mk {
  op : opptr;                 (* Operation along the path to the Varnode *)
  vn : option vnptr;          (* Varnode input to op, along path *)
  slot : nat;                 (* vn = op->getIn(slot) *)
  flags : Z                   (* Boolean properties of the node *)
}.

Definition seen_solid0 : Z := 1.
Definition seen_solid1 : Z := 2.
Definition seen_kill : Z := 4.

Definition getSolidSlot (s : t) : nat :=
  if negb (Z.land (flags s) seen_solid0 =? 0) then 0%nat else 1%nat.
Definition markSolid (s : t) (sl : nat) : t :=
  mk (op s) (vn s) (slot s)
     (Z.lor (flags s) (if decide (sl = 0%nat) then seen_solid0 else seen_solid1)).
Definition markKill (s : t) : t :=
  mk (op s) (vn s) (slot s) (Z.lor (flags s) seen_kill).
Definition seenSolid (s : t) : bool :=
  negb (Z.land (flags s) (Z.lor seen_solid0 seen_solid1) =? 0).
Definition seenKill (s : t) : bool :=
  negb (Z.land (flags s) seen_kill =? 0).
End State.

#[global] Instance State_eq_dec : EqDecision State.t.
Proof. solve_decision. Defined.

(** Constructor given a Varnode read. *)
Definition State_new (o : opptr) (s : nat) : M State.t :=
  r <- getIn o s ;;
  ret (State.mk o r s 0).

(** Enumerations for state of depth first traversal. *)
Inductive command :=
| enter_node      (* Extending path into new Varnode *)
| pop_success     (* Backtracking, from path that contained a reasonable ancestor *)
| pop_solid       (* Backtracking, from path with successful, solid, movement *)
| pop_fail        (* Backtracking, from path with a bad ancestor *)
| pop_failkill.   (* Backtracking, from path with a bad ancestor, specifically killedbycall *)

#[global] Instance command_eq_dec : EqDecision command.
Proof. solve_decision. Defined.

(** The traversal stack is kept with its back (the node being visited)
    at the head of the list: [stateStack.back()] is the head, the state
    previous to it, [stateStack[size-2]], the second element. *)
Record AncestorRealistic := mkAncestorRealistic {
  trial : ParamTrial;
  stateStack : list State.t;
  markedVn : list vnptr;
  multiDepth : Z;
  allowFailingPath : bool
}.

Definition ar_setStack (st : list State.t) (ar : AncestorRealistic) : AncestorRealistic :=
  mkAncestorRealistic (trial ar) st (markedVn ar) (multiDepth ar) (allowFailingPath ar).
Definition ar_setTrial (t : ParamTrial) (ar : AncestorRealistic) : AncestorRealistic :=
  mkAncestorRealistic t (stateStack ar) (markedVn ar) (multiDepth ar) (allowFailingPath ar).
Definition ar_setMultiDepth (d : Z) (ar : AncestorRealistic) : AncestorRealistic :=
  mkAncestorRealistic (trial ar) (stateStack ar) (markedVn ar) d (allowFailingPath ar).
Definition ar_setMarkedVn (l : list vnptr) (ar : AncestorRealistic) : AncestorRealistic :=
  mkAncestorRealistic (trial ar) (stateStack ar) l (multiDepth ar) (allowFailingPath ar).

Definition ar_push (s : State.t) (ar : AncestorRealistic) : AncestorRealistic :=
  ar_setStack (s :: stateStack ar) ar.

(** Mark given Varnode is visited by the traversal. *)
Definition mark (vn : vnptr) (ar : AncestorRealistic) : M AncestorRealistic :=
  modVn vn vn_setMark ;;
  ret (ar_setMarkedVn (markedVn ar ++ [vn]) ar).

Definition checkConditionalExe (state : State.t) : M bool :=
  o <- getOp (State.op state) ;;
  bl <- getParentBlock o ;;
  b <- getBlock bl ;;
  if decide (sizeIn b ≠ 2%nat) then ret false
  else
    solidBlock <- BlockBasic_getIn bl (State.getSolidSlot state) ;;
    sb <- getBlock solidBlock ;;
    if decide (sizeOut sb ≠ 1%nat) then ret false
    else ret true.

(** The [do ... while] of [enterNode] over a chain of COPY and SUBPIECE. *)
Fixpoint enterNode_copies (fuel : nat) (op : opptr) : M command :=
  match fuel with
  | O => throw OutOfFuel
  | S fuel' =>
      vn <- getInVn op 0 ;;
      v <- getVn vn ;;
      if negb (isMark v) && isInput v && (isUnaffected v || negb (isDirectWrite v))
      then ret pop_fail
      else
        match getDef v with
        | None => ret pop_solid
        | Some d =>
            o <- getOp d ;;
            if bool_decide (code o = CPUI_COPY) || bool_decide (code o = CPUI_SUBPIECE)
            then enterNode_copies fuel' d
            else ret pop_solid
        end
  end.

Definition enterNode (fuel : nat) (ar : AncestorRealistic)
  : M (command * AncestorRealistic) :=
  match stateStack ar with
  | [] => throw Fault
  | state :: _ =>
      vn <- match State.vn state with Some vn => ret vn | None => throw Fault end ;;
      v <- getVn vn ;;
      (* If the node has already been visited, we truncate the traversal *)
      if isMark v then ret (pop_success, ar)
      else
        match getDef v with
        | None =>                        (* !state.vn->isWritten() *)
            if isInput v then
              if isUnaffected v then ret (pop_fail, ar)
              else if isPersist v then ret (pop_success, ar)
              else if negb (isDirectWrite v) then ret (pop_fail, ar)
              else ret (pop_success, ar)
            else ret (pop_success, ar)
        | Some opp =>
            ar <- mark vn ar ;;          (* Mark that the varnode has now been visited *)
            op <- getOp opp ;;
            match code op with
            | CPUI_INDIRECT =>
                if isIndirectCreation op then  (* Backtracking is stopped by a call *)
                  let ar := ar_setTrial (trial_setIndCreateFormed (trial ar)) ar in
                  in0 <- getInVn opp 0 ;;
                  v0 <- getVn in0 ;;
                  if isIndirectZero v0 then ret (pop_failkill, ar)
                  else ret (pop_success, ar)
                else
                  in1 <- getInVn opp 1 ;;
                  v1 <- getVn in1 ;;
                  indop <- getOp (getOpFromConst (vn_loc v1)) ;;
                  stop <- (if isCall indop then    (* If flow goes THROUGH a call *)
                             out <- match getOut op with
                                    | Some out => getVn out
                                    | None => throw Fault
                                    end ;;
                             ret (isReturnAddress out || isKilledByCall (trial ar))
                           else ret false) ;;
                  if stop then ret (pop_fail, ar)
                  else
                    s <- State_new opp 0 ;;
                    ret (enter_node, ar_push s ar)
            | CPUI_SUBPIECE | CPUI_COPY =>
                out <- match getOut op with
                       | Some out => getVn out
                       | None => throw Fault
                       end ;;
                in0 <- getInVn opp 0 ;;
                v0 <- getVn in0 ;;
                if bool_decide (getType (getSpace (vn_loc out)) = IPTR_INTERNAL)
                   || bool_decide (vn_loc out = vn_loc v0)
                   || isIncidentalCopy v0
                then
                  s <- State_new opp 0 ;;
                  ret (enter_node, ar_push s ar)   (* Push into the new node *)
                else
                  c <- enterNode_copies fuel opp ;;
                  ret (c, ar)
            | CPUI_MULTIEQUAL =>
                let ar := ar_setMultiDepth (int4_wrap (multiDepth ar + 1)) ar in
                s <- State_new opp 0 ;;
                ret (enter_node, ar_push s ar)
            | _ => ret (pop_solid, ar)   (* Any other op is viewed as solid movement *)
            end
        end
  end.

Definition uponPop (ar : AncestorRealistic) (pop_command : command)
  : M (command * AncestorRealistic) :=
  match stateStack ar with
  | [] => throw Fault
  | state :: below =>
      o <- getOp (State.op state) ;;
      if decide (code o = CPUI_MULTIEQUAL) then
        (* All the interesting action happens for MULTIEQUAL branch points *)
        match below with
        | [] => throw Fault
        | prevstate :: rest =>           (* State previous the one being popped *)
            if decide (pop_command = pop_fail) then
              (* For a pop_fail, we always pop and pass along the fail *)
              ret (pop_command,
                   ar_setStack below (ar_setMultiDepth (int4_wrap (multiDepth ar - 1)) ar))
            else
              let prevstate :=
                if bool_decide (pop_command = pop_solid)
                   && (multiDepth ar =? 1) && bool_decide (numInput o = 2%nat)
                then State.markSolid prevstate (State.slot state)
                else if bool_decide (pop_command = pop_failkill)
                then State.markKill prevstate
                else prevstate in
              let state := State.mk (State.op state) (State.vn state)
                                    (S (State.slot state)) (State.flags state) in
              if decide (State.slot state = numInput o) then
                (* If we have traversed all siblings *)
                r <- (if State.seenSolid prevstate then
                        if State.seenKill prevstate then
                          if allowFailingPath ar then
                            c <- checkConditionalExe state ;;
                            if negb c then ret (pop_fail, trial ar)
                            else ret (pop_success, trial_setCondExeEffect (trial ar))
                          else ret (pop_fail, trial ar)
                        else ret (pop_success, trial ar)
                      else if State.seenKill prevstate then ret (pop_failkill, trial ar)
                      else ret (pop_success, trial ar)) ;;
                ret (r.1, ar_setStack (prevstate :: rest)
                            (ar_setMultiDepth (int4_wrap (multiDepth ar - 1))
                               (ar_setTrial r.2 ar)))
              else
                vn <- getIn (State.op state) (State.slot state) ;;  (* Advance to next sibling *)
                ret (enter_node,
                     ar_setStack (State.mk (State.op state) vn (State.slot state)
                                           (State.flags state) :: prevstate :: rest) ar)
        end
      else
        ret (pop_command, ar_setStack below ar)
  end.

(** The loop of [execute]: continue until all paths have been exhausted. *)
Fixpoint execute_loop (fuel : nat) (c : command) (ar : AncestorRealistic)
  : M (command * AncestorRealistic) :=
  match stateStack ar with
  | [] => ret (c, ar)
  | _ =>
      match fuel with
      | O => throw OutOfFuel
      | S fuel' =>
          r <- match c with
               | enter_node => enterNode fuel ar
               | _ => uponPop ar c
               end ;;
          execute_loop fuel' r.1 r.2
      end
  end.

Definition execute (fuel : nat) (op : opptr) (slot : nat) (t : ParamTrial)
    (allowFail : bool) : M (bool * ParamTrial) :=
  let ar := mkAncestorRealistic t [] [] 0 allowFail in
  vn <- getInVn op slot ;;
  v <- getVn vn ;;
  if isInput v && negb (hasCondExeEffect t) (* Make sure we are not retesting *)
  then ret (false, t)
  else
    (* Run the depth first traversal *)
    s <- State_new op slot ;;            (* Start by entering the initial node *)
    r <- execute_loop fuel enter_node (ar_push s ar) ;;
    (* Clean up marks we left along the way *)
    forM_ (markedVn r.2) (fun vn => modVn vn vn_clearMark) ;;
    if bool_decide (r.1 ≠ pop_success) && bool_decide (r.1 ≠ pop_solid)
    then ret (false, trial r.2)
    else ret (true, trial r.2).

(** ** The ordering invariant of a basic block

    "Phi-operations appear only at block entry; branch appears only as
    last operation": stated on the op-codes of the ops of the block,
    from top to bottom. *)

Definition multiequal_first (cs : list OpCode) : Prop :=
  ∀ i j ci, (i < j)%nat →
    cs !! i = Some ci → cs !! j = Some CPUI_MULTIEQUAL → ci = CPUI_MULTIEQUAL.

Definition branch_last (cs : list OpCode) : Prop :=
  ∀ i c, cs !! i = Some c → opc_isFlowBreak c = true → S i = length cs.

(** [cs] are the op-codes of the ops of block [b]. *)
Definition block_codes (fd : Funcdata) (b : BlockBasic) (cs : list OpCode) : Prop :=
  Forall2 (fun op c => ∃ o, obank fd !! op = Some o ∧ code o = c) (bl_op b) cs.

Definition block_ordered (fd : Funcdata) (bl : blptr) : Prop :=
  ∃ b cs, bblocks fd !! bl = Some b ∧ block_codes fd b cs
          ∧ multiequal_first cs ∧ branch_last cs.

(** The number of op-codes at the head of [cs] that satisfy [p]. *)
Fixpoint count_prefix (p : OpCode → bool) (cs : list OpCode) : nat :=
  match cs with
  | [] => 0
  | c :: cs' => if p c then S (count_prefix p cs') else 0
  end.

(** ** What a MULTIEQUAL node resolves to

    The state previous to a MULTIEQUAL node once the command popped from
    its input path [slot] has left its mark (the first step of
    [uponPop]), and the command the node resolves to when its last input
    path has been popped, from whether the previous state has seen a solid
    move and a kill; [condexe] is the outcome of [checkConditionalExe]. *)

Definition uponPop_marked (depth : Z) (o : PcodeOp) (slot : nat)
    (prevstate : State.t) (pop_command : command) : State.t :=
  if bool_decide (pop_command = pop_solid)
     && (depth =? 1) && bool_decide (numInput o = 2%nat)
  then State.markSolid prevstate slot
  else if bool_decide (pop_command = pop_failkill)
  then State.markKill prevstate
  else prevstate.

Definition multiequal_resolve (solid kill allowFail condexe : bool) : command :=
  if solid then
    if kill then
      if allowFail && condexe then pop_success else pop_fail
    else pop_success
  else if kill then pop_failkill
  else pop_success.

(** The state previous to the node once the commands [reports], popped
    from the inputs [slot], [slot + 1], ... of the node, have left their
    marks. *)
Fixpoint uponPop_marks (depth : Z) (o : PcodeOp) (slot : nat)
    (prevstate : State.t) (reports : list command) : State.t :=
  match reports with
  | [] => prevstate
  | c :: cs =>
      uponPop_marks depth o (S slot) (uponPop_marked depth o slot prevstate c) cs
  end.

(** The commands popped from the input paths of the MULTIEQUAL node at the
    back of the stack, handed to [uponPop] one after the other: between
    two of them the traversal descends into the next input and comes back
    to the same stack. *)
Fixpoint uponPop_reports (ar : AncestorRealistic) (reports : list command)
  : M (command * AncestorRealistic) :=
  match reports with
  | [] => throw Fault
  | c :: cs =>
      r <- uponPop ar c ;;
      match cs with
      | [] => ret r
      | _ => if decide (r.1 = enter_node) then uponPop_reports r.2 cs
             else ret r
      end
  end.

(** [n] rounds of the loop of [execute]. *)
Fixpoint execute_steps (n : nat) (fuel : nat) (c : command) (ar : AncestorRealistic)
  : M (command * AncestorRealistic) :=
  match n with
  | O => ret (c, ar)
  | S n' =>
      r <- match c with
           | enter_node => enterNode fuel ar
           | _ => uponPop ar c
           end ;;
      execute_steps n' fuel r.1 r.2
  end.

(** ** Predicates on the store and on computations *)

(** Two Varnode records that agree on everything the data-flow links
    depend on: storage, definer and readers. *)
Definition same_links (v v' : Varnode) : Prop :=
  getSize v' = getSize v ∧ vn_loc v' = vn_loc v
  ∧ getDef v' = getDef v ∧ descend v' = descend v.

(** The store after [newConstant]: one more Varnode, at the next index. *)
Definition fd_new_vn (fd : Funcdata) (c : Varnode) : Funcdata :=
  set_vbank_create_index (S (vbank_create_index fd))
    (set_vbank (insert (vbank_create_index fd) c) fd).

(** Every constant that is not a spacebase has at most one reader. *)
Definition single_reader (fd : Funcdata) : Prop :=
  ∀ x xv, vbank fd !! x = Some xv →
    isConstant xv = true → isSpacebase xv = false →
    (length (descend xv) ≤ 1)%nat.

(** The same, with the Varnode about to be linked having no reader yet
    if it falls under the rule. *)
Definition single_reader_at (t : nat) (fd : Funcdata) : Prop :=
  single_reader fd
  ∧ ∀ tv, vbank fd !! t = Some tv →
      isConstant tv = true → isSpacebase tv = false → descend tv = [].

(** [post c fd Q]: run from [fd], the computation [c] does not run out of
    fuel, and [Q] holds of its result and final store when it returns. *)
Definition post {A} (c : M A) (fd : Funcdata) (Q : A → Funcdata → Prop) : Prop :=
  match c fd with
  | Ok a fd' => Q a fd'
  | Throw e => e ≠ OutOfFuel
  end.

(** A computation that leaves the store as it found it. *)
Definition readonly {A} (c : M A) : Prop :=
  ∀ fd, post c fd (fun _ fd' => fd' = fd).

(** The work list of [onlyOpUse]: no Varnode twice, each one in the bank
    and marked. *)
Definition marked_list (fd : Funcdata) (varlist : list nat) : Prop :=
  NoDup varlist
  ∧ ∀ x, x ∈ varlist → ∃ v, vbank fd !! x = Some v ∧ isMark v = true.

(** A computation that never runs out of fuel. *)
Definition no_oof {A} (c : M A) : Prop := ∀ fd, post c fd (fun _ _ => True).

(** The store after [newOp]: one more op, dead, with null input slots. *)
Definition fd_new_op (fd : Funcdata) (inputs : nat) (pc : Address) : Funcdata :=
  set_obank_uniqid (S (obank_uniqid fd))
    (set_obank (insert (obank_uniqid fd)
                  (mkPcodeOp CPUI_COPY {[PcodeOp_dead]} None
                     (replicate inputs None) None
                     (mkSeqNum pc (obank_uniqid fd) 0))) fd).

(** The store once the dead op [op], whose record is [o], has been
    inserted at position [k] of the block [bl], whose record is [b]. *)
Definition fd_inserted (fd : Funcdata) (op : opptr) (o : PcodeOp) (bl : blptr)
    (b : BlockBasic) (k : nat) : Funcdata :=
  set_bblocks
    (insert bl (mkBlockBasic (list_insert_at k op (bl_op b))
                  (bl_intothis b) (bl_outofthis b) (getStart b) (bl_isDead b)))
    (set_obank
       (insert op (op_setParent (Some bl) (op_clearFlags {[PcodeOp_dead]} o))) fd).

(** Where the insertions put a non-marker op in a block with op-codes
    [cs]: [opInsertEnd] at the end, above a final branch; [opInsertBefore]
    before position [iter], above the INDIRECTs that directly precede it;
    [opInsertAfter] after position [iter], below the MULTIEQUALs that
    directly follow it. *)
Definition end_position (cs : list OpCode) : nat :=
  match last cs with
  | Some c => if opc_isFlowBreak c then (length cs - 1)%nat else length cs
  | None => length cs
  end.

Definition before_position (cs : list OpCode) (iter : nat) : nat :=
  (iter - count_prefix (is_code CPUI_INDIRECT) (reverse (take iter cs)))%nat.

Definition after_position (cs : list OpCode) (iter : nat) : nat :=
  (S iter + count_prefix (is_code CPUI_MULTIEQUAL) (drop (S iter) cs))%nat.

(** ** What the read-replacement routines leave in a marker slot

    [copy_of_constant fd fd' copyop val size newrep]: between [fd] and
    [fd'] the op [copyop] has been created as [newrep = COPY #val], where
    the constant and [newrep], a Varnode of the unique space, are new
    Varnodes of [size] bytes. *)
Definition copy_of_constant (fd fd' : Funcdata) (copyop : opptr) (val size : Z)
    (newrep : vnptr) : Prop :=
  ∃ co c cv uv,
    obank fd !! copyop = None ∧ obank fd' !! copyop = Some co
    ∧ code co = CPUI_COPY ∧ inrefs co = [Some c] ∧ getOut co = Some newrep
    ∧ vbank fd !! c = None ∧ vbank fd' !! c = Some cv
    ∧ isConstant cv = true ∧ vn_getOffset cv = val ∧ getSize cv = size
    ∧ descend cv = [copyop]
    ∧ vbank fd !! newrep = None ∧ vbank fd' !! newrep = Some uv
    ∧ getSpace (vn_loc uv) = unique_space ∧ getSize uv = size
    ∧ getDef uv = Some copyop.

(** [linked fd fd' op vn i newrep]: slot [i] of [op], which held [vn],
    holds [newrep] in [fd']; [newrep] is not a constant and counts [op]
    among its readers, and [vn] has lost one entry [op] of its readers. *)
Definition linked (fd fd' : Funcdata) (op : opptr) (vn : vnptr) (i : nat)
    (newrep : vnptr) : Prop :=
  ∃ o o' v v' uv,
    obank fd !! op = Some o ∧ obank fd' !! op = Some o'
    ∧ inrefs o !! i = Some (Some vn)
    ∧ inrefs o' = <[i := Some newrep]> (inrefs o) ∧ code o' = code o
    ∧ vbank fd' !! newrep = Some uv ∧ isConstant uv = false
    ∧ last (descend uv) = Some op
    ∧ vbank fd !! vn = Some v ∧ vbank fd' !! vn = Some v'
    ∧ erase_first op (descend v) = Some (descend v').

(** [placed fd fd' copyop bl k]: in [fd'] the op [copyop] is alive and
    stands at position [k] of block [bl], the other ops of the block in
    their order around it. *)
Definition placed (fd fd' : Funcdata) (copyop : opptr) (bl : blptr) (k : nat)
  : Prop :=
  ∃ b b' co,
    bblocks fd !! bl = Some b ∧ bblocks fd' !! bl = Some b'
    ∧ bl_op b' = list_insert_at k copyop (bl_op b)
    ∧ obank fd' !! copyop = Some co ∧ getParent co = Some bl
    ∧ PcodeOp_dead ∉ op_flags co.

(** ** Input Varnodes: well-formedness of the bank *)

(** Two Varnodes whose storage has a byte in common. *)
Definition overlapping (a b : Varnode) : Prop :=
  getSpace (vn_loc a) = getSpace (vn_loc b)
  ∧ vn_getOffset a < vn_getOffset b + getSize b
  ∧ vn_getOffset b < vn_getOffset a + getSize a.

(** The inputs of the bank have a positive size and are pairwise
    disjoint, and an address space is identified by its index. *)
Definition inputs_wf (fd : Funcdata) : Prop :=
  (∀ x xv, vbank fd !! x = Some xv → isInput xv = true → 0 < getSize xv)
  ∧ (∀ x y xv yv, vbank fd !! x = Some xv → vbank fd !! y = Some yv →
       isInput xv = true → isInput yv = true → x ≠ y → ¬ overlapping xv yv)
  ∧ (∀ x y xv yv, vbank fd !! x = Some xv → vbank fd !! y = Some yv →
       getIndex (getSpace (vn_loc xv)) = getIndex (getSpace (vn_loc yv)) →
       getSpace (vn_loc xv) = getSpace (vn_loc yv)).

(** ** Example stores *)

(** A store with the given Varnodes, ops and blocks, numbered from 0, and
    an empty symbol database. *)
Definition mkStore (vns : list Varnode) (ops : list PcodeOp)
    (bls : list BlockBasic) : Funcdata :=
  mkFuncdata (list_to_map (imap (fun i v => (i, v)) vns)) (length vns) 0x1000
             (list_to_map (imap (fun i o => (i, o)) ops)) (length ops)
             (list_to_map (imap (fun i b => (i, b)) bls))
             false (fun _ _ => (None, ∅)) (fun _ _ => unknown_effect)
             (fun _ => None).

Definition register_space : AddrSpace := mkAddrSpace IPTR_PROCESSOR 2.
Definition ram_space : AddrSpace := mkAddrSpace IPTR_PROCESSOR 3.
Definition reg (off : Z) : Address := mkAddress register_space off.
Definition ram (off : Z) : Address := mkAddress ram_space off.

(** A Varnode without properties, and an op that stands in no block. *)
Definition vnode (size : Z) (loc : Address) (def : option opptr)
    (readers : list opptr) : Varnode :=
  mkVarnode size loc ∅ def readers false false None.
Definition deadop (c : OpCode) (out : option vnptr) (ins : list (option vnptr))
    (time : nat) : PcodeOp :=
  mkPcodeOp c {[PcodeOp_dead]} out ins None (mkSeqNum (ram 0x100) time 0).
Definition liveop (c : OpCode) (out : option vnptr) (ins : list (option vnptr))
    (bl : blptr) (time : nat) : PcodeOp :=
  mkPcodeOp c ∅ out ins (Some bl) (mkSeqNum (ram 0x100) time time).

(** [op0: v2 = INT_ADD c0(spacebase), c1] and a second INT_ADD, [op1],
    whose inputs are not set yet. *)
Definition ex_constants : Funcdata :=
  mkStore [ vn_setFlags {[Varnode_spacebase]} (vnode 4 (getConstant 7) None [0%nat]);
            vnode 4 (getConstant 9) None [0%nat];
            vnode 4 (reg 0) (Some 0%nat) [] ]
          [ deadop CPUI_INT_ADD (Some 2%nat) [Some 0%nat; Some 1%nat] 0;
            deadop CPUI_INT_ADD None [None; None] 1 ]
          [].

(** [op0: v2 = INT_SLESSEQUAL v0, #0x7fffffff] on 4-byte operands. *)
Definition ex_slessequal : Funcdata :=
  mkStore [ vnode 4 (reg 0) None [0%nat];
            vnode 4 (getConstant 0x7fffffff) None [0%nat];
            vnode 1 (reg 8) (Some 0%nat) [] ]
          [ deadop CPUI_INT_SLESSEQUAL (Some 2%nat) [Some 0%nat; Some 1%nat] 0 ]
          [].

(** [op0: v2 = INT_LESSEQUAL v0, #5] and [op1: v4 = INT_SLESSEQUAL v0, #5]
    on 4-byte operands. *)
Definition ex_lessequal : Funcdata :=
  mkStore [ vnode 4 (reg 0) None [0%nat; 1%nat];
            vnode 4 (getConstant 5) None [0%nat];
            vnode 1 (reg 8) (Some 0%nat) [];
            vnode 4 (getConstant 5) None [1%nat];
            vnode 1 (reg 9) (Some 1%nat) [] ]
          [ deadop CPUI_INT_LESSEQUAL (Some 2%nat) [Some 0%nat; Some 1%nat] 0;
            deadop CPUI_INT_SLESSEQUAL (Some 4%nat) [Some 0%nat; Some 3%nat] 1 ]
          [].

(** Block 0 holds [op0: v1 = COPY v0]; [op1] is a BRANCH and [op2] a
    MULTIEQUAL, both detached. *)
Definition ex_block : Funcdata :=
  mkStore [ vnode 4 (reg 0) None [0%nat]; vnode 4 (reg 4) (Some 0%nat) [] ]
          [ liveop CPUI_COPY (Some 1%nat) [Some 0%nat] 0 0;
            deadop CPUI_BRANCH None [] 1;
            deadop CPUI_MULTIEQUAL None [] 2 ]
          [ mkBlockBasic [0%nat] [] [] (ram 0x100) false ].

(** [op0: RETURN c0], marked as a halt. *)
Definition ex_halt : Funcdata :=
  mkStore [ vnode 4 (getConstant 0) None [0%nat] ]
          [ op_setFlags {[PcodeOp_halt]} (deadop CPUI_RETURN None [Some 0%nat] 0) ]
          [].

(** A phi-operation across a back edge that reads its own output:
    [op0: v0 = MULTIEQUAL v0, v0], and [op1: CALL v1, v0]. *)
Definition ex_cycle : Funcdata :=
  mkStore [ vnode 4 (reg 0) (Some 0%nat) [0%nat; 0%nat; 1%nat];
            vn_setFlags {[Varnode_annotation]} (vnode 4 (ram 0x400) None [1%nat]) ]
          [ liveop CPUI_MULTIEQUAL (Some 0%nat) [Some 0%nat; Some 0%nat] 0 0;
            liveop CPUI_CALL None [Some 1%nat; Some 0%nat] 0 1 ]
          [ mkBlockBasic [0%nat; 1%nat] [0%nat; 0%nat] [0%nat] (ram 0x100) false ].

Definition ex_trial : ParamTrial :=
  mkParamTrial (reg 0) 1 false false false false false false.

(** Registers [0..3] and [8..11] are inputs; [v2], [v3] and [v4] are free
    Varnodes on registers [8..11], [2..5] and [4..7]. *)
Definition ex_inputs : Funcdata :=
  mkStore [ vn_setFlags {[Varnode_input]} (vnode 4 (reg 0) None []);
            vn_setFlags {[Varnode_input]} (vnode 4 (reg 8) None []);
            vnode 4 (reg 8) None [];
            vnode 4 (reg 2) None [];
            vnode 4 (reg 4) None [] ]
          [] [].

(** The space of the annotations that encode a pointer to an op. *)
Definition iop_space : AddrSpace := mkAddrSpace IPTR_IOP 4.

(** A diamond: block 0 branches to blocks 1 and 2, which both flow into
    block 3. Block 0 holds [op0: v0 = COPY c3]; block 3 holds
    [op1: v2 = MULTIEQUAL v0, v1], [op2: v5 = INDIRECT v0, iop(op3)] and
    [op3: CALL v6]. The Varnode [v0] is read by the two markers. *)
Definition ex_diamond : Funcdata :=
  mkStore [ vnode 4 (reg 0) (Some 0%nat) [1%nat; 2%nat];
            vnode 4 (reg 0) None [1%nat];
            vnode 4 (reg 0) (Some 1%nat) [];
            vnode 4 (getConstant 1) None [0%nat];
            vn_setFlags {[Varnode_annotation]}
              (vnode 8 (mkAddress iop_space 3) None [2%nat]);
            vnode 4 (reg 0) (Some 2%nat) [];
            vn_setFlags {[Varnode_annotation]} (vnode 8 (ram 0x800) None [3%nat]) ]
          [ liveop CPUI_COPY (Some 0%nat) [Some 3%nat] 0 0;
            liveop CPUI_MULTIEQUAL (Some 2%nat) [Some 0%nat; Some 1%nat] 3 1;
            liveop CPUI_INDIRECT (Some 5%nat) [Some 0%nat; Some 4%nat] 3 2;
            liveop CPUI_CALL None [Some 6%nat] 3 3 ]
          [ mkBlockBasic [0%nat] [] [1%nat; 2%nat] (ram 0x100) false;
            mkBlockBasic [] [0%nat] [3%nat] (ram 0x110) false;
            mkBlockBasic [] [0%nat] [3%nat] (ram 0x120) false;
            mkBlockBasic [1%nat; 2%nat; 3%nat] [1%nat; 2%nat] [] (ram 0x130) false ].

(** Two nested diamonds. Block 7 holds [op1: v0 = MULTIEQUAL v1, v2] and
    the call [op0: CALL v9, v0]; its predecessors, blocks 3 and 6, hold
    [op2: v1 = MULTIEQUAL v3, v4] and [op3: v2 = MULTIEQUAL v5, v6]. In
    block 1 the call [op5] creates [v3] through the INDIRECT [op4]; in
    block 2, [op6: v4 = INT_ADD v5, v6]; the Varnodes [v5] and [v6] are
    free. A second call, [op7: CALL v9, v1], stands in block 3. *)
Definition ex_nested : Funcdata :=
  mkStore [ vnode 4 (reg 0) (Some 1%nat) [0%nat];
            vnode 4 (reg 0) (Some 2%nat) [1%nat; 7%nat];
            vnode 4 (reg 0) (Some 3%nat) [1%nat];
            vnode 4 (reg 0) (Some 4%nat) [2%nat];
            vnode 4 (reg 0) (Some 6%nat) [2%nat];
            vnode 4 (reg 8) None [3%nat; 6%nat];
            vnode 4 (reg 16) None [3%nat; 6%nat];
            vn_setFlags {[Varnode_indirect_creation]}
              (vnode 4 (getConstant 0) None [4%nat]);
            vn_setFlags {[Varnode_annotation]}
              (vnode 8 (mkAddress iop_space 5) None [4%nat]);
            vn_setFlags {[Varnode_annotation]}
              (vnode 8 (ram 0x800) None [0%nat; 5%nat; 7%nat]) ]
          [ liveop CPUI_CALL None [Some 9%nat; Some 0%nat] 7 0;
            liveop CPUI_MULTIEQUAL (Some 0%nat) [Some 1%nat; Some 2%nat] 7 1;
            liveop CPUI_MULTIEQUAL (Some 1%nat) [Some 3%nat; Some 4%nat] 3 2;
            liveop CPUI_MULTIEQUAL (Some 2%nat) [Some 5%nat; Some 6%nat] 6 3;
            op_setFlags {[PcodeOp_indirect_creation]}
              (liveop CPUI_INDIRECT (Some 3%nat) [Some 7%nat; Some 8%nat] 1 4);
            liveop CPUI_CALL None [Some 9%nat] 1 5;
            liveop CPUI_INT_ADD (Some 4%nat) [Some 5%nat; Some 6%nat] 2 6;
            liveop CPUI_CALL None [Some 9%nat; Some 1%nat] 3 7 ]
          [ mkBlockBasic [] [] [8%nat; 9%nat] (ram 0x100) false;
            mkBlockBasic [4%nat; 5%nat] [8%nat] [3%nat] (ram 0x110) false;
            mkBlockBasic [6%nat] [8%nat] [3%nat] (ram 0x120) false;
            mkBlockBasic [2%nat; 7%nat] [1%nat; 2%nat] [7%nat] (ram 0x130) false;
            mkBlockBasic [] [9%nat] [6%nat] (ram 0x140) false;
            mkBlockBasic [] [9%nat] [6%nat] (ram 0x150) false;
            mkBlockBasic [3%nat] [4%nat; 5%nat] [7%nat] (ram 0x160) false;
            mkBlockBasic [1%nat; 0%nat] [3%nat; 6%nat] [] (ram 0x170) false;
            mkBlockBasic [] [0%nat] [1%nat; 2%nat] (ram 0x180) false;
            mkBlockBasic [] [0%nat] [4%nat; 5%nat] (ram 0x190) false ].

(** The traversal as [execute] starts it on input 1 of the call [op]. *)
Definition ex_walk (op : opptr) (vn : vnptr) (allowFail : bool) : AncestorRealistic :=
  mkAncestorRealistic ex_trial [State.mk op (Some vn) 1 0] [] 0 allowFail.

(** ** The linkage invariants of the store

    "Every reading operation appears exactly once in the reader list of
    each of its input variables", per slot: an op is in the reader list
    of a Varnode as many times as it has input slots that hold the
    Varnode; nothing refers to a Varnode or an op that is not in its
    bank. *)

Definition count_in {A} `{EqDecision A} (x : A) (l : list A) : nat :=
  length (filter (λ y, y = x) l).

(** The number of input slots of [o] that hold [vn]. *)
Definition reads (o : PcodeOp) (vn : vnptr) : nat := count_in (Some vn) (inrefs o).

Definition readers_wf (fd : Funcdata) : Prop :=
  (∀ op o vn v, obank fd !! op = Some o → vbank fd !! vn = Some v →
     count_in op (descend v) = reads o vn)
  ∧ (∀ op o slot vn, obank fd !! op = Some o →
       inrefs o !! slot = Some (Some vn) → is_Some (vbank fd !! vn))
  ∧ (∀ vn v op, vbank fd !! vn = Some v → op ∈ descend v →
       is_Some (obank fd !! op)).

(** The creation index is ahead of every Varnode of the bank. *)
Definition vbank_fresh (fd : Funcdata) : Prop :=
  ∀ j, (vbank_create_index fd ≤ j)%nat → vbank fd !! j = None.

(** The invariant as a test on the Varnodes and ops of an example store. *)
Definition readers_wfb (vns : list Varnode) (ops : list PcodeOp) : bool :=
  forallb (λ p : nat * PcodeOp,
     forallb (λ q : nat * Varnode,
        Nat.eqb (count_in p.1 (descend q.2)) (reads p.2 q.1))
       (imap pair vns))
    (imap pair ops)
  && forallb (λ o : PcodeOp,
       forallb (λ r : option vnptr,
          match r with Some vn => Nat.ltb vn (length vns) | None => true end)
         (inrefs o)) ops
  && forallb (λ v : Varnode, forallb (λ op, Nat.ltb op (length ops)) (descend v)) vns.

(** "A variable has a pointer to its defining operation": the output of
    an op is a Varnode of the bank whose definer is the op, and the
    definer of a Varnode is an op of the bank whose output is the
    Varnode. *)
Definition defs_wf (fd : Funcdata) : Prop :=
  (∀ op o vn, obank fd !! op = Some o → getOut o = Some vn →
     ∃ v, vbank fd !! vn = Some v ∧ getDef v = Some op)
  ∧ (∀ vn v op, vbank fd !! vn = Some v → getDef v = Some op →
       ∃ o, obank fd !! op = Some o ∧ getOut o = Some vn).

(** The op list of a block holds ops of the bank that the block owns,
    each once; an op that has an owning block is in the op list of that
    block. *)
Definition blocks_wf (fd : Funcdata) : Prop :=
  (∀ bl b, bblocks fd !! bl = Some b →
     NoDup (bl_op b)
     ∧ ∀ op, op ∈ bl_op b → ∃ o, obank fd !! op = Some o ∧ getParent o = Some bl)
  ∧ (∀ op o bl, obank fd !! op = Some o → getParent o = Some bl →
       ∃ b, bblocks fd !! bl = Some b ∧ op ∈ bl_op b).

Definition defs_wfb (vns : list Varnode) (ops : list PcodeOp) : bool :=
  forallb (λ p : nat * PcodeOp,
     match getOut p.2 with
     | Some vn => match vns !! vn with
                  | Some v => bool_decide (getDef v = Some p.1)
                  | None => false
                  end
     | None => true
     end) (imap pair ops)
  && forallb (λ q : nat * Varnode,
       match getDef q.2 with
       | Some op => match ops !! op with
                    | Some o => bool_decide (getOut o = Some q.1)
                    | None => false
                    end
       | None => true
       end) (imap pair vns).

Definition blocks_wfb (ops : list PcodeOp) (bls : list BlockBasic) : bool :=
  forallb (λ p : nat * BlockBasic,
     bool_decide (NoDup (bl_op p.2))
     && forallb (λ op, match ops !! op with
                       | Some o => bool_decide (getParent o = Some p.1)
                       | None => false
                       end) (bl_op p.2)) (imap pair bls)
  && forallb (λ p : nat * PcodeOp,
       match getParent p.2 with
       | Some bl => match bls !! bl with
                    | Some b => bool_decide (p.1 ∈ bl_op b)
                    | None => false
                    end
       | None => true
       end) (imap pair ops).

(** Nothing of a Varnode of the first store differs in the second but,
    possibly, its reader list. *)
Definition same_but_readers (fd fd' : Funcdata) : Prop :=
  ∀ x xv, vbank fd !! x = Some xv →
    ∃ xv', vbank fd' !! x = Some xv' ∧ vn_setDescend [] xv' = vn_setDescend [] xv.

(** What a slot that held [r] holds once the reads of [vn] are being
    replaced by [newvn], whose record is [nv]: the same as before, or,
    where it held [vn], a Varnode other than [vn] that has the size and
    the offset of [newvn] and is a constant when [newvn] is; it is [newvn]
    itself unless [newvn] is a constant that is not a spacebase. *)
Definition redirecting (fd' : Funcdata) (vn newvn : vnptr) (nv : Varnode)
    (r r' : option vnptr) : Prop :=
  r' = r
  ∨ (r = Some vn
     ∧ ∃ t tv, r' = Some t ∧ t ≠ vn ∧ vbank fd' !! t = Some tv
         ∧ getSize tv = getSize nv ∧ vn_getOffset tv = vn_getOffset nv
         ∧ isConstant tv = isConstant nv
         ∧ (isConstant nv && negb (isSpacebase nv) = false → t = newvn)).

(** The same once no read of [vn] is left. *)
Definition redirected (fd' : Funcdata) (vn newvn : vnptr) (nv : Varnode)
    (r r' : option vnptr) : Prop :=
  r' ≠ Some vn ∧ redirecting fd' vn newvn nv r r'.

(** ** Taking an op out of its block *)

(** Modelled from the spec: an op has "an owning basic block pointer (or
    dead)" and "may be un-inserted (move to dead list) and re-inserted":
    [BlockBasic::removeOp] takes the op out of the op list of the block,
    at the position of the op, and clears the owning block of the op. *)
Definition BlockBasic_removeOp (bl : blptr) (op : opptr) : M unit :=
  b <- getBlock bl ;;
  match index_of op (bl_op b) 0 with
  | Some i =>
      modOp op (op_setParent None) ;;
      modBlock bl (fun b =>
        mkBlockBasic (delete i (bl_op b)) (bl_intothis b)
                     (bl_outofthis b) (getStart b) (bl_isDead b))
  | None => throw Fault
  end.

Definition opUninsert (op : opptr) : M unit :=
  PcodeOpBank_markDead op ;;
  o <- getOp op ;;
  match getParent o with
  | Some bl => BlockBasic_removeOp bl op
  | None => throw Fault
  end.

Definition opUnlink (op : opptr) : M unit :=
  (* Unlink input and output varnodes *)
  opUnsetOutput op ;;
  o <- getOp op ;;
  forM_ (List.seq 0 (numInput o)) (fun i => opUnsetInput op i) ;;
  o <- getOp op ;;
  when (bool_decide (getParent o ≠ None))   (* Remove us from basic block *)
    (opUninsert op).

(** ** Destroying a Varnode *)

(** [vn->destroyDescend()]: the reader list is cleared. *)
Definition Varnode_destroyDescend (vn : vnptr) : M unit :=
  modVn vn (vn_setDescend []).

(** Modelled from the spec: variables are "destroyed only when free and
    referenced by nothing": [VarnodeBank::destroy] takes a free Varnode
    without readers out of the bank and refuses any other. *)
Definition VarnodeBank_destroy (vn : vnptr) : M unit :=
  v <- getVn vn ;;
  if isFree v && hasNoDescend v
  then modify (set_vbank (delete vn))
  else throw LowlevelError_NotFree.

Definition destroyVarnode (vn : vnptr) : M unit :=
  v <- getVn vn ;;
  forM_ (descend v) (fun op =>
    o <- getOp op ;;
    PcodeOp_clearInput op (getSlot o vn)) ;;
  match getDef v with
  | Some d => PcodeOp_setOutput d None ;; modVn vn (vn_setDef None)
  | None => ret tt
  end ;;
  Varnode_destroyDescend vn ;;
  VarnodeBank_destroy vn.

(** An op record with every reference to [vn] replaced by null. *)
Definition clear_ref (vn : vnptr) (r : option vnptr) : option vnptr :=
  if decide (r = Some vn) then None else r.

Definition without_refs (vn : vnptr) (o : PcodeOp) : PcodeOp :=
  op_setOut (clear_ref vn (getOut o)) (op_setInrefs (clear_ref vn <$> inrefs o) o).

(** ** The marks of the traversals *)

(** [fd] is the store [fd0] with the Varnodes of the work list, which
    were not marked, marked. *)
Definition marked_from (fd0 fd : Funcdata) (varlist : list nat) : Prop :=
  NoDup varlist
  ∧ (∀ x, x ∈ varlist →
       ∃ v0, vbank fd0 !! x = Some v0 ∧ isMark v0 = false
             ∧ vbank fd !! x = Some (vn_setMark v0))
  ∧ (∀ x, x ∉ varlist → vbank fd !! x = vbank fd0 !! x)
  ∧ fd = set_vbank (fun _ => vbank fd) fd0.

(** No Varnode of the store is marked. *)
Definition no_marks (fd : Funcdata) : Prop :=
  ∀ x v, vbank fd !! x = Some v → isMark v = false.

(** ** Destroying an op, setting all its inputs *)

Definition opDestroy (op : opptr) : M unit :=
  o <- getOp op ;;
  match getOut o with
  | Some out => destroyVarnode out
  | None => ret tt
  end ;;
  o <- getOp op ;;
  forM_ (List.seq 0 (numInput o)) (fun i =>
    vn <- getIn op i ;;
    when (bool_decide (vn ≠ None)) (opUnsetInput op i)) ;;
  o <- getOp op ;;
  match getParent o with
  | Some bl =>
      PcodeOpBank_markDead op ;;
      BlockBasic_removeOp bl op
  | None => ret tt
  end.

Definition opSetAllInput (op : opptr) (vvec : list vnptr) : M unit :=
  o <- getOp op ;;
  forM_ (List.seq 0 (numInput o)) (fun i =>
    vn <- getIn op i ;;
    when (bool_decide (vn ≠ None)) (opUnsetInput op i)) ;;
  PcodeOp_setNumInputs op (length vvec) ;;
  forM_ (List.seq 0 (length vvec)) (fun i =>
    match vvec !! i with
    | Some vn => opSetInput op vn i
    | None => throw Fault
    end).

(** The slot [r] holds the Varnode [vn] of the store [fd0] as
    [opSetInput] links it in [fd']: [vn] itself or, for a constant that
    is not a spacebase, possibly a constant of the same size and value. *)
Definition holds_input (fd0 fd' : Funcdata) (vn : vnptr) (r : option vnptr) : Prop :=
  ∃ t tv v0,
    r = Some t ∧ vbank fd0 !! vn = Some v0 ∧ vbank fd' !! t = Some tv
    ∧ getSize tv = getSize v0 ∧ vn_getOffset tv = vn_getOffset v0
    ∧ isConstant tv = isConstant v0
    ∧ (isConstant v0 && negb (isSpacebase v0) = false → t = vn).

(** ** The earliest read of a Varnode in a block *)

Definition earliestUseInBlock (vn : vnptr) (bl : blptr) : M (option opptr) :=
  v <- getVn vn ;;
  foldM (fun res op =>
    o <- getOp op ;;
    if decide (getParent o ≠ Some bl) then ret res
    else
      match res with
      | None => ret (Some op)
      | Some r =>
          ro <- getOp r ;;
          if (getOrder (getSeqNum o) <? getOrder (getSeqNum ro))%nat
          then ret (Some op)
          else ret res
      end) (descend v) None.

(** [res] is an op of the list [l] that stands in block [bl] and no op of
    [l] in [bl] comes before it; there is none when no op of [l] stands
    in [bl]. *)
Definition earliest_in (fd : Funcdata) (bl : blptr) (l : list opptr)
    (res : option opptr) : Prop :=
  match res with
  | None => ∀ op o, op ∈ l → obank fd !! op = Some o → getParent o ≠ Some bl
  | Some r =>
      ∃ ro, r ∈ l ∧ obank fd !! r = Some ro ∧ getParent ro = Some bl
            ∧ ∀ op o, op ∈ l → obank fd !! op = Some o → getParent o = Some bl →
                (getOrder (getSeqNum ro) ≤ getOrder (getSeqNum o))%nat
  end.

(** ** Freeing the Varnodes that nothing refers to *)

(** The body of the loop of [clearDeadVarnodes], for one Varnode. *)
Definition clearDeadVarnodes_step (vn : vnptr) : M unit :=
  v <- getVn vn ;;
  if hasNoDescend v then
    when (isInput v && negb (isMark v))
      (when (isSpacebase v           (* Space base is always typelocked *)
             || negb (isTypeLock v))
         (VarnodeBank_makeFree vn ;;
          Varnode_clearCover vn)) ;;
    v <- getVn vn ;;
    when (isFree v) (VarnodeBank_destroy vn)
  else ret tt.

(** The loop visits every Varnode of the bank once; a round touches the
    Varnode it visits and no other. *)
Definition clearDeadVarnodes : M unit :=
  fd <- get ;;
  forM_ (map fst (map_to_list (vbank fd))) clearDeadVarnodes_step.

(** The Varnodes [clearDeadVarnodes] takes out of the bank: without
    readers, and free or an input that is not marked and not type-locked
    (or is a spacebase). *)
Definition is_dead (v : Varnode) : bool :=
  hasNoDescend v
  && (isFree v
      || (isInput v && negb (isMark v) && (isSpacebase v || negb (isTypeLock v)))).

(** ** A new op in front of another *)

(** The index of the next op is ahead of every op of the bank. *)
Definition obank_fresh (fd : Funcdata) : Prop :=
  ∀ j, (obank_uniqid fd ≤ j)%nat → obank fd !! j = None.

Definition newOpBefore (follow : opptr) (opc : OpCode) (in1 in2 : vnptr)
    (in3 : option vnptr) : M opptr :=
  f <- getOp follow ;;
  let size := match in3 with None => 2%nat | Some _ => 3%nat end in
  newop <- newOp size (getAddr (getSeqNum f)) ;;
  opSetOpcode newop opc ;;
  v1 <- getVn in1 ;;
  newUniqueOut (getSize v1) newop ;;
  opSetInput newop in1 0 ;;
  opSetInput newop in2 1 ;;
  match in3 with
  | Some in3 => opSetInput newop in3 2
  | None => ret tt
  end ;;
  opInsertBefore newop follow ;;
  ret newop.

(** ** Replacing the reads of a Varnode by the undefined constant *)

(** The invariants of the store together. *)
Definition store_wf (fd : Funcdata) : Prop :=
  readers_wf fd ∧ defs_wf fd ∧ blocks_wf fd ∧ vbank_fresh fd ∧ obank_fresh fd.

(** The op stands in a block that is marked dead. *)
Definition dead_in (fd : Funcdata) (o : PcodeOp) : Prop :=
  ∃ bl b, getParent o = Some bl ∧ bblocks fd !! bl = Some b ∧ bl_isDead b = true.

(** Every input slot of a MULTIEQUAL has its in-edge: the block of the op
    has an in-edge of that index, from a block of the store. *)
Definition in_edges_wf (fd : Funcdata) : Prop :=
  ∀ op o bl b i,
    obank fd !! op = Some o → code o = CPUI_MULTIEQUAL →
    getParent o = Some bl → bblocks fd !! bl = Some b → (i < numInput o)%nat →
    ∃ inbl, bl_intothis b !! i = Some inbl ∧ is_Some (bblocks fd !! inbl).

(** The op stands in a block that is not dead and has an in-edge. *)
Definition reader_has_in (fd : Funcdata) (op : opptr) : bool :=
  match obank fd !! op with
  | Some o =>
      match getParent o with
      | Some bl =>
          match bblocks fd !! bl with
          | Some b => negb (bl_isDead b) && negb (sizeIn b =? 0)%nat
          | None => false
          end
      | None => false
      end
  | None => false
  end.

(** The computation leaves the index of the next op alone. *)
Definition keeps_ouid {A} (c : M A) : Prop :=
  ∀ fd, post c fd (fun _ fd' => obank_uniqid fd' = obank_uniqid fd).

(** [t] is a constant of the value [val] that [fd0] does not have. *)
Definition new_const (fd0 fd : Funcdata) (size val : Z) (t : vnptr) : Prop :=
  vbank fd0 !! t = None
  ∧ ∃ tv, vbank fd !! t = Some tv ∧ getSize tv = size
          ∧ isConstant tv = true ∧ vn_getOffset tv = val.

(** What a read is replaced by: a constant of the value [val], or the
    output of a COPY of such a constant; [fd0] has none of them. *)
Definition reads_const (fd0 fd : Funcdata) (size val : Z) (t : vnptr) : Prop :=
  new_const fd0 fd size val t
  ∨ (vbank fd0 !! t = None
     ∧ ∃ tv c co bc,
         vbank fd !! t = Some tv ∧ getSize tv = size ∧ getDef tv = Some c
         ∧ obank fd0 !! c = None ∧ obank fd !! c = Some co
         ∧ code co = CPUI_COPY ∧ inrefs co = [Some bc]
         ∧ new_const fd0 fd size val bc).

(** What the loop of [descend2Undef] keeps while the readers [l] of [vn]
    are still to be visited: the store is consistent, the readers to come
    stand in blocks, and an op outside the dead blocks reads [vn] as many
    times as it is still to be visited. *)
Definition undef_inv (vn : vnptr) (fd : Funcdata) (l : list opptr) : Prop :=
  store_wf fd ∧ in_edges_wf fd ∧ is_Some (vbank fd !! vn)
  ∧ (∀ x, x ∈ l → ∃ o, obank fd !! x = Some o ∧ is_Some (getParent o))
  ∧ (∀ x o, obank fd !! x = Some o → ¬ dead_in fd o → reads o vn = count_in x l).

(** What replacing the reads of [vn] by a constant leaves of the store
    [fd]: an op keeps its op-code, output, block and number of inputs,
    and every slot that did not read [vn]; a slot that read [vn] reads it
    still or reads the constant, which the store [fd0] does not have; the
    new ops are COPYs that do not read [vn]; the blocks keep their flags
    and in-edges and the Varnodes everything but their readers. *)
Definition replace_frame (vn : vnptr) (size val : Z) (fd0 fd fd' : Funcdata) : Prop :=
  is_Some (vbank fd !! vn)
  ∧ (∀ x o, obank fd !! x = Some o →
       ∃ o', obank fd' !! x = Some o'
             ∧ code o' = code o ∧ getOut o' = getOut o ∧ getParent o' = getParent o
             ∧ numInput o' = numInput o
             ∧ (∀ slot r, inrefs o !! slot = Some r → r ≠ Some vn →
                  inrefs o' !! slot = Some r)
             ∧ (∀ slot, inrefs o !! slot = Some (Some vn) →
                  inrefs o' !! slot = Some (Some vn)
                  ∨ ∃ t, inrefs o' !! slot = Some (Some t)
                         ∧ reads_const fd0 fd' size val t))
  ∧ (∀ x o', obank fd' !! x = Some o' → obank fd !! x = None →
       code o' = CPUI_COPY ∧ Some vn ∉ inrefs o')
  ∧ (∀ bl, (λ b, (bl_isDead b, bl_intothis b)) <$> bblocks fd' !! bl
           = (λ b, (bl_isDead b, bl_intothis b)) <$> bblocks fd !! bl)
  ∧ same_but_readers fd fd'.

(** The ops of the dead blocks of [fd] are in [fd'] as they were. *)
Definition dead_kept (fd fd' : Funcdata) : Prop :=
  ∀ x o, obank fd !! x = Some o → dead_in fd o → obank fd' !! x = Some o.

(** ** The marks of [AncestorRealistic] *)

(** What holds of the result and the store when the computation returns. *)
Definition after {A} (c : M A) (fd : Funcdata) (Q : A → Funcdata → Prop) : Prop :=
  match c fd with
  | Ok a fd' => Q a fd'
  | Throw _ => True
  end.

(** The computation, when it returns, returns the store it was given. *)
Definition keeps_store {A} (c : M A) : Prop :=
  ∀ fd, after c fd (fun _ fd' => fd' = fd).

(** ** Truncating the data-flow through an INDIRECT *)

Definition truncateIndirect (indop : opptr) : M unit :=
  o <- getOp indop ;;
  outvn <- match getOut o with Some out => ret out | None => throw Fault end ;;
  ov <- getVn outvn ;;
  newin <- newConstant (getSize ov) 0 ;;
  modOp indop (op_setFlags {[PcodeOp_indirect_creation]}) ;;
  modVn newin (vn_setFlags {[Varnode_indirect_creation]}) ;;
  modVn outvn (vn_setFlags {[Varnode_indirect_creation]}) ;;
  opSetInput indop newin 0.

(** ** Replacing the reads of a Varnode by a constant *)

(** What the loop of [totalReplaceConstant] keeps while the readers [l]
    of [vn] are still to be visited, [fd0] being the store at the start
    and [cp] the COPY made for the marker reads, if any: the store is
    consistent, an op reads [vn] as many times as it is still to be
    visited, and the only new op is the COPY. *)
Definition const_inv (vn : vnptr) (size val : Z) (fd0 fd : Funcdata)
    (cp : option opptr) (l : list opptr) : Prop :=
  store_wf fd
  ∧ replace_frame vn size val fd0 fd0 fd
  ∧ (∀ x, x ∈ l → is_Some (obank fd !! x))
  ∧ (∀ x o, obank fd !! x = Some o → reads o vn = count_in x l)
  ∧ (∀ x, is_Some (obank fd !! x) → obank fd0 !! x = None → cp = Some x)
  ∧ match cp with
    | None => True
    | Some c =>
        ∃ co nr nrv,
          obank fd0 !! c = None
          ∧ obank fd !! c = Some co ∧ getOut co = Some nr
          ∧ vbank fd !! nr = Some nrv ∧ isConstant nrv = false
          ∧ reads_const fd0 fd size val nr
    end.

(** * Properties of the store *)

(** ** Stepping through the store monad *)

Lemma bind_Ok {A B} (c : M A) (k : A → M B) fd a fd' :
  c fd = Ok a fd' → bind c k fd = k a fd'.
Proof. intros H. unfold bind. by rewrite H. Qed.

Lemma bind_Throw {A B} (c : M A) (k : A → M B) fd e :
  c fd = Throw e → bind c k fd = Throw e.
Proof. intros H. unfold bind. by rewrite H. Qed.

Lemma bind_inv_Ok {A B} (c : M A) (k : A → M B) fd b fd2 :
  bind c k fd = Ok b fd2 → ∃ a fd1, c fd = Ok a fd1 ∧ k a fd1 = Ok b fd2.
Proof. unfold bind. destruct (c fd) as [a fd1|e]; [eauto | done]. Qed.

Lemma bind_assoc {A B C} (c : M A) (k1 : A → M B) (k2 : B → M C) fd :
  bind (bind c k1) k2 fd = bind c (fun x => bind (k1 x) k2) fd.
Proof. unfold bind. by destruct (c fd). Qed.

Lemma bind_ret_l {A B} (a : A) (k : A → M B) fd : bind (ret a) k fd = k a fd.
Proof. reflexivity. Qed.

Lemma getVn_Ok fd vn v : vbank fd !! vn = Some v → getVn vn fd = Ok v fd.
Proof. intros H. unfold getVn. by rewrite H. Qed.

Lemma getOp_Ok fd op o : obank fd !! op = Some o → getOp op fd = Ok o fd.
Proof. intros H. unfold getOp. by rewrite H. Qed.

Lemma getBlock_Ok fd bl b : bblocks fd !! bl = Some b → getBlock bl fd = Ok b fd.
Proof. intros H. unfold getBlock. by rewrite H. Qed.

Lemma modVn_Ok fd vn v f :
  vbank fd !! vn = Some v → modVn vn f fd = Ok tt (set_vbank (insert vn (f v)) fd).
Proof. intros H. unfold modVn. by rewrite (bind_Ok _ _ _ _ _ (getVn_Ok _ _ _ H)). Qed.

Lemma modOp_Ok fd op o f :
  obank fd !! op = Some o → modOp op f fd = Ok tt (set_obank (insert op (f o)) fd).
Proof. intros H. unfold modOp. by rewrite (bind_Ok _ _ _ _ _ (getOp_Ok _ _ _ H)). Qed.

Lemma modBlock_Ok fd bl b f :
  bblocks fd !! bl = Some b → modBlock bl f fd = Ok tt (set_bblocks (insert bl (f b)) fd).
Proof. intros H. unfold modBlock. by rewrite (bind_Ok _ _ _ _ _ (getBlock_Ok _ _ _ H)). Qed.

(** Reduction of the record projections and setters only: the finite
    sets and maps stay folded. *)
Ltac store_simpl :=
  cbn [vbank vbank_create_index vbank_uniqid obank obank_uniqid bblocks
       highlevel_on queryProperties hasEffect getCallSpecs
       set_vbank set_obank set_bblocks set_vbank_create_index
       set_vbank_uniqid set_obank_uniqid
       getSize vn_loc vn_flags getDef descend vn_cover vn_high mapentry
       vn_setFlags vn_clearFlags vn_setDef vn_setDescend vn_setCover
       vn_setHigh vn_setMapentry vn_setMark vn_clearMark
       code op_flags getOut inrefs getParent getSeqNum
       op_setCode op_setFlags op_clearFlags op_setOut op_setInrefs op_setParent
       bl_op bl_intothis bl_outofthis getStart bl_isDead
       fst snd] in *.

(** ** Unsetting the output of an op *)

Lemma isFree_makeFree (v : Varnode) :
  isFree (vn_clearFlags {[Varnode_input; Varnode_indirect_creation]}
            (vn_setDef None v)) = true.
Proof.
  unfold isFree, isWritten, isInput, vn_hasFlag. store_simpl.
  rewrite bool_decide_eq_false_2 by (apply is_Some_None).
  rewrite bool_decide_eq_false_2 by set_solver. done.
Qed.

(** ** Shape of the store after the factories *)

Lemma set_vbank_insert_id fd vn v :
  vbank fd !! vn = Some v → set_vbank (insert vn v) fd = fd.
Proof. intros H. destruct fd. unfold set_vbank. store_simpl. by rewrite insert_id. Qed.

Lemma set_vbank_insert_insert fd vn v1 v2 :
  set_vbank (insert vn v2) (set_vbank (insert vn v1) fd) = set_vbank (insert vn v2) fd.
Proof. unfold set_vbank. store_simpl. by rewrite insert_insert_eq. Qed.

Lemma set_obank_insert_insert fd op o1 o2 :
  set_obank (insert op o2) (set_obank (insert op o1) fd) = set_obank (insert op o2) fd.
Proof. unfold set_obank. store_simpl. by rewrite insert_insert_eq. Qed.

Lemma set_obank_vbank_comm fd f g :
  set_obank f (set_vbank g fd) = set_vbank g (set_obank f fd).
Proof. reflexivity. Qed.

Lemma same_links_refl v : same_links v v.
Proof. by repeat split. Qed.

Lemma same_links_trans v1 v2 v3 :
  same_links v1 v2 → same_links v2 v3 → same_links v1 v3.
Proof. unfold same_links. intros (?&?&?&?) (?&?&?&?). split_and!; congruence. Qed.

Lemma modVn_twice fd vn v f g :
  vbank fd !! vn = Some v →
  bind (modVn vn f) (fun _ => modVn vn g) fd
  = Ok tt (set_vbank (insert vn (g (f v))) fd).
Proof.
  intros H. rewrite (bind_Ok _ _ _ _ _ (modVn_Ok _ _ _ f H)).
  erewrite modVn_Ok by (store_simpl; apply lookup_insert_eq).
  by rewrite set_vbank_insert_insert.
Qed.

Lemma assignHigh_run fd vn v :
  vbank fd !! vn = Some v →
  ∃ v', assignHigh vn fd = Ok tt (set_vbank (insert vn v') fd)
        ∧ same_links v v' ∧ vn_flags v' = vn_flags v
        ∧ mapentry v' = mapentry v.
Proof.
  intros H. unfold assignHigh, bind at 1, get.
  destruct (highlevel_on fd) eqn:Hh.
  - rewrite (bind_Ok _ _ _ _ _ (getVn_Ok _ _ _ H)).
    unfold when.
    destruct (hasCover v) eqn:Hc, (isAnnotation v) eqn:Ha; cbn [negb].
    + exists (vn_calcCover v). rewrite (bind_Ok _ _ _ _ _ (modVn_Ok _ _ _ _ H)).
      split; [done |]. unfold vn_calcCover. rewrite Hc. by repeat split.
    + exists (vn_setHigh true (vn_calcCover v)). rewrite (modVn_twice _ _ _ _ _ H).
      split; [done |]. unfold vn_calcCover. rewrite Hc. by repeat split.
    + exists v. unfold bind, ret. rewrite set_vbank_insert_id by done.
      split; [done |]. by repeat split.
    + exists (vn_setHigh true v). unfold bind at 1, ret.
      rewrite (modVn_Ok _ _ _ _ H). split; [done |]. by repeat split.
  - exists v. unfold ret. rewrite set_vbank_insert_id by done.
    split; [done |]. by repeat split.
Qed.

Lemma VarnodeBank_create_run fd s m :
  VarnodeBank_create s m fd
  = Ok (vbank_create_index fd)
       (set_vbank_create_index (S (vbank_create_index fd))
          (set_vbank (insert (vbank_create_index fd)
                        (mkVarnode s m ∅ None [] false false None)) fd)).
Proof. reflexivity. Qed.

Lemma newConstant_run fd s val :
  ∃ c, newConstant s val fd = Ok (vbank_create_index fd) (fd_new_vn fd c)
       ∧ getSize c = s ∧ vn_loc c = getConstant val ∧ getDef c = None
       ∧ descend c = [] ∧ vn_flags c = ∅ ∧ mapentry c = None.
Proof.
  unfold newConstant.
  rewrite (bind_Ok _ _ _ _ _ (VarnodeBank_create_run _ _ _)).
  edestruct (assignHigh_run
    (set_vbank_create_index (S (vbank_create_index fd))
          (set_vbank (insert (vbank_create_index fd)
                        (mkVarnode s (getConstant val) ∅ None [] false false None)) fd))
    (vbank_create_index fd)) as (c & E & (?&?&?&?) & ? & ?).
  { store_simpl. apply lookup_insert_eq. }
  exists c. rewrite (bind_Ok _ _ _ _ _ E). split.
  - unfold ret, fd_new_vn, set_vbank, set_vbank_create_index. store_simpl.
    by rewrite insert_insert_eq.
  - store_simpl. by split_and!.
Qed.

(** ** Stepping tactic: unfold the primitives, resolve the look-ups *)

Ltac munfold :=
  unfold opSetOpcode, opSetFlag, opUnsetInput;
  unfold PcodeOp_clearInput;
  unfold PcodeOp_setInput, PcodeOp_setOutput, PcodeOp_setFlag,
         Varnode_addDescend, Varnode_eraseDescend, Varnode_clearCover,
         Varnode_copySymbol, VarnodeBank_makeFree, VarnodeBank_setDef,
         PcodeOpBank_changeOpcode, PcodeOpBank_markAlive, PcodeOpBank_markDead,
         getInVn;
  unfold getIn, modVn, modOp, modBlock, when;
  unfold getVn, getOp, getBlock, ret, get, modify, throw;
  unfold bind.

Ltac mlookup :=
  repeat first
    [ progress store_simpl
    | rewrite lookup_insert_eq
    | rewrite lookup_insert_ne by (first [done | congruence | lia])
    | match goal with
      | H : ?m !! ?k = _ |- context [?m !! ?k] => rewrite H
      end
    | rewrite bool_decide_eq_true_2 by (first [done | congruence | lia])
    | rewrite bool_decide_eq_false_2 by (first [done | congruence | lia])
    | rewrite decide_True by (first [done | congruence | lia])
    | rewrite decide_False by (first [done | congruence | lia])
    | progress cbv beta iota ].

Ltac mrun := munfold; mlookup.

Lemma erase_first_elem_of op l : op ∈ l → is_Some (erase_first op l).
Proof.
  induction l as [|x l IH]; [by intros ?%elem_of_nil |].
  intros Hin. cbn. destruct (decide (x = op)); [done |].
  apply elem_of_cons in Hin as [->|Hin]; [done |].
  destruct (IH Hin) as [r ->]. done.
Qed.

Lemma erase_first_length op l r :
  erase_first op l = Some r → length l = S (length r).
Proof.
  revert r. induction l as [|x l IH]; intros r; cbn; [done |].
  destruct (decide (x = op)); [by intros [= ->] |].
  destruct (erase_first op l) as [r'|]; [| done].
  intros [= <-]. cbn. by rewrite (IH r').
Qed.

(** ** Setting an input to a constant that already has a reader *)

Lemma opSetInput_duplicates_constant (fd : Funcdata) (op : nat) (o : PcodeOp)
    (vn : nat) (v : Varnode) (slot : nat) (cur : option nat) :
  obank fd !! op = Some o →
  inrefs o !! slot = Some cur →
  cur ≠ Some vn →
  (∀ w, cur = Some w → ∃ wv, vbank fd !! w = Some wv ∧ op ∈ descend wv) →
  vbank fd !! vn = Some v →
  vbank fd !! vbank_create_index fd = None →
  isConstant v = true → hasNoDescend v = false → isSpacebase v = false →
  ∃ fd' o' c,
    opSetInput op vn slot fd = Ok tt fd'
    ∧ vbank_create_index fd ≠ vn
    ∧ obank fd' !! op = Some o'
    ∧ inrefs o' = <[slot := Some (vbank_create_index fd)]> (inrefs o)
    ∧ code o' = code o ∧ getOut o' = getOut o
    ∧ vbank fd' !! vbank_create_index fd = Some c
    ∧ isConstant c = true ∧ getSize c = getSize v
    ∧ vn_getOffset c = vn_getOffset v
    ∧ getDef c = None ∧ descend c = [op]
    ∧ vbank fd' !! vn = Some v.
Proof.
  intros Hop Hslot Hcur Hold Hvn Hfresh Hc Hd Hs.
  assert (Hne : vbank_create_index fd ≠ vn) by congruence.
  assert (Hlt : (slot < numInput o)%nat) by (by eapply lookup_lt_Some).
  unfold opSetInput.
  assert (Hin : getIn op slot fd = Ok cur fd) by (by mrun).
  rewrite (bind_Ok _ _ _ _ _ Hin).
  destruct (decide (Some vn = cur)) as [|_]; [congruence |].
  rewrite (bind_Ok _ _ _ _ _ (getVn_Ok _ _ _ Hvn)).
  rewrite Hc, Hd, Hs. cbn [andb negb].
  destruct (newConstant_run fd (getSize v) (vn_getOffset v))
    as (c0 & E0 & Hsz & Hloc & Hdef & Hdesc & Hfl & Hme).
  rewrite bind_assoc, (bind_Ok _ _ _ _ _ E0). unfold fd_new_vn.
  set (cvn := vbank_create_index fd) in *.
  destruct cur as [w|].
  - destruct (Hold w eq_refl) as (wv & Hw & Hwin).
    assert (Hwne : cvn ≠ w) by congruence.
    assert (Hwvn : w ≠ vn) by congruence.
    destruct (erase_first_elem_of _ _ Hwin) as [l Hl].
    mrun. rewrite Hl. mlookup.
    destruct (decide (slot < numInput o)%nat); [| lia]. mlookup.
    unfold numInput. store_simpl. rewrite length_insert.
    destruct (decide (slot < length (inrefs o))%nat); [| unfold numInput in *; lia].
    mlookup. rewrite list_insert_insert_eq.
    eexists _, _, _. split; [reflexivity |]. mlookup.
    split_and!; try done.
    + unfold isConstant. store_simpl. by rewrite Hloc.
    + unfold vn_getOffset. store_simpl. by rewrite Hloc.
    + by rewrite Hdesc.
  - mrun.
    destruct (decide (slot < numInput o)%nat); [| lia]. mlookup.
    eexists _, _, _. split; [reflexivity |]. mlookup.
    split_and!; try done.
    + unfold isConstant. store_simpl. by rewrite Hloc.
    + unfold vn_getOffset. store_simpl. by rewrite Hloc.
    + by rewrite Hdesc.
Qed.

(** ** Inversion of successful runs *)

Lemma getVn_inv fd vn v fd' :
  getVn vn fd = Ok v fd' → vbank fd !! vn = Some v ∧ fd' = fd.
Proof. unfold getVn. destruct (vbank fd !! vn); [by intros [= -> ->] | done]. Qed.

Lemma getOp_inv fd op o fd' :
  getOp op fd = Ok o fd' → obank fd !! op = Some o ∧ fd' = fd.
Proof. unfold getOp. destruct (obank fd !! op); [by intros [= -> ->] | done]. Qed.

Lemma modVn_inv fd vn f u fd' :
  modVn vn f fd = Ok u fd' →
  ∃ v, vbank fd !! vn = Some v ∧ fd' = set_vbank (insert vn (f v)) fd.
Proof.
  unfold modVn. intros (v & fd1 & [Hv ->]%getVn_inv & H)%bind_inv_Ok.
  exists v. split; [done |]. unfold modify in H. congruence.
Qed.

Lemma modOp_inv fd op f u fd' :
  modOp op f fd = Ok u fd' →
  ∃ o, obank fd !! op = Some o ∧ fd' = set_obank (insert op (f o)) fd.
Proof.
  unfold modOp. intros (o & fd1 & [Ho ->]%getOp_inv & H)%bind_inv_Ok.
  exists o. split; [done |]. unfold modify in H. congruence.
Qed.

Lemma getIn_inv fd op slot r fd' :
  getIn op slot fd = Ok r fd' →
  ∃ o, obank fd !! op = Some o ∧ inrefs o !! slot = Some r ∧ fd' = fd.
Proof.
  unfold getIn. intros (o & fd1 & [Ho ->]%getOp_inv & H)%bind_inv_Ok.
  exists o. destruct (inrefs o !! slot); [| done].
  unfold ret in H. split_and!; congruence.
Qed.

(** ** The single-reader rule for constants *)

Lemma single_reader_modVn fd vn v f :
  vbank fd !! vn = Some v →
  (isConstant (f v) = true → isSpacebase (f v) = false →
   length (descend (f v)) ≤ 1)%nat →
  single_reader fd → single_reader (set_vbank (insert vn (f v)) fd).
Proof.
  intros Hv Hf Hs x xv. store_simpl.
  destruct (decide (x = vn)) as [->|Hne].
  - rewrite lookup_insert_eq. intros [= <-]. done.
  - rewrite lookup_insert_ne by done. apply Hs.
Qed.

Lemma assignHigh_vbank fd vn u fd' :
  assignHigh vn fd = Ok u fd' →
  fd' = fd ∨ ∃ v v', vbank fd !! vn = Some v ∧ fd' = set_vbank (insert vn v') fd
                     ∧ same_links v v' ∧ vn_flags v' = vn_flags v.
Proof.
  intros H.
  destruct (vbank fd !! vn) as [v|] eqn:Hv.
  - destruct (assignHigh_run fd vn v Hv) as (v' & E & Hl & Hf & _).
    right. exists v, v'. rewrite E in H. split_and!; first [done | congruence].
  - left. unfold assignHigh, bind at 1, get in H.
    destruct (highlevel_on fd).
    + apply bind_inv_Ok in H as (? & ? & [? ?]%getVn_inv & _). congruence.
    + unfold ret in H. congruence.
Qed.

Lemma opSetInput_single_reader (fd fd' : Funcdata) (op vn slot : nat) :
  opSetInput op vn slot fd = Ok tt fd' →
  single_reader fd → single_reader fd'.
Proof.
  unfold opSetInput.
  intros (cur & fd0 & (o & Ho & Hslot & ->)%getIn_inv & H)%bind_inv_Ok Hs.
  destruct (decide (Some vn = cur)) as [|_].
  { unfold ret in H. injection H as <-. done. }
  apply bind_inv_Ok in H as (v & fd0 & [Hv ->]%getVn_inv & H).
  apply bind_inv_Ok in H as (t & fd1 & Ht & H).
  (* the Varnode to link, [t], has no reader if the rule applies to it *)
  assert (Hat : single_reader_at t fd1).
  { destruct (isConstant v && negb (hasNoDescend v) && negb (isSpacebase v)) eqn:Hc.
    - apply bind_inv_Ok in Ht as (cvn & fd2 & Hn & Ht).
      destruct (newConstant_run fd (getSize v) (vn_getOffset v))
        as (c0 & E0 & ? & ? & ? & Hd0 & ? & ?).
      rewrite E0 in Hn. injection Hn as <- <-.
      apply bind_inv_Ok in Ht as ([] & fd3 & Hcs & Ht).
      unfold ret in Ht. injection Ht as <- <-.
      unfold Varnode_copySymbol in Hcs.
      apply bind_inv_Ok in Hcs as (f & fd4 & [Hf ->]%getVn_inv & Hcs).
      apply modVn_inv in Hcs as (c1 & Hc1 & ->).
      unfold fd_new_vn in *. store_simpl.
      rewrite lookup_insert_eq in Hc1. injection Hc1 as <-.
      split.
      + intros y yv. store_simpl. rewrite insert_insert_eq.
        destruct (decide (y = vbank_create_index fd)) as [->|Hne].
        * rewrite lookup_insert_eq. intros [= <-]. store_simpl. rewrite Hd0.
          intros _ _. cbn. lia.
        * rewrite lookup_insert_ne by done. apply Hs.
      + intros tv. store_simpl. rewrite lookup_insert_eq. intros [= <-].
        store_simpl. done.
    - unfold ret in Ht. injection Ht as <- <-. split; [done |].
      intros tv. rewrite Hv. intros [= <-] Hc1 Hs1.
      rewrite Hc1, Hs1 in Hc. cbn in Hc.
      unfold hasNoDescend in Hc. by destruct (descend v). }
  clear Ht Hs.
  apply bind_inv_Ok in H as ([] & fd2 & Hu & H).
  (* unlinking the old input only shortens a reader list *)
  assert (Hat2 : single_reader_at t fd2).
  { unfold when in Hu. destruct (bool_decide (cur ≠ None)).
    2: { unfold ret in Hu. injection Hu as <-. done. }
    unfold opUnsetInput in Hu.
    apply bind_inv_Ok in Hu as (w & fd3 & Hw & Hu).
    unfold getInVn in Hw.
    apply bind_inv_Ok in Hw as (r & fd4 & (? & ? & ? & ->)%getIn_inv & Hw).
    destruct r as [w'|]; [| done]. unfold ret in Hw. injection Hw as -> ->.
    apply bind_inv_Ok in Hu as ([] & fd5 & He & Hu).
    unfold Varnode_eraseDescend in He.
    apply bind_inv_Ok in He as (wv & fd6 & [Hwv ->]%getVn_inv & He).
    destruct (erase_first op (descend wv)) as [l|] eqn:El; [| done].
    apply modVn_inv in He as (wv' & Hwv' & ->).
    assert (wv' = wv) as -> by congruence.
    apply erase_first_length in El.
    unfold PcodeOp_clearInput, PcodeOp_setInput in Hu.
    apply bind_inv_Ok in Hu as (o2 & fd7 & [Ho2 ->]%getOp_inv & Hu).
    destruct (decide (slot < numInput o2)%nat); [| done].
    apply modOp_inv in Hu as (o3 & Ho3 & ->).
    destruct Hat as [Hs Ht]. split.
    - intros y yv. store_simpl.
      destruct (decide (y = w)) as [->|Hne].
      + rewrite lookup_insert_eq. intros [= <-]. store_simpl.
        intros Hc1 Hs1. specialize (Hs _ _ Hwv Hc1 Hs1). lia.
      + rewrite lookup_insert_ne by done. apply Hs.
    - intros tv. store_simpl.
      destruct (decide (t = w)) as [->|Hne].
      + rewrite lookup_insert_eq. intros [= <-]. store_simpl.
        intros Hc1 Hs1. specialize (Ht _ Hwv Hc1 Hs1). rewrite Ht in El. done.
      + rewrite lookup_insert_ne by done. apply Ht. }
  clear Hu Hat.
  apply bind_inv_Ok in H as ([] & fd3 & Ha & H).
  unfold Varnode_addDescend in Ha.
  apply modVn_inv in Ha as (tv & Htv & ->).
  unfold PcodeOp_setInput in H.
  apply bind_inv_Ok in H as (o2 & fd7 & [Ho2 ->]%getOp_inv & H).
  destruct (decide (slot < numInput o2)%nat); [| done].
  apply modOp_inv in H as (o3 & Ho3 & ->).
  destruct Hat2 as [Hs Ht].
  intros y yv. store_simpl.
  destruct (decide (y = t)) as [->|Hne].
  - rewrite lookup_insert_eq. intros [= <-]. store_simpl.
    intros Hc1 Hs1. rewrite (Ht _ Htv Hc1 Hs1). cbn. lia.
  - rewrite lookup_insert_ne by done. apply Hs.
Qed.

(** ** Assigning an output that is already bound *)

Lemma setVarnodeProperties_run fd vn v :
  vbank fd !! vn = Some v →
  ∃ v', setVarnodeProperties vn fd = Ok tt (set_vbank (insert vn v') fd)
        ∧ same_links v v'.
Proof.
  intros H. unfold setVarnodeProperties, SymbolEntry_updateType, vn_calcCover.
  mrun.
  destruct (isMapped v); cbn [negb];
    [| destruct (queryProperties fd (vn_loc v) (getSize v)) as [[e|] fl];
       [destruct (entry_isTypeLocked e) |] ];
    mlookup;
    destruct (highlevel_on fd);
    repeat (mlookup;
            match goal with
            | |- context [negb (vn_cover ?x)] => destruct (vn_cover x); cbn [negb]
            | |- context [if hasCover ?x then _ else _] => destruct (hasCover x)
            end);
    mlookup; rewrite ?set_vbank_insert_insert;
    first [ by (eexists; split; [reflexivity | repeat split])
          | by (exists v; rewrite set_vbank_insert_id by done; repeat split) ].
Qed.

Lemma opUnsetOutput_run fd op o vn v :
  obank fd !! op = Some o → getOut o = Some vn → vbank fd !! vn = Some v →
  opUnsetOutput op fd
  = Ok tt (set_vbank (insert vn (vn_setCover false
                        (vn_clearFlags {[Varnode_input; Varnode_indirect_creation]}
                           (vn_setDef None v))))
             (set_obank (insert op (op_setOut None o)) fd)).
Proof.
  intros Hop Hout Hvn. unfold opUnsetOutput. mrun. rewrite Hout. mrun.
  by rewrite set_vbank_insert_insert.
Qed.

(** ** Insertion at the beginning and at the end of a block *)

Lemma lookup_list_insert_at {A} (k : nat) (x : A) (l : list A) (i : nat) :
  (k ≤ length l)%nat →
  list_insert_at k x l !! i
  = if decide (i < k)%nat then l !! i
    else if decide (i = k) then Some x else l !! (i - 1)%nat.
Proof.
  intros Hk. unfold list_insert_at.
  destruct (decide (i < k)%nat).
  - rewrite lookup_app_l by (rewrite length_take; lia).
    by rewrite lookup_take_lt.
  - rewrite lookup_app_r by (rewrite length_take; lia).
    rewrite length_take, Nat.min_l by lia.
    destruct (decide (i = k)) as [->|].
    + by rewrite Nat.sub_diag.
    + rewrite lookup_cons_ne_0 by lia.
      rewrite lookup_drop. f_equal. lia.
Qed.

Lemma length_list_insert_at {A} (k : nat) (x : A) (l : list A) :
  length (list_insert_at k x l) = S (length l).
Proof.
  unfold list_insert_at. rewrite length_app. cbn.
  rewrite length_take, length_drop. lia.
Qed.

Lemma count_prefix_le p cs : (count_prefix p cs ≤ length cs)%nat.
Proof. induction cs as [|c cs IH]; cbn; [lia |]. destruct (p c); cbn; lia. Qed.

Lemma count_prefix_lt p cs i c :
  (i < count_prefix p cs)%nat → cs !! i = Some c → p c = true.
Proof.
  revert i. induction cs as [|c' cs IH]; intros i; cbn; [lia |].
  destruct (p c') eqn:E; [| lia].
  destruct i as [|i]; cbn; [by intros _ [= <-] |].
  intros ? ?. apply (IH i); [lia | done].
Qed.

Lemma count_prefix_at p cs c :
  cs !! count_prefix p cs = Some c → p c = false.
Proof.
  induction cs as [|c' cs IH]; cbn; [done |].
  destruct (p c') eqn:E; cbn; [done | by intros [= <-]].
Qed.

(** Inserting an op that is not a MULTIEQUAL where no MULTIEQUAL follows. *)
Lemma multiequal_first_insert (cs : list OpCode) (k : nat) (c : OpCode) :
  (k ≤ length cs)%nat →
  c ≠ CPUI_MULTIEQUAL →
  (∀ j cj, (k ≤ j)%nat → cs !! j = Some cj → cj ≠ CPUI_MULTIEQUAL) →
  multiequal_first cs → multiequal_first (list_insert_at k c cs).
Proof.
  intros Hk Hc Hafter Hm i j ci Hij.
  rewrite !lookup_list_insert_at by done.
  repeat case_decide; subst; try lia.
  - apply Hm. done.
  - intros _ [=]. done.
  - intros _ Hj. exfalso. eapply (Hafter (j - 1)%nat); [lia | done | done].
  - intros _ Hj. exfalso. eapply (Hafter (j - 1)%nat); [lia | done | done].
  - intros _ Hj. exfalso. eapply (Hafter (j - 1)%nat); [lia | done | done].
Qed.

Lemma multiequal_first_cons (cs : list OpCode) :
  multiequal_first cs → multiequal_first (list_insert_at 0 CPUI_MULTIEQUAL cs).
Proof.
  intros Hm i j ci Hij. unfold list_insert_at. rewrite take_0, drop_0. cbn.
  destruct i as [|i]; cbn; [by intros [= <-] |].
  destruct j as [|j]; [lia |]. cbn. apply Hm. lia.
Qed.

(** Inserting an op that is not a branch where no branch precedes. *)
Lemma branch_last_insert (cs : list OpCode) (k : nat) (c : OpCode) :
  (k ≤ length cs)%nat →
  opc_isFlowBreak c = false →
  (∀ i c', (i < k)%nat → cs !! i = Some c' → opc_isFlowBreak c' = false) →
  branch_last cs → branch_last (list_insert_at k c cs).
Proof.
  intros Hk Hc Hbefore Hb i c'.
  rewrite lookup_list_insert_at, length_list_insert_at by done.
  repeat case_decide; subst.
  - intros Hi Hf. rewrite (Hbefore i c') in Hf; done.
  - intros [= <-]. congruence.
  - intros Hi Hf. pose proof (Hb _ _ Hi Hf). lia.
Qed.

(** Inserting any op below a block without a branch. *)
Lemma branch_last_snoc (cs : list OpCode) (c : OpCode) :
  (∀ i c', cs !! i = Some c' → opc_isFlowBreak c' = false) →
  branch_last (list_insert_at (length cs) c cs).
Proof.
  intros Hn i c'.
  rewrite lookup_list_insert_at, length_list_insert_at by done.
  repeat case_decide; subst; [| done |].
  - intros Hi Hf. rewrite (Hn _ _ Hi) in Hf. done.
  - intros Hi%lookup_lt_Some. lia.
Qed.

Lemma count_while_run fd p l cs :
  Forall2 (fun op c => ∃ o, obank fd !! op = Some o ∧ code o = c) l cs →
  count_while p l fd = Ok (count_prefix p cs) fd.
Proof.
  induction 1 as [|op c l cs (o & Ho & <-) _ IH]; [done |].
  cbn. rewrite (bind_Ok _ _ _ _ _ (getOp_Ok _ _ _ Ho)).
  destruct (p (code o)); [| done].
  by rewrite (bind_Ok _ _ _ _ _ IH).
Qed.

Lemma opInsert_run fd op o bl b iter :
  obank fd !! op = Some o → bblocks fd !! bl = Some b →
  opInsert op bl iter fd
  = Ok tt (set_bblocks
             (insert bl (mkBlockBasic (list_insert_at iter op (bl_op b))
                           (bl_intothis b) (bl_outofthis b) (getStart b) (bl_isDead b)))
             (set_obank
                (insert op (op_setParent (Some bl) (op_clearFlags {[PcodeOp_dead]} o)))
                fd)).
Proof.
  intros Ho Hb. unfold opInsert, BlockBasic_insert. mrun.
  by rewrite set_obank_insert_insert.
Qed.

(** The op-codes of the block once [op] stands at position [k]. *)
Lemma block_codes_insert fd op o bl b cs k :
  obank fd !! op = Some o →
  block_codes fd b cs →
  block_codes
    (set_bblocks
       (insert bl (mkBlockBasic (list_insert_at k op (bl_op b))
                     (bl_intothis b) (bl_outofthis b) (getStart b) (bl_isDead b)))
       (set_obank
          (insert op (op_setParent (Some bl) (op_clearFlags {[PcodeOp_dead]} o)))
          fd))
    (mkBlockBasic (list_insert_at k op (bl_op b))
       (bl_intothis b) (bl_outofthis b) (getStart b) (bl_isDead b))
    (list_insert_at k (code o) cs).
Proof.
  intros Ho Hc. unfold block_codes in *. store_simpl.
  assert (Hc' : Forall2 (fun op' c => ∃ o',
      <[op := op_setParent (Some bl) (op_clearFlags {[PcodeOp_dead]} o)]> (obank fd)
        !! op' = Some o' ∧ code o' = c) (bl_op b) cs).
  { eapply Forall2_impl; [exact Hc |]. intros x c (ox & Hx & <-).
    destruct (decide (x = op)) as [->|Hne].
    - rewrite lookup_insert_eq. eexists. split; [done |]. store_simpl. congruence.
    - rewrite lookup_insert_ne by done. eauto. }
  unfold list_insert_at. apply Forall2_app; [by apply Forall2_take |].
  constructor; [| by apply Forall2_drop].
  rewrite lookup_insert_eq. eexists. split; [done |]. done.
Qed.

Lemma Forall2_last_code fd l cs x :
  Forall2 (fun op c => ∃ o, obank fd !! op = Some o ∧ code o = c) l cs →
  last l = Some x →
  ∃ o, obank fd !! x = Some o ∧ last cs = Some (code o).
Proof.
  intros HF Hl. rewrite last_lookup in Hl.
  destruct (Forall2_lookup_l _ _ _ _ _ HF Hl) as (c & Hc & o & Ho & <-).
  exists o. split; [done |]. rewrite last_lookup.
  by rewrite <- (Forall2_length _ _ _ HF).
Qed.

Lemma opInsertBegin_ordered fd bl b cs op o :
  bblocks fd !! bl = Some b → block_codes fd b cs →
  multiequal_first cs → branch_last cs →
  obank fd !! op = Some o →
  opc_isFlowBreak (code o) = false →
  ∃ fd' b',
    opInsertBegin op bl fd = Ok tt fd'
    ∧ block_ordered fd' bl
    ∧ bblocks fd' !! bl = Some b'
    ∧ bl_op b' = list_insert_at
                   (if decide (code o ≠ CPUI_MULTIEQUAL)
                    then count_prefix (is_code CPUI_MULTIEQUAL) cs else 0%nat)
                   op (bl_op b).
Proof.
  intros Hb Hc Hm Hl Ho Hf.
  pose proof (Forall2_length _ _ _ Hc) as Hlen.
  unfold opInsertBegin.
  rewrite (bind_Ok _ _ _ _ _ (getBlock_Ok _ _ _ Hb)).
  rewrite (bind_Ok _ _ _ _ _ (getOp_Ok _ _ _ Ho)).
  set (k := if decide (code o ≠ CPUI_MULTIEQUAL)
            then count_prefix (is_code CPUI_MULTIEQUAL) cs else 0%nat).
  assert (Hk : (k ≤ length cs)%nat).
  { subst k. case_decide; [apply count_prefix_le | lia]. }
  assert (E : (if decide (code o ≠ CPUI_MULTIEQUAL)
               then count_while (is_code CPUI_MULTIEQUAL) (bl_op b)
               else ret 0%nat) fd = Ok k fd).
  { subst k. case_decide; [by apply count_while_run | done]. }
  rewrite (bind_Ok _ _ _ _ _ E), (opInsert_run _ _ _ _ _ _ Ho Hb).
  eexists _, _. split; [reflexivity |]. split; [| by mlookup].
  eexists _, (list_insert_at k (code o) cs). split; [by mlookup |].
  split; [by apply block_codes_insert |].
  assert (Hbefore : ∀ i c', (i < k)%nat → cs !! i = Some c' → c' = CPUI_MULTIEQUAL).
  { subst k. case_decide; [| lia]. intros i c' Hi Hc'.
    pose proof (count_prefix_lt _ _ _ _ Hi Hc') as Hp.
    unfold is_code in Hp. by apply bool_decide_eq_true in Hp. }
  split.
  - subst k. case_decide as Hmulti.
    + apply multiequal_first_insert; [done | done | | done].
      intros j cj Hj Hcj ->.
      destruct (cs !! count_prefix (is_code CPUI_MULTIEQUAL) cs) as [c0|] eqn:E0.
      * pose proof (count_prefix_at _ _ _ E0) as Hp.
        unfold is_code in Hp. apply bool_decide_eq_false in Hp.
        destruct (decide (j = count_prefix (is_code CPUI_MULTIEQUAL) cs)) as [->|].
        { congruence. }
        apply Hp. eapply (Hm _ j); [| done | done]. lia.
      * apply lookup_ge_None in E0. apply lookup_lt_Some in Hcj. lia.
    + assert (Hcode : code o = CPUI_MULTIEQUAL).
      { by destruct (decide (code o = CPUI_MULTIEQUAL)). }
      rewrite Hcode. by apply multiequal_first_cons.
  - apply branch_last_insert; [done | done | | done].
    intros i c' Hi Hc'. by rewrite (Hbefore _ _ Hi Hc').
Qed.

Lemma opInsertEnd_ordered fd bl b cs op o :
  bblocks fd !! bl = Some b → block_codes fd b cs →
  multiequal_first cs → branch_last cs →
  obank fd !! op = Some o →
  code o ≠ CPUI_MULTIEQUAL →
  (∀ c, last cs = Some c → opc_isFlowBreak c = true →
        opc_isFlowBreak (code o) = false) →
  ∃ fd' b',
    opInsertEnd op bl fd = Ok tt fd'
    ∧ block_ordered fd' bl
    ∧ bblocks fd' !! bl = Some b'
    ∧ bl_op b' = list_insert_at
                   (match last cs with
                    | Some c => if opc_isFlowBreak c then (length cs - 1)%nat
                                else length cs
                    | None => length cs
                    end)
                   op (bl_op b).
Proof.
  intros Hb Hc Hm Hl Ho Hmulti Hf.
  pose proof (Forall2_length _ _ _ Hc) as Hlen.
  unfold opInsertEnd.
  rewrite (bind_Ok _ _ _ _ _ (getBlock_Ok _ _ _ Hb)).
  set (k := match last cs with
            | Some c => if opc_isFlowBreak c then (length cs - 1)%nat else length cs
            | None => length cs
            end).
  assert (E : match last (bl_op b) with
              | Some l => lo <- getOp l ;;
                          if isFlowBreak lo then ret (length (bl_op b) - 1)%nat
                          else ret (length (bl_op b))
              | None => ret (length (bl_op b))
              end fd = Ok k fd).
  { subst k. destruct (last (bl_op b)) as [l|] eqn:El.
    - destruct (Forall2_last_code _ _ _ _ Hc El) as (lo & Hlo & ->).
      rewrite (bind_Ok _ _ _ _ _ (getOp_Ok _ _ _ Hlo)). unfold isFlowBreak.
      rewrite Hlen. by destruct (opc_isFlowBreak (code lo)).
    - apply last_None in El. unfold block_codes in Hc. rewrite El in Hc.
      apply Forall2_nil_inv_l in Hc. by rewrite El, Hc. }
  rewrite (bind_Ok _ _ _ _ _ E), (opInsert_run _ _ _ _ _ _ Ho Hb).
  eexists _, _. split; [reflexivity |]. split; [| by mlookup].
  eexists _, (list_insert_at k (code o) cs). split; [by mlookup |].
  split; [by apply block_codes_insert |].
  subst k. destruct (last cs) as [c|] eqn:Ec.
  - rewrite last_lookup in Ec.
    destruct (opc_isFlowBreak c) eqn:Efb.
    + (* the block ends in a branch: the op goes just above it *)
      assert (Hpos : (0 < length cs)%nat) by (apply lookup_lt_Some in Ec; lia).
      split.
      * apply multiequal_first_insert; [lia | done | | done].
        intros j cj Hj Hcj ->. apply lookup_lt_Some in Hcj as Hlt.
        replace j with (pred (length cs)) in Hcj by lia.
        rewrite Ec in Hcj. injection Hcj as ->. done.
      * apply branch_last_insert; [lia | | | done].
        { by apply (Hf c). }
        intros i c' Hi Hc'. destruct (opc_isFlowBreak c') eqn:E'; [| done].
        pose proof (Hl _ _ Hc' E'). lia.
    + split.
      * apply multiequal_first_insert; [lia | done | | done].
        intros j cj Hj Hcj%lookup_lt_Some. lia.
      * apply branch_last_snoc. intros i c' Hc'.
        destruct (opc_isFlowBreak c') eqn:E'; [| done].
        pose proof (Hl _ _ Hc' E') as Hi.
        replace (pred (length cs)) with i in Ec by lia. congruence.
  - apply last_None in Ec. subst cs. split.
    + apply multiequal_first_insert; [cbn; lia | done | | done]. by intros j cj _ ?.
    + apply branch_last_snoc. by intros i c' ?.
Qed.

(** ** Cloning an op *)

Lemma cloneVarnode_run fd v :
  cloneVarnode v fd
  = Ok (vbank_create_index fd)
       (fd_new_vn fd (mkVarnode (getSize v) (vn_loc v)
                        (∅ ∪ vn_flags v ∩ cloneVarnode_mask) None [] false false None)).
Proof.
  unfold cloneVarnode. rewrite (bind_Ok _ _ _ _ _ (VarnodeBank_create_run _ _ _)).
  mrun. unfold fd_new_vn, set_vbank, set_vbank_create_index. store_simpl.
  by rewrite insert_insert_eq.
Qed.

(** One round of the loop over the inputs of the op being cloned. *)
Lemma cloneOp_input_run fd op o newop nw i vn v :
  obank fd !! op = Some o → inrefs o !! i = Some (Some vn) →
  vbank fd !! vn = Some v →
  obank fd !! newop = Some nw → inrefs nw !! i = Some None →
  vbank fd !! vbank_create_index fd = None →
  ∃ cv,
    (vn <- getInVn op i ;; v <- getVn vn ;; c <- cloneVarnode v ;;
     opSetInput newop c i) fd
    = Ok tt (set_obank
               (insert newop
                  (op_setInrefs (<[i := Some (vbank_create_index fd)]> (inrefs nw)) nw))
               (fd_new_vn fd cv))
    ∧ getSize cv = getSize v ∧ vn_loc cv = vn_loc v ∧ descend cv = [newop]
    ∧ getDef cv = None.
Proof.
  intros Ho Hi Hv Hn Hni Hfresh.
  assert (Hlt : (i < numInput nw)%nat) by (by eapply lookup_lt_Some).
  assert (E1 : getInVn op i fd = Ok vn fd) by (by mrun).
  rewrite (bind_Ok _ _ _ _ _ E1), (bind_Ok _ _ _ _ _ (getVn_Ok _ _ _ Hv)).
  rewrite (bind_Ok _ _ _ _ _ (cloneVarnode_run _ _)).
  unfold opSetInput, fd_new_vn.
  mrun. unfold hasNoDescend. store_simpl. rewrite andb_false_r. cbn [andb].
  mlookup. unfold set_vbank, set_vbank_create_index, set_obank. store_simpl.
  rewrite insert_insert_eq.
  eexists. split; [reflexivity |]. by store_simpl.
Qed.

Lemma cloneOp_inputs_run (op : nat) (o : PcodeOp) (newop : nat) (m : nat) :
  op ≠ newop →
  ∀ (a : nat) (fd : Funcdata) (nw : PcodeOp),
    (a + m)%nat = numInput o →
    obank fd !! op = Some o →
    obank fd !! newop = Some nw →
    (∀ j, (a ≤ j < numInput o)%nat → inrefs nw !! j = Some None) →
    (∀ j, (vbank_create_index fd ≤ j)%nat → vbank fd !! j = None) →
    (∀ j, (j < numInput o)%nat →
          ∃ vn v, inrefs o !! j = Some (Some vn) ∧ vbank fd !! vn = Some v) →
    ∃ fd' nw',
      forM_ (List.seq a m) (fun i =>
        vn <- getInVn op i ;; v <- getVn vn ;; c <- cloneVarnode v ;;
        opSetInput newop c i) fd = Ok tt fd'
      ∧ obank fd' !! newop = Some nw'
      ∧ code nw' = code nw ∧ op_flags nw' = op_flags nw ∧ getOut nw' = getOut nw
      ∧ getParent nw' = getParent nw ∧ getSeqNum nw' = getSeqNum nw
      ∧ length (inrefs nw') = length (inrefs nw)
      ∧ (∀ j, (j < a)%nat → inrefs nw' !! j = inrefs nw !! j)
      ∧ (∀ j vn v, (a ≤ j)%nat → inrefs o !! j = Some (Some vn) →
           vbank fd !! vn = Some v →
           ∃ c cv, inrefs nw' !! j = Some (Some c) ∧ vbank fd !! c = None
                   ∧ vbank fd' !! c = Some cv
                   ∧ getSize cv = getSize v ∧ vn_loc cv = vn_loc v
                   ∧ descend cv = [newop])
      ∧ (∀ x xv, vbank fd !! x = Some xv → vbank fd' !! x = Some xv)
      ∧ (∀ x, x ≠ newop → obank fd' !! x = obank fd !! x)
      ∧ bblocks fd' = bblocks fd.
Proof.
  intros Hne. induction m as [|m IH]; intros a fd nw Ham Ho Hn Hnone Hfresh Hin.
  - exists fd, nw. split; [done |]. split_and!; try done.
    intros j vn v Hj Hi. apply lookup_lt_Some in Hi. unfold numInput in *. lia.
  - destruct (Hin a) as (vn & v & Hia & Hv); [lia |].
    destruct (cloneOp_input_run fd op o newop nw a vn v Ho Hia Hv Hn)
      as (cv & E & Hsz & Hloc & Hdesc & Hdef).
    { apply Hnone. lia. }
    { apply Hfresh. lia. }
    cbn [List.seq forM_ foldM]. unfold forM_ in IH.
    rewrite (bind_Ok _ _ _ _ _ E).
    set (c := vbank_create_index fd) in *.
    set (fd1 := set_obank _ _).
    assert (Hold : ∀ x xv, vbank fd !! x = Some xv → vbank fd1 !! x = Some xv).
    { intros x xv Hx. subst fd1. unfold fd_new_vn. store_simpl.
      rewrite lookup_insert_ne; [done |]. intros <-.
      rewrite Hfresh in Hx; [done | lia]. }
    destruct (IH (S a) fd1 (op_setInrefs (<[a := Some c]> (inrefs nw)) nw))
      as (fd' & nw' & E' & Hn' & ? & ? & ? & ? & ? & Hlen & Hbefore & Hclones
          & Hold' & Hops & Hbl).
    + lia.
    + subst fd1. mlookup. done.
    + subst fd1. mlookup. done.
    + intros j Hj. store_simpl. rewrite list_lookup_insert_ne by lia.
      apply Hnone. lia.
    + intros j Hj. subst fd1. unfold fd_new_vn in *. store_simpl.
      rewrite lookup_insert_ne by lia. apply Hfresh. lia.
    + intros j Hj. destruct (Hin j Hj) as (vn' & v' & ? & ?).
      exists vn', v'. split; [done |]. by apply Hold.
    + exists fd', nw'. split; [exact E' |]. store_simpl.
      rewrite length_insert in Hlen.
      split_and!; try done.
      * intros j Hj. rewrite Hbefore by lia. store_simpl.
        by rewrite list_lookup_insert_ne by lia.
      * intros j vn' v' Hj Hi' Hv'.
        destruct (decide (j = a)) as [->|Hja].
        -- assert (vn' = vn) as -> by congruence.
           assert (v' = v) as -> by congruence.
           exists c, cv. rewrite Hbefore by lia. store_simpl.
           rewrite list_lookup_insert_eq
             by (apply lookup_lt_Some in Hi'; specialize (Hnone a);
                 eapply lookup_lt_Some; apply Hnone; unfold numInput; lia).
           split_and!; try done.
           ++ apply Hfresh. lia.
           ++ apply Hold'. subst fd1. unfold fd_new_vn. store_simpl.
              by rewrite lookup_insert_eq.
        -- destruct (Hclones j vn' v') as (c' & cv' & ? & Hc'none & ? & ? & ? & ?);
             [lia | done | by apply Hold |].
           exists c', cv'. split_and!; try done.
           destruct (vbank fd !! c') as [xv|] eqn:Ex; [| done].
           apply Hold in Ex. congruence.
      * intros x xv Hx. by apply Hold', Hold.
      * intros x Hx. rewrite Hops by done. subst fd1. store_simpl.
        by rewrite lookup_insert_ne.
Qed.

Lemma isFree_clone (v : Varnode) :
  isFree (mkVarnode (getSize v) (vn_loc v)
            (∅ ∪ vn_flags v ∩ cloneVarnode_mask) None [] false false None) = true.
Proof.
  unfold isFree, isWritten, isInput, vn_hasFlag. store_simpl.
  rewrite bool_decide_eq_false_2 by (apply is_Some_None).
  rewrite bool_decide_eq_false_2; [done |].
  unfold cloneVarnode_mask. set_solver.
Qed.

(** The output phase of [cloneOp]. *)
Lemma cloneOp_output_run fd (o : PcodeOp) newop nw :
  obank fd !! newop = Some nw → getOut nw = None →
  (∀ out, getOut o = Some out → is_Some (vbank fd !! out)) →
  (∀ j, (vbank_create_index fd ≤ j)%nat → vbank fd !! j = None) →
  ∃ fd' nw',
    match getOut o with
    | Some out => v <- getVn out ;; c <- cloneVarnode v ;; opSetOutput newop c
    | None => ret tt
    end fd = Ok tt fd'
    ∧ obank fd' !! newop = Some nw'
    ∧ code nw' = code nw ∧ op_flags nw' = op_flags nw ∧ inrefs nw' = inrefs nw
    ∧ getParent nw' = getParent nw ∧ getSeqNum nw' = getSeqNum nw
    ∧ (getOut o = None → getOut nw' = None)
    ∧ (∀ out v, getOut o = Some out → vbank fd !! out = Some v →
         ∃ c cv, getOut nw' = Some c ∧ vbank fd !! c = None
                 ∧ vbank fd' !! c = Some cv
                 ∧ getSize cv = getSize v ∧ vn_loc cv = vn_loc v
                 ∧ getDef cv = Some newop)
    ∧ (∀ x xv, vbank fd !! x = Some xv → vbank fd' !! x = Some xv)
    ∧ (∀ j, (vbank_create_index fd' ≤ j)%nat → vbank fd' !! j = None)
    ∧ (∀ x, x ≠ newop → obank fd' !! x = obank fd !! x)
    ∧ bblocks fd' = bblocks fd.
Proof.
  intros Hn Hnout Hout Hfresh.
  destruct (getOut o) as [out|] eqn:Eo.
  2: { exists fd, nw. split; [done |]. split_and!; try done. }
  destruct (Hout out eq_refl) as [v Hv].
  rewrite (bind_Ok _ _ _ _ _ (getVn_Ok _ _ _ Hv)).
  rewrite (bind_Ok _ _ _ _ _ (cloneVarnode_run _ _)).
  set (c := vbank_create_index fd).
  set (cv0 := mkVarnode _ _ _ _ _ _ _ _).
  assert (Hc : vbank (fd_new_vn fd cv0) !! c = Some cv0).
  { unfold fd_new_vn. store_simpl. apply lookup_insert_eq. }
  unfold opSetOutput.
  assert (Hn1 : obank (fd_new_vn fd cv0) !! newop = Some nw) by done.
  rewrite (bind_Ok _ _ _ _ _ (getOp_Ok _ _ _ Hn1)), Hnout.
  rewrite decide_False by done.
  rewrite bool_decide_eq_false_2 by (intros ?; done). cbn [when].
  rewrite bind_ret_l, (bind_Ok _ _ _ _ _ (getVn_Ok _ _ _ Hc)).
  cbn [getDef cv0]. rewrite bind_ret_l.
  assert (E3 : VarnodeBank_setDef c newop (fd_new_vn fd cv0)
               = Ok c (set_vbank (insert c (vn_setDef (Some newop) cv0))
                         (fd_new_vn fd cv0))).
  { unfold VarnodeBank_setDef. rewrite (bind_Ok _ _ _ _ _ (getVn_Ok _ _ _ Hc)).
    subst cv0. rewrite isFree_clone. by mrun. }
  rewrite (bind_Ok _ _ _ _ _ E3).
  edestruct (setVarnodeProperties_run
               (set_vbank (insert c (vn_setDef (Some newop) cv0)) (fd_new_vn fd cv0)) c)
    as (cv & E4 & (Hsz & Hloc & Hdef & _)).
  { store_simpl. apply lookup_insert_eq. }
  rewrite (bind_Ok _ _ _ _ _ E4). unfold PcodeOp_setOutput.
  erewrite modOp_Ok by (store_simpl; exact Hn).
  eexists _, _. split; [reflexivity |]. unfold fd_new_vn. mlookup.
  rewrite !insert_insert_eq.
  split_and!; try done.
  - intros out' v' [= <-] Hv'. assert (v' = v) as -> by congruence.
    exists c, cv. rewrite lookup_insert_eq. split_and!; try done.
    apply Hfresh. lia.
  - intros x xv Hx. rewrite lookup_insert_ne; [done |].
    intros <-. rewrite Hfresh in Hx; [done | lia].
  - intros j Hj. rewrite lookup_insert_ne by lia. apply Hfresh. lia.
  - intros x Hx. by rewrite lookup_insert_ne.
Qed.

(** * The claims *)

(** ** C1: the single-reader rule of [opSetInput] *)

(** C1, as stated, fails: a constant that carries the spacebase property
    and already has a reader ([c0], read by [op0]) is linked itself into
    the slot; no Varnode is created and the constant ends with two
    readers. *)
Lemma opSetInput_spacebase_constant_shared :
  ∃ v fd' o1 v',
    vbank ex_constants !! 0%nat = Some v
    ∧ isConstant v = true ∧ descend v = [0%nat]
    ∧ opSetInput 1 0 0 ex_constants = Ok tt fd'
    ∧ obank fd' !! 1%nat = Some o1
    ∧ inrefs o1 !! 0%nat = Some (Some 0%nat)
    ∧ vbank fd' !! 0%nat = Some v' ∧ descend v' = [0%nat; 1%nat]
    ∧ vbank_create_index fd' = vbank_create_index ex_constants.
Proof.
  eexists _, _, _, _.
  split; [vm_compute; reflexivity |].
  split; [vm_compute; reflexivity |].
  split; [vm_compute; reflexivity |].
  split; [vm_compute; reflexivity |].
  split; [vm_compute; reflexivity |].
  split; [vm_compute; reflexivity |].
  split; [vm_compute; reflexivity |].
  split; vm_compute; reflexivity.
Qed.

(** C1, amended: for every op [op], slot [slot] and constant Varnode [vn]
    that is not a spacebase, is not already the input in that slot and
    has at least one reader, [opSetInput] links a fresh constant of the
    same size and value into the slot and leaves [vn] untouched; and
    [opSetInput] keeps the rule that every constant that is not a
    spacebase has at most one reader. *)
Theorem opSetInput_constant_single_reader (fd : Funcdata) (op : nat) (o : PcodeOp)
    (vn : nat) (v : Varnode) (slot : nat) (cur : option nat) :
  obank fd !! op = Some o →
  inrefs o !! slot = Some cur →
  cur ≠ Some vn →
  (∀ w, cur = Some w → ∃ wv, vbank fd !! w = Some wv ∧ op ∈ descend wv) →
  vbank fd !! vn = Some v →
  vbank fd !! vbank_create_index fd = None →
  isConstant v = true → hasNoDescend v = false → isSpacebase v = false →
  ∃ fd' o' c,
    opSetInput op vn slot fd = Ok tt fd'
    ∧ vbank_create_index fd ≠ vn
    ∧ obank fd' !! op = Some o'
    ∧ inrefs o' = <[slot := Some (vbank_create_index fd)]> (inrefs o)
    ∧ code o' = code o ∧ getOut o' = getOut o
    ∧ vbank fd' !! vbank_create_index fd = Some c
    ∧ isConstant c = true ∧ getSize c = getSize v
    ∧ vn_getOffset c = vn_getOffset v
    ∧ getDef c = None ∧ descend c = [op]
    ∧ vbank fd' !! vn = Some v
    ∧ (single_reader fd → single_reader fd').
Proof.
  intros Hop Hslot Hcur Hold Hvn Hfresh Hc Hd Hs.
  destruct (opSetInput_duplicates_constant fd op o vn v slot cur)
    as (fd' & o' & c & E & ? & ? & ? & ? & ? & ? & ? & ? & ? & ? & ? & ?);
    try done.
  exists fd', o', c. split_and!; try done.
  by apply (opSetInput_single_reader fd fd' op vn slot).
Qed.

Lemma opSetInput_constant_single_reader_witness :
  ∃ fd' o' c,
    opSetInput 1 1 0 ex_constants = Ok tt fd'
    ∧ obank fd' !! 1%nat = Some o'
    ∧ inrefs o' = [Some 3%nat; None]
    ∧ vbank fd' !! 3%nat = Some c
    ∧ vn_getOffset c = 9 ∧ descend c = [1%nat].
Proof.
  destruct (opSetInput_constant_single_reader ex_constants 1
              (deadop CPUI_INT_ADD None [None; None] 1) 1
              (vnode 4 (getConstant 9) None [0%nat]) 0 None)
    as (fd' & o' & c & E & _ & Ho & Hi & _ & _ & Hc & _ & _ & Hoff & _ & Hd & _);
    [reflexivity | reflexivity | done | done | reflexivity | reflexivity
    | reflexivity | reflexivity | reflexivity |].
  exists fd', o', c. split_and!; done.
Defined.

(** ** C2: less-equal normalization *)

(** C2 holds of the specification but not of the code, at the signed
    maximum: on [INT_SLESSEQUAL v0, #0x7fffffff] (4-byte operands)
    [replaceLessequal] reports a valid replacement and rewrites the op to
    [INT_SLESS v0, #0x80000000]; the original comparison is true for
    every value of [v0], the rewritten one false for every value. *)
Theorem replaceLessequal_signed_max_flips :
  ∃ fd' o' c cv,
    replaceLessequal 0 ex_slessequal = Ok true fd'
    ∧ obank fd' !! 0%nat = Some o'
    ∧ code o' = CPUI_INT_SLESS
    ∧ inrefs o' = [Some 0%nat; Some c]
    ∧ vbank fd' !! c = Some cv
    ∧ isConstant cv = true ∧ getSize cv = 4 ∧ vn_getOffset cv = 0x80000000
    ∧ ∀ x, 0 ≤ x < 2 ^ 32 →
        eval_compare CPUI_INT_SLESSEQUAL 4 x 0x7fffffff = Some true
        ∧ eval_compare CPUI_INT_SLESS 4 x 0x80000000 = Some false.
Proof.
  eexists _, _, _, _.
  split; [vm_compute; reflexivity |].
  split; [vm_compute; reflexivity |].
  split; [vm_compute; reflexivity |].
  split; [vm_compute; reflexivity |].
  split; [vm_compute; reflexivity |].
  split; [vm_compute; reflexivity |].
  split; [vm_compute; reflexivity |].
  split; [vm_compute; reflexivity |].
  intros x Hx. unfold eval_compare.
  change (to_signed 4 2147483647) with 2147483647.
  change (to_signed 4 2147483648) with (-2147483648).
  assert (-2147483648 ≤ to_signed 4 x ≤ 2147483647).
  { unfold to_signed. change (2 ^ (8 * 4 - 1)) with 2147483648.
    change (2 ^ (8 * 4)) with 4294967296. change (2 ^ 32) with 4294967296 in Hx.
    destruct (x <? 2147483648) eqn:E;
      [apply Z.ltb_lt in E | apply Z.ltb_ge in E]; lia. }
  split; f_equal; [apply Z.leb_le | apply Z.ltb_ge]; lia.
Qed.

(** ** C4: assigning an output that is already bound *)

(** C4, as stated, fails: [v2] is bound as the output of [op0];
    assigning it as the output of [op1] raises no error and changes the
    store: [v2] is now defined by [op1] and [op0] has lost its output. *)
Lemma opSetOutput_bound_output_no_error :
  ∃ v fd' o0 o1 v',
    vbank ex_constants !! 2%nat = Some v ∧ getDef v = Some 0%nat
    ∧ opSetOutput 1 2 ex_constants = Ok tt fd'
    ∧ obank fd' !! 0%nat = Some o0 ∧ getOut o0 = None
    ∧ obank fd' !! 1%nat = Some o1 ∧ getOut o1 = Some 2%nat
    ∧ vbank fd' !! 2%nat = Some v' ∧ getDef v' = Some 1%nat.
Proof.
  eexists _, _, _, _, _.
  split; [vm_compute; reflexivity |].
  split; [vm_compute; reflexivity |].
  split; [vm_compute; reflexivity |].
  split; [vm_compute; reflexivity |].
  split; [vm_compute; reflexivity |].
  split; [vm_compute; reflexivity |].
  split; [vm_compute; reflexivity |].
  split; vm_compute; reflexivity.
Qed.

(** C4, amended: when [vn] is already bound as the output of an op [d],
    [opSetOutput op vn] raises no error: it unsets the output of [d],
    which makes [vn] free, and then binds [vn] as the output of [op]. *)
Theorem opSetOutput_rebinds_bound_output (fd : Funcdata) (op : nat) (o : PcodeOp)
    (vn : nat) (v : Varnode) (d : nat) (od : PcodeOp) :
  obank fd !! op = Some o →
  getOut o ≠ Some vn →
  (∀ w, getOut o = Some w → is_Some (vbank fd !! w)) →
  vbank fd !! vn = Some v →
  getDef v = Some d →
  obank fd !! d = Some od →
  getOut od = Some vn →
  ∃ fd' o' od' v',
    opSetOutput op vn fd = Ok tt fd'
    ∧ obank fd' !! op = Some o' ∧ getOut o' = Some vn
    ∧ obank fd' !! d = Some od' ∧ getOut od' = None
    ∧ vbank fd' !! vn = Some v' ∧ getDef v' = Some op.
Proof.
  intros Hop Hout Hw Hvn Hdef Hd Hdout.
  assert (Hne : d ≠ op) by (intros ->; congruence).
  unfold opSetOutput. rewrite (bind_Ok _ _ _ _ _ (getOp_Ok _ _ _ Hop)).
  rewrite decide_False by congruence.
  (* the store once the previous output of [op], if any, is unset *)
  assert (∃ fd1 o1, when (bool_decide (getOut o ≠ None)) (opUnsetOutput op) fd = Ok tt fd1
            ∧ obank fd1 !! op = Some o1 ∧ obank fd1 !! d = Some od
            ∧ vbank fd1 !! vn = Some v) as (fd1 & o1 & E1 & Hop1 & Hd1 & Hvn1).
  { destruct (getOut o) as [w|] eqn:Ew.
    - destruct (Hw w eq_refl) as [wv Hwv].
      rewrite bool_decide_eq_true_2 by done. cbn [when].
      rewrite (opUnsetOutput_run _ _ _ _ _ Hop Ew Hwv).
      eexists _, _. split; [reflexivity |]. mlookup. done.
    - rewrite bool_decide_eq_false_2 by (intros ?; done). cbn [when].
      by exists fd, o. }
  rewrite (bind_Ok _ _ _ _ _ E1), (bind_Ok _ _ _ _ _ (getVn_Ok _ _ _ Hvn1)), Hdef.
  rewrite (bind_Ok _ _ _ _ _ (opUnsetOutput_run _ _ _ _ _ Hd1 Hdout Hvn1)).
  set (vfree := vn_setCover false _).
  set (fd2 := set_vbank _ _).
  assert (Hvn2 : vbank fd2 !! vn = Some vfree) by (subst fd2; mlookup; done).
  assert (Hop2 : obank fd2 !! op = Some o1) by (subst fd2; mlookup; done).
  assert (Hd2 : obank fd2 !! d = Some (op_setOut None od)) by (subst fd2; mlookup; done).
  assert (E3 : VarnodeBank_setDef vn op fd2
               = Ok vn (set_vbank (insert vn (vn_setDef (Some op) vfree)) fd2)).
  { unfold VarnodeBank_setDef. rewrite (bind_Ok _ _ _ _ _ (getVn_Ok _ _ _ Hvn2)).
    subst vfree. unfold vn_setCover at 1.
    replace (isFree _) with true; [by mrun |].
    symmetry. apply (isFree_makeFree v). }
  rewrite (bind_Ok _ _ _ _ _ E3).
  edestruct (setVarnodeProperties_run
               (set_vbank (insert vn (vn_setDef (Some op) vfree)) fd2) vn)
    as (v4 & E4 & (_ & _ & Hdef4 & _)).
  { mlookup. done. }
  rewrite (bind_Ok _ _ _ _ _ E4). mrun.
  eexists _, _, _, _. split; [reflexivity |]. mlookup.
  split_and!; try done.
Qed.

Lemma opSetOutput_rebinds_bound_output_witness :
  ∃ fd' o', opSetOutput 1 2 ex_constants = Ok tt fd'
            ∧ obank fd' !! 1%nat = Some o' ∧ getOut o' = Some 2%nat.
Proof.
  destruct (opSetOutput_rebinds_bound_output ex_constants 1
              (deadop CPUI_INT_ADD None [None; None] 1) 2
              (vnode 4 (reg 0) (Some 0%nat) []) 0
              (deadop CPUI_INT_ADD (Some 2%nat) [Some 0%nat; Some 1%nat] 0))
    as (fd' & o' & _ & _ & E & Ho & Hout & _);
    [reflexivity | done | done | reflexivity | reflexivity | reflexivity
    | reflexivity |].
  by exists fd', o'.
Defined.

(** ** C5: the ordering invariant under [opInsertBegin] and [opInsertEnd] *)

(** C5, as stated, fails for both routines: block 0, [COPY], satisfies
    the invariant; [opInsertBegin] puts a detached BRANCH above the COPY,
    and [opInsertEnd] puts a detached MULTIEQUAL below it. *)
Lemma opInsert_breaks_ordering :
  block_ordered ex_block 0
  ∧ (∃ fd', opInsertBegin 1 0 ex_block = Ok tt fd'
            ∧ block_codes fd' (mkBlockBasic [1%nat; 0%nat] [] [] (ram 0x100) false)
                [CPUI_BRANCH; CPUI_COPY]
            ∧ bblocks fd' !! 0%nat
              = Some (mkBlockBasic [1%nat; 0%nat] [] [] (ram 0x100) false)
            ∧ ¬ branch_last [CPUI_BRANCH; CPUI_COPY])
  ∧ (∃ fd', opInsertEnd 2 0 ex_block = Ok tt fd'
            ∧ block_codes fd' (mkBlockBasic [0%nat; 2%nat] [] [] (ram 0x100) false)
                [CPUI_COPY; CPUI_MULTIEQUAL]
            ∧ bblocks fd' !! 0%nat
              = Some (mkBlockBasic [0%nat; 2%nat] [] [] (ram 0x100) false)
            ∧ ¬ multiequal_first [CPUI_COPY; CPUI_MULTIEQUAL]).
Proof.
  split; [| split].
  - exists (mkBlockBasic [0%nat] [] [] (ram 0x100) false), [CPUI_COPY].
    split; [reflexivity |]. split.
    + constructor; [| constructor]. eexists. split; [vm_compute; reflexivity | done].
    + split.
      * intros [|i] [|j] ci Hij; try lia; destruct j; done.
      * intros [|i] c; [| done]. by intros [= <-].
  - eexists. split; [vm_compute; reflexivity |]. split; [| split].
    + repeat constructor; eexists; (split; [vm_compute; reflexivity | done]).
    + vm_compute; reflexivity.
    + intros H. specialize (H 0%nat CPUI_BRANCH eq_refl eq_refl). done.
  - eexists. split; [vm_compute; reflexivity |]. split; [| split].
    + repeat constructor; eexists; (split; [vm_compute; reflexivity | done]).
    + vm_compute; reflexivity.
    + intros H. specialize (H 0%nat 1%nat CPUI_COPY).
      assert (CPUI_COPY = CPUI_MULTIEQUAL) by (apply H; [lia | done | done]). done.
Qed.

(** C5, amended: on a block that satisfies the invariant, [opInsertBegin]
    keeps it for every op that is not a branch (a MULTIEQUAL goes to the
    very top, any other op below the MULTIEQUALs of the block), and
    [opInsertEnd] keeps it for every op that is not a MULTIEQUAL and, when
    the block ends in a branch, is not a branch either (the op goes above
    a final branch, else to the very bottom). *)
Theorem opInsertBegin_opInsertEnd_keep_ordering (fd : Funcdata) (bl : nat)
    (b : BlockBasic) (cs : list OpCode) (op : nat) (o : PcodeOp) :
  bblocks fd !! bl = Some b → block_codes fd b cs →
  multiequal_first cs → branch_last cs →
  obank fd !! op = Some o →
  (opc_isFlowBreak (code o) = false →
   ∃ fd' b',
     opInsertBegin op bl fd = Ok tt fd'
     ∧ block_ordered fd' bl
     ∧ bblocks fd' !! bl = Some b'
     ∧ bl_op b' = list_insert_at
                    (if decide (code o ≠ CPUI_MULTIEQUAL)
                     then count_prefix (is_code CPUI_MULTIEQUAL) cs else 0%nat)
                    op (bl_op b))
  ∧ (code o ≠ CPUI_MULTIEQUAL →
     (∀ c, last cs = Some c → opc_isFlowBreak c = true →
           opc_isFlowBreak (code o) = false) →
     ∃ fd' b',
       opInsertEnd op bl fd = Ok tt fd'
       ∧ block_ordered fd' bl
       ∧ bblocks fd' !! bl = Some b'
       ∧ bl_op b' = list_insert_at
                      (match last cs with
                       | Some c => if opc_isFlowBreak c then (length cs - 1)%nat
                                   else length cs
                       | None => length cs
                       end)
                      op (bl_op b)).
Proof.
  intros Hb Hc Hm Hl Ho. split.
  - intros Hf. by apply (opInsertBegin_ordered fd bl b cs op o).
  - intros Hmulti Hf. by apply (opInsertEnd_ordered fd bl b cs op o).
Qed.

Lemma opInsertBegin_opInsertEnd_keep_ordering_witness :
  (∃ fd', opInsertBegin 2 0 ex_block = Ok tt fd' ∧ block_ordered fd' 0)
  ∧ (∃ fd', opInsertEnd 1 0 ex_block = Ok tt fd' ∧ block_ordered fd' 0).
Proof.
  assert (Hc : block_codes ex_block (mkBlockBasic [0%nat] [] [] (ram 0x100) false)
                 [CPUI_COPY]).
  { constructor; [| constructor]. eexists. split; [vm_compute; reflexivity | done]. }
  assert (Hm : multiequal_first [CPUI_COPY]).
  { intros [|i] [|j] ci Hij; try lia; destruct j; done. }
  assert (Hl : branch_last [CPUI_COPY]).
  { intros [|i] c; [| done]. by intros [= <-]. }
  split.
  - destruct (opInsertBegin_opInsertEnd_keep_ordering ex_block 0 _ _ 2
                (deadop CPUI_MULTIEQUAL None [] 2) eq_refl Hc Hm Hl eq_refl)
      as [H _].
    destruct (H eq_refl) as (fd' & b' & E & Hord & _). by exists fd'.
  - destruct (opInsertBegin_opInsertEnd_keep_ordering ex_block 0 _ _ 1
                (deadop CPUI_BRANCH None [] 1) eq_refl Hc Hm Hl eq_refl)
      as [_ H].
    destruct H as (fd' & b' & E & Hord & _); [done | by intros c [= <-] |].
    by exists fd'.
Defined.

(** ** C6: unsetting the output of an op *)

(** C6: for every op whose output [vn] is bound, [opUnsetOutput] leaves
    the op without output and makes [vn] free (no definer, cover cleared)
    without destroying it: [vn] is still in the bank, with its storage and
    readers; the op-code, inputs, block, flags and sequence number of the
    op, all other ops, all other Varnodes and the blocks are unchanged. *)
Theorem opUnsetOutput_makes_output_free (fd : Funcdata) (op : nat) (o : PcodeOp)
    (vn : nat) (v : Varnode) :
  obank fd !! op = Some o →
  getOut o = Some vn →
  vbank fd !! vn = Some v →
  ∃ fd' o' v',
    opUnsetOutput op fd = Ok tt fd'
    ∧ obank fd' !! op = Some o' ∧ getOut o' = None
    ∧ vbank fd' !! vn = Some v' ∧ getDef v' = None ∧ isFree v' = true
    ∧ vn_cover v' = false
    ∧ getSize v' = getSize v ∧ vn_loc v' = vn_loc v ∧ descend v' = descend v
    ∧ code o' = code o ∧ inrefs o' = inrefs o ∧ getParent o' = getParent o
    ∧ op_flags o' = op_flags o ∧ getSeqNum o' = getSeqNum o
    ∧ (∀ op2, op2 ≠ op → obank fd' !! op2 = obank fd !! op2)
    ∧ (∀ vn2, vn2 ≠ vn → vbank fd' !! vn2 = vbank fd !! vn2)
    ∧ bblocks fd' = bblocks fd.
Proof.
  intros Hop Hout Hvn.
  rewrite (opUnsetOutput_run _ _ _ _ _ Hop Hout Hvn).
  eexists _, _, _. split; [reflexivity |]. mlookup.
  split_and!; try done.
  - apply isFree_makeFree.
  - intros op2 Hne. by rewrite lookup_insert_ne.
  - intros vn2 Hne. by rewrite lookup_insert_ne.
Qed.

Lemma opUnsetOutput_makes_output_free_witness :
  ∃ fd' o' v',
    opUnsetOutput 0 ex_block = Ok tt fd'
    ∧ obank fd' !! 0%nat = Some o' ∧ getOut o' = None
    ∧ vbank fd' !! 1%nat = Some v' ∧ getDef v' = None.
Proof.
  destruct (opUnsetOutput_makes_output_free ex_block 0
              (liveop CPUI_COPY (Some 1%nat) [Some 0%nat] 0 0) 1
              (vnode 4 (reg 4) (Some 0%nat) []))
    as (fd' & o' & v' & E & Ho & Hout & Hv & Hd & _);
    [reflexivity | reflexivity | reflexivity |].
  by exists fd', o', v'.
Defined.

(** ** C7: cloning an op *)



Lemma mkStore_vbank_fresh vns ops bls j :
  (vbank_create_index (mkStore vns ops bls) ≤ j)%nat →
  vbank (mkStore vns ops bls) !! j = None.
Proof.
  unfold mkStore. store_simpl. intros Hj.
  apply not_elem_of_list_to_map_1.
  rewrite fmap_imap. intros Hin.
  apply elem_of_lookup_imap_1 in Hin as (i & x & -> & Hx).
  apply lookup_lt_Some in Hx. cbn in Hj. lia.
Qed.


(** ** Termination of the walk over the ancestors of a trial *)

Lemma post_bind {A B} (c : M A) (k : A → M B) fd Q :
  post c fd (fun a fd' => post (k a) fd' Q) → post (bind c k) fd Q.
Proof. unfold post, bind. by destruct (c fd). Qed.

Lemma post_ret {A} (a : A) fd (Q : A → Funcdata → Prop) :
  Q a fd → post (ret a) fd Q.
Proof. done. Qed.

Lemma post_throw {A} (e : Error) fd (Q : A → Funcdata → Prop) :
  e ≠ OutOfFuel → post (throw e) fd Q.
Proof. done. Qed.

Lemma post_mono {A} (c : M A) fd (Q Q' : A → Funcdata → Prop) :
  post c fd Q → (∀ a fd', Q a fd' → Q' a fd') → post c fd Q'.
Proof. unfold post. destruct (c fd); eauto. Qed.

Lemma post_readonly {A} (c : M A) fd (Q : A → Funcdata → Prop) :
  readonly c → (∀ a, Q a fd) → post c fd Q.
Proof.
  intros Hr HQ. eapply post_mono; [apply Hr |]. by intros a fd' ->.
Qed.

Lemma post_getVn vn fd (Q : Varnode → Funcdata → Prop) :
  (∀ v, vbank fd !! vn = Some v → Q v fd) → post (getVn vn) fd Q.
Proof. unfold post, getVn. destruct (vbank fd !! vn); [auto | done]. Qed.

Lemma post_modVn vn f fd (Q : unit → Funcdata → Prop) :
  (∀ v, vbank fd !! vn = Some v → Q tt (set_vbank (insert vn (f v)) fd)) →
  post (modVn vn f) fd Q.
Proof.
  intros H. unfold post, modVn, bind, getVn.
  destruct (vbank fd !! vn); [by apply H | done].
Qed.

Lemma post_get fd (Q : Funcdata → Funcdata → Prop) :
  Q fd fd → post get fd Q.
Proof. done. Qed.

Lemma readonly_ret {A} (a : A) : readonly (ret a).
Proof. by intros fd. Qed.

Lemma readonly_throw {A} (e : Error) : e ≠ OutOfFuel → readonly (@throw A e).
Proof. by intros He fd. Qed.

Lemma readonly_bind {A B} (c : M A) (k : A → M B) :
  readonly c → (∀ a, readonly (k a)) → readonly (bind c k).
Proof.
  intros Hc Hk fd. apply post_bind.
  eapply post_mono; [apply Hc |]. intros a fd' ->. apply Hk.
Qed.

Lemma readonly_get : readonly get.
Proof. by intros fd. Qed.

Lemma readonly_getVn vn : readonly (getVn vn).
Proof. intros fd. by apply post_getVn. Qed.

Lemma readonly_getOp op : readonly (getOp op).
Proof. intros fd. unfold post, getOp. by destruct (obank fd !! op). Qed.

Lemma readonly_getIn op slot : readonly (getIn op slot).
Proof.
  unfold getIn. apply readonly_bind; [apply readonly_getOp |]. intros o.
  destruct (inrefs o !! slot); [apply readonly_ret | by apply readonly_throw].
Qed.

Lemma readonly_getInVn op slot : readonly (getInVn op slot).
Proof.
  unfold getInVn. apply readonly_bind; [apply readonly_getIn |]. intros [vn|].
  - apply readonly_ret.
  - by apply readonly_throw.
Qed.

Lemma readonly_callSpecs op : readonly (callSpecs op).
Proof.
  unfold callSpecs. apply readonly_bind; [apply readonly_get |]. intros fd.
  destruct (getCallSpecs fd op); [apply readonly_ret | by apply readonly_throw].
Qed.

Lemma readonly_trialForInputVarnode fc j : readonly (trialForInputVarnode fc j).
Proof.
  unfold trialForInputVarnode.
  destruct (getTrialForInputVarnode fc j); [apply readonly_ret | by apply readonly_throw].
Qed.

(** Decomposes a goal [readonly c] along the structure of [c]. *)
Ltac readonly_step :=
  first
    [ apply readonly_ret
    | apply readonly_throw; discriminate
    | apply readonly_get
    | apply readonly_getVn
    | apply readonly_getOp
    | apply readonly_getIn
    | apply readonly_getInVn
    | apply readonly_callSpecs
    | apply readonly_trialForInputVarnode
    | apply readonly_bind; [| intros ?]
    | match goal with
      | |- readonly (if ?b then _ else _) => destruct b
      | |- readonly (match ?x with _ => _ end) => destruct x
      end ].

Lemma readonly_checkCallDoubleUse opmatch op vn trial :
  readonly (checkCallDoubleUse opmatch op vn trial).
Proof. unfold checkCallDoubleUse. repeat readonly_step. Qed.

Lemma marked_list_length fd varlist :
  marked_list fd varlist → (length varlist ≤ size (vbank fd))%nat.
Proof.
  intros [Hnd Hin].
  rewrite <- (size_list_to_set (C := gset nat) varlist Hnd), <- size_dom.
  apply subseteq_size. intros x Hx%elem_of_list_to_set.
  destruct (Hin x Hx) as (v & Hv & _). apply elem_of_dom. by eexists.
Qed.

Lemma isMark_setMark v : isMark (vn_setMark v) = true.
Proof.
  unfold isMark, vn_hasFlag, vn_setMark. store_simpl.
  apply bool_decide_eq_true_2. set_solver.
Qed.

Lemma marked_list_snoc fd varlist subvn sv :
  marked_list fd varlist →
  vbank fd !! subvn = Some sv → isMark sv = false →
  marked_list (set_vbank (insert subvn (vn_setMark sv)) fd) (varlist ++ [subvn]).
Proof.
  intros [Hnd Hin] Hsv Hm. split.
  - apply NoDup_app. split; [done |]. split; [| apply NoDup_singleton].
    intros x Hx ->%list_elem_of_singleton.
    destruct (Hin _ Hx) as (v & Hv & Hmv). congruence.
  - intros x [Hx | ->%list_elem_of_singleton]%elem_of_app; store_simpl.
    + destruct (decide (x = subvn)) as [->|Hne].
      * rewrite lookup_insert_eq. eexists. split; [done |]. apply isMark_setMark.
      * rewrite lookup_insert_ne by done. by apply Hin.
    + rewrite lookup_insert_eq. eexists. split; [done |]. apply isMark_setMark.
Qed.

Lemma size_vbank_modVn fd vn v v' :
  vbank fd !! vn = Some v →
  size (vbank (set_vbank (insert vn v') fd)) = size (vbank fd).
Proof. intros H. store_simpl. by rewrite map_size_insert_Some. Qed.

Lemma onlyOpUse_descend_post opmatch trial vn l :
  ∀ varlist fd,
    marked_list fd varlist →
    post (onlyOpUse_descend opmatch trial vn l varlist) fd
      (fun r fd' => marked_list fd' r.2
                    ∧ size (vbank fd') = size (vbank fd)
                    ∧ (length varlist ≤ length r.2)%nat).
Proof.
  induction l as [|op l IH]; intros varlist fd Hml.
  { apply post_ret. by split_and!. }
  cbn [onlyOpUse_descend].
  apply post_bind, post_readonly; [apply readonly_getOp |]. intros o.
  apply post_bind, post_readonly; [repeat readonly_step |]. intros skip.
  destruct skip; [by apply IH |].
  apply post_bind, post_readonly.
  { destruct (code o);
      repeat first [apply readonly_checkCallDoubleUse | readonly_step]. }
  intros [| |].
  - by apply IH.
  - apply post_ret. by split_and!.
  - destruct (getOut o) as [subvn|]; [| by apply IH].
    apply post_bind, post_getVn. intros sv Hsv.
    destruct (isPersist sv); [apply post_ret; by split_and! |].
    destruct (isMark sv) eqn:Hm; cbn [negb]; [by apply IH |].
    apply post_bind, post_modVn. intros sv' Hsv'.
    assert (sv' = sv) as -> by congruence.
    eapply post_mono; [apply IH; by apply marked_list_snoc |].
    intros r fd' (? & Hsz & Hlen). split_and!; [done | |].
    + by rewrite Hsz, (size_vbank_modVn _ _ _ _ Hsv).
    + rewrite length_app in Hlen. cbn in Hlen. lia.
Qed.

Lemma onlyOpUse_loop_post opmatch trial :
  ∀ fuel varlist i fd,
    marked_list fd varlist →
    (i ≤ length varlist)%nat →
    (size (vbank fd) < fuel + i)%nat →
    post (onlyOpUse_loop fuel opmatch trial varlist i) fd (fun _ _ => True).
Proof.
  induction fuel as [|fuel IH]; intros varlist i fd Hml Hi Hfuel.
  { pose proof (marked_list_length _ _ Hml). lia. }
  cbn [onlyOpUse_loop].
  destruct (varlist !! i) as [vn|] eqn:Ei; [| by apply post_ret].
  apply lookup_lt_Some in Ei.
  apply post_bind, post_readonly; [apply readonly_getVn |]. intros v.
  apply post_bind.
  eapply post_mono; [by apply onlyOpUse_descend_post |].
  intros [res varlist'] fd' (Hml' & Hsz & Hlen). cbn [fst snd] in *.
  destruct res; [| by apply post_ret].
  apply IH; [done | lia | lia].
Qed.

Lemma no_oof_forM_ {A} (l : list A) (f : A → M unit) :
  (∀ x, no_oof (f x)) → no_oof (forM_ l f).
Proof.
  intros Hf. unfold forM_. generalize tt.
  induction l as [|x l IH]; intros u fd; cbn [foldM].
  - by apply post_ret.
  - apply post_bind. eapply post_mono; [apply Hf |]. intros a fd' _. apply IH.
Qed.

Lemma no_oof_modVn vn f : no_oof (modVn vn f).
Proof. intros fd. by apply post_modVn. Qed.

Lemma onlyOpUse_no_oof invn opmatch trial : no_oof (onlyOpUse invn opmatch trial).
Proof.
  intros fd. unfold onlyOpUse. apply post_bind, post_get. unfold onlyOpUse_fuel.
  apply post_bind, post_modVn. intros v Hv.
  apply post_bind.
  eapply post_mono.
  - apply onlyOpUse_loop_post.
    + split; [apply NoDup_singleton |].
      intros x ->%list_elem_of_singleton. store_simpl. rewrite lookup_insert_eq.
      eexists. split; [done |]. apply isMark_setMark.
    + cbn. lia.
    + rewrite (size_vbank_modVn _ _ _ _ Hv). lia.
  - intros r fd' _. apply post_bind.
    eapply post_mono; [apply no_oof_forM_; intros x; apply no_oof_modVn |].
    intros _ fd'' _. by apply post_ret.
Qed.

Lemma no_oof_bind {A B} (c : M A) (k : A → M B) :
  no_oof c → (∀ a, no_oof (k a)) → no_oof (bind c k).
Proof.
  intros Hc Hk fd. apply post_bind.
  eapply post_mono; [apply Hc |]. intros a fd' _. apply Hk.
Qed.

Lemma no_oof_ret {A} (a : A) : no_oof (ret a).
Proof. by intros fd. Qed.

Lemma no_oof_throw {A} (e : Error) : e ≠ OutOfFuel → no_oof (@throw A e).
Proof. by intros He fd. Qed.

Lemma no_oof_readonly {A} (c : M A) : readonly c → no_oof c.
Proof. intros Hr fd. by apply post_readonly. Qed.

Lemma ancestorOpUse_inputs_no_oof rec l :
  (∀ vn t, no_oof (rec vn t)) → ∀ trial, no_oof (ancestorOpUse_inputs rec l trial).
Proof.
  intros Hrec. induction l as [|[vn|] l IH]; intros trial; cbn [ancestorOpUse_inputs].
  - apply no_oof_ret.
  - apply no_oof_bind; [apply Hrec |]. intros [b t]. cbn [fst snd].
    destruct b; [apply no_oof_ret | apply IH].
  - by apply no_oof_throw.
Qed.

(** One level down: [maxlevel-1], as an [int4], is one less as an
    unsigned number unless [maxlevel] is zero. *)
Lemma int4_wrap_pred (maxlevel : Z) :
  -2^31 ≤ maxlevel < 2^31 → maxlevel ≠ 0 →
  -2^31 ≤ int4_wrap (maxlevel - 1) < 2^31
  ∧ int4_wrap (maxlevel - 1) mod 2^32 = maxlevel mod 2^32 - 1.
Proof.
  intros Hr Hne. unfold int4_wrap.
  change (2^31) with 2147483648 in *. change (2^32) with 4294967296 in *.
  Z.to_euclidean_division_equations. lia.
Qed.

Lemma ancestorOpUse_no_oof :
  ∀ (fuel : nat) (maxlevel : Z) (invn op : nat) (trial : ParamTrial),
    -2^31 ≤ maxlevel < 2^31 →
    (Z.to_nat (maxlevel mod 2^32) < fuel)%nat →
    no_oof (ancestorOpUse fuel maxlevel invn op trial).
Proof.
  induction fuel as [|fuel IH]; intros maxlevel invn op trial Hr Hfuel; [lia |].
  cbn [ancestorOpUse].
  destruct (decide (maxlevel = 0)) as [|Hne]; [apply no_oof_ret |].
  destruct (int4_wrap_pred maxlevel Hr Hne) as [Hr' Hm'].
  assert (Hrec : ∀ vn t, no_oof (ancestorOpUse fuel (int4_wrap (maxlevel - 1)) vn op t)).
  { intros vn t. apply IH; [done |]. rewrite Hm'.
    assert (0 ≤ maxlevel mod 2^32) by (apply Z.mod_pos_bound; done).
    assert (maxlevel mod 2^32 ≠ 0).
    { change (2^31) with 2147483648 in *. change (2^32) with 4294967296 in *.
      Z.to_euclidean_division_equations. lia. }
    lia. }
  assert (Honly : ∀ t, no_oof (b <- onlyOpUse invn op t ;; ret (b, t))).
  { intros t. apply no_oof_bind; [apply onlyOpUse_no_oof |]. intros b. apply no_oof_ret. }
  apply no_oof_bind; [apply no_oof_readonly, readonly_getVn |]. intros v.
  destruct (getDef v) as [defop|].
  2: { destruct (isInput v); cbn [negb]; [| apply no_oof_ret].
       destruct (isTypeLock v); cbn [negb]; [apply Honly | apply no_oof_ret]. }
  apply no_oof_bind; [apply no_oof_readonly, readonly_getOp |]. intros def.
  destruct (code def); try apply Honly.
  - (* CPUI_COPY *)
    destruct (_ || _); [| apply Honly].
    apply no_oof_bind; [apply no_oof_readonly, readonly_getInVn |]. intros in0.
    apply no_oof_bind; [apply Hrec |]. intros [b t]. cbn [fst snd].
    destruct b; apply no_oof_ret.
  - (* CPUI_CALL *) apply no_oof_ret.
  - (* CPUI_CALLIND *) apply no_oof_ret.
  - (* CPUI_MULTIEQUAL *) by apply ancestorOpUse_inputs_no_oof.
  - (* CPUI_INDIRECT *)
    destruct (isIndirectCreation def); [apply no_oof_ret |].
    by apply ancestorOpUse_inputs_no_oof.
  - (* CPUI_PIECE *)
    apply no_oof_bind; [apply no_oof_readonly, readonly_getInVn |]. intros in1.
    apply Hrec.
  - (* CPUI_SUBPIECE *)
    apply no_oof_bind; [apply no_oof_readonly, readonly_getInVn |]. intros in1.
    apply no_oof_bind; [apply no_oof_readonly, readonly_getVn |]. intros v1.
    apply no_oof_bind.
    { apply no_oof_readonly. repeat readonly_step. }
    intros t. apply Honly.
Qed.

(** Run on the self-reading MULTIEQUAL, the walk comes back with [false]
    when it is given the fuel of the bound, and runs out of fuel below
    it: the fuel counts the depth of the recursion. *)
Lemma ancestorOpUse_cycle_example :
  ancestorOpUse 4 3 0 1 ex_trial ex_cycle = Ok (false, ex_trial) ex_cycle
  ∧ ancestorOpUse 3 3 0 1 ex_trial ex_cycle = Throw OutOfFuel.
Proof. split; vm_compute; reflexivity. Qed.



(** ** Marking a Varnode as an input *)

Lemma Address_lt_spec (a b : Address) :
  Address_lt a b = true
  ↔ (getIndex (getSpace a) < getIndex (getSpace b))%nat
    ∨ (getIndex (getSpace a) = getIndex (getSpace b) ∧ getOffset a < getOffset b).
Proof.
  unfold Address_lt.
  rewrite orb_true_iff, andb_true_iff, Nat.ltb_lt, Nat.eqb_eq, Z.ltb_lt. tauto.
Qed.

Lemma Address_lt_false (a b : Address) :
  Address_lt a b = false
  ↔ ¬ ((getIndex (getSpace a) < getIndex (getSpace b))%nat
       ∨ (getIndex (getSpace a) = getIndex (getSpace b) ∧ getOffset a < getOffset b)).
Proof. rewrite <- Address_lt_spec. by destruct (Address_lt a b). Qed.

Lemma defloc_le_spec (a b : Varnode) :
  defloc_le a b = true
  ↔ (getIndex (getSpace (vn_loc a)) < getIndex (getSpace (vn_loc b)))%nat
    ∨ (getIndex (getSpace (vn_loc a)) = getIndex (getSpace (vn_loc b))
       ∧ (vn_getOffset a < vn_getOffset b
          ∨ (vn_getOffset a = vn_getOffset b ∧ getSize a ≤ getSize b))).
Proof.
  unfold defloc_le, vn_getOffset.
  rewrite orb_true_iff, andb_true_iff, negb_true_iff, Address_lt_spec,
    Address_lt_false, Z.leb_le.
  lia.
Qed.

Lemma defloc_le_total (a b : Varnode) :
  defloc_le a b = true ∨ defloc_le b a = true.
Proof. rewrite !defloc_le_spec. lia. Qed.

Lemma defloc_le_trans (a b c : Varnode) :
  defloc_le a b = true → defloc_le b c = true → defloc_le a c = true.
Proof. rewrite !defloc_le_spec. lia. Qed.

Lemma defloc_le_refl (a : Varnode) : defloc_le a a = true.
Proof. rewrite defloc_le_spec. lia. Qed.

(** The fold of [def_pick] keeps the greatest of the inputs below
    [addr] met so far. *)
Lemma def_pick_foldl (addr : Address) (l : list (nat * Varnode)) :
  ∀ acc : option (nat * Varnode),
    (∀ a, acc = Some a → isInput a.2 = true ∧ Address_lt (vn_loc a.2) addr = true) →
    match foldl (def_pick addr) acc l with
    | Some m =>
        (acc = Some m ∨ m ∈ l)
        ∧ isInput m.2 = true ∧ Address_lt (vn_loc m.2) addr = true
        ∧ (∀ a, acc = Some a → defloc_le a.2 m.2 = true)
        ∧ (∀ c, c ∈ l → isInput c.2 = true → Address_lt (vn_loc c.2) addr = true →
                defloc_le c.2 m.2 = true)
    | None =>
        acc = None
        ∧ ∀ c, c ∈ l → isInput c.2 = true → Address_lt (vn_loc c.2) addr = false
    end.
Proof.
  induction l as [|c l IH]; intros acc Hacc; cbn [foldl].
  - destruct acc as [a|].
    + destruct (Hacc a eq_refl) as [? ?]. split_and!; try done.
      * by left.
      * intros ? [= <-]. apply defloc_le_refl.
      * intros ? ?%elem_of_nil. done.
    + split; [done |]. intros ? ?%elem_of_nil. done.
  - specialize (IH (def_pick addr acc c)).
    assert (Hacc' : ∀ a, def_pick addr acc c = Some a →
              isInput a.2 = true ∧ Address_lt (vn_loc a.2) addr = true).
    { intros a. unfold def_pick.
      destruct (isInput c.2 && Address_lt (vn_loc c.2) addr) eqn:Ec; [| apply Hacc].
      apply andb_true_iff in Ec.
      destruct acc as [b|]; [destruct (defloc_le b.2 c.2) |];
        first [by intros [= <-] | apply Hacc]. }
    specialize (IH Hacc').
    destruct (foldl (def_pick addr) (def_pick addr acc c) l) as [m|].
    + destruct IH as (Hm & Hi & Hlt & Hge & Hmax).
      assert (Hc : isInput c.2 = true → Address_lt (vn_loc c.2) addr = true →
                   defloc_le c.2 m.2 = true
                   ∧ ∀ a, acc = Some a → defloc_le a.2 m.2 = true).
      { intros Hic Hlc. unfold def_pick in Hge, Hm. rewrite Hic, Hlc in Hge, Hm.
        cbn [andb] in *. destruct acc as [b|].
        - destruct (defloc_le b.2 c.2) eqn:Ebc.
          + split; [by apply Hge |]. intros a [= <-].
            eapply defloc_le_trans; [exact Ebc | by apply Hge].
          + split; [| intros a [= <-]; by apply Hge].
            destruct (defloc_le_total b.2 c.2) as [|Hcb]; [congruence |].
            eapply defloc_le_trans; [exact Hcb | by apply Hge].
        - split; [by apply Hge | done]. }
      split_and!; try done.
      * unfold def_pick in Hm.
        destruct (isInput c.2 && Address_lt (vn_loc c.2) addr).
        -- destruct Hm as [Hm | Hm]; [| right; by right].
           destruct acc as [b|]; [destruct (defloc_le b.2 c.2) |];
             injection Hm as <-; first [by left | right; by left].
        -- destruct Hm as [Hm | Hm]; [by left | right; by right].
      * intros a Ha. unfold def_pick in Hge.
        destruct (isInput c.2 && Address_lt (vn_loc c.2) addr) eqn:Ec.
        -- apply andb_true_iff in Ec as [Hi' Hl'].
           destruct (Hc Hi' Hl') as [_ Hc2]. by apply Hc2.
        -- by apply Hge.
      * intros c' [-> | Hin]%elem_of_cons Hi' Hl'.
        -- by destruct (Hc Hi' Hl') as [? _].
        -- by apply Hmax.
    + destruct IH as [Hnone Hl]. unfold def_pick in Hnone.
      destruct (isInput c.2 && Address_lt (vn_loc c.2) addr) eqn:Ec.
      { destruct acc as [b|]; [destruct (defloc_le b.2 c.2) |]; done. }
      split; [done |].
      intros c' [-> | Hin]%elem_of_cons Hi; [| by apply Hl].
      rewrite Hi in Ec. done.
Qed.

Lemma VarnodeBank_prevInputDef_spec (fd : Funcdata) (addr : Address) :
  match VarnodeBank_prevInputDef fd addr with
  | Some (m, mv) =>
      vbank fd !! m = Some mv
      ∧ isInput mv = true ∧ Address_lt (vn_loc mv) addr = true
      ∧ ∀ x xv, vbank fd !! x = Some xv → isInput xv = true →
                Address_lt (vn_loc xv) addr = true → defloc_le xv mv = true
  | None =>
      ∀ x xv, vbank fd !! x = Some xv → isInput xv = true →
              Address_lt (vn_loc xv) addr = false
  end.
Proof.
  unfold VarnodeBank_prevInputDef.
  pose proof (def_pick_foldl addr (map_to_list (vbank fd)) None) as H.
  destruct (foldl (def_pick addr) None (map_to_list (vbank fd))) as [[m mv]|].
  - destruct H as ([|Hin] & Hi & Hlt & _ & Hmax); [done | done |].
    apply elem_of_map_to_list in Hin. split_and!; try done.
    intros x xv Hx. apply (Hmax (x, xv)). by apply elem_of_map_to_list.
  - destruct H as [_ Hl]; [done |].
    intros x xv Hx. apply (Hl (x, xv)). by apply elem_of_map_to_list.
Qed.

Lemma overlap_test_spec (a b : Varnode) :
  0 < getSize a → 0 < getSize b →
  negb (Varnode_overlap a b =? -1) || negb (Varnode_overlap b a =? -1) = true
  ↔ overlapping a b.
Proof.
  intros Ha Hb. unfold Varnode_overlap, overlapping.
  destruct (decide (getSpace (vn_loc a) = getSpace (vn_loc b))) as [E|NE].
  - rewrite decide_True by done.
    destruct (0 <=? vn_getOffset a - vn_getOffset b) eqn:E1;
      destruct (vn_getOffset a - vn_getOffset b <? getSize b) eqn:E2;
      destruct (0 <=? vn_getOffset b - vn_getOffset a) eqn:E3;
      destruct (vn_getOffset b - vn_getOffset a <? getSize a) eqn:E4;
      cbn [andb];
      repeat match goal with
             | H : (_ <=? _) = true |- _ => apply Z.leb_le in H
             | H : (_ <=? _) = false |- _ => apply Z.leb_gt in H
             | H : (_ <? _) = true |- _ => apply Z.ltb_lt in H
             | H : (_ <? _) = false |- _ => apply Z.ltb_ge in H
             end;
      rewrite orb_true_iff, !negb_true_iff, !Z.eqb_neq, ?Z.eqb_eq;
      split; intros; try lia; try (split; [done | lia]).
    all: try (destruct H as [_ ?]; lia).
  - rewrite decide_False by done. cbn. split; [done |]. by intros [? _].
Qed.

Lemma setVarnodeProperties_run_flags fd vn v :
  vbank fd !! vn = Some v →
  ∃ v', setVarnodeProperties vn fd = Ok tt (set_vbank (insert vn v') fd)
        ∧ same_links v v' ∧ vn_flags v ⊆ vn_flags v'.
Proof.
  intros H. unfold setVarnodeProperties, SymbolEntry_updateType, vn_calcCover.
  mrun.
  destruct (isMapped v); cbn [negb];
    [| destruct (queryProperties fd (vn_loc v) (getSize v)) as [[e|] fl];
       [destruct (entry_isTypeLocked e) |] ];
    mlookup;
    destruct (highlevel_on fd);
    repeat (mlookup;
            match goal with
            | |- context [negb (vn_cover ?x)] => destruct (vn_cover x); cbn [negb]
            | |- context [if hasCover ?x then _ else _] => destruct (hasCover x)
            end);
    mlookup; rewrite ?set_vbank_insert_insert;
    first [ by (eexists; split; [reflexivity | split; [repeat split | store_simpl; set_solver]])
          | by (exists v; rewrite set_vbank_insert_id by done; repeat split) ].
Qed.

Lemma bind_get {B} (k : Funcdata → M B) fd : bind get k fd = k fd fd.
Proof. reflexivity. Qed.

Lemma Address_lt_end (x v : Varnode) :
  Address_lt (vn_loc x) (Address_add (vn_loc v) (getSize v)) = true
  ↔ (getIndex (getSpace (vn_loc x)) < getIndex (getSpace (vn_loc v)))%nat
    ∨ (getIndex (getSpace (vn_loc x)) = getIndex (getSpace (vn_loc v))
       ∧ vn_getOffset x < vn_getOffset v + getSize v).
Proof. rewrite Address_lt_spec. unfold Address_add, vn_getOffset. by cbn. Qed.

(** C9: [setInputVarnode] at its interface. With the inputs of the bank
    pairwise disjoint: a Varnode that is already an input is returned
    unchanged; when an input with the same storage address and size
    exists, that input is returned and nothing changes; when an input
    overlaps the Varnode without the same address and size, the error
    "Overlapping input varnodes" is raised; otherwise the Varnode is
    marked as an input and returned. *)
Theorem setInputVarnode_cases (fd : Funcdata) (vn : nat) (v : Varnode) :
  vbank fd !! vn = Some v → 0 < getSize v → inputs_wf fd →
  (isInput v = true → setInputVarnode vn fd = Ok vn fd)
  ∧ (isInput v = false →
     (∀ e ev, vbank fd !! e = Some ev → isInput ev = true →
        vn_loc ev = vn_loc v → getSize ev = getSize v →
        setInputVarnode vn fd = Ok e fd)
     ∧ (∀ e ev, vbank fd !! e = Some ev → isInput ev = true →
          overlapping ev v → ¬ (vn_loc ev = vn_loc v ∧ getSize ev = getSize v) →
          setInputVarnode vn fd = Throw LowlevelError_Overlap)
     ∧ ((∀ e ev, vbank fd !! e = Some ev → isInput ev = true → ¬ overlapping ev v) →
        ∃ fd' v',
          setInputVarnode vn fd = Ok vn fd'
          ∧ vbank fd' !! vn = Some v' ∧ isInput v' = true ∧ same_links v v'
          ∧ (∀ x, x ≠ vn → vbank fd' !! x = vbank fd !! x)
          ∧ obank fd' = obank fd ∧ bblocks fd' = bblocks fd)).
Proof.
  intros Hv Hsz (Hpos & Hdisj & Hspc).
  unfold setInputVarnode. rewrite (bind_Ok _ _ _ _ _ (getVn_Ok _ _ _ Hv)).
  split; [by intros -> |].
  intros Hni. rewrite Hni.
  pose proof (VarnodeBank_prevInputDef_spec fd (Address_add (vn_loc v) (getSize v)))
    as Hp.
  split; [| split].
  - (* an input with the same storage *)
    intros e ev He Hie Hloc Hsize. rewrite bind_get. cbv beta.
    assert (Hcand : Address_lt (vn_loc ev) (Address_add (vn_loc v) (getSize v)) = true).
    { apply Address_lt_end. right. unfold vn_getOffset. rewrite Hloc. lia. }
    destruct (VarnodeBank_prevInputDef fd _) as [[m mv]|].
    2: { rewrite (Hp e ev He Hie) in Hcand. done. }
    destruct Hp as (Hm & Him & Hlt & Hmax).
    assert (m = e) as ->.
    { destruct (decide (m = e)) as [|Hne]; [done |]. exfalso.
      apply (Hdisj m e mv ev Hm He Him Hie Hne).
      pose proof (Hmax e ev He Hie Hcand) as Hle.
      apply defloc_le_spec in Hle. apply Address_lt_end in Hlt.
      pose proof (Hpos _ _ Hm Him). pose proof (Hpos _ _ He Hie).
      assert (Hidx : getIndex (getSpace (vn_loc mv)) = getIndex (getSpace (vn_loc ev))).
      { rewrite Hloc in *. lia. }
      split; [by eapply Hspc |].
      unfold vn_getOffset in *. rewrite Hloc in *. lia. }
    assert (mv = ev) as -> by congruence.
    rewrite Hie. cbn [andb].
    replace (negb (Varnode_overlap v ev =? -1) || negb (Varnode_overlap ev v =? -1))
      with true.
    2: { symmetry. apply overlap_test_spec; [done | by eapply Hpos |].
         split; [by rewrite Hloc |]. unfold vn_getOffset. rewrite Hloc.
         pose proof (Hpos _ _ He Hie). lia. }
    rewrite Hsize, Z.eqb_refl, bool_decide_eq_true_2 by done. done.
  - (* an input that overlaps without the same storage *)
    intros e ev He Hie Hov Hnid. rewrite bind_get. cbv beta.
    pose proof (Hpos _ _ He Hie) as Hpe.
    assert (Hcand : Address_lt (vn_loc ev) (Address_add (vn_loc v) (getSize v)) = true).
    { apply Address_lt_end. right. destruct Hov as (Hs & ? & ?). rewrite Hs. lia. }
    destruct (VarnodeBank_prevInputDef fd _) as [[m mv]|].
    2: { rewrite (Hp e ev He Hie) in Hcand. done. }
    destruct Hp as (Hm & Him & Hlt & Hmax).
    pose proof (Hpos _ _ Hm Him) as Hpm.
    rewrite Him. cbn [andb].
    assert (Hovm : overlapping v mv ∧ ¬ (vn_loc v = vn_loc mv ∧ getSize v = getSize mv)).
    { destruct (decide (m = e)) as [->|Hne].
      - assert (mv = ev) as -> by congruence.
        destruct Hov as (? & ? & ?). split; [by split_and! |].
        intros [? ?]. apply Hnid. by split.
      - pose proof (Hmax e ev He Hie Hcand) as Hle.
        apply defloc_le_spec in Hle. apply Address_lt_end in Hlt.
        destruct Hov as (Hs & Ho1 & Ho2).
        assert (Hidx : getIndex (getSpace (vn_loc mv)) = getIndex (getSpace (vn_loc ev))).
        { rewrite Hs in *. lia. }
        assert (Hsm : getSpace (vn_loc mv) = getSpace (vn_loc ev)) by (by eapply Hspc).
        assert (¬ overlapping mv ev) as Hno by (by eapply Hdisj).
        unfold overlapping in Hno.
        assert (vn_getOffset ev + getSize ev ≤ vn_getOffset mv) by
          (destruct (decide (vn_getOffset ev + getSize ev ≤ vn_getOffset mv));
           [done | exfalso; apply Hno; split; [done | lia]]).
        split.
        + split; [congruence | rewrite Hs in *; lia].
        + intros [Hl _]. unfold vn_getOffset in *. rewrite Hl in *. lia. }
    destruct Hovm as [Hovm Hnidm].
    replace (negb (Varnode_overlap v mv =? -1) || negb (Varnode_overlap mv v =? -1))
      with true by (symmetry; by apply overlap_test_spec).
    destruct (getSize v =? getSize mv) eqn:Es; cbn [andb]; [| done].
    apply Z.eqb_eq in Es.
    rewrite bool_decide_eq_false_2; [done |]. intros Hl. apply Hnidm. done.
  - (* no input overlaps: the Varnode becomes an input *)
    intros Hnone. rewrite bind_get. cbv beta.
    assert (Hcheck :
      match VarnodeBank_prevInputDef fd (Address_add (vn_loc v) (getSize v)) with
      | Some (invn, iv) =>
          if isInput iv
             && (negb (Varnode_overlap v iv =? -1) || negb (Varnode_overlap iv v =? -1))
          then
            if (getSize v =? getSize iv) && bool_decide (vn_loc v = vn_loc iv)
            then inl (Some invn)
            else inr LowlevelError_Overlap
          else inl None
      | None => inl None
      end = inl None).
    { destruct (VarnodeBank_prevInputDef fd _) as [[m mv]|]; [| done].
      destruct Hp as (Hm & Him & _).
      rewrite Him. cbn [andb].
      replace (negb (Varnode_overlap v mv =? -1) || negb (Varnode_overlap mv v =? -1))
        with false; [done |].
      symmetry. apply not_true_is_false. intros Ht.
      apply overlap_test_spec in Ht; [| done | by eapply Hpos].
      apply (Hnone m mv Hm Him). destruct Ht as (? & ? & ?). by split_and!. }
    cbv zeta. rewrite Hcheck. clear Hcheck.
    unfold VarnodeBank_setInput.
    rewrite bind_assoc, (bind_Ok _ _ _ _ _ (modVn_Ok _ _ _ _ Hv)), bind_ret_l.
    edestruct (setVarnodeProperties_run_flags
                 (set_vbank (insert vn (vn_setFlags {[Varnode_input]} v)) fd) vn)
      as (v1 & E1 & (Hs1 & Hl1 & Hd1 & Hr1) & Hf1).
    { store_simpl. apply lookup_insert_eq. }
    rewrite (bind_Ok _ _ _ _ _ E1). rewrite set_vbank_insert_insert.
    store_simpl.
    assert (Hin1 : Varnode_input ∈ vn_flags v1) by set_solver.
    mrun.
    destruct (hasEffect fd (vn_loc v1) (getSize v1)); mlookup;
      rewrite ?set_vbank_insert_insert;
      (eexists _, _; split; [reflexivity |]; mlookup;
       split_and!; try done;
       [ unfold isInput, vn_hasFlag; store_simpl; apply bool_decide_eq_true_2; set_solver
       | intros x Hx; by rewrite lookup_insert_ne ]).
Qed.

Lemma list_to_map_imap_lookup {A} (l : list A) (k x : nat) :
  (list_to_map (imap (fun i v => ((k + i)%nat, v)) l) : gmap nat A) !! x
  = if decide (x < k)%nat then None else l !! (x - k)%nat.
Proof.
  revert k. induction l as [|a l IH]; intros k.
  - change (imap _ []) with (@nil (nat * A)). rewrite list_to_map_nil, lookup_empty.
    by case_decide.
  - rewrite imap_cons, list_to_map_cons, Nat.add_0_r.
    destruct (decide (x = k)) as [->|Hne].
    + rewrite lookup_insert_eq, decide_False by lia. by rewrite Nat.sub_diag.
    + rewrite lookup_insert_ne by done.
      rewrite (imap_ext _ (fun i v => ((S k + i)%nat, v)))
        by (intros; cbn; f_equal; lia).
      rewrite IH. repeat case_decide; try lia; [done |].
      replace (x - k)%nat with (S (x - S k)) by lia. done.
Qed.

Lemma mkStore_vbank vns ops bls x : vbank (mkStore vns ops bls) !! x = vns !! x.
Proof.
  unfold mkStore. store_simpl.
  pose proof (list_to_map_imap_lookup vns 0 x) as H.
  rewrite decide_False, Nat.sub_0_r in H by lia. exact H.
Qed.

Lemma ex_inputs_wf : inputs_wf ex_inputs.
Proof.
  unfold ex_inputs. split; [| split].
  - intros x xv. rewrite mkStore_vbank.
    destruct x as [|[|[|[|[|?]]]]]; cbn; try done; by intros [= <-].
  - intros x y xv yv. rewrite !mkStore_vbank.
    destruct x as [|[|[|[|[|?]]]]]; cbn; try done; intros [= <-];
      destruct y as [|[|[|[|[|?]]]]]; cbn; try done; intros [= <-];
      try done; intros _ _ _ (_ & H1 & H2); cbn in H1, H2; lia.
  - intros x y xv yv. rewrite !mkStore_vbank.
    destruct x as [|[|[|[|[|?]]]]]; cbn; try done; intros [= <-];
      destruct y as [|[|[|[|[|?]]]]]; cbn; try done; by intros [= <-].
Qed.

(** The four outcomes on a bank whose inputs are registers [0..3] and
    [8..11]. *)
Lemma setInputVarnode_examples :
  setInputVarnode 0 ex_inputs = Ok 0%nat ex_inputs
  ∧ setInputVarnode 2 ex_inputs = Ok 1%nat ex_inputs
  ∧ setInputVarnode 3 ex_inputs = Throw LowlevelError_Overlap
  ∧ ∃ fd' v', setInputVarnode 4 ex_inputs = Ok 4%nat fd'
              ∧ vbank fd' !! 4%nat = Some v' ∧ isInput v' = true.
Proof.
  split; [vm_compute; reflexivity |].
  split; [vm_compute; reflexivity |].
  split; [vm_compute; reflexivity |].
  eexists _, _. split; [vm_compute; reflexivity |].
  split; vm_compute; reflexivity.
Qed.

Lemma setInputVarnode_cases_witness :
  setInputVarnode 2 ex_inputs = Ok 1%nat ex_inputs
  ∧ setInputVarnode 3 ex_inputs = Throw LowlevelError_Overlap.
Proof.
  split.
  - destruct (setInputVarnode_cases ex_inputs 2 (vnode 4 (reg 8) None []))
      as [_ H]; [reflexivity | cbn; lia | apply ex_inputs_wf |].
    destruct (H eq_refl) as (H2 & _ & _).
    exact (H2 1%nat (vn_setFlags {[Varnode_input]} (vnode 4 (reg 8) None []))
             eq_refl eq_refl eq_refl eq_refl).
  - destruct (setInputVarnode_cases ex_inputs 3 (vnode 4 (reg 2) None []))
      as [_ H]; [reflexivity | cbn; lia | apply ex_inputs_wf |].
    destruct (H eq_refl) as (_ & H3 & _).
    apply (H3 0%nat (vn_setFlags {[Varnode_input]} (vnode 4 (reg 0) None []))
             eq_refl eq_refl).
    + split; [reflexivity |]. cbn. lia.
    + intros [Hl _]. discriminate Hl.
Defined.

(** ** Replacing the reads of a Varnode by a constant *)

Lemma newOp_run fd n pc :
  newOp n pc fd = Ok (obank_uniqid fd) (fd_new_op fd n pc).
Proof. reflexivity. Qed.

Lemma newUniqueOut_run fd s op o :
  obank fd !! op = Some o →
  ∃ uv, newUniqueOut s op fd
        = Ok (vbank_create_index fd)
             (set_obank (insert op (op_setOut (Some (vbank_create_index fd)) o))
                (set_vbank_uniqid (vbank_uniqid fd + s) (fd_new_vn fd uv)))
        ∧ getSize uv = s ∧ vn_loc uv = mkAddress unique_space (vbank_uniqid fd)
        ∧ getDef uv = Some op ∧ descend uv = [].
Proof.
  intros Ho. unfold newUniqueOut, VarnodeBank_createDefUnique, VarnodeBank_createUnique.
  set (u0 := mkVarnode s (mkAddress unique_space (vbank_uniqid fd)) ∅ (Some op) []
               false false None).
  set (fd1 := set_obank (insert op (op_setOut (Some (vbank_create_index fd)) o))
                (set_vbank_uniqid (vbank_uniqid fd + s) (fd_new_vn fd u0))).
  assert (E : (vn <- (vn <- (fd0 <- get ;;
                             modify (set_vbank_uniqid (vbank_uniqid fd0 + s)) ;;
                             VarnodeBank_create s (mkAddress unique_space (vbank_uniqid fd0))) ;;
                      modVn vn (vn_setDef (Some op)) ;; ret vn) ;;
               PcodeOp_setOutput op (Some vn) ;; ret vn) fd
              = Ok (vbank_create_index fd) fd1).
  { unfold VarnodeBank_create. mrun. subst fd1 u0.
    unfold fd_new_vn, set_vbank, set_vbank_create_index, set_vbank_uniqid, set_obank.
    store_simpl. by rewrite insert_insert_eq. }
  destruct (assignHigh_run fd1 (vbank_create_index fd) u0)
    as (uv & E2 & (?&?&?&?) & _).
  { subst fd1. unfold fd_new_vn. mlookup. done. }
  exists uv. split; [| by subst u0; store_simpl].
  transitivity ((vn <- (vn <- (vn <- (fd0 <- get ;;
                             modify (set_vbank_uniqid (vbank_uniqid fd0 + s)) ;;
                             VarnodeBank_create s (mkAddress unique_space (vbank_uniqid fd0))) ;;
                      modVn vn (vn_setDef (Some op)) ;; ret vn) ;;
               PcodeOp_setOutput op (Some vn) ;; ret vn) ;; assignHigh vn ;; ret vn) fd).
  { unfold bind. repeat (match goal with |- context [match ?c with _ => _ end] =>
      destruct c end; try done). }
  rewrite (bind_Ok _ _ _ _ _ E), (bind_Ok _ _ _ _ _ E2). unfold ret. f_equal.
  subst fd1. unfold fd_new_vn, set_vbank, set_vbank_create_index, set_vbank_uniqid,
    set_obank. store_simpl. by rewrite insert_insert_eq.
Qed.

(** Linking a Varnode without readers into a null slot. *)
Lemma opSetInput_null_slot fd op o vn v slot :
  obank fd !! op = Some o →
  inrefs o !! slot = Some None →
  vbank fd !! vn = Some v →
  descend v = [] →
  opSetInput op vn slot fd
  = Ok tt (set_obank (insert op (op_setInrefs (<[slot := Some vn]> (inrefs o)) o))
             (set_vbank (insert vn (vn_setDescend [op] v)) fd)).
Proof.
  intros Ho Hs Hv Hd. unfold opSetInput.
  assert (Hlt : (slot < numInput o)%nat) by (by apply lookup_lt_Some in Hs).
  mrun. unfold hasNoDescend. rewrite Hd, andb_false_r. cbn [negb andb]. mlookup.
  by rewrite Hd.
Qed.

(** Linking a Varnode that is not a constant into a slot that holds
    another one. *)
Lemma opSetInput_replace fd op o vn v slot w wv l :
  obank fd !! op = Some o →
  inrefs o !! slot = Some (Some w) →
  w ≠ vn →
  vbank fd !! w = Some wv →
  erase_first op (descend wv) = Some l →
  vbank fd !! vn = Some v →
  isConstant v = false →
  opSetInput op vn slot fd
  = Ok tt (set_obank (insert op (op_setInrefs (<[slot := Some vn]> (inrefs o)) o))
             (set_vbank (insert vn (vn_setDescend (descend v ++ [op]) v))
                (set_vbank (insert w (vn_setDescend l wv)) fd))).
Proof.
  intros Ho Hs Hne Hw Hl Hv Hc. unfold opSetInput.
  assert (Hlt : (slot < numInput o)%nat) by (by apply lookup_lt_Some in Hs).
  mrun. rewrite Hc. cbn [andb]. mlookup. rewrite Hl. mlookup.
  unfold numInput in *. store_simpl. rewrite length_insert. mlookup.
  rewrite list_insert_insert_eq. unfold set_obank. store_simpl.
  by rewrite insert_insert_eq.
Qed.

(** The store once [op] stands at position [k] of block [bl]. *)
Lemma opInsertEnd_run fd bl b cs op o :
  bblocks fd !! bl = Some b → block_codes fd b cs →
  obank fd !! op = Some o →
  opInsertEnd op bl fd = Ok tt (fd_inserted fd op o bl b (end_position cs)).
Proof.
  intros Hb Hc Ho.
  pose proof (Forall2_length _ _ _ Hc) as Hlen.
  unfold opInsertEnd.
  rewrite (bind_Ok _ _ _ _ _ (getBlock_Ok _ _ _ Hb)).
  assert (E : match last (bl_op b) with
              | Some l => lo <- getOp l ;;
                          if isFlowBreak lo then ret (length (bl_op b) - 1)%nat
                          else ret (length (bl_op b))
              | None => ret (length (bl_op b))
              end fd = Ok (end_position cs) fd).
  { unfold end_position. destruct (last (bl_op b)) as [l|] eqn:El.
    - destruct (Forall2_last_code _ _ _ _ Hc El) as (lo & Hlo & ->).
      rewrite (bind_Ok _ _ _ _ _ (getOp_Ok _ _ _ Hlo)). unfold isFlowBreak.
      rewrite Hlen. by destruct (opc_isFlowBreak (code lo)).
    - apply last_None in El. unfold block_codes in Hc. rewrite El in Hc.
      apply Forall2_nil_inv_l in Hc. by rewrite El, Hc. }
  by rewrite (bind_Ok _ _ _ _ _ E), (opInsert_run _ _ _ _ _ _ Ho Hb).
Qed.

Lemma opInsertBegin_run fd bl b cs op o :
  bblocks fd !! bl = Some b → block_codes fd b cs →
  obank fd !! op = Some o → code o ≠ CPUI_MULTIEQUAL →
  opInsertBegin op bl fd
  = Ok tt (fd_inserted fd op o bl b (count_prefix (is_code CPUI_MULTIEQUAL) cs)).
Proof.
  intros Hb Hc Ho Hcode. unfold opInsertBegin.
  rewrite (bind_Ok _ _ _ _ _ (getBlock_Ok _ _ _ Hb)).
  rewrite (bind_Ok _ _ _ _ _ (getOp_Ok _ _ _ Ho)).
  rewrite decide_True by done.
  rewrite (bind_Ok _ _ _ _ _ (count_while_run _ _ _ _ Hc)).
  by rewrite (opInsert_run _ _ _ _ _ _ Ho Hb).
Qed.

Lemma getBasicIter_run fd op o bl b iter :
  obank fd !! op = Some o → getParent o = Some bl →
  bblocks fd !! bl = Some b → index_of op (bl_op b) 0 = Some iter →
  getBasicIter op fd = Ok (bl, iter) fd.
Proof.
  intros Ho Hp Hb Hi. unfold getBasicIter.
  rewrite (bind_Ok _ _ _ _ _ (getOp_Ok _ _ _ Ho)), Hp.
  by rewrite (bind_Ok _ _ _ _ _ (getBlock_Ok _ _ _ Hb)), Hi.
Qed.

Lemma opInsertBefore_run fd follow f bl b cs iter op o :
  obank fd !! follow = Some f → getParent f = Some bl →
  bblocks fd !! bl = Some b → index_of follow (bl_op b) 0 = Some iter →
  block_codes fd b cs →
  obank fd !! op = Some o → code o ≠ CPUI_INDIRECT →
  opInsertBefore op follow fd
  = Ok tt (fd_inserted fd op o bl b (before_position cs iter)).
Proof.
  intros Hf Hp Hb Hi Hc Ho Hcode. unfold opInsertBefore.
  rewrite (bind_Ok _ _ _ _ _ (getBasicIter_run _ _ _ _ _ _ Hf Hp Hb Hi)).
  rewrite (bind_Ok _ _ _ _ _ (getBlock_Ok _ _ _ Hb)).
  rewrite (bind_Ok _ _ _ _ _ (getOp_Ok _ _ _ Ho)).
  rewrite decide_True by done.
  assert (Hr : Forall2 (fun op c => ∃ o, obank fd !! op = Some o ∧ code o = c)
                 (reverse (take iter (bl_op b))) (reverse (take iter cs))).
  { apply Forall2_reverse. by apply Forall2_take. }
  rewrite bind_assoc, (bind_Ok _ _ _ _ _ (count_while_run _ _ _ _ Hr)), bind_ret_l.
  by rewrite (opInsert_run _ _ _ _ _ _ Ho Hb).
Qed.

Lemma opInsertAfter_run fd prev p bl b cs iter op o :
  obank fd !! prev = Some p → code p ≠ CPUI_INDIRECT → getParent p = Some bl →
  bblocks fd !! bl = Some b → index_of prev (bl_op b) 0 = Some iter →
  block_codes fd b cs →
  obank fd !! op = Some o → code o ≠ CPUI_MULTIEQUAL →
  opInsertAfter op prev fd
  = Ok tt (fd_inserted fd op o bl b (after_position cs iter)).
Proof.
  intros Hf Hnind Hp Hb Hi Hc Ho Hcode. unfold opInsertAfter.
  rewrite (bind_Ok _ _ _ _ _ (getOp_Ok _ _ _ Hf)).
  rewrite (bool_decide_eq_false_2 _ Hnind), andb_false_r, bind_ret_l.
  rewrite (bind_Ok _ _ _ _ _ (getBasicIter_run _ _ _ _ _ _ Hf Hp Hb Hi)).
  rewrite (bind_Ok _ _ _ _ _ (getBlock_Ok _ _ _ Hb)).
  rewrite (bind_Ok _ _ _ _ _ (getOp_Ok _ _ _ Ho)).
  rewrite decide_True by done.
  assert (Hr : Forall2 (fun op c => ∃ o, obank fd !! op = Some o ∧ code o = c)
                 (drop (S iter) (bl_op b)) (drop (S iter) cs)).
  { by apply Forall2_drop. }
  rewrite bind_assoc, (bind_Ok _ _ _ _ _ (count_while_run _ _ _ _ Hr)), bind_ret_l.
  by rewrite (opInsert_run _ _ _ _ _ _ Ho Hb).
Qed.

(** The op-codes of a block are those of the ops it lists: they stay when
    the ops that existed keep their op-code. *)
Lemma block_codes_ext fd fd' b cs :
  (∀ x y, obank fd !! x = Some y →
          ∃ y', obank fd' !! x = Some y' ∧ code y' = code y) →
  block_codes fd b cs → block_codes fd' b cs.
Proof.
  intros Hext Hc. unfold block_codes in *.
  eapply Forall2_impl; [exact Hc |]. intros x c (ox & Hx & <-).
  destruct (Hext _ _ Hx) as (y' & ? & ?). eauto.
Qed.

Ltac srun := unfold fd_new_vn, fd_new_op, fd_inserted; mlookup.

(** Resolves the look-ups in the store a run has produced. *)
Ltac slookup := srun; first [done | reflexivity | eauto].

Lemma descend2Undef_read_multiequal fd vn v size res op o parent pb inbl ib cs l :
  obank fd !! op = Some o → code o = CPUI_MULTIEQUAL →
  getParent o = Some parent → bblocks fd !! parent = Some pb →
  bl_isDead pb = false →
  inrefs o !! getSlot o vn = Some (Some vn) →
  vbank fd !! vn = Some v → erase_first op (descend v) = Some l →
  bl_intothis pb !! getSlot o vn = Some inbl →
  bblocks fd !! inbl = Some ib → block_codes fd ib cs →
  obank fd !! obank_uniqid fd = None →
  (∀ j, (vbank_create_index fd ≤ j)%nat → vbank fd !! j = None) →
  ∃ fd' newrep,
    descend2Undef_read vn size res op fd = Ok true fd'
    ∧ copy_of_constant fd fd' (obank_uniqid fd) 0xBADDEF size newrep
    ∧ linked fd fd' op vn (getSlot o vn) newrep
    ∧ placed fd fd' (obank_uniqid fd) inbl (end_position cs).
Proof.
  intros Ho Hcode Hpar Hpb Hdead Hslot Hv Hl Hin Hib Hcs Hfo Hfv.
  set (i := getSlot o vn) in *.
  assert (Hc0 : vbank fd !! vbank_create_index fd = None) by (apply Hfv; lia).
  assert (Hc1 : vbank fd !! S (vbank_create_index fd) = None) by (apply Hfv; lia).
  assert (op ≠ obank_uniqid fd) by congruence.
  assert (vn ≠ vbank_create_index fd) by congruence.
  assert (vn ≠ S (vbank_create_index fd)) by congruence.
  assert (Hsz : sizeIn pb ≠ 0%nat).
  { unfold sizeIn. apply lookup_lt_Some in Hin. lia. }
  destruct (newConstant_run fd size 0xBADDEF) as (cv & E1 & Hcv).
  unfold descend2Undef_read, getParentBlock, BlockBasic_getIn.
  mrun. rewrite Hpar. mlookup. rewrite Hdead, E1. srun. fold i. rewrite Hin.
  srun. rewrite newOp_run. srun.
  match goal with
  | |- context [newUniqueOut ?s ?c ?st] =>
      edestruct (newUniqueOut_run st s c) as (uv & E2 & Hu1 & Hu2 & Hu3 & Hu4);
        [slookup |]
  end.
  rewrite E2. srun.
  erewrite opSetInput_null_slot; [| slookup ..].
  2: { by destruct Hcv as (_ & _ & _ & -> & _). }
  srun.
  erewrite opInsertEnd_run; [| slookup ..].
  2: { eapply block_codes_ext; [| exact Hcs]. intros x y Hx. srun. eauto. }
  srun.
  erewrite opSetInput_replace; [| slookup ..].
  2: { unfold isConstant. by rewrite Hu2. }
  eexists _, _. split; [reflexivity |].
  destruct Hcv as (? & Hcl & ? & ? & _).
  split_and!.
  - eexists _, _, _, _. split_and!; try slookup;
      unfold isConstant, vn_getOffset; srun; rewrite ?Hcl, ?Hu2; done.
  - eexists _, _, _, _, _. split_and!; try slookup;
      unfold isConstant; srun; rewrite ?Hu2, ?Hu4; done.
  - eexists _, _, _. split_and!; try slookup.
Qed.

(** Runs [newUniqueOut] and [newConstant] on the store of the goal. *)
Ltac run_newUniqueOut uv E Hu1 Hu2 Hu3 Hu4 :=
  match goal with
  | |- context [newUniqueOut ?s ?c ?st] =>
      edestruct (newUniqueOut_run st s c) as (uv & E & Hu1 & Hu2 & Hu3 & Hu4);
        [slookup |]
  end;
  rewrite E; srun.

Ltac run_newConstant cv E Hcv :=
  match goal with
  | |- context [newConstant ?s ?val ?st] =>
      destruct (newConstant_run st s val) as (cv & E & Hcv)
  end;
  rewrite E; srun.

Ltac keep_codes Hcs :=
  eapply block_codes_ext; [| exact Hcs];
  let x := fresh "x" in let y := fresh "y" in let Hx := fresh "Hx" in
  intros x y Hx; srun; eauto.

Lemma descend2Undef_read_indirect fd vn v size res op o parent pb iter cs l :
  obank fd !! op = Some o → code o = CPUI_INDIRECT →
  getParent o = Some parent → bblocks fd !! parent = Some pb →
  bl_isDead pb = false →
  inrefs o !! getSlot o vn = Some (Some vn) →
  vbank fd !! vn = Some v → erase_first op (descend v) = Some l →
  index_of op (bl_op pb) 0 = Some iter → block_codes fd pb cs →
  obank fd !! obank_uniqid fd = None →
  (∀ j, (vbank_create_index fd ≤ j)%nat → vbank fd !! j = None) →
  ∃ fd' newrep,
    descend2Undef_read vn size res op fd
    = Ok (if decide (sizeIn pb ≠ 0%nat) then true else res) fd'
    ∧ copy_of_constant fd fd' (obank_uniqid fd) 0xBADDEF size newrep
    ∧ linked fd fd' op vn (getSlot o vn) newrep
    ∧ placed fd fd' (obank_uniqid fd) parent (before_position cs iter).
Proof.
  intros Ho Hcode Hpar Hpb Hdead Hslot Hv Hl Hiter Hcs Hfo Hfv.
  set (i := getSlot o vn) in *.
  assert (Hc0 : vbank fd !! vbank_create_index fd = None) by (apply Hfv; lia).
  assert (Hc1 : vbank fd !! S (vbank_create_index fd) = None) by (apply Hfv; lia).
  assert (op ≠ obank_uniqid fd) by congruence.
  assert (vn ≠ vbank_create_index fd) by congruence.
  assert (vn ≠ S (vbank_create_index fd)) by congruence.
  assert (code o ≠ CPUI_MULTIEQUAL) by (by rewrite Hcode).
  destruct (newConstant_run fd size 0xBADDEF) as (cv & E1 & Hcv).
  unfold descend2Undef_read, getParentBlock.
  mrun. rewrite Hpar. mlookup. rewrite Hdead, E1. srun.
  rewrite newOp_run. srun.
  run_newUniqueOut uv E2 Hu1 Hu2 Hu3 Hu4.
  erewrite opSetInput_null_slot; [| slookup ..].
  2: { by destruct Hcv as (_ & _ & _ & -> & _). }
  srun.
  erewrite opInsertBefore_run; [| slookup ..].
  2: { keep_codes Hcs. }
  srun.
  erewrite opSetInput_replace; [| slookup ..].
  2: { unfold isConstant. by rewrite Hu2. }
  eexists _, _. split; [reflexivity |].
  destruct Hcv as (? & Hcl & ? & ? & _).
  split_and!.
  - eexists _, _, _, _. split_and!; try slookup;
      unfold isConstant, vn_getOffset; srun; rewrite ?Hcl, ?Hu2; done.
  - eexists _, _, _, _, _. split_and!; try slookup;
      unfold isConstant; srun; rewrite ?Hu2, ?Hu4; done.
  - eexists _, _, _. split_and!; try slookup.
Qed.

Lemma totalReplaceConstant_read_written fd vn v val op o def d bl b iter cs l :
  obank fd !! op = Some o → isMarker o = true →
  inrefs o !! getSlot o vn = Some (Some vn) →
  vbank fd !! vn = Some v → erase_first op (descend v) = Some l →
  getDef v = Some def → obank fd !! def = Some d → code d ≠ CPUI_INDIRECT →
  getParent d = Some bl → bblocks fd !! bl = Some b →
  index_of def (bl_op b) 0 = Some iter → block_codes fd b cs →
  obank fd !! obank_uniqid fd = None →
  (∀ j, (vbank_create_index fd ≤ j)%nat → vbank fd !! j = None) →
  ∃ fd' newrep,
    totalReplaceConstant_read vn val None op fd = Ok (Some (obank_uniqid fd)) fd'
    ∧ copy_of_constant fd fd' (obank_uniqid fd) val (getSize v) newrep
    ∧ linked fd fd' op vn (getSlot o vn) newrep
    ∧ placed fd fd' (obank_uniqid fd) bl (after_position cs iter).
Proof.
  intros Ho Hmark Hslot Hv Hl Hdef Hd Hnind Hpar Hb Hiter Hcs Hfo Hfv.
  set (i := getSlot o vn) in *.
  assert (Hc0 : vbank fd !! vbank_create_index fd = None) by (apply Hfv; lia).
  assert (Hc1 : vbank fd !! S (vbank_create_index fd) = None) by (apply Hfv; lia).
  assert (op ≠ obank_uniqid fd) by congruence.
  assert (def ≠ obank_uniqid fd) by congruence.
  assert (vn ≠ vbank_create_index fd) by congruence.
  assert (vn ≠ S (vbank_create_index fd)) by congruence.
  unfold totalReplaceConstant_read.
  mrun. rewrite Hmark. mlookup. rewrite Hdef. mlookup.
  rewrite newOp_run. srun.
  run_newUniqueOut uv E2 Hu1 Hu2 Hu3 Hu4.
  run_newConstant cv E1 Hcv.
  erewrite opSetInput_null_slot; [| slookup ..].
  2: { by destruct Hcv as (_ & _ & _ & -> & _). }
  srun.
  erewrite opInsertAfter_run; [| slookup ..].
  2: { keep_codes Hcs. }
  srun.
  erewrite opSetInput_replace; [| slookup ..].
  2: { unfold isConstant. by rewrite Hu2. }
  eexists _, _. split; [reflexivity |].
  destruct Hcv as (? & Hcl & ? & ? & _).
  split_and!.
  - eexists _, _, _, _. split_and!; try slookup;
      unfold isConstant, vn_getOffset; srun; rewrite ?Hcl, ?Hu2; done.
  - eexists _, _, _, _, _. split_and!; try slookup;
      unfold isConstant; srun; rewrite ?Hu2, ?Hu4; done.
  - eexists _, _, _. split_and!; try slookup.
Qed.

Lemma totalReplaceConstant_read_unwritten fd vn v val op o b cs l :
  obank fd !! op = Some o → isMarker o = true →
  inrefs o !! getSlot o vn = Some (Some vn) →
  vbank fd !! vn = Some v → erase_first op (descend v) = Some l →
  getDef v = None →
  bblocks fd !! 0%nat = Some b → block_codes fd b cs →
  obank fd !! obank_uniqid fd = None →
  (∀ j, (vbank_create_index fd ≤ j)%nat → vbank fd !! j = None) →
  ∃ fd' newrep,
    totalReplaceConstant_read vn val None op fd = Ok (Some (obank_uniqid fd)) fd'
    ∧ copy_of_constant fd fd' (obank_uniqid fd) val (getSize v) newrep
    ∧ linked fd fd' op vn (getSlot o vn) newrep
    ∧ placed fd fd' (obank_uniqid fd) 0
        (count_prefix (is_code CPUI_MULTIEQUAL) cs).
Proof.
  intros Ho Hmark Hslot Hv Hl Hdef Hb Hcs Hfo Hfv.
  set (i := getSlot o vn) in *.
  assert (Hc0 : vbank fd !! vbank_create_index fd = None) by (apply Hfv; lia).
  assert (Hc1 : vbank fd !! S (vbank_create_index fd) = None) by (apply Hfv; lia).
  assert (op ≠ obank_uniqid fd) by congruence.
  assert (vn ≠ vbank_create_index fd) by congruence.
  assert (vn ≠ S (vbank_create_index fd)) by congruence.
  unfold totalReplaceConstant_read.
  mrun. rewrite Hmark. mlookup. rewrite Hdef. mlookup.
  rewrite newOp_run. srun.
  run_newUniqueOut uv E2 Hu1 Hu2 Hu3 Hu4.
  run_newConstant cv E1 Hcv.
  erewrite opSetInput_null_slot; [| slookup ..].
  2: { by destruct Hcv as (_ & _ & _ & -> & _). }
  srun.
  erewrite opInsertBegin_run; [| slookup ..].
  2: { keep_codes Hcs. }
  srun.
  erewrite opSetInput_replace; [| slookup ..].
  2: { unfold isConstant. by rewrite Hu2. }
  eexists _, _. split; [reflexivity |].
  destruct Hcv as (? & Hcl & ? & ? & _).
  split_and!.
  - eexists _, _, _, _. split_and!; try slookup;
      unfold isConstant, vn_getOffset; srun; rewrite ?Hcl, ?Hu2; done.
  - eexists _, _, _, _, _. split_and!; try slookup;
      unfold isConstant; srun; rewrite ?Hu2, ?Hu4; done.
  - eexists _, _, _. split_and!; try slookup.
Qed.

(** The later marker reads take the output of the COPY that exists. *)
Lemma totalReplaceConstant_read_shared fd vn v val op o copyop co newrep rv l :
  obank fd !! op = Some o → isMarker o = true →
  inrefs o !! getSlot o vn = Some (Some vn) →
  vbank fd !! vn = Some v → erase_first op (descend v) = Some l →
  obank fd !! copyop = Some co → getOut co = Some newrep →
  vbank fd !! newrep = Some rv → isConstant rv = false → newrep ≠ vn →
  ∃ fd',
    totalReplaceConstant_read vn val (Some copyop) op fd = Ok (Some copyop) fd'
    ∧ linked fd fd' op vn (getSlot o vn) newrep
    ∧ bblocks fd' = bblocks fd
    ∧ dom (obank fd') = dom (obank fd) ∧ dom (vbank fd') = dom (vbank fd).
Proof.
  intros Ho Hmark Hslot Hv Hl Hco Hout Hrv Hnc Hne.
  set (i := getSlot o vn) in *.
  unfold totalReplaceConstant_read.
  mrun. rewrite Hmark. mlookup. rewrite Hout. mlookup.
  erewrite opSetInput_replace; [| slookup ..].
  eexists. split; [reflexivity |].
  split_and!.
  - eexists _, _, _, _, _. split_and!; try slookup.
    srun. by rewrite last_snoc.
  - done.
  - srun. apply set_eq. intros x. rewrite !elem_of_dom.
    destruct (decide (x = op)) as [->|]; [| by rewrite lookup_insert_ne].
    rewrite lookup_insert_eq, Ho. by split.
  - srun. apply set_eq. intros x. rewrite !elem_of_dom.
    destruct (decide (x = newrep)) as [->|]; [by rewrite lookup_insert_eq, Hrv |].
    rewrite lookup_insert_ne by done.
    destruct (decide (x = vn)) as [->|]; [by rewrite lookup_insert_eq, Hv |].
    by rewrite lookup_insert_ne.
Qed.

(** ** C10: constants and the marker ops *)

(** C10, as stated, fails for [totalReplaceConstant]: in the diamond, v0
    is defined in block 0 and read by the MULTIEQUAL (op 1) and the
    INDIRECT (op 2) of block 3. One COPY (op 4) is created for both reads;
    it stands in block 0, right after the op defining v0, not at the end
    of block 1 (the predecessor block of slot 0 of the MULTIEQUAL, which
    stays empty) and not before the INDIRECT. *)
Lemma totalReplaceConstant_one_copy_after_def :
  ∃ fd' m ind cp b0 b1 b3,
    totalReplaceConstant 0 5 ex_diamond = Ok tt fd'
    ∧ obank fd' !! 1%nat = Some m ∧ code m = CPUI_MULTIEQUAL
    ∧ inrefs m = [Some 7%nat; Some 1%nat]
    ∧ obank fd' !! 2%nat = Some ind ∧ code ind = CPUI_INDIRECT
    ∧ inrefs ind = [Some 7%nat; Some 4%nat]
    ∧ obank fd' !! 4%nat = Some cp ∧ code cp = CPUI_COPY
    ∧ getOut cp = Some 7%nat ∧ getParent cp = Some 0%nat
    ∧ obank fd' !! 5%nat = None
    ∧ bblocks fd' !! 0%nat = Some b0 ∧ bl_op b0 = [0%nat; 4%nat]
    ∧ bblocks fd' !! 1%nat = Some b1 ∧ bl_op b1 = []
    ∧ bblocks fd' !! 3%nat = Some b3 ∧ bl_op b3 = [1%nat; 2%nat; 3%nat]
    ∧ bl_intothis b3 !! 0%nat = Some 1%nat.
Proof.
  eexists _, _, _, _, _, _, _.
  repeat (split; [vm_compute; reflexivity |]). vm_compute; reflexivity.
Qed.

(** C10, amended: the read-replacement routines never link a constant
    directly into a MULTIEQUAL or INDIRECT. Let [op] be a marker that
    reads [vn] in the slot [getSlot]. [descend2Undef], for a MULTIEQUAL
    in a block that is not dead, creates [newrep = COPY #0xBADDEF] with a
    new Varnode [newrep] of the unique space, inserts the COPY at the end
    of the predecessor block of the slot (above a final branch) and links
    [newrep] into the slot; for an INDIRECT it does the same with the COPY
    inserted before the INDIRECT (above the INDIRECTs directly before
    it). [totalReplaceConstant], at the first marker read, creates
    [newrep = COPY #val], inserted after the op that defines [vn] when
    that op is not an INDIRECT (below the MULTIEQUALs directly after it),
    or below the leading MULTIEQUALs of block 0 when [vn] has no defining
    op, and links [newrep] into the slot; at every later marker read it
    links the output of that same COPY, creating no op and no Varnode. *)
Theorem marker_reads_get_copy_of_constant (fd : Funcdata) (vn : nat) (v : Varnode)
    (op : nat) (o : PcodeOp) (l : list nat) :
  obank fd !! op = Some o → isMarker o = true →
  inrefs o !! getSlot o vn = Some (Some vn) →
  vbank fd !! vn = Some v → erase_first op (descend v) = Some l →
  obank fd !! obank_uniqid fd = None →
  (∀ j, (vbank_create_index fd ≤ j)%nat → vbank fd !! j = None) →
  (∀ size res parent pb inbl ib cs,
     code o = CPUI_MULTIEQUAL →
     getParent o = Some parent → bblocks fd !! parent = Some pb →
     bl_isDead pb = false →
     bl_intothis pb !! getSlot o vn = Some inbl →
     bblocks fd !! inbl = Some ib → block_codes fd ib cs →
     ∃ fd' newrep,
       descend2Undef_read vn size res op fd = Ok true fd'
       ∧ copy_of_constant fd fd' (obank_uniqid fd) 0xBADDEF size newrep
       ∧ linked fd fd' op vn (getSlot o vn) newrep
       ∧ placed fd fd' (obank_uniqid fd) inbl (end_position cs))
  ∧ (∀ size res parent pb iter cs,
       code o = CPUI_INDIRECT →
       getParent o = Some parent → bblocks fd !! parent = Some pb →
       bl_isDead pb = false →
       index_of op (bl_op pb) 0 = Some iter → block_codes fd pb cs →
       ∃ fd' newrep,
         descend2Undef_read vn size res op fd
         = Ok (if decide (sizeIn pb ≠ 0%nat) then true else res) fd'
         ∧ copy_of_constant fd fd' (obank_uniqid fd) 0xBADDEF size newrep
         ∧ linked fd fd' op vn (getSlot o vn) newrep
         ∧ placed fd fd' (obank_uniqid fd) parent (before_position cs iter))
  ∧ (∀ val def d bl b iter cs,
       getDef v = Some def → obank fd !! def = Some d →
       code d ≠ CPUI_INDIRECT →
       getParent d = Some bl → bblocks fd !! bl = Some b →
       index_of def (bl_op b) 0 = Some iter → block_codes fd b cs →
       ∃ fd' newrep,
         totalReplaceConstant_read vn val None op fd
         = Ok (Some (obank_uniqid fd)) fd'
         ∧ copy_of_constant fd fd' (obank_uniqid fd) val (getSize v) newrep
         ∧ linked fd fd' op vn (getSlot o vn) newrep
         ∧ placed fd fd' (obank_uniqid fd) bl (after_position cs iter))
  ∧ (∀ val b cs,
       getDef v = None →
       bblocks fd !! 0%nat = Some b → block_codes fd b cs →
       ∃ fd' newrep,
         totalReplaceConstant_read vn val None op fd
         = Ok (Some (obank_uniqid fd)) fd'
         ∧ copy_of_constant fd fd' (obank_uniqid fd) val (getSize v) newrep
         ∧ linked fd fd' op vn (getSlot o vn) newrep
         ∧ placed fd fd' (obank_uniqid fd) 0
             (count_prefix (is_code CPUI_MULTIEQUAL) cs))
  ∧ (∀ val copyop co newrep rv,
       obank fd !! copyop = Some co → getOut co = Some newrep →
       vbank fd !! newrep = Some rv → isConstant rv = false → newrep ≠ vn →
       ∃ fd',
         totalReplaceConstant_read vn val (Some copyop) op fd
         = Ok (Some copyop) fd'
         ∧ linked fd fd' op vn (getSlot o vn) newrep
         ∧ bblocks fd' = bblocks fd
         ∧ dom (obank fd') = dom (obank fd)
         ∧ dom (vbank fd') = dom (vbank fd)).
Proof.
  intros Ho Hmark Hslot Hv Hl Hfo Hfv. split_and!.
  - intros. by eapply descend2Undef_read_multiequal.
  - intros. by eapply descend2Undef_read_indirect.
  - intros. by eapply totalReplaceConstant_read_written.
  - intros. by eapply totalReplaceConstant_read_unwritten.
  - intros. by eapply totalReplaceConstant_read_shared.
Qed.

Lemma marker_reads_get_copy_of_constant_witness :
  (∃ fd' newrep,
     descend2Undef_read 0 4 false 1 ex_diamond = Ok true fd'
     ∧ placed ex_diamond fd' 4 1 0
     ∧ linked ex_diamond fd' 1 0 0 newrep)
  ∧ (∃ fd' newrep,
       totalReplaceConstant_read 0 5 None 1 ex_diamond = Ok (Some 4%nat) fd'
       ∧ placed ex_diamond fd' 4 0 1
       ∧ linked ex_diamond fd' 1 0 0 newrep).
Proof.
  destruct (marker_reads_get_copy_of_constant ex_diamond 0
              (vnode 4 (reg 0) (Some 0%nat) [1%nat; 2%nat]) 1
              (liveop CPUI_MULTIEQUAL (Some 2%nat) [Some 0%nat; Some 1%nat] 3 1)
              [2%nat])
    as (Hm & _ & Hw & _).
  - reflexivity.
  - reflexivity.
  - reflexivity.
  - reflexivity.
  - reflexivity.
  - reflexivity.
  - apply mkStore_vbank_fresh.
  - split.
    + destruct (Hm 4 false 3%nat
                  (mkBlockBasic [1%nat; 2%nat; 3%nat] [1%nat; 2%nat] [] (ram 0x130) false)
                  1%nat (mkBlockBasic [] [0%nat] [3%nat] (ram 0x110) false) [])
        as (fd' & newrep & E & _ & Hl & Hp);
        [reflexivity | reflexivity | reflexivity | reflexivity | reflexivity
        | reflexivity | constructor |].
      by exists fd', newrep.
    + destruct (Hw 5 0%nat (liveop CPUI_COPY (Some 0%nat) [Some 3%nat] 0 0) 0%nat
                  (mkBlockBasic [0%nat] [] [1%nat; 2%nat] (ram 0x100) false)
                  0%nat [CPUI_COPY])
        as (fd' & newrep & E & _ & Hl & Hp);
        [reflexivity | reflexivity | done | reflexivity | reflexivity
        | reflexivity | |].
      * repeat constructor. eexists. split; reflexivity.
      * by exists fd', newrep.
Defined.

(** ** The marks of the ancestry walk *)

Lemma land_bit_eqb (f : Z) (n : Z) :
  0 ≤ n → (Z.land f (2 ^ n) =? 0) = negb (Z.testbit f n).
Proof.
  intros Hn.
  assert (E : Z.land f (2 ^ n) = if Z.testbit f n then 2 ^ n else 0).
  { apply Z.bits_inj'. intros m Hm. rewrite Z.land_spec, Z.pow2_bits_eqb by done.
    destruct (Z.eqb_spec n m) as [->|Hne].
    - destruct (Z.testbit f m); [by rewrite Z.pow2_bits_true | by rewrite Z.bits_0].
    - rewrite andb_false_r.
      destruct (Z.testbit f n); [by rewrite Z.pow2_bits_false | by rewrite Z.bits_0]. }
  rewrite E. destruct (Z.testbit f n); [| done].
  apply Z.eqb_neq. pose proof (Z.pow_pos_nonneg 2 n). lia.
Qed.

Lemma seenKill_testbit s : State.seenKill s = Z.testbit (State.flags s) 2.
Proof.
  unfold State.seenKill, State.seen_kill.
  change 4 with (2 ^ 2). rewrite land_bit_eqb by lia. apply negb_involutive.
Qed.

Lemma seenSolid_testbit s :
  State.seenSolid s = Z.testbit (State.flags s) 0 || Z.testbit (State.flags s) 1.
Proof.
  unfold State.seenSolid, State.seen_solid0, State.seen_solid1.
  rewrite Z.land_lor_distr_r.
  pose proof (land_bit_eqb (State.flags s) 0 ltac:(lia)) as H0.
  pose proof (land_bit_eqb (State.flags s) 1 ltac:(lia)) as H1.
  change (2 ^ 0) with 1 in H0. change (2 ^ 1) with 2 in H1.
  destruct (Z.testbit (State.flags s) 0), (Z.testbit (State.flags s) 1);
    cbn [negb orb] in *;
    apply Z.eqb_eq in H0 || apply Z.eqb_neq in H0;
    apply Z.eqb_eq in H1 || apply Z.eqb_neq in H1.
  all: try (rewrite H0, H1; done).
  all: apply negb_true_iff, Z.eqb_neq; rewrite Z.lor_eq_0_iff; tauto.
Qed.

Lemma seenKill_markKill s : State.seenKill (State.markKill s) = true.
Proof.
  rewrite seenKill_testbit. unfold State.markKill, State.seen_kill. cbn [State.flags].
  rewrite Z.lor_spec. change 4 with (2 ^ 2). rewrite Z.pow2_bits_true by lia.
  apply orb_true_r.
Qed.

Lemma seenSolid_markKill s : State.seenSolid (State.markKill s) = State.seenSolid s.
Proof.
  rewrite !seenSolid_testbit. unfold State.markKill, State.seen_kill. cbn [State.flags].
  rewrite !Z.lor_spec. change 4 with (2 ^ 2).
  rewrite !Z.pow2_bits_false by lia. by rewrite !orb_false_r.
Qed.

Lemma seenKill_markSolid s sl : State.seenKill (State.markSolid s sl) = State.seenKill s.
Proof.
  rewrite !seenKill_testbit. unfold State.markSolid, State.seen_solid0, State.seen_solid1.
  cbn [State.flags]. rewrite Z.lor_spec. case_decide.
  - change 1 with (2 ^ 0). rewrite Z.pow2_bits_false by lia. apply orb_false_r.
  - change 2 with (2 ^ 1). rewrite Z.pow2_bits_false by lia. apply orb_false_r.
Qed.

Lemma seenSolid_markSolid s sl : State.seenSolid (State.markSolid s sl) = true.
Proof.
  rewrite seenSolid_testbit. unfold State.markSolid, State.seen_solid0, State.seen_solid1.
  cbn [State.flags]. rewrite !Z.lor_spec. case_decide.
  - change 1 with (2 ^ 0). rewrite (Z.pow2_bits_true 0) by lia.
    by rewrite orb_true_r.
  - change 2 with (2 ^ 1). rewrite (Z.pow2_bits_true 1) by lia.
    by rewrite !orb_true_r.
Qed.

(** What one report adds to the marks of the previous state. *)
Lemma seenKill_marked depth o state p c :
  State.seenKill (uponPop_marked depth o state p c)
  = State.seenKill p || bool_decide (c = pop_failkill).
Proof.
  unfold uponPop_marked.
  destruct c;
    rewrite ?(bool_decide_eq_true_2 (_ = _)) by done;
    rewrite ?(bool_decide_eq_false_2 (_ = _)) by done;
    cbn [andb orb]; rewrite ?orb_false_r, ?orb_true_r; try done.
  - destruct (depth =? 1), (bool_decide (numInput o = 2%nat)); cbn [andb];
      by rewrite ?seenKill_markSolid.
  - apply seenKill_markKill.
Qed.

Lemma seenSolid_marked depth o state p c :
  State.seenSolid (uponPop_marked depth o state p c)
  = State.seenSolid p
    || (bool_decide (c = pop_solid) && (depth =? 1) && bool_decide (numInput o = 2%nat)).
Proof.
  unfold uponPop_marked.
  destruct c;
    rewrite ?(bool_decide_eq_true_2 (_ = _)) by done;
    rewrite ?(bool_decide_eq_false_2 (_ = _)) by done;
    cbn [andb orb]; rewrite ?orb_false_r; try done.
  - destruct (depth =? 1), (bool_decide (numInput o = 2%nat)); cbn [andb];
      by rewrite ?seenSolid_markSolid, ?orb_true_r, ?orb_false_r.
  - apply seenSolid_markKill.
Qed.

Lemma marked_node depth o state p c :
  State.op (uponPop_marked depth o state p c) = State.op p
  ∧ State.vn (uponPop_marked depth o state p c) = State.vn p
  ∧ State.slot (uponPop_marked depth o state p c) = State.slot p.
Proof.
  unfold uponPop_marked.
  destruct (_ && _ && _); [done |]. by destruct (bool_decide _).
Qed.

Lemma bool_decide_elem_of_cons (x c : command) (cs : list command) :
  bool_decide (x ∈ c :: cs) = bool_decide (c = x) || bool_decide (x ∈ cs).
Proof.
  destruct (decide (c = x)) as [->|Hne].
  - rewrite (bool_decide_eq_true_2 (x = x)) by done.
    apply bool_decide_eq_true_2, elem_of_cons. by left.
  - rewrite (bool_decide_eq_false_2 (c = x)) by done. cbn.
    apply bool_decide_ext. rewrite elem_of_cons. naive_solver.
Qed.

Lemma seenKill_marks depth o reports : ∀ state p,
  State.seenKill (uponPop_marks depth o state p reports)
  = State.seenKill p || bool_decide (pop_failkill ∈ reports).
Proof.
  induction reports as [|c cs IH]; intros state p; cbn [uponPop_marks].
  - rewrite bool_decide_eq_false_2 by (apply not_elem_of_nil). by rewrite orb_false_r.
  - rewrite IH, seenKill_marked, bool_decide_elem_of_cons. by rewrite orb_assoc.
Qed.

Lemma seenSolid_marks depth o reports : ∀ state p,
  State.seenSolid (uponPop_marks depth o state p reports)
  = State.seenSolid p
    || (bool_decide (pop_solid ∈ reports) && (depth =? 1)
        && bool_decide (numInput o = 2%nat)).
Proof.
  induction reports as [|c cs IH]; intros state p; cbn [uponPop_marks].
  - rewrite (bool_decide_eq_false_2 (_ ∈ [])) by (apply not_elem_of_nil).
    by rewrite orb_false_r.
  - rewrite IH, seenSolid_marked, bool_decide_elem_of_cons.
    destruct (State.seenSolid p), (bool_decide (c = pop_solid)),
      (bool_decide (pop_solid ∈ cs)), (depth =? 1),
      (bool_decide (numInput o = 2%nat)); done.
Qed.

Lemma marks_node depth o reports : ∀ state p,
  State.op (uponPop_marks depth o state p reports) = State.op p
  ∧ State.vn (uponPop_marks depth o state p reports) = State.vn p
  ∧ State.slot (uponPop_marks depth o state p reports) = State.slot p.
Proof.
  induction reports as [|c cs IH]; intros state p; cbn [uponPop_marks]; [done |].
  destruct (IH (S state) (uponPop_marked depth o state p c)) as (-> & -> & ->).
  apply marked_node.
Qed.

(** ** One round of [uponPop] at a MULTIEQUAL node *)

Section uponPop_multiequal.
Context (fd : Funcdata) (ar : AncestorRealistic) (o : PcodeOp).
Context (state prevstate : State.t) (rest : list State.t).
Hypothesis Hstack : stateStack ar = state :: prevstate :: rest.
Hypothesis Hop : obank fd !! State.op state = Some o.
Hypothesis Hcode : code o = CPUI_MULTIEQUAL.

Lemma uponPop_fail :
  uponPop ar pop_fail fd
  = Ok (pop_fail,
        ar_setStack (prevstate :: rest)
          (ar_setMultiDepth (int4_wrap (multiDepth ar - 1)) ar)) fd.
Proof.
  unfold uponPop. rewrite Hstack.
  rewrite (bind_Ok _ _ _ _ _ (getOp_Ok _ _ _ Hop)).
  rewrite decide_True by done. by rewrite decide_True.
Qed.

Lemma uponPop_next c r :
  c ≠ pop_fail →
  S (State.slot state) ≠ numInput o →
  inrefs o !! S (State.slot state) = Some r →
  uponPop ar c fd
  = Ok (enter_node,
        ar_setStack
          (State.mk (State.op state) r (S (State.slot state)) (State.flags state)
           :: uponPop_marked (multiDepth ar) o (State.slot state) prevstate c :: rest) ar) fd.
Proof.
  intros Hc Hslot Hr. unfold uponPop. rewrite Hstack.
  rewrite (bind_Ok _ _ _ _ _ (getOp_Ok _ _ _ Hop)).
  rewrite decide_True by done. rewrite decide_False by done.
  cbn [State.slot State.op State.flags State.vn].
  rewrite decide_False by done.
  unfold getIn. rewrite bind_assoc, (bind_Ok _ _ _ _ _ (getOp_Ok _ _ _ Hop)), Hr.
  reflexivity.
Qed.

Lemma uponPop_last c condexe :
  c ≠ pop_fail →
  S (State.slot state) = numInput o →
  let p' := uponPop_marked (multiDepth ar) o (State.slot state) prevstate c in
  (State.seenSolid p' && State.seenKill p' && allowFailingPath ar = true →
   checkConditionalExe
     (State.mk (State.op state) (State.vn state) (S (State.slot state))
               (State.flags state)) fd = Ok condexe fd) →
  uponPop ar c fd
  = Ok (multiequal_resolve (State.seenSolid p') (State.seenKill p')
          (allowFailingPath ar) condexe,
        ar_setStack (p' :: rest)
          (ar_setMultiDepth (int4_wrap (multiDepth ar - 1))
             (ar_setTrial
                (if State.seenSolid p' && State.seenKill p'
                    && allowFailingPath ar && condexe
                 then trial_setCondExeEffect (trial ar) else trial ar) ar))) fd.
Proof.
  intros Hc Hslot p' Hcond. unfold uponPop. rewrite Hstack.
  rewrite (bind_Ok _ _ _ _ _ (getOp_Ok _ _ _ Hop)).
  rewrite decide_True by done. rewrite decide_False by done.
  cbn [State.slot State.op State.flags State.vn].
  rewrite decide_True by done.
  fold (uponPop_marked (multiDepth ar) o (State.slot state) prevstate c). fold p'.
  unfold multiequal_resolve.
  destruct (State.seenSolid p'), (State.seenKill p'), (allowFailingPath ar);
    cbn [andb] in *; try reflexivity.
  rewrite bind_assoc, (bind_Ok _ _ _ _ _ (Hcond eq_refl)).
  by destruct condexe.
Qed.

End uponPop_multiequal.

(** ** All input paths of a MULTIEQUAL node *)

(** The reports of the inputs from the slot of [state] to the last one,
    none of them a failure: the node resolves from the marks they leave on
    the previous state. *)
Lemma uponPop_reports_marks fd o condexe reports : ∀ ar state prevstate rest,
  stateStack ar = state :: prevstate :: rest →
  obank fd !! State.op state = Some o → code o = CPUI_MULTIEQUAL →
  (State.slot state + length reports = numInput o)%nat → reports ≠ [] →
  pop_fail ∉ reports →
  let p' := uponPop_marks (multiDepth ar) o (State.slot state) prevstate reports in
  (State.seenSolid p' && State.seenKill p' && allowFailingPath ar = true →
   ∀ vn sl, checkConditionalExe (State.mk (State.op state) vn sl (State.flags state)) fd
            = Ok condexe fd) →
  uponPop_reports ar reports fd
  = Ok (multiequal_resolve (State.seenSolid p') (State.seenKill p')
          (allowFailingPath ar) condexe,
        ar_setStack (p' :: rest)
          (ar_setMultiDepth (int4_wrap (multiDepth ar - 1))
             (ar_setTrial
                (if State.seenSolid p' && State.seenKill p'
                    && allowFailingPath ar && condexe
                 then trial_setCondExeEffect (trial ar) else trial ar) ar))) fd.
Proof.
  induction reports as [|c cs IH]; intros ar state prevstate rest
    Hstack Hop Hcode Hlen Hne Hnf p' Hcond; [done |].
  apply not_elem_of_cons in Hnf as [Hc%not_eq_sym Hnf].
  cbn [uponPop_reports uponPop_marks] in *.
  destruct cs as [|c2 cs].
  - (* the last input *)
    cbn [length] in Hlen.
    assert (Hlast : S (State.slot state) = numInput o) by lia.
    erewrite bind_Ok;
      [| apply (uponPop_last fd ar o state prevstate rest Hstack Hop Hcode c condexe
                  Hc Hlast); intros; by apply Hcond].
    reflexivity.
  - cbn [length] in Hlen.
    assert (Hlt : (S (State.slot state) < length (inrefs o))%nat)
      by (unfold numInput in Hlen; lia).
    destruct (lookup_lt_is_Some_2 _ _ Hlt) as [r Hr].
    assert (Hnl : S (State.slot state) ≠ numInput o) by lia.
    rewrite (bind_Ok _ _ _ _ _
      (uponPop_next fd ar o state prevstate rest Hstack Hop Hcode c r Hc Hnl Hr)).
    cbn [fst snd]. rewrite decide_True by done.
    set (ar1 := ar_setStack _ ar).
    specialize (IH ar1
      (State.mk (State.op state) r (S (State.slot state)) (State.flags state))
      (uponPop_marked (multiDepth ar) o (State.slot state) prevstate c) rest).
    cbn [State.op State.slot State.flags State.vn] in IH.
    rewrite IH; try done.
    cbn [length]. lia.
Qed.

(** A failure reported by an input path ends the node at once. *)
Lemma uponPop_reports_fail fd o post pre : ∀ ar state prevstate rest,
  stateStack ar = state :: prevstate :: rest →
  obank fd !! State.op state = Some o → code o = CPUI_MULTIEQUAL →
  (State.slot state + length pre < numInput o)%nat →
  pop_fail ∉ pre →
  uponPop_reports ar (pre ++ pop_fail :: post) fd
  = Ok (pop_fail,
        ar_setStack
          (uponPop_marks (multiDepth ar) o (State.slot state) prevstate pre :: rest)
          (ar_setMultiDepth (int4_wrap (multiDepth ar - 1)) ar)) fd.
Proof.
  induction pre as [|c pre IH]; intros ar state prevstate rest
    Hstack Hop Hcode Hlen Hnf.
  - cbn [app uponPop_reports uponPop_marks].
    rewrite (bind_Ok _ _ _ _ _
      (uponPop_fail fd ar o state prevstate rest Hstack Hop Hcode)).
    by destruct post.
  - apply not_elem_of_cons in Hnf as [Hc%not_eq_sym Hnf].
    cbn [length] in Hlen.
    assert (Hlt : (S (State.slot state) < length (inrefs o))%nat)
      by (unfold numInput in Hlen; lia).
    destruct (lookup_lt_is_Some_2 _ _ Hlt) as [r Hr].
    assert (Hnl : S (State.slot state) ≠ numInput o) by lia.
    change ((c :: pre) ++ pop_fail :: post) with (c :: (pre ++ pop_fail :: post)).
    cbn [uponPop_reports uponPop_marks].
    rewrite (bind_Ok _ _ _ _ _
      (uponPop_next fd ar o state prevstate rest Hstack Hop Hcode c r Hc Hnl Hr)).
    cbn [fst snd]. rewrite decide_True by done.
    set (ar1 := ar_setStack _ ar).
    specialize (IH ar1
      (State.mk (State.op state) r (S (State.slot state)) (State.flags state))
      (uponPop_marked (multiDepth ar) o (State.slot state) prevstate c) rest).
    cbn [State.op State.slot State.flags State.vn] in IH.
    destruct (pre ++ pop_fail :: post) eqn:E; [by destruct pre |].
    rewrite IH; try done. lia.
Qed.

(** ** The verdict of [execute] *)

Lemma forM_clearMark_run l : ∀ fd,
  (∀ x, x ∈ l → is_Some (vbank fd !! x)) →
  ∃ fd', forM_ l (fun vn => modVn vn vn_clearMark) fd = Ok tt fd'
         ∧ obank fd' = obank fd ∧ bblocks fd' = bblocks fd.
Proof.
  unfold forM_. induction l as [|x l IH]; intros fd Hl; cbn [foldM].
  - by exists fd.
  - destruct (Hl x) as [v Hv]; [by left |].
    rewrite (bind_Ok _ _ _ _ _ (modVn_Ok _ _ _ _ Hv)).
    destruct (IH (set_vbank (insert x (vn_clearMark v)) fd)) as (fd' & E & ? & ?).
    { intros y Hy. store_simpl. destruct (decide (y = x)) as [->|].
      - by rewrite lookup_insert_eq.
      - rewrite lookup_insert_ne by done. apply Hl. by right. }
    exists fd'. by rewrite E.
Qed.

Lemma execute_early fd fuel op slot t allowFail o vn v :
  obank fd !! op = Some o → inrefs o !! slot = Some (Some vn) →
  vbank fd !! vn = Some v →
  isInput v = true → hasCondExeEffect t = false →
  execute fuel op slot t allowFail fd = Ok (false, t) fd.
Proof.
  intros Ho Hs Hv Hi Hc. unfold execute, getInVn, getIn.
  mrun. by rewrite Hi, Hc.
Qed.

Lemma execute_verdict fd fuel op slot t allowFail o vn v c ar fd1 :
  obank fd !! op = Some o → inrefs o !! slot = Some (Some vn) →
  vbank fd !! vn = Some v →
  isInput v && negb (hasCondExeEffect t) = false →
  execute_loop fuel enter_node
    (mkAncestorRealistic t [State.mk op (Some vn) slot 0] [] 0 allowFail) fd
  = Ok (c, ar) fd1 →
  (∀ x, x ∈ markedVn ar → is_Some (vbank fd1 !! x)) →
  ∃ fd2,
    execute fuel op slot t allowFail fd
    = Ok (bool_decide (c = pop_success ∨ c = pop_solid), trial ar) fd2
    ∧ obank fd2 = obank fd1 ∧ bblocks fd2 = bblocks fd1.
Proof.
  intros Ho Hs Hv Hi Hloop Hm.
  destruct (forM_clearMark_run _ _ Hm) as (fd2 & E & ? & ?).
  exists fd2. split; [| done].
  unfold execute, State_new, getInVn, getIn.
  rewrite !bind_assoc, (bind_Ok _ _ _ _ _ (getOp_Ok _ _ _ Ho)), Hs.
  rewrite !bind_ret_l, (bind_Ok _ _ _ _ _ (getVn_Ok _ _ _ Hv)), Hi.
  rewrite !bind_assoc, (bind_Ok _ _ _ _ _ (getOp_Ok _ _ _ Ho)), Hs.
  rewrite !bind_ret_l. unfold ar_push, ar_setStack. cbn [stateStack trial markedVn
    multiDepth allowFailingPath].
  rewrite (bind_Ok _ _ _ _ _ Hloop). cbn [fst snd].
  rewrite (bind_Ok _ _ _ _ _ E).
  destruct c; done.
Qed.

(** ** C3: how a MULTIEQUAL node of the ancestry walk resolves *)

(** C3, as stated, fails. First, a failure on the last input path: both
    inputs of the MULTIEQUAL [op3] have been traversed, none reported a
    kill or a solid move, and the node resolves as a failure, not as a
    success. Second, in the walk from the call [op0] the first input of
    [op1] (the MULTIEQUAL [op2]) leaves its kill mark on the state of
    [op1]; the second input of [op1] is the MULTIEQUAL [op3], whose two
    input paths both report success, and [op3] resolves as a kill. *)
Lemma multiequal_not_resolved_by_its_reports :
  (∃ ar',
     uponPop_reports
       (mkAncestorRealistic ex_trial
          [State.mk 3 (Some 5%nat) 0 0; State.mk 1 (Some 2%nat) 1 0;
           State.mk 0 (Some 0%nat) 1 0] [] 2 false)
       [pop_success; pop_fail] ex_nested
     = Ok (pop_fail, ar') ex_nested)
  ∧ (∃ fd9 ar9 fd11 ar11 fd12 ar12,
       execute_steps 9 20 enter_node (ex_walk 0 0 false) ex_nested
       = Ok (pop_success, ar9) fd9
       ∧ (λ s, (State.op s, State.slot s)) <$> stateStack ar9
         = [(3%nat, 0%nat); (1%nat, 1%nat); (0%nat, 1%nat)]
       ∧ execute_steps 2 20 pop_success ar9 fd9 = Ok (pop_success, ar11) fd11
       ∧ (λ s, (State.op s, State.slot s)) <$> stateStack ar11
         = [(3%nat, 1%nat); (1%nat, 1%nat); (0%nat, 1%nat)]
       ∧ uponPop ar11 pop_success fd11 = Ok (pop_failkill, ar12) fd12
       ∧ (code <$> obank fd11 !! 3%nat) = Some CPUI_MULTIEQUAL
       ∧ (numInput <$> obank fd11 !! 3%nat) = Some 2%nat).
Proof.
  split.
  - eexists. vm_compute. reflexivity.
  - eexists _, _, _, _, _, _.
    repeat (split; [vm_compute; reflexivity |]). vm_compute; reflexivity.
Qed.

(** C3, amended: let the back of the traversal stack be a MULTIEQUAL
    node, [prevstate] the state previous to it, and let the input paths
    from the current slot on report the commands given. A path that
    reports a failure ends the node at once with a failure, whatever the
    other paths reported. Otherwise, when the last input path has been
    traversed, the node resolves from two marks of the previous state: the
    kill mark, set if it was set before (by an earlier node above the same
    previous state) or some path reported killed-by-call; the solid mark,
    set if it was set before or some path reported a solid move while the
    node is at multi-depth 1 and has exactly two inputs. Kill without
    solid: the node propagates the kill; neither, or solid without kill:
    success; both: failure, unless failing paths are allowed and
    [checkConditionalExe] holds, and then success, the trial being marked
    for retesting under conditional execution. [execute] rejects at once
    a trial whose Varnode is an input and that is not being retested;
    else it accepts exactly when the walk ends in a success or a solid
    move, and returns the trial with the retesting mark the walk left. *)
Theorem multiequal_resolves_by_marks (fd : Funcdata) (ar : AncestorRealistic)
    (o : PcodeOp) (state prevstate : State.t) (rest : list State.t) :
  stateStack ar = state :: prevstate :: rest →
  obank fd !! State.op state = Some o → code o = CPUI_MULTIEQUAL →
  (∀ pre post,
     (State.slot state + length pre < numInput o)%nat → pop_fail ∉ pre →
     ∃ p',
       uponPop_reports ar (pre ++ pop_fail :: post) fd
       = Ok (pop_fail,
             ar_setStack (p' :: rest)
               (ar_setMultiDepth (int4_wrap (multiDepth ar - 1)) ar)) fd)
  ∧ (∀ reports condexe,
       (State.slot state + length reports = numInput o)%nat → reports ≠ [] →
       pop_fail ∉ reports →
       let kill := State.seenKill prevstate
                   || bool_decide (pop_failkill ∈ reports) in
       let solid := State.seenSolid prevstate
                    || (bool_decide (pop_solid ∈ reports) && (multiDepth ar =? 1)
                        && bool_decide (numInput o = 2%nat)) in
       (solid && kill && allowFailingPath ar = true →
        ∀ vn sl, checkConditionalExe
                   (State.mk (State.op state) vn sl (State.flags state)) fd
                 = Ok condexe fd) →
       ∃ p',
         uponPop_reports ar reports fd
         = Ok (multiequal_resolve solid kill (allowFailingPath ar) condexe,
               ar_setStack (p' :: rest)
                 (ar_setMultiDepth (int4_wrap (multiDepth ar - 1))
                    (ar_setTrial
                       (if solid && kill && allowFailingPath ar && condexe
                        then trial_setCondExeEffect (trial ar) else trial ar)
                       ar))) fd
         ∧ State.seenSolid p' = solid ∧ State.seenKill p' = kill
         ∧ State.op p' = State.op prevstate ∧ State.vn p' = State.vn prevstate
         ∧ State.slot p' = State.slot prevstate)
  ∧ (∀ fuel op slot t allowFail co vn v,
       obank fd !! op = Some co → inrefs co !! slot = Some (Some vn) →
       vbank fd !! vn = Some v →
       (isInput v = true → hasCondExeEffect t = false →
        execute fuel op slot t allowFail fd = Ok (false, t) fd)
       ∧ (∀ c arf fd1,
            isInput v && negb (hasCondExeEffect t) = false →
            execute_loop fuel enter_node
              (mkAncestorRealistic t [State.mk op (Some vn) slot 0] [] 0 allowFail) fd
            = Ok (c, arf) fd1 →
            (∀ x, x ∈ markedVn arf → is_Some (vbank fd1 !! x)) →
            ∃ fd2,
              execute fuel op slot t allowFail fd
              = Ok (bool_decide (c = pop_success ∨ c = pop_solid), trial arf) fd2
              ∧ obank fd2 = obank fd1 ∧ bblocks fd2 = bblocks fd1)).
Proof.
  intros Hstack Hop Hcode. split_and!.
  - intros pre post Hlen Hnf. eexists.
    by apply uponPop_reports_fail.
  - intros reports condexe Hlen Hne Hnf kill solid Hcond.
    exists (uponPop_marks (multiDepth ar) o (State.slot state) prevstate reports).
    pose proof (seenKill_marks (multiDepth ar) o reports (State.slot state) prevstate)
      as Hk.
    pose proof (seenSolid_marks (multiDepth ar) o reports (State.slot state) prevstate)
      as Hs.
    fold kill in Hk. fold solid in Hs.
    destruct (marks_node (multiDepth ar) o reports (State.slot state) prevstate)
      as (? & ? & ?).
    split_and!; try done.
    rewrite <- Hk, <- Hs.
    apply uponPop_reports_marks; try done.
    rewrite Hk, Hs. exact Hcond.
  - intros fuel op slot t allowFail co vn v Hco Hs Hv. split.
    + intros. by eapply execute_early.
    + intros. by eapply execute_verdict.
Qed.

Lemma multiequal_resolves_by_marks_witness :
  (∃ ar',
     uponPop_reports
       (mkAncestorRealistic ex_trial
          [State.mk 2 (Some 3%nat) 0 0; State.mk 7 (Some 1%nat) 1 0] [1%nat] 1 true)
       [pop_failkill; pop_solid] ex_nested
     = Ok (pop_success, ar') ex_nested
     ∧ hasCondExeEffect (trial ar') = true)
  ∧ (∃ t' fd',
       execute 20 7 1 ex_trial true ex_nested = Ok (true, t') fd'
       ∧ hasCondExeEffect t' = true).
Proof.
  destruct (multiequal_resolves_by_marks ex_nested
              (mkAncestorRealistic ex_trial
                 [State.mk 2 (Some 3%nat) 0 0; State.mk 7 (Some 1%nat) 1 0]
                 [1%nat] 1 true)
              (liveop CPUI_MULTIEQUAL (Some 1%nat) [Some 3%nat; Some 4%nat] 3 2)
              (State.mk 2 (Some 3%nat) 0 0) (State.mk 7 (Some 1%nat) 1 0) [])
    as (_ & Hnode & Hexec).
  - reflexivity.
  - reflexivity.
  - reflexivity.
  - split.
    + destruct (Hnode [pop_failkill; pop_solid] true) as (p' & E & _).
      * reflexivity.
      * done.
      * set_solver.
      * intros _ vn sl. vm_compute. reflexivity.
      * eexists. rewrite E. split; vm_compute; reflexivity.
    + destruct (Hexec 20%nat 7%nat 1%nat ex_trial true
                  (liveop CPUI_CALL None [Some 9%nat; Some 1%nat] 3 7) 1%nat
                  (vnode 4 (reg 0) (Some 2%nat) [1%nat; 7%nat]))
        as [_ Hverdict]; [reflexivity | reflexivity | reflexivity |].
      edestruct Hverdict as (fd2 & E & _).
      * reflexivity.
      * vm_compute. reflexivity.
      * intros x Hx. cbn [markedVn] in Hx.
        rewrite !elem_of_cons in Hx.
        destruct Hx as [->|[->|[->|Hx]]]; [by eexists .. |].
        by apply elem_of_nil in Hx.
      * eexists _, _. rewrite E. split; vm_compute; reflexivity.
Defined.

(** ** Less-equal normalization: the unsigned comparison *)

(** On the contents of a constant of [size] bytes, [sign_extend] at the
    top bit is the two's complement reading. *)
Lemma sign_extend_to_signed (size c : Z) :
  1 ≤ size ≤ 8 → 0 ≤ c < 2 ^ (8 * size) →
  sign_extend (intb_wrap c) (8 * size - 1) = to_signed size c.
Proof.
  intros Hs Hc.
  assert (Hcases : size = 1 ∨ size = 2 ∨ size = 3 ∨ size = 4 ∨ size = 5
                   ∨ size = 6 ∨ size = 7 ∨ size = 8) by lia.
  unfold sign_extend, to_signed.
  rewrite Z.testbit_eqb by lia. 
  destruct Hcases as [->|[->|[->|[->|[->|[->|[->| ->]]]]]]].
  all: match goal with
       | |- context [Z.shiftl (-1) ?b] =>
           let m := eval vm_compute in (intb_wrap (Z.shiftl (-1) b)) in
           change (intb_wrap (Z.shiftl (-1) b)) with m;
           let n := eval vm_compute in (Z.lnot m) in
           change (Z.lnot m) with n;
           let k := eval vm_compute in b in
           change b with k;
           change n with (Z.ones k);
           rewrite Z.land_ones by lia;
           replace m with (Z.lnot (Z.ones k)) by reflexivity
       end.
  all: rewrite <- (Z.lnot_involutive (Z.lor _ _)), Z.lnot_lor, Z.lnot_involutive,
         Z.land_ones by lia.
  all: unfold Z.lnot, intb_wrap, Z.pred in *; cbn [Z.mul Z.sub Z.opp Z.add
         Pos.mul Z.pos_sub Z.pow Z.pow_pos Pos.iter Pos.add Pos.succ Z.succ_double
         Z.pred_double Pos.pred_double Z.double] in *.
  all: repeat match goal with
              | |- context [if ?b then _ else _] => destruct b eqn:?
              end;
       rewrite ?Z.eqb_eq, ?Z.eqb_neq, ?Z.ltb_lt, ?Z.ltb_ge in *.
  all: try (Z.to_euclidean_division_equations; lia).
Qed.

Lemma to_signed_zero (size c : Z) :
  1 ≤ size ≤ 8 → 0 ≤ c < 2 ^ (8 * size) →
  (to_signed size c = 0 ↔ c = 0) ∧ (to_signed size c = -1 ↔ c = 2 ^ (8 * size) - 1).
Proof.
  intros Hs Hc. unfold to_signed.
  assert (H1 : 2 ^ (8 * size) = 2 * 2 ^ (8 * size - 1)).
  { rewrite <- Z.pow_succ_r by lia. f_equal. lia. }
  assert (H2 : 0 < 2 ^ (8 * size - 1)) by (apply Z.pow_pos_nonneg; lia).
  destruct (c <? 2 ^ (8 * size - 1)) eqn:E;
    [apply Z.ltb_lt in E | apply Z.ltb_ge in E]; lia.
Qed.

(** The adjusted constant, masked to the size of the operand. *)
Lemma unsigned_adjust (size c diff : Z) :
  1 ≤ size ≤ 8 → 0 ≤ c < 2 ^ (8 * size) → diff = 1 ∨ diff = -1 →
  0 ≤ c + diff < 2 ^ (8 * size) →
  Z.land (uintb_wrap (intb_wrap (to_signed size c + diff))) (calc_mask size)
  = c + diff.
Proof.
  intros Hs Hc Hd Hr.
  assert (Hmask : calc_mask size = Z.ones (8 * size)).
  { unfold calc_mask. rewrite Z.ones_equiv.
    destruct (size <? 8) eqn:E; [done |].
    apply Z.ltb_ge in E. by replace size with 8 by lia. }
  rewrite Hmask, Z.land_ones by lia.
  assert (Hcases : size = 1 ∨ size = 2 ∨ size = 3 ∨ size = 4 ∨ size = 5
                   ∨ size = 6 ∨ size = 7 ∨ size = 8) by lia.
  unfold uintb_wrap, intb_wrap, to_signed.
  destruct Hcases as [->|[->|[->|[->|[->|[->|[->| ->]]]]]]].
  all: cbn [Z.mul Z.sub Z.opp Z.add Pos.mul Z.pos_sub Z.pow Z.pow_pos Pos.iter
            Pos.add Pos.succ Z.succ_double Z.pred_double Pos.pred_double Z.double] in *.
  all: match goal with
       | |- context [if ?b then _ else _] => destruct b eqn:E
       end;
       rewrite ?Z.ltb_lt, ?Z.ltb_ge in E.
  all: destruct Hd as [-> | ->]; Z.to_euclidean_division_equations; lia.
Qed.

(** Linking a new Varnode without readers into a slot that holds another
    Varnode. *)
Lemma opSetInput_replace_fresh fd op o vn v slot w wv l :
  obank fd !! op = Some o →
  inrefs o !! slot = Some (Some w) →
  w ≠ vn →
  vbank fd !! w = Some wv →
  erase_first op (descend wv) = Some l →
  vbank fd !! vn = Some v →
  descend v = [] →
  opSetInput op vn slot fd
  = Ok tt (set_obank (insert op (op_setInrefs (<[slot := Some vn]> (inrefs o)) o))
             (set_vbank (insert vn (vn_setDescend [op] v))
                (set_vbank (insert w (vn_setDescend l wv)) fd))).
Proof.
  intros Ho Hs Hne Hw Hl Hv Hd. unfold opSetInput.
  assert (Hlt : (slot < numInput o)%nat) by (by apply lookup_lt_Some in Hs).
  mrun. unfold hasNoDescend. rewrite Hd, andb_false_r. cbn [negb andb]. mlookup.
  rewrite Hl. mlookup.
  unfold numInput in *. store_simpl. rewrite length_insert. mlookup.
  rewrite list_insert_insert_eq, Hd. unfold set_obank. store_simpl.
  by rewrite insert_insert_eq.
Qed.

Lemma replaceLessequal_second_operand fd op o a b va vb l :
  obank fd !! op = Some o → code o = CPUI_INT_LESSEQUAL →
  inrefs o = [Some a; Some b] →
  vbank fd !! a = Some va → isConstant va = false →
  vbank fd !! b = Some vb → isConstant vb = true →
  erase_first op (descend vb) = Some l →
  1 ≤ getSize vb ≤ 8 → 0 ≤ vn_getOffset vb < 2 ^ (8 * getSize vb) →
  vbank fd !! vbank_create_index fd = None →
  (vn_getOffset vb = 2 ^ (8 * getSize vb) - 1 →
   replaceLessequal op fd = Ok false fd)
  ∧ (vn_getOffset vb ≠ 2 ^ (8 * getSize vb) - 1 →
     ∃ fd' o' cv,
       replaceLessequal op fd = Ok true fd'
       ∧ obank fd' !! op = Some o' ∧ code o' = CPUI_INT_LESS
       ∧ inrefs o' = [Some a; Some (vbank_create_index fd)]
       ∧ getOut o' = getOut o
       ∧ vbank fd' !! vbank_create_index fd = Some cv
       ∧ isConstant cv = true ∧ getSize cv = getSize vb
       ∧ vn_getOffset cv = vn_getOffset vb + 1
       ∧ descend cv = [op]
       ∧ ∀ x, eval_compare CPUI_INT_LESS (getSize vb) x (vn_getOffset vb + 1)
              = eval_compare CPUI_INT_LESSEQUAL (getSize vb) x (vn_getOffset vb)).
Proof.
  intros Ho Hcode Hin Ha Hca Hb Hcb Hl Hs Hc Hfresh.
  assert (b ≠ vbank_create_index fd) by congruence.
  assert (a ≠ vbank_create_index fd) by congruence.
  destruct (to_signed_zero _ _ Hs Hc) as [Hz Hm].
  unfold replaceLessequal. mrun.
  repeat first [ progress mlookup | rewrite Hin | rewrite Hca | rewrite Hcb
               | progress cbn [lookup list_lookup] ].
  rewrite sign_extend_to_signed by done.
  change (1 =? -1) with false. change (1 =? 1) with true. cbn [andb].
  split.
  - intros Hmax. apply Hm in Hmax. by rewrite Hmax.
  - intros Hnmax.
    assert (Hnm : to_signed (getSize vb) (vn_getOffset vb) ≠ -1) by (by rewrite Hm).
    apply Z.eqb_neq in Hnm. rewrite Hnm.
    rewrite unsigned_adjust by (first [done | lia | by left]).
    mlookup.
    run_newConstant cv E1 Hcv.
    destruct Hcv as (Hsz & Hloc & Hdef & Hdesc & Hfl & Hme).
    erewrite (opSetInput_replace_fresh _ op _ _ _ 1 b vb l); [| slookup ..].
    2: { by rewrite Hin. }
    eexists _, _, _. split; [reflexivity |].
    split_and!; try slookup.
    + srun. by rewrite Hin.
    + unfold isConstant. srun. by rewrite Hloc.
    + unfold vn_getOffset. srun. by rewrite Hloc.
    + intros x. unfold eval_compare. f_equal.
      destruct (x <=? vn_getOffset vb) eqn:E;
        [apply Z.leb_le in E; apply Z.ltb_lt | apply Z.leb_gt in E; apply Z.ltb_ge]; lia.
Qed.

Lemma replaceLessequal_first_operand fd op o a b va l :
  obank fd !! op = Some o → code o = CPUI_INT_LESSEQUAL →
  inrefs o = [Some a; Some b] →
  vbank fd !! a = Some va → isConstant va = true →
  erase_first op (descend va) = Some l →
  1 ≤ getSize va ≤ 8 → 0 ≤ vn_getOffset va < 2 ^ (8 * getSize va) →
  vbank fd !! vbank_create_index fd = None →
  (vn_getOffset va = 0 → replaceLessequal op fd = Ok false fd)
  ∧ (vn_getOffset va ≠ 0 →
     ∃ fd' o' cv,
       replaceLessequal op fd = Ok true fd'
       ∧ obank fd' !! op = Some o' ∧ code o' = CPUI_INT_LESS
       ∧ inrefs o' = [Some (vbank_create_index fd); Some b]
       ∧ getOut o' = getOut o
       ∧ vbank fd' !! vbank_create_index fd = Some cv
       ∧ isConstant cv = true ∧ getSize cv = getSize va
       ∧ vn_getOffset cv = vn_getOffset va - 1
       ∧ descend cv = [op]
       ∧ ∀ x, eval_compare CPUI_INT_LESS (getSize va) (vn_getOffset va - 1) x
              = eval_compare CPUI_INT_LESSEQUAL (getSize va) (vn_getOffset va) x).
Proof.
  intros Ho Hcode Hin Ha Hca Hl Hs Hc Hfresh.
  assert (a ≠ vbank_create_index fd) by congruence.
  destruct (to_signed_zero _ _ Hs Hc) as [Hz Hm].
  unfold replaceLessequal. mrun.
  repeat first [ progress mlookup | rewrite Hin | rewrite Hca
               | progress cbn [lookup list_lookup] ].
  rewrite sign_extend_to_signed by done.
  change (-1 =? -1) with true. change (-1 =? 1) with false. cbn [andb].
  split.
  - intros Hzero. apply Hz in Hzero. by rewrite Hzero.
  - intros Hnz.
    assert (Hnm : to_signed (getSize va) (vn_getOffset va) ≠ 0) by (by rewrite Hz).
    apply Z.eqb_neq in Hnm. rewrite Hnm.
    change (to_signed (getSize va) (vn_getOffset va) + -1)
      with (to_signed (getSize va) (vn_getOffset va) + (-1)).
    rewrite unsigned_adjust by (first [done | lia | by right]).
    mlookup.
    run_newConstant cv E1 Hcv.
    destruct Hcv as (Hsz & Hloc & Hdef & Hdesc & Hfl & Hme).
    erewrite (opSetInput_replace_fresh _ op _ _ _ 0 a va l); [| slookup ..].
    2: { by rewrite Hin. }
    eexists _, _, _. split; [reflexivity |].
    split_and!; try slookup.
    + srun. by rewrite Hin.
    + unfold isConstant. srun. by rewrite Hloc.
    + unfold vn_getOffset. srun. by rewrite Hloc.
    + intros x. unfold eval_compare. f_equal.
      destruct (vn_getOffset va <=? x) eqn:E;
        [apply Z.leb_le in E; apply Z.ltb_lt | apply Z.leb_gt in E; apply Z.ltb_ge]; lia.
Qed.

(** ** Less-equal normalization: the signed comparison away from the
    extreme values *)

Lemma to_signed_range (size c : Z) :
  1 ≤ size ≤ 8 → 0 ≤ c < 2 ^ (8 * size) →
  - 2 ^ (8 * size - 1) ≤ to_signed size c < 2 ^ (8 * size - 1).
Proof.
  intros Hs Hc. unfold to_signed.
  assert (H1 : 2 ^ (8 * size) = 2 * 2 ^ (8 * size - 1)).
  { rewrite <- Z.pow_succ_r by lia. f_equal. lia. }
  destruct (c <? 2 ^ (8 * size - 1)) eqn:E;
    [apply Z.ltb_lt in E | apply Z.ltb_ge in E]; lia.
Qed.

Lemma signed_adjust (size c diff : Z) :
  1 ≤ size ≤ 8 → 0 ≤ c < 2 ^ (8 * size) → diff = 1 ∨ diff = -1 →
  - 2 ^ (8 * size - 1) ≤ to_signed size c + diff < 2 ^ (8 * size - 1) →
  let res := Z.land (uintb_wrap (intb_wrap (to_signed size c + diff)))
                    (calc_mask size) in
  to_signed size res = to_signed size c + diff
  ∧ ((to_signed size c <? 0) && (intb_wrap (to_signed size c + diff) >? 0) = false)
  ∧ ((to_signed size c >? 0) && (intb_wrap (to_signed size c + diff) <? 0) = false).
Proof.
  intros Hs Hc Hd Hr.
  assert (Hmask : calc_mask size = Z.ones (8 * size)).
  { unfold calc_mask. rewrite Z.ones_equiv.
    destruct (size <? 8) eqn:E; [done |].
    apply Z.ltb_ge in E. by replace size with 8 by lia. }
  cbv zeta. rewrite Hmask, Z.land_ones by lia.
  assert (Hcases : size = 1 ∨ size = 2 ∨ size = 3 ∨ size = 4 ∨ size = 5
                   ∨ size = 6 ∨ size = 7 ∨ size = 8) by lia.
  set (v := to_signed size c) in *.
  assert (Hw : intb_wrap (v + diff) = v + diff).
  { unfold intb_wrap.
    assert (2 ^ (8 * size - 1) ≤ 2 ^ 63) by (apply Z.pow_le_mono_r; lia).
    rewrite Z.mod_small; lia. }
  rewrite Hw. split_and!.
  - unfold uintb_wrap, to_signed.
    destruct Hcases as [->|[->|[->|[->|[->|[->|[->| ->]]]]]]].
    all: cbn [Z.mul Z.sub Z.opp Z.add Pos.mul Z.pos_sub Z.pow Z.pow_pos Pos.iter
              Pos.add Pos.succ Z.succ_double Z.pred_double Pos.pred_double
              Z.double] in *.
    all: match goal with
         | |- context [if ?b then _ else _] => destruct b eqn:E
         end;
         rewrite ?Z.ltb_lt, ?Z.ltb_ge in E.
    all: Z.to_euclidean_division_equations; lia.
  - destruct (v <? 0) eqn:E1; [| done]. apply Z.ltb_lt in E1.
    cbn [andb]. unfold Z.gtb. destruct (v + diff ?= 0) eqn:E2; try done.
    apply Z.compare_gt_iff in E2. lia.
  - unfold Z.gtb. destruct (v ?= 0) eqn:E1; try done.
    apply Z.compare_gt_iff in E1. cbn [andb]. apply Z.ltb_ge. lia.
Qed.

Lemma replaceLessequal_signed_second_operand fd op o a b va vb l :
  obank fd !! op = Some o → code o = CPUI_INT_SLESSEQUAL →
  inrefs o = [Some a; Some b] →
  vbank fd !! a = Some va → isConstant va = false →
  vbank fd !! b = Some vb → isConstant vb = true →
  erase_first op (descend vb) = Some l →
  1 ≤ getSize vb ≤ 8 → 0 ≤ vn_getOffset vb < 2 ^ (8 * getSize vb) →
  vbank fd !! vbank_create_index fd = None →
  to_signed (getSize vb) (vn_getOffset vb) + 1 < 2 ^ (8 * getSize vb - 1) →
  ∃ fd' o' cv,
    replaceLessequal op fd = Ok true fd'
    ∧ obank fd' !! op = Some o' ∧ code o' = CPUI_INT_SLESS
    ∧ inrefs o' = [Some a; Some (vbank_create_index fd)]
    ∧ getOut o' = getOut o
    ∧ vbank fd' !! vbank_create_index fd = Some cv
    ∧ isConstant cv = true ∧ getSize cv = getSize vb
    ∧ to_signed (getSize vb) (vn_getOffset cv)
      = to_signed (getSize vb) (vn_getOffset vb) + 1
    ∧ descend cv = [op]
    ∧ ∀ x, eval_compare CPUI_INT_SLESS (getSize vb) x (vn_getOffset cv)
           = eval_compare CPUI_INT_SLESSEQUAL (getSize vb) x (vn_getOffset vb).
Proof.
  intros Ho Hcode Hin Ha Hca Hb Hcb Hl Hs Hc Hfresh Hr.
  assert (b ≠ vbank_create_index fd) by congruence.
  assert (a ≠ vbank_create_index fd) by congruence.
  pose proof (to_signed_range _ _ Hs Hc) as Hrange.
  destruct (signed_adjust (getSize vb) (vn_getOffset vb) 1 Hs Hc ltac:(by left)
              ltac:(lia)) as (Hres & Hck1 & Hck2).
  unfold replaceLessequal. mrun.
  repeat first [ progress mlookup | rewrite Hin | rewrite Hca | rewrite Hcb
               | progress cbn [lookup list_lookup] ].
  rewrite sign_extend_to_signed by done.
  rewrite Hck1, Hck2.
  mlookup.
  run_newConstant cv E1 Hcv.
  destruct Hcv as (Hsz & Hloc & Hdef & Hdesc & Hfl & Hme).
  erewrite (opSetInput_replace_fresh _ op _ _ _ 1 b vb l); [| slookup ..].
  2: { by rewrite Hin. }
  eexists _, _, _. split; [reflexivity |].
  assert (Hoff : ∀ fl me d,
    vn_getOffset (vn_setDescend d (vn_setFlags fl (vn_clearFlags
        {[Varnode_typelock; Varnode_namelock]} (vn_setMapentry me cv))))
    = Z.land (uintb_wrap (intb_wrap (to_signed (getSize vb) (vn_getOffset vb) + 1)))
        (calc_mask (getSize vb))).
  { intros. unfold vn_getOffset at 1. store_simpl. by rewrite Hloc. }
  split_and!; try slookup.
  + srun. by rewrite Hin.
  + unfold isConstant. srun. by rewrite Hloc.
  + by rewrite Hoff.
  + intros x. unfold eval_compare. rewrite Hoff, Hres. f_equal.
    destruct (to_signed (getSize vb) x <=? to_signed (getSize vb) (vn_getOffset vb)) eqn:E;
      [apply Z.leb_le in E; apply Z.ltb_lt | apply Z.leb_gt in E; apply Z.ltb_ge]; lia.
Qed.

Lemma replaceLessequal_signed_first_operand fd op o a b va l :
  obank fd !! op = Some o → code o = CPUI_INT_SLESSEQUAL →
  inrefs o = [Some a; Some b] →
  vbank fd !! a = Some va → isConstant va = true →
  erase_first op (descend va) = Some l →
  1 ≤ getSize va ≤ 8 → 0 ≤ vn_getOffset va < 2 ^ (8 * getSize va) →
  vbank fd !! vbank_create_index fd = None →
  - 2 ^ (8 * getSize va - 1) ≤ to_signed (getSize va) (vn_getOffset va) - 1 →
  ∃ fd' o' cv,
    replaceLessequal op fd = Ok true fd'
    ∧ obank fd' !! op = Some o' ∧ code o' = CPUI_INT_SLESS
    ∧ inrefs o' = [Some (vbank_create_index fd); Some b]
    ∧ getOut o' = getOut o
    ∧ vbank fd' !! vbank_create_index fd = Some cv
    ∧ isConstant cv = true ∧ getSize cv = getSize va
    ∧ to_signed (getSize va) (vn_getOffset cv)
      = to_signed (getSize va) (vn_getOffset va) - 1
    ∧ descend cv = [op]
    ∧ ∀ x, eval_compare CPUI_INT_SLESS (getSize va) (vn_getOffset cv) x
           = eval_compare CPUI_INT_SLESSEQUAL (getSize va) (vn_getOffset va) x.
Proof.
  intros Ho Hcode Hin Ha Hca Hl Hs Hc Hfresh Hr.
  assert (a ≠ vbank_create_index fd) by congruence.
  pose proof (to_signed_range _ _ Hs Hc) as Hrange.
  destruct (signed_adjust (getSize va) (vn_getOffset va) (-1) Hs Hc ltac:(by right)
              ltac:(lia)) as (Hres & Hck1 & Hck2).
  unfold replaceLessequal. mrun.
  repeat first [ progress mlookup | rewrite Hin | rewrite Hca
               | progress cbn [lookup list_lookup] ].
  rewrite sign_extend_to_signed by done.
  change (to_signed (getSize va) (vn_getOffset va) + -1)
    with (to_signed (getSize va) (vn_getOffset va) + (-1)).
  rewrite Hck1, Hck2.
  mlookup.
  run_newConstant cv E1 Hcv.
  destruct Hcv as (Hsz & Hloc & Hdef & Hdesc & Hfl & Hme).
  erewrite (opSetInput_replace_fresh _ op _ _ _ 0 a va l); [| slookup ..].
  2: { by rewrite Hin. }
  eexists _, _, _. split; [reflexivity |].
  assert (Hoff : ∀ fl me d,
    vn_getOffset (vn_setDescend d (vn_setFlags fl (vn_clearFlags
        {[Varnode_typelock; Varnode_namelock]} (vn_setMapentry me cv))))
    = Z.land (uintb_wrap (intb_wrap (to_signed (getSize va) (vn_getOffset va) + (-1))))
        (calc_mask (getSize va))).
  { intros. unfold vn_getOffset at 1. store_simpl. by rewrite Hloc. }
  split_and!; try slookup.
  + srun. by rewrite Hin.
  + unfold isConstant. srun. by rewrite Hloc.
  + rewrite Hoff, Hres. lia.
  + intros x. unfold eval_compare. rewrite Hoff, Hres. f_equal.
    destruct (to_signed (getSize va) (vn_getOffset va) <=? to_signed (getSize va) x) eqn:E;
      [apply Z.leb_le in E; apply Z.ltb_lt | apply Z.leb_gt in E; apply Z.ltb_ge]; lia.
Qed.

(** ** Further properties of the less-equal normalization *)

(** X1: on an unsigned comparison [INT_LESSEQUAL] with a constant operand
    of 1 to 8 bytes, [replaceLessequal] returns [false] and leaves the
    store as it is exactly when the adjustment would overflow (constant 0
    as first operand, all-ones as second operand); otherwise it returns
    [true], the op becomes [INT_LESS], the constant operand is replaced by
    a new constant one less (first operand) or one more (second operand),
    and the comparison has the same truth value for every value of the
    other operand. *)
Theorem replaceLessequal_unsigned_preserves_truth (fd : Funcdata) (op : nat)
    (o : PcodeOp) (a b : nat) :
  obank fd !! op = Some o → code o = CPUI_INT_LESSEQUAL →
  inrefs o = [Some a; Some b] →
  vbank fd !! vbank_create_index fd = None →
  (∀ va l,
     vbank fd !! a = Some va → isConstant va = true →
     erase_first op (descend va) = Some l →
     1 ≤ getSize va ≤ 8 → 0 ≤ vn_getOffset va < 2 ^ (8 * getSize va) →
     (vn_getOffset va = 0 → replaceLessequal op fd = Ok false fd)
     ∧ (vn_getOffset va ≠ 0 →
        ∃ fd' o' cv,
          replaceLessequal op fd = Ok true fd'
          ∧ obank fd' !! op = Some o' ∧ code o' = CPUI_INT_LESS
          ∧ inrefs o' = [Some (vbank_create_index fd); Some b]
          ∧ getOut o' = getOut o
          ∧ vbank fd' !! vbank_create_index fd = Some cv
          ∧ isConstant cv = true ∧ getSize cv = getSize va
          ∧ vn_getOffset cv = vn_getOffset va - 1
          ∧ descend cv = [op]
          ∧ ∀ x, eval_compare CPUI_INT_LESS (getSize va) (vn_getOffset va - 1) x
                 = eval_compare CPUI_INT_LESSEQUAL (getSize va) (vn_getOffset va) x))
  ∧ (∀ va vb l,
       vbank fd !! a = Some va → isConstant va = false →
       vbank fd !! b = Some vb → isConstant vb = true →
       erase_first op (descend vb) = Some l →
       1 ≤ getSize vb ≤ 8 → 0 ≤ vn_getOffset vb < 2 ^ (8 * getSize vb) →
       (vn_getOffset vb = 2 ^ (8 * getSize vb) - 1 →
        replaceLessequal op fd = Ok false fd)
       ∧ (vn_getOffset vb ≠ 2 ^ (8 * getSize vb) - 1 →
          ∃ fd' o' cv,
            replaceLessequal op fd = Ok true fd'
            ∧ obank fd' !! op = Some o' ∧ code o' = CPUI_INT_LESS
            ∧ inrefs o' = [Some a; Some (vbank_create_index fd)]
            ∧ getOut o' = getOut o
            ∧ vbank fd' !! vbank_create_index fd = Some cv
            ∧ isConstant cv = true ∧ getSize cv = getSize vb
            ∧ vn_getOffset cv = vn_getOffset vb + 1
            ∧ descend cv = [op]
            ∧ ∀ x, eval_compare CPUI_INT_LESS (getSize vb) x (vn_getOffset vb + 1)
                   = eval_compare CPUI_INT_LESSEQUAL (getSize vb) x (vn_getOffset vb))).
Proof.
  intros Ho Hcode Hin Hfresh. split.
  - intros va l Ha Hca Hl Hs Hc.
    by apply (replaceLessequal_first_operand fd op o a b va l).
  - intros va vb l Ha Hca Hb Hcb Hl Hs Hc.
    by apply (replaceLessequal_second_operand fd op o a b va vb l).
Qed.

Lemma replaceLessequal_unsigned_preserves_truth_witness :
  ∃ fd' o' cv,
    replaceLessequal 0 ex_lessequal = Ok true fd'
    ∧ obank fd' !! 0%nat = Some o' ∧ code o' = CPUI_INT_LESS
    ∧ inrefs o' = [Some 0%nat; Some 5%nat]
    ∧ vbank fd' !! 5%nat = Some cv ∧ vn_getOffset cv = 6.
Proof.
  destruct (replaceLessequal_unsigned_preserves_truth ex_lessequal 0
              (deadop CPUI_INT_LESSEQUAL (Some 2%nat) [Some 0%nat; Some 1%nat] 0)
              0 1) as [_ H]; [reflexivity | reflexivity | reflexivity | reflexivity |].
  destruct (H (vnode 4 (reg 0) None [0%nat; 1%nat])
              (vnode 4 (getConstant 5) None [0%nat]) [])
    as [_ H2]; [reflexivity | reflexivity | reflexivity | reflexivity | reflexivity
               | cbn; lia | cbn; lia |].
  destruct H2 as (fd' & o' & cv & E & Ho & Hc & Hi & _ & Hv & _ & _ & Hoff & _);
    [cbn; lia |].
  by exists fd', o', cv.
Defined.

(** X2: on a signed comparison [INT_SLESSEQUAL] with a constant operand of
    1 to 8 bytes whose adjustment stays in the signed range of its size
    (the constant is not the signed minimum as first operand, not the
    signed maximum as second operand), [replaceLessequal] returns [true],
    the op becomes [INT_SLESS], the constant operand is replaced by a new
    constant whose signed value is one less (first operand) or one more
    (second operand), and the comparison has the same truth value for
    every value of the other operand. *)
Theorem replaceLessequal_signed_in_range_preserves_truth (fd : Funcdata) (op : nat)
    (o : PcodeOp) (a b : nat) :
  obank fd !! op = Some o → code o = CPUI_INT_SLESSEQUAL →
  inrefs o = [Some a; Some b] →
  vbank fd !! vbank_create_index fd = None →
  (∀ va l,
     vbank fd !! a = Some va → isConstant va = true →
     erase_first op (descend va) = Some l →
     1 ≤ getSize va ≤ 8 → 0 ≤ vn_getOffset va < 2 ^ (8 * getSize va) →
     - 2 ^ (8 * getSize va - 1) ≤ to_signed (getSize va) (vn_getOffset va) - 1 →
     ∃ fd' o' cv,
       replaceLessequal op fd = Ok true fd'
       ∧ obank fd' !! op = Some o' ∧ code o' = CPUI_INT_SLESS
       ∧ inrefs o' = [Some (vbank_create_index fd); Some b]
       ∧ getOut o' = getOut o
       ∧ vbank fd' !! vbank_create_index fd = Some cv
       ∧ isConstant cv = true ∧ getSize cv = getSize va
       ∧ to_signed (getSize va) (vn_getOffset cv)
         = to_signed (getSize va) (vn_getOffset va) - 1
       ∧ descend cv = [op]
       ∧ ∀ x, eval_compare CPUI_INT_SLESS (getSize va) (vn_getOffset cv) x
              = eval_compare CPUI_INT_SLESSEQUAL (getSize va) (vn_getOffset va) x)
  ∧ (∀ va vb l,
       vbank fd !! a = Some va → isConstant va = false →
       vbank fd !! b = Some vb → isConstant vb = true →
       erase_first op (descend vb) = Some l →
       1 ≤ getSize vb ≤ 8 → 0 ≤ vn_getOffset vb < 2 ^ (8 * getSize vb) →
       to_signed (getSize vb) (vn_getOffset vb) + 1 < 2 ^ (8 * getSize vb - 1) →
       ∃ fd' o' cv,
         replaceLessequal op fd = Ok true fd'
         ∧ obank fd' !! op = Some o' ∧ code o' = CPUI_INT_SLESS
         ∧ inrefs o' = [Some a; Some (vbank_create_index fd)]
         ∧ getOut o' = getOut o
         ∧ vbank fd' !! vbank_create_index fd = Some cv
         ∧ isConstant cv = true ∧ getSize cv = getSize vb
         ∧ to_signed (getSize vb) (vn_getOffset cv)
           = to_signed (getSize vb) (vn_getOffset vb) + 1
         ∧ descend cv = [op]
         ∧ ∀ x, eval_compare CPUI_INT_SLESS (getSize vb) x (vn_getOffset cv)
                = eval_compare CPUI_INT_SLESSEQUAL (getSize vb) x (vn_getOffset vb)).
Proof.
  intros Ho Hcode Hin Hfresh. split.
  - intros va l Ha Hca Hl Hs Hc Hr.
    by apply (replaceLessequal_signed_first_operand fd op o a b va l).
  - intros va vb l Ha Hca Hb Hcb Hl Hs Hc Hr.
    by apply (replaceLessequal_signed_second_operand fd op o a b va vb l).
Qed.

Lemma replaceLessequal_signed_in_range_preserves_truth_witness :
  ∃ fd' o' cv,
    replaceLessequal 1 ex_lessequal = Ok true fd'
    ∧ obank fd' !! 1%nat = Some o' ∧ code o' = CPUI_INT_SLESS
    ∧ inrefs o' = [Some 0%nat; Some 5%nat]
    ∧ vbank fd' !! 5%nat = Some cv ∧ to_signed 4 (vn_getOffset cv) = 6.
Proof.
  destruct (replaceLessequal_signed_in_range_preserves_truth ex_lessequal 1
              (deadop CPUI_INT_SLESSEQUAL (Some 4%nat) [Some 0%nat; Some 3%nat] 1)
              0 3) as [_ H]; [reflexivity | reflexivity | reflexivity | reflexivity |].
  destruct (H (vnode 4 (reg 0) None [0%nat; 1%nat])
              (vnode 4 (getConstant 5) None [1%nat]) [])
    as (fd' & o' & cv & E & Ho & Hc & Hi & _ & Hv & _ & _ & Hoff & _);
    [reflexivity | reflexivity | reflexivity | reflexivity | reflexivity
    | cbn; lia | cbn; lia | by vm_compute |].
  by exists fd', o', cv.
Defined.

(** * The linkage edits and the reader lists *)

(** ** Counting the entries of a list *)

Section count_in.
Context {A : Type} `{EqDecision A}.
Implicit Types (x y z : A) (l : list A).

Lemma count_in_nil x : count_in x [] = 0%nat.
Proof. reflexivity. Qed.

Lemma count_in_cons x y l :
  count_in x (y :: l) = ((if decide (y = x) then 1 else 0) + count_in x l)%nat.
Proof. unfold count_in. rewrite filter_cons. by case_decide. Qed.

Lemma count_in_app x l1 l2 :
  count_in x (l1 ++ l2) = (count_in x l1 + count_in x l2)%nat.
Proof. unfold count_in. by rewrite filter_app, length_app. Qed.

Lemma count_in_pos x l : (0 < count_in x l)%nat ↔ x ∈ l.
Proof.
  induction l as [|y l IH]; [rewrite count_in_nil, elem_of_nil; lia |].
  rewrite count_in_cons, elem_of_cons. case_decide; [naive_solver lia |].
  rewrite Nat.add_0_l, IH. naive_solver.
Qed.

Lemma count_in_zero x l : count_in x l = 0%nat ↔ x ∉ l.
Proof. rewrite <- count_in_pos. lia. Qed.

(** Overwriting position [i], which holds [x], by [y]. *)
Lemma count_in_insert z l i x y :
  l !! i = Some x →
  (count_in z (<[i := y]> l) + (if decide (x = z) then 1 else 0)
   = count_in z l + (if decide (y = z) then 1 else 0))%nat.
Proof.
  intros Hi. pose proof (lookup_lt_Some _ _ _ Hi) as Hlt.
  rewrite insert_take_drop by done.
  rewrite <- (take_drop_middle l i x Hi) at 3.
  rewrite !count_in_app, !count_in_cons. lia.
Qed.

Lemma count_in_replicate_ne z x n : x ≠ z → count_in z (replicate n x) = 0%nat.
Proof. intros Hne. apply count_in_zero. by intros [-> _]%elem_of_replicate. Qed.

End count_in.

Lemma count_in_erase_first z op l r :
  erase_first op l = Some r →
  count_in z l = (count_in z r + (if decide (op = z) then 1 else 0))%nat.
Proof.
  revert r. induction l as [|x l IH]; intros r; cbn [erase_first]; [done |].
  destruct (decide (x = op)) as [->|Hne].
  - intros [= ->]. rewrite count_in_cons. lia.
  - destruct (erase_first op l) as [r'|]; [| done]. intros [= <-].
    rewrite !count_in_cons, (IH r' eq_refl). lia.
Qed.

Lemma erase_first_subseteq op l r x :
  erase_first op l = Some r → x ∈ r → x ∈ l.
Proof.
  intros He Hx. apply count_in_pos. apply count_in_pos in Hx.
  rewrite (count_in_erase_first x _ _ _ He). lia.
Qed.

(** ** Unlinking and linking an input: the store that results *)

Lemma opUnsetInput_run fd op o slot w wv l :
  obank fd !! op = Some o → inrefs o !! slot = Some (Some w) →
  vbank fd !! w = Some wv → erase_first op (descend wv) = Some l →
  opUnsetInput op slot fd
  = Ok tt (set_obank (insert op (op_setInrefs (<[slot := None]> (inrefs o)) o))
             (set_vbank (insert w (vn_setDescend l wv)) fd)).
Proof.
  intros Ho Hs Hw Hl. unfold opUnsetInput.
  assert (Hlt : (slot < numInput o)%nat) by (by apply lookup_lt_Some in Hs).
  mrun. rewrite Hl. mlookup. done.
Qed.

(** The two last steps of [opSetInput]. *)
Lemma link_run fd op o slot t tv :
  obank fd !! op = Some o → (slot < numInput o)%nat →
  vbank fd !! t = Some tv →
  (Varnode_addDescend t op ;; PcodeOp_setInput op (Some t) slot) fd
  = Ok tt (set_obank (insert op (op_setInrefs (<[slot := Some t]> (inrefs o)) o))
             (set_vbank (insert t (vn_setDescend (descend tv ++ [op]) tv)) fd)).
Proof. intros Ho Hlt Ht. mrun. done. Qed.

(** ** The invariant under unlinking, linking and a new Varnode *)

Lemma readers_wf_unlink fd op o slot w wv l :
  readers_wf fd →
  obank fd !! op = Some o → inrefs o !! slot = Some (Some w) →
  vbank fd !! w = Some wv → erase_first op (descend wv) = Some l →
  readers_wf (set_obank (insert op (op_setInrefs (<[slot := None]> (inrefs o)) o))
                (set_vbank (insert w (vn_setDescend l wv)) fd)).
Proof.
  intros (Hc & Hv & Ho') Ho Hs Hw Hl. split_and!.
  - intros op' o' x xv. store_simpl. intros Ho2 Hx.
    assert (∃ o0 xv0, obank fd !! op' = Some o0 ∧ vbank fd !! x = Some xv0
        ∧ (count_in op' (descend xv0)
           = count_in op' (descend xv)
             + (if decide (x = w) then if decide (op = op') then 1 else 0 else 0))%nat
        ∧ (reads o0 x
           = reads o' x
             + (if decide (op' = op) then if decide (Some w = Some x) then 1 else 0
                else 0))%nat) as (o0 & xv0 & Ho0 & Hx0 & E1 & E2).
    { destruct (decide (op' = op)) as [->|Hne1].
      - rewrite lookup_insert_eq in Ho2. injection Ho2 as <-.
        exists o. destruct (decide (x = w)) as [->|Hne2].
        + rewrite lookup_insert_eq in Hx. injection Hx as <-. exists wv.
          split_and!; try done.
          * store_simpl. rewrite (count_in_erase_first op _ _ _ Hl). done.
          * unfold reads. store_simpl.
            pose proof (count_in_insert (Some w) _ _ _ None Hs) as E.
            rewrite decide_True in E by done. rewrite decide_False in E by done.
            rewrite decide_True by done. lia.
        + rewrite lookup_insert_ne in Hx by done. exists xv.
          split_and!; try done; try lia.
          unfold reads. store_simpl.
          pose proof (count_in_insert (Some x) _ _ _ None Hs) as E.
          rewrite decide_False in E by congruence. rewrite decide_False in E by done.
          rewrite decide_False by congruence. lia.
      - rewrite lookup_insert_ne in Ho2 by done. exists o'.
        destruct (decide (x = w)) as [->|Hne2].
        + rewrite lookup_insert_eq in Hx. injection Hx as <-. exists wv.
          split_and!; try done; try lia.
          store_simpl. rewrite (count_in_erase_first op' _ _ _ Hl).
          rewrite decide_False by done. done.
        + rewrite lookup_insert_ne in Hx by done. exists xv.
          split_and!; try done; lia. }
    pose proof (Hc _ _ _ _ Ho0 Hx0) as E.
    destruct (decide (x = w)) as [->|]; destruct (decide (op = op')) as [->|];
      repeat case_decide; try congruence; lia.
  - intros op' o' sl x. store_simpl. intros Ho2 Hsl.
    assert (is_Some (vbank fd !! x)) as [xv Hx].
    { destruct (decide (op' = op)) as [->|Hne1].
      - rewrite lookup_insert_eq in Ho2. injection Ho2 as <-. store_simpl.
        destruct (decide (sl = slot)) as [->|Hne].
        + rewrite list_lookup_insert_eq in Hsl by (by apply lookup_lt_Some in Hs). done.
        + rewrite list_lookup_insert_ne in Hsl by done. by eapply Hv.
      - rewrite lookup_insert_ne in Ho2 by done. by eapply Hv. }
    destruct (decide (x = w)) as [->|];
      [by rewrite lookup_insert_eq | by rewrite lookup_insert_ne, Hx].
  - intros x xv op'. store_simpl. intros Hx Hin.
    assert (is_Some (obank fd !! op')) as [o0 Ho0].
    { destruct (decide (x = w)) as [->|Hne2].
      - rewrite lookup_insert_eq in Hx. injection Hx as <-. store_simpl.
        eapply Ho'; [exact Hw |]. by eapply erase_first_subseteq.
      - rewrite lookup_insert_ne in Hx by done. by eapply Ho'. }
    destruct (decide (op' = op)) as [->|];
      [by rewrite lookup_insert_eq | by rewrite lookup_insert_ne, Ho0].
Qed.

Lemma readers_wf_link fd op o slot t tv :
  readers_wf fd →
  obank fd !! op = Some o → inrefs o !! slot = Some None →
  vbank fd !! t = Some tv →
  readers_wf (set_obank (insert op (op_setInrefs (<[slot := Some t]> (inrefs o)) o))
                (set_vbank (insert t (vn_setDescend (descend tv ++ [op]) tv)) fd)).
Proof.
  intros (Hc & Hv & Ho') Ho Hs Ht. split_and!.
  - intros op' o' x xv. store_simpl. intros Ho2 Hx.
    assert (∃ o0 xv0, obank fd !! op' = Some o0 ∧ vbank fd !! x = Some xv0
        ∧ (count_in op' (descend xv)
           = count_in op' (descend xv0)
             + (if decide (x = t) then if decide (op = op') then 1 else 0 else 0))%nat
        ∧ (reads o' x
           = reads o0 x
             + (if decide (op' = op) then if decide (Some t = Some x) then 1 else 0
                else 0))%nat) as (o0 & xv0 & Ho0 & Hx0 & E1 & E2).
    { destruct (decide (op' = op)) as [->|Hne1].
      - rewrite lookup_insert_eq in Ho2. injection Ho2 as <-.
        exists o. destruct (decide (x = t)) as [->|Hne2].
        + rewrite lookup_insert_eq in Hx. injection Hx as <-. exists tv.
          split_and!; try done.
          * store_simpl. rewrite count_in_app, count_in_cons, count_in_nil. lia.
          * unfold reads. store_simpl.
            pose proof (count_in_insert (Some t) _ _ _ (Some t) Hs) as E.
            rewrite decide_False in E by done. rewrite decide_True in E by done.
            rewrite decide_True by done. lia.
        + rewrite lookup_insert_ne in Hx by done. exists xv.
          split_and!; try done; try lia.
          unfold reads. store_simpl.
          pose proof (count_in_insert (Some x) _ _ _ (Some t) Hs) as E.
          rewrite decide_False in E by done. rewrite decide_False in E by congruence.
          rewrite decide_False by congruence. lia.
      - rewrite lookup_insert_ne in Ho2 by done. exists o'.
        destruct (decide (x = t)) as [->|Hne2].
        + rewrite lookup_insert_eq in Hx. injection Hx as <-. exists tv.
          split_and!; try done; try lia.
          store_simpl. rewrite count_in_app, count_in_cons, count_in_nil.
          rewrite decide_False by done. lia.
        + rewrite lookup_insert_ne in Hx by done. exists xv.
          split_and!; try done; lia. }
    pose proof (Hc _ _ _ _ Ho0 Hx0) as E.
    destruct (decide (x = t)) as [->|]; destruct (decide (op = op')) as [->|];
      repeat case_decide; try congruence; lia.
  - intros op' o' sl x. store_simpl. intros Ho2 Hsl.
    assert (is_Some (vbank fd !! x)) as [xv Hx].
    { destruct (decide (op' = op)) as [->|Hne1].
      - rewrite lookup_insert_eq in Ho2. injection Ho2 as <-. store_simpl.
        destruct (decide (sl = slot)) as [->|Hne].
        + rewrite list_lookup_insert_eq in Hsl by (by apply lookup_lt_Some in Hs).
          injection Hsl as <-. done.
        + rewrite list_lookup_insert_ne in Hsl by done. by eapply Hv.
      - rewrite lookup_insert_ne in Ho2 by done. by eapply Hv. }
    destruct (decide (x = t)) as [->|];
      [by rewrite lookup_insert_eq | by rewrite lookup_insert_ne, Hx].
  - intros x xv op'. store_simpl. intros Hx Hin.
    destruct (decide (op' = op)) as [->|Hne]; [by rewrite lookup_insert_eq |].
    rewrite lookup_insert_ne by done.
    destruct (decide (x = t)) as [->|Hne2].
    + rewrite lookup_insert_eq in Hx. injection Hx as <-. store_simpl.
      apply elem_of_app in Hin as [Hin | ->%list_elem_of_singleton]; [| done].
      by eapply Ho'.
    + rewrite lookup_insert_ne in Hx by done. by eapply Ho'.
Qed.

(** A Varnode record that differs from another only in properties and
    symbol. *)
Lemma readers_wf_flags fd x xv xv' :
  readers_wf fd → vbank fd !! x = Some xv → descend xv' = descend xv →
  readers_wf (set_vbank (insert x xv') fd).
Proof.
  intros (Hc & Hv & Ho') Hx Hd. split_and!.
  - intros op o y yv. store_simpl. intros Ho Hy.
    destruct (decide (y = x)) as [->|Hne].
    + rewrite lookup_insert_eq in Hy. injection Hy as <-. rewrite Hd. by eapply Hc.
    + rewrite lookup_insert_ne in Hy by done. by eapply Hc.
  - intros op o sl y. store_simpl. intros Ho Hsl.
    destruct (decide (y = x)) as [->|Hne]; [by rewrite lookup_insert_eq |].
    rewrite lookup_insert_ne by done. by eapply Hv.
  - intros y yv op. store_simpl. intros Hy Hin.
    destruct (decide (y = x)) as [->|Hne].
    + rewrite lookup_insert_eq in Hy. injection Hy as <-. rewrite Hd in Hin.
      by eapply Ho'.
    + rewrite lookup_insert_ne in Hy by done. by eapply Ho'.
Qed.

(** A new Varnode without readers. *)
Lemma readers_wf_new_vn fd c :
  readers_wf fd → vbank fd !! vbank_create_index fd = None → descend c = [] →
  readers_wf (fd_new_vn fd c).
Proof.
  intros (Hc & Hv & Ho') Hf Hd. unfold fd_new_vn. split_and!.
  - intros op o y yv. store_simpl. intros Ho Hy.
    destruct (decide (y = vbank_create_index fd)) as [->|Hne].
    + rewrite lookup_insert_eq in Hy. injection Hy as <-. rewrite Hd, count_in_nil.
      symmetry. apply count_in_zero. intros Hin.
      apply list_elem_of_lookup in Hin as [sl Hsl].
      destruct (Hv _ _ _ _ Ho Hsl) as [? ?]. congruence.
    + rewrite lookup_insert_ne in Hy by done. by eapply Hc.
  - intros op o sl y. store_simpl. intros Ho Hsl.
    destruct (decide (y = vbank_create_index fd)) as [->|Hne];
      [by rewrite lookup_insert_eq |].
    rewrite lookup_insert_ne by done. by eapply Hv.
  - intros y yv op. store_simpl. intros Hy Hin.
    destruct (decide (y = vbank_create_index fd)) as [->|Hne].
    + rewrite lookup_insert_eq in Hy. injection Hy as <-. rewrite Hd in Hin.
      by apply elem_of_nil in Hin.
    + rewrite lookup_insert_ne in Hy by done. by eapply Ho'.
Qed.

Lemma vbank_fresh_insert fd x xv xv' :
  vbank_fresh fd → vbank fd !! x = Some xv →
  vbank_fresh (set_vbank (insert x xv') fd).
Proof.
  intros Hf Hx j Hj. store_simpl.
  rewrite lookup_insert_ne; [by apply Hf |].
  intros ->. rewrite (Hf j Hj) in Hx. done.
Qed.

Lemma vbank_fresh_new_vn fd c : vbank_fresh fd → vbank_fresh (fd_new_vn fd c).
Proof.
  intros Hf j Hj. unfold fd_new_vn in *. store_simpl.
  rewrite lookup_insert_ne by lia. apply Hf. lia.
Qed.

Lemma vbank_fresh_obank fd f : vbank_fresh fd → vbank_fresh (set_obank f fd).
Proof. done. Qed.

(** ** [opSetInput] and [opUnsetInput] under the invariant *)

Lemma readers_wf_reader fd op o slot w :
  readers_wf fd → obank fd !! op = Some o → inrefs o !! slot = Some (Some w) →
  ∃ wv l, vbank fd !! w = Some wv ∧ erase_first op (descend wv) = Some l.
Proof.
  intros (Hc & Hv & _) Ho Hs.
  destruct (Hv _ _ _ _ Ho Hs) as [wv Hw]. exists wv.
  destruct (erase_first_elem_of op (descend wv)) as [l Hl]; [| by exists l].
  apply count_in_pos. rewrite (Hc _ _ _ _ Ho Hw). unfold reads.
  apply count_in_pos. by eapply list_elem_of_lookup_2.
Qed.

(** Replacing what slot [slot] holds by the Varnode [t]. *)
Lemma relink_run fd op o slot cur t tv :
  readers_wf fd →
  obank fd !! op = Some o → inrefs o !! slot = Some cur → cur ≠ Some t →
  vbank fd !! t = Some tv →
  ∃ fd' tv',
    (when (bool_decide (cur ≠ None)) (opUnsetInput op slot) ;;
     Varnode_addDescend t op ;;
     PcodeOp_setInput op (Some t) slot) fd = Ok tt fd'
    ∧ readers_wf fd' ∧ (vbank_fresh fd → vbank_fresh fd')
    ∧ obank fd' !! op = Some (op_setInrefs (<[slot := Some t]> (inrefs o)) o)
    ∧ vbank fd' !! t = Some tv'
    ∧ getSize tv' = getSize tv ∧ vn_loc tv' = vn_loc tv ∧ vn_flags tv' = vn_flags tv
    ∧ getDef tv' = getDef tv
    ∧ descend tv' = descend tv ++ [op]
    ∧ (∀ x, x ≠ op → obank fd' !! x = obank fd !! x)
    ∧ (∀ x, x ≠ t → cur ≠ Some x → vbank fd' !! x = vbank fd !! x)
    ∧ bblocks fd' = bblocks fd.
Proof.
  intros Hwf Ho Hs Hne Ht.
  assert (Hlt : (slot < numInput o)%nat) by (by apply lookup_lt_Some in Hs).
  destruct cur as [w|].
  - destruct (readers_wf_reader _ _ _ _ _ Hwf Ho Hs) as (wv & l & Hw & Hl).
    assert (w ≠ t) by congruence.
    rewrite bool_decide_eq_true_2 by done. unfold when.
    rewrite (bind_Ok _ _ _ _ _ (opUnsetInput_run _ _ _ _ _ _ _ Ho Hs Hw Hl)).
    erewrite link_run; [| slookup ..].
    2: { unfold numInput. store_simpl. by rewrite length_insert. }
    eexists _, _. split; [reflexivity |].
    split_and!; [ | | | slookup | slookup | slookup | slookup | slookup | slookup
                | | | slookup].
    + pose proof (readers_wf_unlink _ _ _ _ _ _ _ Hwf Ho Hs Hw Hl) as Hwf1.
      eapply (readers_wf_link _ op _ slot t tv) in Hwf1; [| slookup ..].
      2: { store_simpl. apply list_lookup_insert_eq. by apply lookup_lt_Some in Hs. }
      exact Hwf1.
    + intros Hf j Hj. store_simpl.
      rewrite !lookup_insert_ne; [by apply Hf | |].
      * intros ->. rewrite (Hf j Hj) in Hw. done.
      * intros ->. rewrite (Hf j Hj) in Ht. done.
    + srun. by rewrite list_insert_insert_eq.
    + intros x Hx. store_simpl. by rewrite !lookup_insert_ne.
    + intros x Hx1 Hx2. store_simpl. rewrite !lookup_insert_ne by congruence. done.
  - rewrite bool_decide_eq_false_2 by (by intros []). unfold when. rewrite bind_ret_l.
    rewrite (link_run _ _ _ _ _ _ Ho Hlt Ht).
    eexists _, _. split; [reflexivity |].
    split_and!; [ | | slookup | slookup | slookup | slookup | slookup | slookup
                | slookup | | | slookup].
    + by apply readers_wf_link.
    + intros Hf. apply vbank_fresh_obank. by eapply vbank_fresh_insert.
    + intros x Hx. store_simpl. by rewrite lookup_insert_ne.
    + intros x Hx1 Hx2. store_simpl. by rewrite lookup_insert_ne.
Qed.

Lemma set_obank_insert_id fd op o :
  obank fd !! op = Some o → set_obank (insert op o) fd = fd.
Proof. intros H. destruct fd. unfold set_obank. store_simpl. by rewrite insert_id. Qed.

Lemma op_setInrefs_id o : op_setInrefs (inrefs o) o = o.
Proof. by destruct o. Qed.

Lemma vn_setDescend_id v : vn_setDescend (descend v) v = v.
Proof. by destruct v. Qed.

Lemma vn_setDescend_twice l1 l2 v :
  vn_setDescend l1 (vn_setDescend l2 v) = vn_setDescend l1 v.
Proof. done. Qed.

(** Relinking changes nothing of a Varnode but its reader list. *)
Lemma same_but_readers_refl fd : same_but_readers fd fd.
Proof. intros x xv H. by exists xv. Qed.

Lemma same_but_readers_trans fd1 fd2 fd3 :
  same_but_readers fd1 fd2 → same_but_readers fd2 fd3 → same_but_readers fd1 fd3.
Proof.
  intros H1 H2 x xv Hx. destruct (H1 _ _ Hx) as (xv' & Hx' & E1).
  destruct (H2 _ _ Hx') as (xv'' & Hx'' & E2). exists xv''. split; [done | congruence].
Qed.

Lemma relink_same_but_readers fd op o slot cur t tv fd' :
  readers_wf fd →
  obank fd !! op = Some o → inrefs o !! slot = Some cur → cur ≠ Some t →
  vbank fd !! t = Some tv →
  (when (bool_decide (cur ≠ None)) (opUnsetInput op slot) ;;
   Varnode_addDescend t op ;;
   PcodeOp_setInput op (Some t) slot) fd = Ok tt fd' →
  same_but_readers fd fd'.
Proof.
  intros Hwf Ho Hs Hne Ht.
  assert (Hlt : (slot < numInput o)%nat) by (by apply lookup_lt_Some in Hs).
  destruct cur as [w|].
  - destruct (readers_wf_reader _ _ _ _ _ Hwf Ho Hs) as (wv & l & Hw & Hl).
    assert (w ≠ t) by congruence.
    rewrite bool_decide_eq_true_2 by done. unfold when.
    rewrite (bind_Ok _ _ _ _ _ (opUnsetInput_run _ _ _ _ _ _ _ Ho Hs Hw Hl)).
    erewrite link_run; [| slookup ..].
    2: { unfold numInput. store_simpl. by rewrite length_insert. }
    intros [= <-] y yv Hy. store_simpl.
    destruct (decide (y = t)) as [->|Hyt].
    { rewrite lookup_insert_eq. eexists. split; [done |]. by simplify_eq. }
    rewrite lookup_insert_ne by done.
    destruct (decide (y = w)) as [->|Hyw].
    { rewrite lookup_insert_eq. eexists. split; [done |]. by simplify_eq. }
    rewrite lookup_insert_ne by done. by exists yv.
  - rewrite bool_decide_eq_false_2 by (by intros []). unfold when. rewrite bind_ret_l.
    rewrite (link_run _ _ _ _ _ _ Ho Hlt Ht).
    intros [= <-] y yv Hy. store_simpl.
    destruct (decide (y = t)) as [->|Hyt].
    { rewrite lookup_insert_eq. eexists. split; [done |]. by simplify_eq. }
    rewrite lookup_insert_ne by done. by exists yv.
Qed.

Lemma relink_dom fd op o slot cur t tv fd' :
  readers_wf fd →
  obank fd !! op = Some o → inrefs o !! slot = Some cur → cur ≠ Some t →
  vbank fd !! t = Some tv →
  (when (bool_decide (cur ≠ None)) (opUnsetInput op slot) ;;
   Varnode_addDescend t op ;;
   PcodeOp_setInput op (Some t) slot) fd = Ok tt fd' →
  ∀ x, is_Some (vbank fd' !! x) → is_Some (vbank fd !! x).
Proof.
  intros Hwf Ho Hs Hne Ht.
  assert (Hlt : (slot < numInput o)%nat) by (by apply lookup_lt_Some in Hs).
  destruct cur as [w|].
  - destruct (readers_wf_reader _ _ _ _ _ Hwf Ho Hs) as (wv & l & Hw & Hl).
    assert (w ≠ t) by congruence.
    rewrite bool_decide_eq_true_2 by done. unfold when.
    rewrite (bind_Ok _ _ _ _ _ (opUnsetInput_run _ _ _ _ _ _ _ Ho Hs Hw Hl)).
    erewrite link_run; [| slookup ..].
    2: { unfold numInput. store_simpl. by rewrite length_insert. }
    intros [= <-] y. store_simpl.
    destruct (decide (y = t)) as [->|Hyt]; [by rewrite Ht |].
    rewrite lookup_insert_ne by done.
    destruct (decide (y = w)) as [->|Hyw]; [by rewrite Hw |].
    by rewrite lookup_insert_ne.
  - rewrite bool_decide_eq_false_2 by (by intros []). unfold when. rewrite bind_ret_l.
    rewrite (link_run _ _ _ _ _ _ Ho Hlt Ht).
    intros [= <-] y. store_simpl.
    destruct (decide (y = t)) as [->|Hyt]; [by rewrite Ht |].
    by rewrite lookup_insert_ne.
Qed.

Lemma opSetInput_run_general fd op o vn v slot cur :
  readers_wf fd → vbank_fresh fd →
  obank fd !! op = Some o → inrefs o !! slot = Some cur →
  vbank fd !! vn = Some v →
  ∃ fd' o' t tv,
    opSetInput op vn slot fd = Ok tt fd'
    ∧ readers_wf fd' ∧ vbank_fresh fd'
    ∧ obank fd' !! op = Some o' ∧ inrefs o' = <[slot := Some t]> (inrefs o)
    ∧ code o' = code o ∧ getOut o' = getOut o ∧ getParent o' = getParent o
    ∧ vbank fd' !! t = Some tv
    ∧ getSize tv = getSize v ∧ vn_getOffset tv = vn_getOffset v
    ∧ isConstant tv = isConstant v
    ∧ op ∈ descend tv
    ∧ (if isConstant v && negb (hasNoDescend v) && negb (isSpacebase v)
          && negb (bool_decide (cur = Some vn))
       then t = vbank_create_index fd ∧ descend tv = [op]
       else t = vn)
    ∧ (∀ x, x ≠ op → obank fd' !! x = obank fd !! x)
    ∧ bblocks fd' = bblocks fd
    ∧ o' = op_setInrefs (<[slot := Some t]> (inrefs o)) o
    ∧ same_but_readers fd fd'
    ∧ (∀ x xv', vbank fd' !! x = Some xv' → vbank fd !! x = None → getDef xv' = None).
Proof.
  intros Hwf Hfr Ho Hs Hv. pose proof Hwf as (Hc & Hvs & Hos).
  assert (Hlt : (slot < numInput o)%nat) by (by apply lookup_lt_Some in Hs).
  unfold opSetInput, getIn.
  rewrite bind_assoc, (bind_Ok _ _ _ _ _ (getOp_Ok _ _ _ Ho)), Hs, bind_ret_l.
  destruct (decide (Some vn = cur)) as [<-|Hne].
  { exists fd, o, vn, v. rewrite bool_decide_eq_true_2 by done.
    rewrite andb_false_r. rewrite list_insert_id by done.
    split_and!; try done;
      [| by rewrite op_setInrefs_id | apply same_but_readers_refl | congruence].
    apply count_in_pos. rewrite (Hc _ _ _ _ Ho Hv). apply count_in_pos.
    by eapply list_elem_of_lookup_2. }
  rewrite (bool_decide_eq_false_2 (cur = Some vn)) by done.
  rewrite andb_true_r.
  rewrite (bind_Ok _ _ _ _ _ (getVn_Ok _ _ _ Hv)).
  destruct (isConstant v && negb (hasNoDescend v) && negb (isSpacebase v)) eqn:Hdup.
  - (* a constant with a reader: a new constant is linked *)
    destruct (newConstant_run fd (getSize v) (vn_getOffset v))
      as (c & E & Hsz & Hloc & Hdef & Hdesc & Hfl & Hme).
    assert (Hfc : vbank fd !! vbank_create_index fd = None) by (apply Hfr; lia).
    assert (Hnv : vn ≠ vbank_create_index fd) by congruence.
    set (c' := vn_setFlags (vn_flags v ∩ {[Varnode_typelock; Varnode_namelock]})
                 (vn_clearFlags {[Varnode_typelock; Varnode_namelock]}
                    (vn_setMapentry (mapentry v) c))).
    assert (E2 : (cvn <- newConstant (getSize v) (vn_getOffset v) ;;
                  Varnode_copySymbol cvn vn ;; ret cvn) fd
                 = Ok (vbank_create_index fd) (fd_new_vn fd c')).
    { rewrite (bind_Ok _ _ _ _ _ E). unfold Varnode_copySymbol, fd_new_vn.
      mrun. f_equal. unfold set_vbank, set_vbank_create_index. store_simpl.
      by rewrite insert_insert_eq. }
    rewrite (bind_Ok _ _ _ _ _ E2).
    assert (Hwf1 : readers_wf (fd_new_vn fd c')) by (by apply readers_wf_new_vn).
    destruct (relink_run (fd_new_vn fd c') op o slot cur (vbank_create_index fd) c')
      as (fd' & tv' & E3 & Hwf' & Hfr' & Ho' & Ht' & Hs' & Hl' & _ & Hgd' & Hd' & Hob & _ & Hbl);
      [done | done | done | | by unfold fd_new_vn; slookup |].
    { intros ->. destruct (Hvs _ _ _ _ Ho Hs) as [? ?]. congruence. }
    exists fd', (op_setInrefs (<[slot := Some (vbank_create_index fd)]> (inrefs o)) o),
      (vbank_create_index fd), tv'.
    apply andb_prop in Hdup as Hdup'. destruct Hdup' as [[Hcst _]%andb_prop _].
    split_and!; try done.
    + by apply Hfr', vbank_fresh_new_vn.
    + by rewrite Hs'.
    + unfold vn_getOffset. rewrite Hl'. subst c'. store_simpl. by rewrite Hloc.
    + rewrite Hcst. unfold isConstant. rewrite Hl'. subst c'. store_simpl.
      by rewrite Hloc.
    + rewrite Hd'. set_solver.
    + rewrite Hd'. subst c'. store_simpl. by rewrite Hdesc.
    + apply (same_but_readers_trans _ (fd_new_vn fd c')).
      * intros y yv Hy. exists yv. split; [| done]. unfold fd_new_vn. store_simpl.
        rewrite lookup_insert_ne; [done |]. intros <-. congruence.
      * eapply (relink_same_but_readers _ op o slot cur (vbank_create_index fd) c');
          try done.
        -- intros ->. destruct (Hvs _ _ _ _ Ho Hs) as [? ?]. congruence.
        -- by unfold fd_new_vn; slookup.
    + intros x xv' Hx Hnone.
      destruct (decide (x = vbank_create_index fd)) as [->|Hxn].
      * assert (xv' = tv') by congruence. subst xv'. rewrite Hgd'. subst c'.
        store_simpl. exact Hdef.
      * exfalso.
        destruct (relink_dom (fd_new_vn fd c') op o slot cur (vbank_create_index fd) c' fd')
          with (x := x) as [? Hq]; try done.
        -- intros ->. destruct (Hvs _ _ _ _ Ho Hs) as [? ?]. congruence.
        -- by unfold fd_new_vn; slookup.
        -- unfold fd_new_vn in Hq. store_simpl. rewrite lookup_insert_ne in Hq by done.
           congruence.
  - rewrite bind_ret_l.
    destruct (relink_run fd op o slot cur vn v)
      as (fd' & tv' & E3 & Hwf' & Hfr' & Ho' & Ht' & Hs' & Hl' & _ & _ & Hd' & Hob & _ & Hbl);
      [done | done | done | congruence | done |].
    exists fd', (op_setInrefs (<[slot := Some vn]> (inrefs o)) o), vn, tv'.
    split_and!; try done.
    + by apply Hfr'.
    + unfold vn_getOffset. by rewrite Hl'.
    + unfold isConstant. by rewrite Hl'.
    + rewrite Hd'. set_solver.
    + eapply (relink_same_but_readers _ op o slot cur vn v); try done.
    + intros x xv' Hx Hnone. exfalso.
      destruct (relink_dom fd op o slot cur vn v fd') with (x := x) as [? Hq];
        try done; congruence.
Qed.

Lemma opUnsetInput_keeps fd op o slot w :
  readers_wf fd →
  obank fd !! op = Some o → inrefs o !! slot = Some (Some w) →
  ∃ fd' wv l,
    opUnsetInput op slot fd = Ok tt fd'
    ∧ readers_wf fd'
    ∧ vbank fd !! w = Some wv ∧ erase_first op (descend wv) = Some l
    ∧ fd' = set_obank (insert op (op_setInrefs (<[slot := None]> (inrefs o)) o))
              (set_vbank (insert w (vn_setDescend l wv)) fd).
Proof.
  intros Hwf Ho Hs.
  destruct (readers_wf_reader _ _ _ _ _ Hwf Ho Hs) as (wv & l & Hw & Hl).
  eexists _, wv, l. split; [by apply opUnsetInput_run |].
  split; [by apply readers_wf_unlink | done].
Qed.

(** Erasing the entry that was appended last. *)
Lemma erase_first_snoc op l :
  ∃ r, erase_first op (l ++ [op]) = Some r ∧ r ≡ₚ l ∧ (op ∉ l → r = l).
Proof.
  induction l as [|x l (r & Hr & Hp & Heq)]; cbn [app erase_first].
  - exists []. by rewrite decide_True.
  - destruct (decide (x = op)) as [->|Hne].
    + exists (l ++ [op]). split; [done |]. split.
      * by rewrite <- Permutation_cons_append.
      * intros Hn. exfalso. apply Hn. by left.
    + rewrite Hr. exists (x :: r). split; [done |]. split; [by f_equiv |].
      intros Hn. f_equal. apply Heq. intros ?. apply Hn. by right.
Qed.

(** ** Changes of the slot vector that leave the reader lists alone *)

(** The op record [o'] reads every Varnode as often as [o] does. *)
Lemma readers_wf_same_reads fd op o o' :
  readers_wf fd → obank fd !! op = Some o →
  (∀ x, reads o' x = reads o x) →
  readers_wf (set_obank (insert op o') fd).
Proof.
  intros (Hc & Hv & Ho') Ho Hr. split_and!.
  - intros op' o2 x xv. store_simpl. intros Ho2 Hx.
    destruct (decide (op' = op)) as [->|Hne].
    + rewrite lookup_insert_eq in Ho2. injection Ho2 as <-. rewrite Hr. by eapply Hc.
    + rewrite lookup_insert_ne in Ho2 by done. by eapply Hc.
  - intros op' o2 sl x. store_simpl. intros Ho2 Hsl.
    destruct (decide (op' = op)) as [->|Hne].
    + rewrite lookup_insert_eq in Ho2. injection Ho2 as <-.
      assert (Hin : Some x ∈ inrefs o).
      { apply count_in_pos. fold (reads o x). rewrite <- Hr. apply count_in_pos.
        by eapply list_elem_of_lookup_2. }
      apply list_elem_of_lookup in Hin as [sl' Hsl']. by eapply Hv.
    + rewrite lookup_insert_ne in Ho2 by done. by eapply Hv.
  - intros x xv op'. store_simpl. intros Hx Hin.
    destruct (decide (op' = op)) as [->|Hne]; [by rewrite lookup_insert_eq |].
    rewrite lookup_insert_ne by done. by eapply Ho'.
Qed.

Lemma opSwapInput_run fd op o slot1 slot2 a b :
  obank fd !! op = Some o →
  inrefs o !! slot1 = Some a → inrefs o !! slot2 = Some b →
  opSwapInput op slot1 slot2 fd
  = Ok tt (set_obank
             (insert op (op_setInrefs (<[slot2 := a]> (<[slot1 := b]> (inrefs o))) o))
             fd).
Proof.
  intros Ho Ha Hb. unfold opSwapInput.
  assert (Hl1 : (slot1 < numInput o)%nat) by (by apply lookup_lt_Some in Ha).
  assert (Hl2 : (slot2 < numInput o)%nat) by (by apply lookup_lt_Some in Hb).
  mrun. unfold numInput in *. store_simpl. rewrite length_insert. mlookup.
  unfold set_obank. store_simpl. by rewrite insert_insert_eq.
Qed.

Lemma count_in_swap {A} `{EqDecision A} (z : A) (l : list A) i j a b :
  l !! i = Some a → l !! j = Some b →
  count_in z (<[j := a]> (<[i := b]> l)) = count_in z l.
Proof.
  intros Ha Hb. destruct (decide (i = j)) as [->|Hne].
  - rewrite list_insert_insert_eq. assert (a = b) as -> by congruence.
    by rewrite list_insert_id.
  - pose proof (count_in_insert z l i a b Ha) as E1.
    assert (Hb' : <[i := b]> l !! j = Some b) by (by rewrite list_lookup_insert_ne).
    pose proof (count_in_insert z _ j b a Hb') as E2. lia.
Qed.

Lemma swap_swap {A} (l : list A) i j a b :
  l !! i = Some a → l !! j = Some b →
  <[j := b]> (<[i := a]> (<[j := a]> (<[i := b]> l))) = l.
Proof.
  intros Ha Hb. apply list_eq. intros k.
  pose proof (lookup_lt_Some _ _ _ Ha). pose proof (lookup_lt_Some _ _ _ Hb).
  destruct (decide (k = j)) as [->|Hkj].
  - rewrite list_lookup_insert_eq by (rewrite !length_insert; lia). done.
  - rewrite list_lookup_insert_ne by done.
    destruct (decide (k = i)) as [->|Hki].
    + rewrite list_lookup_insert_eq by (rewrite !length_insert; lia). done.
    + by rewrite !list_lookup_insert_ne.
Qed.

(** ** The invariant on the example stores *)

Lemma mkStore_obank vns ops bls i :
  obank (mkStore vns ops bls) !! i = ops !! i.
Proof.
  unfold mkStore. store_simpl.
  pose proof (list_to_map_imap_lookup ops 0 i) as H.
  rewrite Nat.sub_0_r in H. 
  destruct (decide (0 ≤ i)%nat); [| lia]. exact H.
Qed.

Lemma imap_pair_elem {A} (l : list A) i x :
  l !! i = Some x → (i, x) ∈ imap pair l.
Proof. intros H. apply elem_of_lookup_imap. by exists i, x. Qed.

Lemma readers_wfb_sound vns ops bls :
  readers_wfb vns ops = true → readers_wf (mkStore vns ops bls).
Proof.
  unfold readers_wfb.
  intros [[H1 H2]%andb_prop H3]%andb_prop.
  rewrite forallb_forall in H1, H2, H3. split_and!.
  - intros op o vn v. rewrite mkStore_obank, mkStore_vbank. intros Ho Hv.
    specialize (H1 (op, o)). rewrite forallb_forall in H1.
    apply Nat.eqb_eq.
    apply (H1 ltac:(apply list_elem_of_In; by apply imap_pair_elem) (vn, v)).
    apply list_elem_of_In. by apply imap_pair_elem.
  - intros op o sl vn. rewrite mkStore_obank, mkStore_vbank. intros Ho Hs.
    specialize (H2 o ltac:(apply list_elem_of_In; by eapply list_elem_of_lookup_2)).
    rewrite forallb_forall in H2.
    specialize (H2 (Some vn)
      ltac:(apply list_elem_of_In; by eapply list_elem_of_lookup_2)).
    apply Nat.ltb_lt in H2. by apply lookup_lt_is_Some_2.
  - intros vn v op. rewrite mkStore_obank, mkStore_vbank. intros Hv Hin.
    specialize (H3 v ltac:(apply list_elem_of_In; by eapply list_elem_of_lookup_2)).
    rewrite forallb_forall in H3.
    specialize (H3 op ltac:(by apply list_elem_of_In)).
    apply Nat.ltb_lt in H3. by apply lookup_lt_is_Some_2.
Qed.

Lemma ex_diamond_readers_wf : readers_wf ex_diamond.
Proof. by apply readers_wfb_sound. Qed.

Lemma ex_nested_readers_wf : readers_wf ex_nested.
Proof. by apply readers_wfb_sound. Qed.

(** ** Properties of the linkage edits *)



(** X4: under the reader-list invariant, [opUnsetInput] on a slot that
    holds a Varnode never raises the missing-reader error: it succeeds,
    the slot becomes null, the Varnode loses the first entry of the op in
    its reader list, nothing else changes, and the invariant is kept. *)
Theorem opUnsetInput_unlinks_one_reader (fd : Funcdata) (op : nat) (o : PcodeOp)
    (slot w : nat) :
  readers_wf fd →
  obank fd !! op = Some o → inrefs o !! slot = Some (Some w) →
  ∃ fd' wv l,
    opUnsetInput op slot fd = Ok tt fd'
    ∧ readers_wf fd'
    ∧ vbank fd !! w = Some wv ∧ erase_first op (descend wv) = Some l
    ∧ obank fd' = <[op := op_setInrefs (<[slot := None]> (inrefs o)) o]> (obank fd)
    ∧ vbank fd' = <[w := vn_setDescend l wv]> (vbank fd)
    ∧ bblocks fd' = bblocks fd
    ∧ (length l + 1 = length (descend wv))%nat.
Proof.
  intros Hwf Ho Hs.
  destruct (opUnsetInput_keeps fd op o slot w Hwf Ho Hs)
    as (fd' & wv & l & E & Hwf' & Hw & Hl & ->).
  eexists _, wv, l. split_and!; try done.
  apply erase_first_length in Hl. lia.
Qed.

Lemma opUnsetInput_unlinks_one_reader_witness :
  ∃ fd' o' v',
    opUnsetInput 1 0 ex_diamond = Ok tt fd'
    ∧ readers_wf fd'
    ∧ obank fd' !! 1%nat = Some o' ∧ inrefs o' = [None; Some 1%nat]
    ∧ vbank fd' !! 0%nat = Some v' ∧ descend v' = [2%nat].
Proof.
  destruct (opUnsetInput_unlinks_one_reader ex_diamond 1
              (liveop CPUI_MULTIEQUAL (Some 2%nat) [Some 0%nat; Some 1%nat] 3 1) 0 0)
    as (fd' & wv & l & E & Hwf & Hw & Hl & Hob & Hvb & _);
    [apply ex_diamond_readers_wf | reflexivity | reflexivity |].
  assert (wv = vnode 4 (reg 0) (Some 0%nat) [1%nat; 2%nat]) as ->.
  { vm_compute in Hw. by injection Hw as <-. }
  vm_compute in Hl. injection Hl as <-.
  eexists fd', _, _. split_and!; [done | done | | | |].
  - rewrite Hob. apply lookup_insert_eq.
  - reflexivity.
  - rewrite Hvb. apply lookup_insert_eq.
  - reflexivity.
Defined.



(** X6: [opSwapInput] on two slots of the op exchanges what they hold
    and changes nothing else: no Varnode is touched and the reader-list
    invariant is kept; swapping the same two slots again gives back the
    store. *)
Theorem opSwapInput_exchanges_slots (fd : Funcdata) (op : nat) (o : PcodeOp)
    (slot1 slot2 : nat) (a b : option nat) :
  obank fd !! op = Some o →
  inrefs o !! slot1 = Some a → inrefs o !! slot2 = Some b →
  ∃ fd' o',
    opSwapInput op slot1 slot2 fd = Ok tt fd'
    ∧ obank fd' = <[op := o']> (obank fd)
    ∧ inrefs o' !! slot1 = Some b ∧ inrefs o' !! slot2 = Some a
    ∧ (∀ k, k ≠ slot1 → k ≠ slot2 → inrefs o' !! k = inrefs o !! k)
    ∧ code o' = code o ∧ getOut o' = getOut o ∧ getParent o' = getParent o
    ∧ vbank fd' = vbank fd ∧ bblocks fd' = bblocks fd
    ∧ (readers_wf fd → readers_wf fd')
    ∧ opSwapInput op slot1 slot2 fd' = Ok tt fd.
Proof.
  intros Ho Ha Hb.
  pose proof (lookup_lt_Some _ _ _ Ha) as Hl1.
  pose proof (lookup_lt_Some _ _ _ Hb) as Hl2.
  eexists _, _. split; [by apply opSwapInput_run |].
  assert (H1 : <[slot2 := a]> (<[slot1 := b]> (inrefs o)) !! slot1 = Some b).
  { destruct (decide (slot1 = slot2)) as [->|Hne].
    - rewrite list_lookup_insert_eq by (by rewrite length_insert). congruence.
    - rewrite list_lookup_insert_ne by done. by rewrite list_lookup_insert_eq. }
  assert (H2 : <[slot2 := a]> (<[slot1 := b]> (inrefs o)) !! slot2 = Some a).
  { by rewrite list_lookup_insert_eq by (by rewrite length_insert). }
  split_and!; try done.
  - intros k Hk1 Hk2. store_simpl. by rewrite !list_lookup_insert_ne.
  - intros Hwf. apply readers_wf_same_reads with o; [done | done |].
    intros x. unfold reads. store_simpl. by apply count_in_swap.
  - erewrite opSwapInput_run; [| slookup | exact H1 | exact H2].
    f_equal. store_simpl. rewrite swap_swap by done.
    unfold set_obank. destruct fd, o. store_simpl.
    rewrite insert_insert_eq. f_equal. by apply insert_id.
Qed.

Lemma opSwapInput_exchanges_slots_witness :
  ∃ fd' o',
    opSwapInput 1 0 1 ex_diamond = Ok tt fd'
    ∧ obank fd' !! 1%nat = Some o'
    ∧ inrefs o' !! 0%nat = Some (Some 1%nat)
    ∧ inrefs o' !! 1%nat = Some (Some 0%nat)
    ∧ opSwapInput 1 0 1 fd' = Ok tt ex_diamond.
Proof.
  destruct (opSwapInput_exchanges_slots ex_diamond 1
              (liveop CPUI_MULTIEQUAL (Some 2%nat) [Some 0%nat; Some 1%nat] 3 1)
              0 1 (Some 0%nat) (Some 1%nat))
    as (fd' & o' & E & Ho & H0 & H1 & _ & _ & _ & _ & _ & _ & _ & Hback);
    [reflexivity | reflexivity | reflexivity |].
  exists fd', o'. split_and!; [done | by rewrite Ho, lookup_insert_eq | done ..].
Defined.

(** ** Inserting and removing an input slot *)

Lemma insert_null_lookup {A} (l : list (option A)) slot :
  (slot ≤ length l)%nat → (take slot l ++ None :: drop slot l) !! slot = Some None.
Proof.
  intros H. rewrite lookup_app_r by (rewrite length_take; lia).
  rewrite length_take. by replace (slot - slot `min` length l)%nat with 0%nat by lia.
Qed.

Lemma reads_insert_null (l : list (option nat)) slot x :
  count_in (Some x) (take slot l ++ None :: drop slot l) = count_in (Some x) l.
Proof.
  rewrite <- (take_drop slot l) at 3.
  rewrite !count_in_app, count_in_cons. by rewrite decide_False.
Qed.

Lemma insert_inserted_null {A} (l : list (option A)) slot (y : option A) :
  (slot ≤ length l)%nat →
  <[slot := y]> (take slot l ++ None :: drop slot l) = take slot l ++ y :: drop slot l.
Proof.
  intros H.
  assert (Hlen : length (take slot l) = slot) by (rewrite length_take; lia).
  rewrite insert_app_r_alt by lia. rewrite Hlen.
  by replace (slot - slot)%nat with 0%nat by lia.
Qed.

Lemma remove_inserted {A} (l : list (option A)) slot (y : option A) :
  (slot ≤ length l)%nat →
  take slot (take slot l ++ y :: drop slot l)
  ++ drop (S slot) (take slot l ++ y :: drop slot l) = l.
Proof.
  intros H.
  assert (Hlen : length (take slot l) = slot) by (rewrite length_take; lia).
  rewrite take_app_length' by done.
  replace (take slot l ++ y :: drop slot l) with ((take slot l ++ [y]) ++ drop slot l)
    by (by rewrite <- app_assoc).
  rewrite drop_app_length' by (rewrite length_app, Hlen; cbn; lia).
  apply take_drop.
Qed.



(** * Replacing every read of a Varnode *)

Lemma find_slot_spec vn l : ∀ i,
  Some vn ∈ l → ∃ k, find_slot vn l i = (i + k)%nat ∧ l !! k = Some (Some vn).
Proof.
  induction l as [|r l IH]; intros i Hin; [by apply elem_of_nil in Hin |].
  cbn [find_slot]. destruct (decide (r = Some vn)) as [->|Hne].
  - exists 0%nat. split; [lia | done].
  - apply elem_of_cons in Hin as [Heq | Hin]; [congruence |].
    destruct (IH (S i) Hin) as (k & E & Hk). exists (S k). split; [lia | done].
Qed.

Lemma getSlot_spec o vn :
  Some vn ∈ inrefs o → inrefs o !! getSlot o vn = Some (Some vn).
Proof.
  intros Hin. unfold getSlot. destruct (find_slot_spec vn _ 0%nat Hin) as (k & -> & Hk).
  done.
Qed.

Lemma same_fields a b :
  vn_setDescend [] a = vn_setDescend [] b →
  getSize a = getSize b ∧ vn_loc a = vn_loc b ∧ vn_flags a = vn_flags b
  ∧ getDef a = getDef b.
Proof. destruct a, b. cbn. intros [=]. by subst. Qed.

Lemma same_fields_props a b :
  vn_setDescend [] a = vn_setDescend [] b →
  getSize a = getSize b ∧ vn_getOffset a = vn_getOffset b
  ∧ isConstant a = isConstant b ∧ isSpacebase a = isSpacebase b.
Proof.
  intros (H1 & H2 & H3 & H4)%same_fields.
  unfold vn_getOffset, isConstant, isSpacebase, vn_hasFlag. by rewrite ?H1, ?H2, ?H3.
Qed.

Lemma redirecting_refl fd vn newvn nv l :
  Forall2 (redirecting fd vn newvn nv) l l.
Proof. apply Forall_Forall2_diag, Forall_forall. intros x _. by left. Qed.

Lemma redirecting_trans fd1 fd' vn newvn nv r r1 r' :
  same_but_readers fd1 fd' →
  redirecting fd1 vn newvn nv r r1 → redirecting fd' vn newvn nv r1 r' →
  redirecting fd' vn newvn nv r r'.
Proof.
  intros Hs [-> | (-> & t & tv & -> & Ht & Htv & Hsz & Hoff & Hc & Hn)] H2; [done |].
  destruct H2 as [-> | (? & _)]; [| congruence].
  right. split; [done |]. destruct (Hs _ _ Htv) as (tv' & Htv' & E).
  apply same_fields_props in E as (E1 & E2 & E3 & _).
  exists t, tv'. split_and!; try done; congruence.
Qed.

Lemma redirecting_strong fd vn newvn nv l k :
  Forall2 (redirecting fd vn newvn nv) l k → Some vn ∉ k →
  Forall2 (redirected fd vn newvn nv) l k.
Proof.
  induction 1 as [|x y l k Hxy _ IH]; intros Hn; [constructor |].
  constructor.
  - split; [| done]. intros ->. apply Hn. by left.
  - apply IH. intros Hin. apply Hn. by right.
Qed.

(** The loop of [totalReplace] over the readers that are left. *)
Lemma totalReplace_loop vn newvn nv0 : ∀ l fd v nv,
  readers_wf fd → vbank_fresh fd →
  vbank fd !! vn = Some v → vbank fd !! newvn = Some nv → vn ≠ newvn →
  vn_setDescend [] nv = vn_setDescend [] nv0 →
  (∀ x, count_in x l = count_in x (descend v)) →
  ∃ fd' v',
    forM_ l (fun op => o <- getOp op ;; opSetInput op newvn (getSlot o vn)) fd
    = Ok tt fd'
    ∧ readers_wf fd' ∧ vbank_fresh fd'
    ∧ vbank fd' !! vn = Some v' ∧ descend v' = []
    ∧ (∀ op o, obank fd !! op = Some o →
        ∃ o', obank fd' !! op = Some o'
          ∧ Forall2 (redirecting fd' vn newvn nv0) (inrefs o) (inrefs o')
          ∧ code o' = code o ∧ getOut o' = getOut o ∧ getParent o' = getParent o)
    ∧ same_but_readers fd fd'
    ∧ bblocks fd' = bblocks fd.
Proof.
  unfold forM_. induction l as [|op l IH]; intros fd v nv Hwf Hfr Hv Hnv Hne Hnv0 Hcnt.
  - exists fd, v. cbn [foldM]. split_and!; try done.
    + destruct (descend v) as [|x d] eqn:Hd; [done |].
      specialize (Hcnt x). rewrite count_in_nil, count_in_cons, decide_True in Hcnt by done.
      lia.
    + intros op o Ho. exists o. split_and!; try done. apply redirecting_refl.
    + apply same_but_readers_refl.
  - cbn [foldM]. pose proof Hwf as (Hc & Hvs & Hos).
    assert (Hin : op ∈ descend v).
    { apply count_in_pos. rewrite <- Hcnt, count_in_cons, decide_True by done. lia. }
    destruct (Hos _ _ _ Hv Hin) as [o Ho].
    assert (Hrd : Some vn ∈ inrefs o).
    { apply count_in_pos. fold (reads o vn). rewrite <- (Hc _ _ _ _ Ho Hv).
      by apply count_in_pos. }
    pose proof (getSlot_spec _ _ Hrd) as Hs.
    destruct (opSetInput_run_general fd op o newvn nv (getSlot o vn) (Some vn)
                Hwf Hfr Ho Hs Hnv)
      as (fd1 & o1 & t & tv & E1 & Hwf1 & Hfr1 & Ho1 & Hin1 & Hc1 & Hout1 & Hp1
          & Ht & Hsz & Hoff & Hcst & _ & Hdup & Hfo1 & Hbl1 & Heq1 & Hsb1 & _).
    rewrite bind_assoc, (bind_Ok _ _ _ _ _ (getOp_Ok _ _ _ Ho)), (bind_Ok _ _ _ _ _ E1).
    destruct (Hsb1 _ _ Hv) as (v1 & Hv1 & Ev1).
    destruct (Hsb1 _ _ Hnv) as (nv1 & Hnv1 & Env1).
    assert (Htvn : t ≠ vn).
    { destruct (isConstant nv && negb (hasNoDescend nv) && negb (isSpacebase nv)
                && negb (bool_decide (Some vn = Some newvn))).
      - destruct Hdup as [-> _]. intros E. rewrite <- E in Hv.
        rewrite (Hfr (vbank_create_index fd)) in Hv by lia. done.
      - by subst t. }
    assert (Hr1 : (reads o1 vn + 1 = reads o vn)%nat).
    { unfold reads. rewrite Hin1.
      pose proof (count_in_insert (Some vn) (inrefs o) (getSlot o vn) (Some vn) (Some t) Hs)
        as Hci.
      rewrite decide_True, decide_False in Hci by congruence. lia. }
    pose proof Hwf1 as (Hc' & Hvs' & Hos').
    destruct (IH fd1 v1 nv1) as (fd' & v' & E & Hwf' & Hfr' & Hv' & Hd' & Hops & Hsb & Hbl);
      try done.
    { congruence. }
    { intros x. specialize (Hcnt x). rewrite count_in_cons in Hcnt.
      destruct (decide (x = op)) as [->|Hx].
      - rewrite decide_True in Hcnt by done.
        rewrite (Hc' _ _ _ _ Ho1 Hv1). rewrite (Hc _ _ _ _ Ho Hv) in Hcnt. lia.
      - rewrite decide_False in Hcnt by done. cbn in Hcnt. rewrite Hcnt.
        destruct (obank fd !! x) as [ox|] eqn:Hox.
        + rewrite (Hc _ _ _ _ Hox Hv). symmetry. apply Hc'; [| done].
          by rewrite Hfo1.
        + assert (Hn1 : x ∉ descend v).
          { intros Hx'. destruct (Hos _ _ _ Hv Hx') as [? ?]. congruence. }
          assert (Hn2 : x ∉ descend v1).
          { intros Hx'. destruct (Hos' _ _ _ Hv1 Hx') as [? Hq].
            rewrite Hfo1 in Hq by done. congruence. }
          apply count_in_zero in Hn1, Hn2. lia. }
    exists fd', v'. split_and!; try done.
    + intros x ox Hox.
      assert (∃ ox1, obank fd1 !! x = Some ox1
                ∧ Forall2 (redirecting fd1 vn newvn nv0) (inrefs ox) (inrefs ox1)
                ∧ code ox1 = code ox ∧ getOut ox1 = getOut ox
                ∧ getParent ox1 = getParent ox) as (ox1 & Hox1 & HF & ? & ? & ?).
      { destruct (decide (x = op)) as [->|Hx].
        - assert (ox = o) by congruence. subst ox. exists o1. split_and!; try done.
          rewrite Hin1. rewrite <- (list_insert_id _ _ _ Hs) at 1.
          apply Forall2_insert; [apply redirecting_refl |].
          right. split; [done |].
          apply same_fields_props in Hnv0 as (F1 & F2 & F3 & F4).
          exists t, tv. split_and!; try done; try congruence.
          rewrite <- F3, <- F4. intros Hb.
          replace (isConstant nv && negb (hasNoDescend nv) && negb (isSpacebase nv)
                   && negb (bool_decide (Some vn = Some newvn)))
            with false in Hdup; [done |].
          symmetry. destruct (isConstant nv), (isSpacebase nv); try done.
          cbn. by rewrite andb_false_r.
        - exists ox. rewrite Hfo1 by done. split_and!; try done. apply redirecting_refl. }
      destruct (Hops _ _ Hox1) as (ox' & Hox' & HF' & ? & ? & ?).
      exists ox'. split_and!; try congruence.
      eapply Forall2_trans; [| exact HF | exact HF'].
      intros ???. by apply redirecting_trans.
    + by eapply same_but_readers_trans.
    + congruence.
Qed.



(** * Taking ops out of blocks and out of the data flow *)

Lemma index_of_spec op l : ∀ i k,
  l !! k = Some op → (∀ j, (j < k)%nat → l !! j ≠ Some op) →
  index_of op l i = Some (i + k)%nat.
Proof.
  induction l as [|x l IH]; intros i k Hk Hfirst; [done |].
  cbn [index_of]. destruct k as [|k].
  - cbn in Hk. injection Hk as ->. rewrite decide_True by done. f_equal. lia.
  - rewrite decide_False.
    + rewrite (IH (S i) k); [f_equal; lia | done |].
      intros j Hj. apply (Hfirst (S j)). lia.
    + intros ->. by apply (Hfirst 0%nat); [lia |].
Qed.

Lemma index_of_insert_at op l iter :
  (iter ≤ length l)%nat → op ∉ l →
  index_of op (list_insert_at iter op l) 0 = Some iter.
Proof.
  intros Hi Hn. apply (index_of_spec op _ 0 iter).
  - rewrite lookup_list_insert_at by done.
    rewrite decide_False by lia. by rewrite decide_True.
  - intros j Hj. rewrite lookup_list_insert_at by done. rewrite decide_True by done.
    intros Hl. apply Hn. by eapply list_elem_of_lookup_2.
Qed.

Lemma delete_insert_at {A} (x : A) l iter :
  (iter ≤ length l)%nat → delete iter (list_insert_at iter x l) = l.
Proof.
  intros Hi. unfold list_insert_at.
  assert (Hlen : length (take iter l) = iter) by (rewrite length_take; lia).
  rewrite <- Hlen at 1. rewrite delete_middle. apply take_drop.
Qed.

Lemma opUninsert_run fd op o bl b i :
  obank fd !! op = Some o → getParent o = Some bl →
  bblocks fd !! bl = Some b → index_of op (bl_op b) 0 = Some i →
  opUninsert op fd
  = Ok tt (set_bblocks
             (insert bl (mkBlockBasic (delete i (bl_op b)) (bl_intothis b)
                           (bl_outofthis b) (getStart b) (bl_isDead b)))
             (set_obank
                (insert op (op_setParent None (op_setFlags {[PcodeOp_dead]} o))) fd)).
Proof.
  intros Ho Hp Hb Hi. unfold opUninsert, PcodeOpBank_markDead, BlockBasic_removeOp.
  mrun. rewrite Hp. mrun. rewrite Hi. mrun. by rewrite set_obank_insert_insert.
Qed.

Lemma op_flags_dead_again (F : gset OpFlag) :
  PcodeOp_dead ∈ F → (F ∖ {[PcodeOp_dead]}) ∪ {[PcodeOp_dead]} = F.
Proof.
  intros H. apply set_eq. intros x. rewrite elem_of_union, elem_of_difference.
  rewrite elem_of_singleton. destruct (decide (x = PcodeOp_dead)) as [->|]; naive_solver.
Qed.



(** ** The invariants depend on the links only *)

Lemma fmap_lookup_eq {A B} (f : A → B) (a b : option A) x :
  f <$> a = f <$> b → a = Some x → ∃ y, b = Some y ∧ f y = f x.
Proof. intros H ->. destruct b as [y|]; [| done]. exists y. by injection H as ->. Qed.

Lemma fmap_lookup_is_Some {A B} (f : A → B) (a b : option A) :
  f <$> a = f <$> b → is_Some b → is_Some a.
Proof. intros H [y ->]. destruct a; [done | done]. Qed.

Lemma readers_wf_ext fd fd' :
  readers_wf fd →
  (∀ op, inrefs <$> obank fd' !! op = inrefs <$> obank fd !! op) →
  (∀ vn, descend <$> vbank fd' !! vn = descend <$> vbank fd !! vn) →
  readers_wf fd'.
Proof.
  intros (Hc & Hv & Ho) Eo Ev. split_and!.
  - intros op o' vn v' Ho' Hv'.
    destruct (fmap_lookup_eq _ _ _ _ (Eo op) Ho') as (o & Ho1 & Ei).
    destruct (fmap_lookup_eq _ _ _ _ (Ev vn) Hv') as (v & Hv1 & Ed).
    unfold reads. rewrite <- Ei, <- Ed. by eapply Hc.
  - intros op o' sl vn Ho' Hs.
    destruct (fmap_lookup_eq _ _ _ _ (Eo op) Ho') as (o & Ho1 & Ei).
    rewrite <- Ei in Hs. eapply fmap_lookup_is_Some; [apply Ev |]. by eapply Hv.
  - intros vn v' op Hv' Hin.
    destruct (fmap_lookup_eq _ _ _ _ (Ev vn) Hv') as (v & Hv1 & Ed).
    rewrite <- Ed in Hin. eapply fmap_lookup_is_Some; [apply Eo |]. by eapply Ho.
Qed.

Lemma defs_wf_ext fd fd' :
  defs_wf fd →
  (∀ op, getOut <$> obank fd' !! op = getOut <$> obank fd !! op) →
  (∀ vn, getDef <$> vbank fd' !! vn = getDef <$> vbank fd !! vn) →
  defs_wf fd'.
Proof.
  intros (H1 & H2) Eo Ev. split.
  - intros op o' vn Ho' Hout.
    destruct (fmap_lookup_eq _ _ _ _ (Eo op) Ho') as (o & Ho1 & Ei).
    rewrite <- Ei in Hout. destruct (H1 _ _ _ Ho1 Hout) as (v & Hv & Hd).
    symmetry in Ev.
    destruct (fmap_lookup_eq _ _ _ _ (Ev vn) Hv) as (v' & Hv' & Ed).
    exists v'. split; [done | congruence].
  - intros vn v' op Hv' Hd.
    destruct (fmap_lookup_eq _ _ _ _ (Ev vn) Hv') as (v & Hv1 & Ed).
    rewrite <- Ed in Hd. destruct (H2 _ _ _ Hv1 Hd) as (o & Ho & Hout).
    symmetry in Eo.
    destruct (fmap_lookup_eq _ _ _ _ (Eo op) Ho) as (o' & Ho' & Ei).
    exists o'. split; [done | congruence].
Qed.

Lemma blocks_wf_ext fd fd' :
  blocks_wf fd →
  (∀ op, getParent <$> obank fd' !! op = getParent <$> obank fd !! op) →
  (∀ bl, bl_op <$> bblocks fd' !! bl = bl_op <$> bblocks fd !! bl) →
  blocks_wf fd'.
Proof.
  intros (H1 & H2) Eo Eb. split.
  - intros bl b' Hb'.
    destruct (fmap_lookup_eq _ _ _ _ (Eb bl) Hb') as (b & Hb & El).
    destruct (H1 _ _ Hb) as (Hnd & Hin). rewrite <- El. split; [done |].
    intros op Hop. destruct (Hin _ Hop) as (o & Ho & Hp).
    symmetry in Eo.
    destruct (fmap_lookup_eq _ _ _ _ (Eo op) Ho) as (o' & Ho' & Ei).
    exists o'. split; [done | congruence].
  - intros op o' bl Ho' Hp.
    destruct (fmap_lookup_eq _ _ _ _ (Eo op) Ho') as (o & Ho1 & Ei).
    rewrite <- Ei in Hp. destruct (H2 _ _ _ Ho1 Hp) as (b & Hb & Hin).
    symmetry in Eb.
    destruct (fmap_lookup_eq _ _ _ _ (Eb bl) Hb) as (b' & Hb' & El).
    exists b'. split; [done | congruence].
Qed.

(** ** The invariants of the example stores *)

Lemma mkStore_bblocks vns ops bls i :
  bblocks (mkStore vns ops bls) !! i = bls !! i.
Proof.
  unfold mkStore. store_simpl.
  pose proof (list_to_map_imap_lookup bls 0 i) as H.
  rewrite Nat.sub_0_r in H.
  destruct (decide (0 ≤ i)%nat); [| lia]. exact H.
Qed.

Lemma defs_wfb_sound vns ops bls :
  defs_wfb vns ops = true → defs_wf (mkStore vns ops bls).
Proof.
  unfold defs_wfb. intros [H1 H2]%andb_prop.
  rewrite forallb_forall in H1, H2. split.
  - intros op o vn. rewrite mkStore_obank. intros Ho Hout.
    specialize (H1 (op, o) ltac:(apply list_elem_of_In; by apply imap_pair_elem)).
    cbn in H1. rewrite Hout in H1. rewrite mkStore_vbank.
    destruct (vns !! vn) as [v|]; [| done]. exists v. split; [done |].
    by apply bool_decide_eq_true in H1.
  - intros vn v op. rewrite mkStore_vbank. intros Hv Hd.
    specialize (H2 (vn, v) ltac:(apply list_elem_of_In; by apply imap_pair_elem)).
    cbn in H2. rewrite Hd in H2. rewrite mkStore_obank.
    destruct (ops !! op) as [o|]; [| done]. exists o. split; [done |].
    by apply bool_decide_eq_true in H2.
Qed.

Lemma blocks_wfb_sound vns ops bls :
  blocks_wfb ops bls = true → blocks_wf (mkStore vns ops bls).
Proof.
  unfold blocks_wfb. intros [H1 H2]%andb_prop.
  rewrite forallb_forall in H1, H2. split.
  - intros bl b. rewrite mkStore_bblocks. intros Hb.
    specialize (H1 (bl, b) ltac:(apply list_elem_of_In; by apply imap_pair_elem)).
    cbn in H1. apply andb_prop in H1 as [Hnd Hall].
    split; [by apply bool_decide_eq_true in Hnd |].
    intros op Hop. rewrite forallb_forall in Hall.
    specialize (Hall op ltac:(by apply list_elem_of_In)).
    rewrite mkStore_obank. destruct (ops !! op) as [o|]; [| done].
    exists o. split; [done |]. by apply bool_decide_eq_true in Hall.
  - intros op o bl. rewrite mkStore_obank. intros Ho Hp.
    specialize (H2 (op, o) ltac:(apply list_elem_of_In; by apply imap_pair_elem)).
    cbn in H2. rewrite Hp in H2. rewrite mkStore_bblocks.
    destruct (bls !! bl) as [b|]; [| done]. exists b. split; [done |].
    by apply bool_decide_eq_true in H2.
Qed.

Lemma ex_diamond_defs_wf : defs_wf ex_diamond.
Proof. by apply defs_wfb_sound. Qed.

Lemma ex_diamond_blocks_wf : blocks_wf ex_diamond.
Proof. by apply blocks_wfb_sound. Qed.

(** ** Unsetting the output keeps the invariants *)

Lemma op_setOut_id o : getOut o = None → op_setOut None o = o.
Proof. destruct o. cbn. by intros ->. Qed.

Lemma opUnsetOutput_keeps fd op o :
  readers_wf fd → defs_wf fd → blocks_wf fd →
  obank fd !! op = Some o →
  ∃ fd',
    opUnsetOutput op fd = Ok tt fd'
    ∧ readers_wf fd' ∧ defs_wf fd' ∧ blocks_wf fd'
    ∧ obank fd' = <[op := op_setOut None o]> (obank fd)
    ∧ (∀ x, descend <$> vbank fd' !! x = descend <$> vbank fd !! x)
    ∧ (∀ x, getOut o ≠ Some x → vbank fd' !! x = vbank fd !! x)
    ∧ (∀ out, getOut o = Some out →
         ∃ ov, vbank fd' !! out = Some ov ∧ isFree ov = true)
    ∧ bblocks fd' = bblocks fd
    ∧ vbank_create_index fd' = vbank_create_index fd.
Proof.
  intros Hr Hd Hb Ho. destruct (getOut o) as [out|] eqn:Hout.
  - pose proof Hd as (Hd1 & Hd2).
    destruct (Hd1 _ _ _ Ho Hout) as (ov & Hov & Hdef).
    eexists. split; [by eapply opUnsetOutput_run |].
    split_and!.
    + eapply readers_wf_ext; [exact Hr | |]; intros x; store_simpl.
      * destruct (decide (x = op)) as [->|]; [| by rewrite lookup_insert_ne].
        by rewrite lookup_insert_eq, Ho.
      * destruct (decide (x = out)) as [->|]; [| by rewrite lookup_insert_ne].
        by rewrite lookup_insert_eq, Hov.
    + split.
      * intros op' o' vn. store_simpl. intros Ho' Hout'.
        destruct (decide (op' = op)) as [->|Hne].
        { rewrite lookup_insert_eq in Ho'. injection Ho' as <-. done. }
        rewrite lookup_insert_ne in Ho' by done.
        destruct (Hd1 _ _ _ Ho' Hout') as (v & Hv & Hdv).
        assert (vn ≠ out) by (intros ->; congruence).
        exists v. by rewrite lookup_insert_ne.
      * intros vn v op'. store_simpl. intros Hv Hdv.
        destruct (decide (vn = out)) as [->|Hne].
        { rewrite lookup_insert_eq in Hv. injection Hv as <-. done. }
        rewrite lookup_insert_ne in Hv by done.
        destruct (Hd2 _ _ _ Hv Hdv) as (o' & Ho' & Hout').
        assert (op' ≠ op) by (intros ->; congruence).
        exists o'. by rewrite lookup_insert_ne.
    + eapply blocks_wf_ext; [exact Hb | |]; intros x; store_simpl; [| done].
      destruct (decide (x = op)) as [->|]; [| by rewrite lookup_insert_ne].
      by rewrite lookup_insert_eq, Ho.
    + done.
    + intros x. store_simpl.
      destruct (decide (x = out)) as [->|]; [| by rewrite lookup_insert_ne].
      by rewrite lookup_insert_eq, Hov.
    + intros x Hx. store_simpl. rewrite lookup_insert_ne; [done | congruence].
    + intros ? [= <-]. eexists. store_simpl. rewrite lookup_insert_eq. split; [done |].
      unfold vn_setCover. apply (isFree_makeFree ov).
    + done.
    + done.
  - exists fd. split.
    { unfold opUnsetOutput. rewrite (bind_Ok _ _ _ _ _ (getOp_Ok _ _ _ Ho)).
      by rewrite Hout. }
    split_and!; try done.
    rewrite op_setOut_id by done. by rewrite insert_id.
Qed.

(** ** Unlinking an op *)

Lemma same_but_readers_fmap fd fd' :
  same_but_readers fd fd' →
  (∀ x, is_Some (vbank fd' !! x) → is_Some (vbank fd !! x)) →
  ∀ x, vn_setDescend [] <$> vbank fd' !! x = vn_setDescend [] <$> vbank fd !! x.
Proof.
  intros Hs Hdom x. destruct (vbank fd !! x) as [xv|] eqn:Hx.
  - destruct (Hs _ _ Hx) as (xv' & -> & E). cbn. by rewrite E.
  - destruct (vbank fd' !! x) as [xv'|] eqn:Hx'; [| done].
    destruct (Hdom x) as [? ?]; [by rewrite Hx' | congruence].
Qed.

Lemma same_but_readers_getDef fd fd' :
  (∀ x, vn_setDescend [] <$> vbank fd' !! x = vn_setDescend [] <$> vbank fd !! x) →
  ∀ x, getDef <$> vbank fd' !! x = getDef <$> vbank fd !! x.
Proof.
  intros H x. specialize (H x).
  destruct (vbank fd' !! x) as [[]|], (vbank fd !! x) as [[]|]; by simplify_eq/=.
Qed.

Lemma unsetInputs_loop op : ∀ m a fd o,
  readers_wf fd → obank fd !! op = Some o → (a + m = numInput o)%nat →
  (∀ k, (a ≤ k < numInput o)%nat → ∃ w, inrefs o !! k = Some (Some w)) →
  ∃ fd',
    forM_ (List.seq a m) (fun i => opUnsetInput op i) fd = Ok tt fd'
    ∧ readers_wf fd'
    ∧ obank fd' = <[op := op_setInrefs (take a (inrefs o) ++ replicate m None) o]> (obank fd)
    ∧ same_but_readers fd fd'
    ∧ (∀ x, is_Some (vbank fd' !! x) → is_Some (vbank fd !! x))
    ∧ bblocks fd' = bblocks fd
    ∧ vbank_create_index fd' = vbank_create_index fd.
Proof.
  unfold forM_. induction m as [|m IH]; intros a fd o Hwf Ho Ham Hall; cbn [List.seq foldM].
  - exists fd. split_and!; try done.
    + rewrite app_nil_r, take_ge by (unfold numInput in Ham; lia).
      by rewrite op_setInrefs_id, insert_id.
    + apply same_but_readers_refl.
  - destruct (Hall a ltac:(lia)) as [w Hs].
    destruct (opUnsetInput_keeps fd op o a w Hwf Ho Hs) as (fd1 & wv & l & E & Hwf1 & Hw & Hl & ->).
    rewrite (bind_Ok _ _ _ _ _ E).
    set (o1 := op_setInrefs (<[a := None]> (inrefs o)) o).
    destruct (IH (S a) (set_obank (insert op o1)
                          (set_vbank (insert w (vn_setDescend l wv)) fd)) o1)
      as (fd' & E' & Hwf' & Hob & Hsb & Hdom & Hbl & Hci); try done.
    { store_simpl. by rewrite lookup_insert_eq. }
    { unfold numInput, o1. store_simpl. rewrite length_insert. unfold numInput in Ham. lia. }
    { intros k Hk. unfold numInput, o1 in *. store_simpl. rewrite length_insert in Hk.
      rewrite list_lookup_insert_ne by lia. apply Hall. lia. }
    exists fd'. split_and!; try done.
    + rewrite Hob. store_simpl. rewrite insert_insert_eq. f_equal.
      unfold o1. destruct o as [c F out ins par sq]. unfold op_setInrefs. store_simpl.
      f_equal. cbn in Hs.
      rewrite (take_S_r _ _ None)
        by (apply list_lookup_insert_eq; by eapply lookup_lt_Some).
      rewrite take_insert_ge by lia. by rewrite <- app_assoc.
    + eapply same_but_readers_trans; [| exact Hsb].
      intros y yv Hy. store_simpl. destruct (decide (y = w)) as [->|Hne].
      * rewrite lookup_insert_eq. eexists. split; [done |]. by simplify_eq.
      * rewrite lookup_insert_ne by done. by exists yv.
    + intros x Hx. apply Hdom in Hx. store_simpl.
      destruct (decide (x = w)) as [->|Hne]; [by rewrite Hw |].
      by rewrite lookup_insert_ne in Hx.
Qed.

Lemma index_of_elem op l : ∀ i,
  op ∈ l → ∃ k, index_of op l i = Some (i + k)%nat ∧ l !! k = Some op.
Proof.
  induction l as [|x l IH]; intros i Hin; [by apply elem_of_nil in Hin |].
  cbn [index_of]. destruct (decide (x = op)) as [->|Hne].
  - exists 0%nat. split; [f_equal; lia | done].
  - apply elem_of_cons in Hin as [-> | Hin]; [done |].
    destruct (IH (S i) Hin) as (k & E & Hk). exists (S k). split; [| done].
    rewrite E. f_equal. lia.
Qed.

Lemma elem_of_delete_NoDup {A} (l : list A) i x y :
  NoDup l → l !! i = Some x → y ∈ delete i l ↔ y ∈ l ∧ y ≠ x.
Proof.
  intros Hnd Hi. rewrite delete_take_drop.
  rewrite <- (take_drop_middle l i x Hi) in Hnd at 1.
  rewrite <- (take_drop_middle l i x Hi) at 3.
  apply NoDup_app in Hnd as (_ & Hd & Hnd2). apply NoDup_cons in Hnd2 as (Hx & _).
  rewrite !elem_of_app, elem_of_cons. split.
  - intros [H | H].
    + split; [by left |]. intros ->. apply (Hd x H). by left.
    + split; [by right; right |]. by intros ->.
  - intros [[H | [-> | H]] Hne]; [by left | done | by right].
Qed.

Lemma NoDup_delete_at {A} (l : list A) i : NoDup l → NoDup (delete i l).
Proof. intros H. eapply sublist_NoDup; [done | apply sublist_delete]. Qed.

(** X10: in a store whose reader lists, definers and block lists are
    consistent, [Funcdata::opUnlink] on an op all of whose input slots are
    linked succeeds and detaches the op completely: the op has no output,
    only null inputs and no owning block; no Varnode names it as reader
    or as definer, no block lists it, and its former output is free. The
    other ops are untouched and the store stays consistent. *)
Theorem opUnlink_detaches_op (fd : Funcdata) (op : nat) (o : PcodeOp) :
  readers_wf fd → defs_wf fd → blocks_wf fd →
  obank fd !! op = Some o →
  (∀ k r, inrefs o !! k = Some r → is_Some r) →
  ∃ fd' o',
    opUnlink op fd = Ok tt fd'
    ∧ readers_wf fd' ∧ defs_wf fd' ∧ blocks_wf fd'
    ∧ obank fd' !! op = Some o'
    ∧ getOut o' = None ∧ inrefs o' = replicate (numInput o) None
    ∧ getParent o' = None ∧ code o' = code o
    ∧ (is_Some (getParent o) → PcodeOp_dead ∈ op_flags o')
    ∧ (∀ x xv, vbank fd' !! x = Some xv → (op ∉ descend xv) ∧ getDef xv ≠ Some op)
    ∧ (∀ bl b, bblocks fd' !! bl = Some b → op ∉ bl_op b)
    ∧ (∀ out, getOut o = Some out →
         ∃ ov, vbank fd' !! out = Some ov ∧ isFree ov = true)
    ∧ (∀ x, x ≠ op → obank fd' !! x = obank fd !! x).
Proof.
  intros Hr Hd Hb Ho Hall.
  destruct (opUnsetOutput_keeps fd op o Hr Hd Hb Ho)
    as (fd0 & E0 & Hr0 & Hd0 & Hb0 & Hob0 & Hdesc0 & Hvb0 & Hfree0 & Hbl0 & _).
  set (o0 := op_setOut None o) in *.
  assert (Ho0 : obank fd0 !! op = Some o0) by (by rewrite Hob0, lookup_insert_eq).
  destruct (unsetInputs_loop op (numInput o0) 0 fd0 o0)
    as (fd1 & E1 & Hr1 & Hob1 & Hsb1 & Hdom1 & Hbl1 & _); try done.
  { intros k Hk. destruct (lookup_lt_is_Some_2 (inrefs o0) k) as [r Hk']; [unfold numInput in Hk; lia |].
    destruct (Hall k r) as [w ->]; [by destruct o | by exists w]. }
  rewrite take_0, app_nil_l in Hob1.
  set (o1 := op_setInrefs (replicate (numInput o0) None) o0) in *.
  assert (Ho1 : obank fd1 !! op = Some o1) by (by rewrite Hob1, lookup_insert_eq).
  pose proof (same_but_readers_fmap _ _ Hsb1 Hdom1) as Hvf.
  assert (Hd1 : defs_wf fd1).
  { eapply defs_wf_ext; [exact Hd0 | | by apply same_but_readers_getDef].
    intros x. rewrite Hob1. destruct (decide (x = op)) as [->|]; [| by rewrite lookup_insert_ne].
    by rewrite lookup_insert_eq, Ho0. }
  assert (Hb1 : blocks_wf fd1).
  { eapply blocks_wf_ext; [exact Hb0 | | by rewrite Hbl1].
    intros x. rewrite Hob1. destruct (decide (x = op)) as [->|]; [| by rewrite lookup_insert_ne].
    by rewrite lookup_insert_eq, Ho0. }
  assert (Hfree1 : ∀ out, getOut o = Some out →
            ∃ ov, vbank fd1 !! out = Some ov ∧ isFree ov = true).
  { intros out Hout. destruct (Hfree0 _ Hout) as (ov & Hov & Hf).
    destruct (Hsb1 _ _ Hov) as (ov' & Hov' & E). exists ov'. split; [done |].
    destruct ov, ov'. unfold isFree, isWritten, isInput, vn_hasFlag in *. by simplify_eq/=. }
  assert (Hnone : ∀ fd' o', readers_wf fd' → defs_wf fd' →
            obank fd' !! op = Some o' → getOut o' = None →
            inrefs o' = replicate (numInput o) None →
            ∀ x xv, vbank fd' !! x = Some xv → (op ∉ descend xv) ∧ getDef xv ≠ Some op).
  { intros fd' o' (Hc' & _) (_ & Hd2') Ho' Hout' Hin' x xv Hx. split.
    - apply count_in_zero. rewrite (Hc' _ _ _ _ Ho' Hx). unfold reads. rewrite Hin'.
      apply count_in_zero. intros [? _]%elem_of_replicate. done.
    - intros Hdx. destruct (Hd2' _ _ _ Hx Hdx) as (o'' & Ho'' & Hout''). congruence. }
  assert (Hf1 : getOut o1 = None ∧ inrefs o1 = replicate (numInput o) None
               ∧ getParent o1 = getParent o ∧ code o1 = code o) by done.
  destruct Hf1 as (Hout1 & Hin1 & Hp1 & Hc1).
  destruct (getParent o) as [bl|] eqn:Hp.
  - pose proof Hb1 as (Hb11 & Hb12).
    destruct (Hb12 op o1 bl Ho1) as (b & Hbb & Hin); [done |].
    destruct (index_of_elem op (bl_op b) 0 Hin) as (i & Hi & Hli). cbn in Hi.
    destruct (Hb11 _ _ Hbb) as (Hnd & Hown).
    set (o2 := op_setParent None (op_setFlags {[PcodeOp_dead]} o1)).
    set (b2 := mkBlockBasic (delete i (bl_op b)) (bl_intothis b) (bl_outofthis b)
                 (getStart b) (bl_isDead b)).
    assert (E2 : opUninsert op fd1
                 = Ok tt (set_bblocks (insert bl b2) (set_obank (insert op o2) fd1))).
    { by apply opUninsert_run. }
    set (fd2 := set_bblocks (insert bl b2) (set_obank (insert op o2) fd1)) in *.
    assert (Ho2 : obank fd2 !! op = Some o2) by (unfold fd2; store_simpl; by rewrite lookup_insert_eq).
    assert (Hr2 : readers_wf fd2).
    { eapply readers_wf_ext; [exact Hr1 | | done]. intros x. unfold fd2. store_simpl.
      destruct (decide (x = op)) as [->|]; [| by rewrite lookup_insert_ne].
      by rewrite lookup_insert_eq, Ho1. }
    assert (Hd2 : defs_wf fd2).
    { eapply defs_wf_ext; [exact Hd1 | | done]. intros x. unfold fd2. store_simpl.
      destruct (decide (x = op)) as [->|]; [| by rewrite lookup_insert_ne].
      by rewrite lookup_insert_eq, Ho1. }
    assert (Hb2 : blocks_wf fd2).
    { split.
      - intros bl' b'. unfold fd2. store_simpl. intros Hb'.
        destruct (decide (bl' = bl)) as [->|Hne].
        + rewrite lookup_insert_eq in Hb'. injection Hb' as <-. unfold b2. store_simpl.
          split; [by apply NoDup_delete_at |].
          intros x [Hx Hxo]%(elem_of_delete_NoDup _ _ op); [| done | done].
          destruct (Hown _ Hx) as (ox & Hox & Hpx). exists ox.
          by rewrite lookup_insert_ne.
        + rewrite lookup_insert_ne in Hb' by done.
          destruct (Hb11 _ _ Hb') as (Hnd' & Hown'). split; [done |].
          intros x Hx. destruct (Hown' _ Hx) as (ox & Hox & Hpx). exists ox.
          rewrite lookup_insert_ne; [done |]. intros ->. congruence.
      - intros x ox bl'. unfold fd2. store_simpl. intros Hox Hpx.
        destruct (decide (x = op)) as [->|Hx].
        { rewrite lookup_insert_eq in Hox. injection Hox as <-. done. }
        rewrite lookup_insert_ne in Hox by done.
        destruct (Hb12 _ _ _ Hox Hpx) as (b' & Hb' & Hin').
        destruct (decide (bl' = bl)) as [->|Hne].
        + assert (b' = b) by congruence. subst b'. exists b2.
          rewrite lookup_insert_eq. split; [done |]. unfold b2. store_simpl.
          by apply (elem_of_delete_NoDup _ _ op).
        + exists b'. by rewrite lookup_insert_ne. }
    exists fd2, o2. split_and!; try done.
    + unfold opUnlink.
      rewrite (bind_Ok _ _ _ _ _ E0), (bind_Ok _ _ _ _ _ (getOp_Ok _ _ _ Ho0)).
      rewrite (bind_Ok _ _ _ _ _ E1), (bind_Ok _ _ _ _ _ (getOp_Ok _ _ _ Ho1)).
      rewrite Hp1. by rewrite bool_decide_eq_true_2.
    + intros _. unfold o2, op_setFlags. store_simpl. set_solver.
    + by apply (Hnone fd2 o2).
    + intros bl' b' Hb' Hin'. destruct Hb2 as (Hb21 & _).
      destruct (Hb21 _ _ Hb') as (_ & Hown'). destruct (Hown' _ Hin') as (? & ? & ?).
      by simplify_eq.
    + intros x Hx. unfold fd2. store_simpl. rewrite lookup_insert_ne by done.
      rewrite Hob1, lookup_insert_ne by done. by rewrite Hob0, lookup_insert_ne.
  - exists fd1, o1. split_and!; try done.
    + unfold opUnlink.
      rewrite (bind_Ok _ _ _ _ _ E0), (bind_Ok _ _ _ _ _ (getOp_Ok _ _ _ Ho0)).
      rewrite (bind_Ok _ _ _ _ _ E1), (bind_Ok _ _ _ _ _ (getOp_Ok _ _ _ Ho1)).
      rewrite Hp1. by rewrite bool_decide_eq_false_2 by (by intros []).
    + by apply (Hnone fd1 o1).
    + intros bl' b' Hb' Hin'. destruct Hb1 as (Hb11 & _).
      destruct (Hb11 _ _ Hb') as (_ & Hown'). destruct (Hown' _ Hin') as (ox & Hox & Hpx).
      congruence.
    + intros x Hx. rewrite Hob1, lookup_insert_ne by done. by rewrite Hob0, lookup_insert_ne.
Qed.

Lemma opUnlink_detaches_op_witness :
  ∃ fd' o',
    opUnlink 1 ex_diamond = Ok tt fd'
    ∧ readers_wf fd' ∧ defs_wf fd' ∧ blocks_wf fd'
    ∧ obank fd' !! 1%nat = Some o'
    ∧ getOut o' = None ∧ inrefs o' = [None; None] ∧ getParent o' = None.
Proof.
  destruct (opUnlink_detaches_op ex_diamond 1
              (liveop CPUI_MULTIEQUAL (Some 2%nat) [Some 0%nat; Some 1%nat] 3 1))
    as (fd' & o' & E & Hr & Hd & Hb & Ho & Hout & Hin & Hp & _);
    [apply ex_diamond_readers_wf | apply ex_diamond_defs_wf | apply ex_diamond_blocks_wf
    | reflexivity | |].
  - intros [|[|k]] r [= <-]; by eexists.
  - by exists fd', o'.
Defined.

(** * Destroying a Varnode *)

Lemma count_in_clear_ref vn x (l : list (option nat)) :
  x ≠ vn → count_in (Some x) (clear_ref vn <$> l) = count_in (Some x) l.
Proof.
  intros Hne. induction l as [|r l IH]; [done |].
  rewrite fmap_cons, !count_in_cons, IH. unfold clear_ref.
  destruct (decide (r = Some vn)) as [->|]; [| done].
  rewrite !decide_False by congruence. done.
Qed.

Lemma clear_ref_not_elem vn (l : list (option nat)) : Some vn ∉ clear_ref vn <$> l.
Proof.
  intros (r & Hr & _)%list_elem_of_fmap. unfold clear_ref in Hr.
  destruct (decide (r = Some vn)); congruence.
Qed.

Lemma clear_ref_insert vn (l : list (option nat)) i :
  l !! i = Some (Some vn) → clear_ref vn <$> <[i := None]> l = clear_ref vn <$> l.
Proof.
  intros Hi. rewrite list_fmap_insert. apply list_insert_id.
  rewrite list_lookup_fmap, Hi. cbn. unfold clear_ref. by rewrite decide_True.
Qed.

Lemma PcodeOp_clearInput_run fd op o slot :
  obank fd !! op = Some o → (slot < numInput o)%nat →
  PcodeOp_clearInput op slot fd
  = Ok tt (set_obank (insert op (op_setInrefs (<[slot := None]> (inrefs o)) o)) fd).
Proof. intros Ho Hlt. unfold PcodeOp_clearInput. mrun. done. Qed.

(** The loop of [destroyVarnode] over the readers. *)
Lemma clearInputs_loop vn : ∀ l fd,
  (∀ op, op ∈ l → is_Some (obank fd !! op)) →
  (∀ op o, obank fd !! op = Some o → count_in op l = reads o vn) →
  ∃ fd',
    forM_ l (fun op => o <- getOp op ;; PcodeOp_clearInput op (getSlot o vn)) fd
    = Ok tt fd'
    ∧ (∀ op, obank fd' !! op
             = (λ o, op_setInrefs (clear_ref vn <$> inrefs o) o) <$> obank fd !! op)
    ∧ vbank fd' = vbank fd ∧ bblocks fd' = bblocks fd.
Proof.
  unfold forM_. induction l as [|op l IH]; intros fd Hdom Hcnt; cbn [foldM].
  - exists fd. split_and!; try done.
    intros op. destruct (obank fd !! op) as [o|] eqn:Ho; [| done]. cbn. f_equal.
    assert (Hn : Some vn ∉ inrefs o).
    { apply count_in_zero. fold (reads o vn). by rewrite <- (Hcnt _ _ Ho). }
    destruct o as [c F out ins par sq]. unfold op_setInrefs. store_simpl. f_equal.
    clear -Hn. induction ins as [|r ins IH]; [done |].
    apply not_elem_of_cons in Hn as [? ?]. rewrite fmap_cons, <- IH by done.
    unfold clear_ref. by rewrite decide_False.
  - destruct (Hdom op) as [o Ho]; [by left |].
    assert (Hrd : Some vn ∈ inrefs o).
    { apply count_in_pos. fold (reads o vn). rewrite <- (Hcnt _ _ Ho).
      rewrite count_in_cons, decide_True by done. lia. }
    pose proof (getSlot_spec _ _ Hrd) as Hs.
    assert (Hlt : (getSlot o vn < numInput o)%nat) by (by eapply lookup_lt_Some).
    rewrite bind_assoc, (bind_Ok _ _ _ _ _ (getOp_Ok _ _ _ Ho)).
    rewrite (bind_Ok _ _ _ _ _ (PcodeOp_clearInput_run _ _ _ _ Ho Hlt)).
    set (o1 := op_setInrefs (<[getSlot o vn := None]> (inrefs o)) o).
    destruct (IH (set_obank (insert op o1) fd)) as (fd' & E & Hob & Hvb & Hbl).
    { intros x Hx. store_simpl. destruct (decide (x = op)) as [->|].
      - by rewrite lookup_insert_eq.
      - rewrite lookup_insert_ne by done. apply Hdom. by right. }
    { intros x ox. store_simpl. destruct (decide (x = op)) as [->|Hne].
      - rewrite lookup_insert_eq. intros [= <-].
        pose proof (Hcnt _ _ Ho) as Hc. rewrite count_in_cons, decide_True in Hc by done.
        unfold reads, o1 in *. store_simpl.
        pose proof (count_in_insert (Some vn) (inrefs o) (getSlot o vn) (Some vn) None Hs)
          as Hci.
        rewrite decide_True, decide_False in Hci by done. lia.
      - rewrite lookup_insert_ne by done. intros Hox.
        rewrite <- (Hcnt _ _ Hox). rewrite count_in_cons. by rewrite decide_False. }
    exists fd'. split_and!; try done.
    intros x. rewrite Hob. store_simpl. destruct (decide (x = op)) as [->|Hne].
    + rewrite lookup_insert_eq, Ho. cbn. f_equal. unfold o1.
      destruct o as [c F out ins par sq]. unfold op_setInrefs. store_simpl. f_equal.
      by apply clear_ref_insert.
    + by rewrite lookup_insert_ne.
Qed.

Lemma without_refs_no_out vn o :
  getOut o ≠ Some vn →
  without_refs vn o = op_setInrefs (clear_ref vn <$> inrefs o) o.
Proof.
  intros H. unfold without_refs, clear_ref. rewrite decide_False by done. by destruct o.
Qed.

Lemma without_refs_out vn o :
  getOut o = Some vn →
  without_refs vn o = op_setOut None (op_setInrefs (clear_ref vn <$> inrefs o) o).
Proof. intros H. unfold without_refs, clear_ref. by rewrite decide_True. Qed.

Lemma destroyVarnode_keeps (fd : Funcdata) (vn : nat) (v : Varnode) :
  readers_wf fd → defs_wf fd →
  vbank fd !! vn = Some v → isInput v = false →
  ∃ fd',
    destroyVarnode vn fd = Ok tt fd'
    ∧ readers_wf fd' ∧ defs_wf fd'
    ∧ vbank fd' = delete vn (vbank fd)
    ∧ (∀ op, obank fd' !! op = without_refs vn <$> obank fd !! op)
    ∧ (∀ op o', obank fd' !! op = Some o' →
         (Some vn ∉ inrefs o') ∧ getOut o' ≠ Some vn)
    ∧ bblocks fd' = bblocks fd.
Proof.
  intros Hr Hd Hv Hni. pose proof Hr as (Hc & Hvs & Hos). pose proof Hd as (Hd1 & Hd2).
  destruct (clearInputs_loop vn (descend v) fd) as (fd1 & E1 & Hob1 & Hvb1 & Hbl1).
  { intros op Hop. by eapply Hos. }
  { intros op o Ho. by eapply Hc. }
  assert (Hv1 : vbank fd1 !! vn = Some v) by (by rewrite Hvb1).
  assert (Hfree : isFree (vn_setDescend [] (vn_setDef None v))
                  && hasNoDescend (vn_setDescend [] (vn_setDef None v)) = true).
  { unfold isFree, isWritten, isInput, vn_hasFlag, hasNoDescend in *. store_simpl.
    rewrite bool_decide_eq_false_2 by (apply is_Some_None). by rewrite Hni. }
  assert (∃ fd', destroyVarnode vn fd = Ok tt fd'
            ∧ vbank fd' = delete vn (vbank fd)
            ∧ (∀ op, obank fd' !! op = without_refs vn <$> obank fd !! op)
            ∧ bblocks fd' = bblocks fd) as (fd' & E & Hvb & Hob & Hbl).
  { unfold destroyVarnode.
    rewrite (bind_Ok _ _ _ _ _ (getVn_Ok _ _ _ Hv)), (bind_Ok _ _ _ _ _ E1).
    destruct (getDef v) as [d|] eqn:Hdef.
    - destruct (Hd2 _ _ _ Hv Hdef) as (od & Hod & Houtd).
      assert (Hod1 : obank fd1 !! d
                     = Some (op_setInrefs (clear_ref vn <$> inrefs od) od))
        by (by rewrite Hob1, Hod).
      unfold PcodeOp_setOutput, Varnode_destroyDescend, VarnodeBank_destroy.
      mrun. rewrite Hfree. mrun. eexists. split; [reflexivity |]. split_and!.
      + store_simpl. rewrite Hvb1. by rewrite !delete_insert_eq.
      + intros op. store_simpl. destruct (decide (op = d)) as [->|Hne].
        * rewrite lookup_insert_eq, Hod. cbn. by rewrite without_refs_out.
        * rewrite lookup_insert_ne by done. rewrite Hob1.
          destruct (obank fd !! op) as [o|] eqn:Ho; [| done]. cbn.
          rewrite without_refs_no_out; [done |]. intros Hout.
          destruct (Hd1 _ _ _ Ho Hout) as (v' & Hv' & Hdv'). congruence.
      + by store_simpl.
    - rewrite bind_ret_l. unfold Varnode_destroyDescend, VarnodeBank_destroy.
      mrun. replace (vn_setDescend [] v) with (vn_setDescend [] (vn_setDef None v))
        by (destruct v; cbn in *; by subst).
      rewrite Hfree. mrun. eexists. split; [reflexivity |]. split_and!.
      + store_simpl. rewrite Hvb1. by rewrite !delete_insert_eq.
      + intros op. store_simpl. rewrite Hob1.
        destruct (obank fd !! op) as [o|] eqn:Ho; [| done]. cbn.
        rewrite without_refs_no_out; [done |]. intros Hout.
        destruct (Hd1 _ _ _ Ho Hout) as (v' & Hv' & Hdv'). congruence.
      + by store_simpl. }
  assert (Hget : ∀ op o', obank fd' !! op = Some o' →
            ∃ o, obank fd !! op = Some o ∧ o' = without_refs vn o).
  { intros op o' Ho'. rewrite Hob in Ho'.
    destruct (obank fd !! op) as [o|]; [| done]. exists o. by injection Ho' as <-. }
  assert (Hin : ∀ o, inrefs (without_refs vn o) = clear_ref vn <$> inrefs o)
    by (by intros []).
  assert (Hout : ∀ o, getOut (without_refs vn o) = clear_ref vn (getOut o))
    by (by intros []).
  exists fd'. split_and!; try done.
  - split_and!.
    + intros op o' x xv Ho' Hx. destruct (Hget _ _ Ho') as (o & Ho & ->).
      rewrite Hvb in Hx. apply lookup_delete_Some in Hx as [Hne Hx].
      unfold reads. rewrite Hin, count_in_clear_ref by done. by eapply Hc.
    + intros op o' sl x Ho' Hs. destruct (Hget _ _ Ho') as (o & Ho & ->).
      rewrite Hin, list_lookup_fmap in Hs.
      destruct (inrefs o !! sl) as [r|] eqn:Hr'; [| done]. cbn in Hs.
      unfold clear_ref in Hs. destruct (decide (r = Some vn)); [done |].
      injection Hs as ->. rewrite Hvb, lookup_delete_ne by congruence. by eapply Hvs.
    + intros x xv op Hx Hop. rewrite Hvb in Hx. apply lookup_delete_Some in Hx as [Hne Hx].
      destruct (Hos _ _ _ Hx Hop) as [o Ho]. rewrite Hob, Ho. by eexists.
  - split.
    + intros op o' x Ho' Hx. destruct (Hget _ _ Ho') as (o & Ho & ->).
      rewrite Hout in Hx. unfold clear_ref in Hx.
      destruct (decide (getOut o = Some vn)); [done |].
      destruct (Hd1 _ _ _ Ho Hx) as (xv & Hxv & Hdx). exists xv. split; [| done].
      rewrite Hvb, lookup_delete_ne; [done |]. congruence.
    + intros x xv op Hx Hdx. rewrite Hvb in Hx. apply lookup_delete_Some in Hx as [Hne Hx].
      destruct (Hd2 _ _ _ Hx Hdx) as (o & Ho & Ho'). exists (without_refs vn o).
      rewrite Hob, Ho. split; [done |]. rewrite Hout. unfold clear_ref.
      rewrite decide_False; [done |]. congruence.
  - intros op o' Ho'. destruct (Hget _ _ Ho') as (o & Ho & ->). split.
    + rewrite Hin. apply clear_ref_not_elem.
    + rewrite Hout. unfold clear_ref. by destruct (decide (getOut o = Some vn)).
Qed.

(** X11: in a store with exact reader lists and consistent definers,
    [Funcdata::destroyVarnode] on a Varnode that is not an input succeeds
    and takes the Varnode out of the bank; every input slot and every
    output that referred to it is null afterwards, so that no op refers
    to the destroyed Varnode. Nothing else changes: the other Varnodes,
    the other slots and the blocks are as before, and the store stays
    consistent. *)
Theorem destroyVarnode_leaves_no_reference (fd : Funcdata) (vn : nat) (v : Varnode) :
  readers_wf fd → defs_wf fd →
  vbank fd !! vn = Some v → isInput v = false →
  ∃ fd',
    destroyVarnode vn fd = Ok tt fd'
    ∧ readers_wf fd' ∧ defs_wf fd'
    ∧ vbank fd' = delete vn (vbank fd)
    ∧ (∀ op, obank fd' !! op = without_refs vn <$> obank fd !! op)
    ∧ (∀ op o', obank fd' !! op = Some o' →
         (Some vn ∉ inrefs o') ∧ getOut o' ≠ Some vn)
    ∧ bblocks fd' = bblocks fd.
Proof. intros Hr Hd Hv Hni. by apply (destroyVarnode_keeps fd vn v). Qed.

Lemma destroyVarnode_leaves_no_reference_witness :
  ∃ fd',
    destroyVarnode 0 ex_diamond = Ok tt fd'
    ∧ readers_wf fd' ∧ defs_wf fd'
    ∧ vbank fd' !! 0%nat = None
    ∧ inrefs <$> obank fd' !! 1%nat = Some [None; Some 1%nat]
    ∧ getOut <$> obank fd' !! 0%nat = Some None.
Proof.
  destruct (destroyVarnode_leaves_no_reference ex_diamond 0
              (vnode 4 (reg 0) (Some 0%nat) [1%nat; 2%nat]))
    as (fd' & E & Hr & Hd & Hvb & Hob & _);
    [apply ex_diamond_readers_wf | apply ex_diamond_defs_wf | reflexivity | reflexivity |].
  exists fd'. split_and!; try done.
  - rewrite Hvb. apply lookup_delete_eq.
  - by rewrite Hob.
  - by rewrite Hob.
Defined.

(** * The traversals take back their marks *)

Lemma post_conj {A} (c : M A) fd (Q Q' : A → Funcdata → Prop) :
  post c fd Q → post c fd Q' → post c fd (fun a fd' => Q a fd' ∧ Q' a fd').
Proof. unfold post. by destruct (c fd). Qed.

Lemma vn_clearMark_setMark v : isMark v = false → vn_clearMark (vn_setMark v) = v.
Proof.
  unfold isMark, vn_hasFlag, vn_clearMark, vn_setMark, vn_clearFlags, vn_setFlags.
  intros Hm%bool_decide_eq_false. destruct v as [s l F d r c h m]. store_simpl. f_equal.
  apply set_eq. intros x. rewrite elem_of_difference, elem_of_union, elem_of_singleton.
  split; [naive_solver |]. intros Hx. split; [by left | by intros ->].
Qed.

Lemma marked_from_marked_list fd0 fd varlist :
  marked_from fd0 fd varlist → marked_list fd varlist.
Proof.
  intros (Hnd & Hin & _). split; [done |].
  intros x Hx. destruct (Hin x Hx) as (v0 & _ & _ & Hv). eexists. split; [done |].
  apply isMark_setMark.
Qed.

Lemma marked_from_snoc fd0 fd varlist subvn sv :
  marked_from fd0 fd varlist →
  vbank fd !! subvn = Some sv → isMark sv = false →
  marked_from fd0 (set_vbank (insert subvn (vn_setMark sv)) fd) (varlist ++ [subvn]).
Proof.
  intros (Hnd & Hin & Hout & Heq) Hsv Hm.
  assert (Hn : subvn ∉ varlist).
  { intros Hx. destruct (Hin _ Hx) as (v0 & _ & _ & Hv).
    rewrite Hsv in Hv. injection Hv as ->. by rewrite isMark_setMark in Hm. }
  split_and!.
  - apply NoDup_app. split; [done |]. split; [| apply NoDup_singleton].
    intros x Hx ->%list_elem_of_singleton. done.
  - intros x [Hx | ->%list_elem_of_singleton]%elem_of_app; store_simpl.
    + rewrite lookup_insert_ne by (by intros ->). by apply Hin.
    + rewrite lookup_insert_eq. exists sv. split_and!; try done.
      by rewrite <- Hout.
  - intros x Hx. apply not_elem_of_app in Hx as [Hx1 Hx2].
    apply not_elem_of_cons in Hx2 as [Hx2 _]. store_simpl.
    rewrite lookup_insert_ne by done. by apply Hout.
  - rewrite Heq at 1. by destruct fd0.
Qed.

Lemma onlyOpUse_descend_marks fd0 opmatch trial vn l :
  ∀ varlist fd,
    marked_from fd0 fd varlist →
    post (onlyOpUse_descend opmatch trial vn l varlist) fd
      (fun r fd' => marked_from fd0 fd' r.2).
Proof.
  induction l as [|op l IH]; intros varlist fd Hml.
  { by apply post_ret. }
  cbn [onlyOpUse_descend].
  apply post_bind, post_readonly; [apply readonly_getOp |]. intros o.
  apply post_bind, post_readonly; [repeat readonly_step |]. intros skip.
  destruct skip; [by apply IH |].
  apply post_bind, post_readonly.
  { destruct (code o);
      repeat first [apply readonly_checkCallDoubleUse | readonly_step]. }
  intros [| |].
  - by apply IH.
  - by apply post_ret.
  - destruct (getOut o) as [subvn|]; [| by apply IH].
    apply post_bind, post_getVn. intros sv Hsv.
    destruct (isPersist sv); [by apply post_ret |].
    destruct (isMark sv) eqn:Hm; cbn [negb]; [by apply IH |].
    apply post_bind, post_modVn. intros sv' Hsv'.
    assert (sv' = sv) by congruence. subst sv'.
    apply IH. by apply marked_from_snoc.
Qed.

Lemma onlyOpUse_loop_marks fd0 opmatch trial :
  ∀ fuel varlist i fd,
    marked_from fd0 fd varlist →
    (i ≤ length varlist)%nat →
    (size (vbank fd) < fuel + i)%nat →
    post (onlyOpUse_loop fuel opmatch trial varlist i) fd
      (fun r fd' => marked_from fd0 fd' r.2).
Proof.
  induction fuel as [|fuel IH]; intros varlist i fd Hml Hi Hfuel.
  { pose proof (marked_list_length _ _ (marked_from_marked_list _ _ _ Hml)). lia. }
  cbn [onlyOpUse_loop].
  destruct (varlist !! i) as [vn|] eqn:Ei; [| by apply post_ret].
  apply lookup_lt_Some in Ei.
  apply post_bind, post_readonly; [apply readonly_getVn |]. intros v.
  apply post_bind.
  eapply post_mono.
  { apply post_conj.
    - apply onlyOpUse_descend_post. by eapply marked_from_marked_list.
    - by apply (onlyOpUse_descend_marks fd0). }
  intros [res varlist'] fd' ((Hml' & Hsz & Hlen) & Hmf). cbn [fst snd] in *.
  destruct res; [| by apply post_ret].
  apply IH; [done | lia | lia].
Qed.

Lemma clearMarks_restores fd0 l : ∀ fd,
  marked_from fd0 fd l →
  forM_ l (fun vn => modVn vn vn_clearMark) fd = Ok tt fd0.
Proof.
  unfold forM_. induction l as [|x l IH]; intros fd (Hnd & Hin & Hout & Heq); cbn [foldM].
  - f_equal. rewrite Heq. destruct fd0 as [vb ci vu ob ou bb hl qp he cs].
    unfold set_vbank. store_simpl. f_equal. apply map_eq. intros y.
    apply (Hout y). apply not_elem_of_nil.
  - destruct (Hin x) as (v0 & Hv0 & Hm & Hv); [by left |].
    rewrite (bind_Ok _ _ _ _ _ (modVn_Ok _ _ _ _ Hv)).
    apply NoDup_cons in Hnd as [Hx Hnd].
    apply IH. split_and!; try done.
    + intros y Hy. store_simpl. rewrite lookup_insert_ne by (by intros ->).
      apply Hin. by right.
    + intros y Hy. store_simpl. destruct (decide (y = x)) as [->|Hne].
      * rewrite lookup_insert_eq, Hv0. f_equal. by apply vn_clearMark_setMark.
      * rewrite lookup_insert_ne by done. apply Hout.
        by apply not_elem_of_cons.
    + rewrite Heq at 1. by destruct fd0.
Qed.

Lemma onlyOpUse_keeps fd invn opmatch trial :
  (∀ v, vbank fd !! invn = Some v → isMark v = false) →
  post (onlyOpUse invn opmatch trial) fd (fun _ fd' => fd' = fd).
Proof.
  intros Hm. unfold onlyOpUse. apply post_bind, post_get. unfold onlyOpUse_fuel.
  apply post_bind, post_modVn. intros v Hv.
  assert (Hmf : marked_from fd (set_vbank (insert invn (vn_setMark v)) fd) [invn]).
  { split_and!.
    - apply NoDup_singleton.
    - intros x ->%list_elem_of_singleton. exists v. store_simpl.
      rewrite lookup_insert_eq. split_and!; [done | by apply Hm | done].
    - intros x Hx. apply not_elem_of_cons in Hx as [Hx _]. store_simpl.
      by rewrite lookup_insert_ne.
    - by destruct fd. }
  apply post_bind.
  eapply post_mono.
  - apply (onlyOpUse_loop_marks fd); [exact Hmf | cbn; lia |].
    rewrite (size_vbank_modVn _ _ _ _ Hv). lia.
  - intros r fd' Hmf'. apply post_bind. unfold post at 1.
    rewrite (clearMarks_restores _ _ _ Hmf'). by apply post_ret.
Qed.

Lemma ancestorOpUse_inputs_keeps fd rec l :
  (∀ vn t, post (rec vn t) fd (fun _ fd' => fd' = fd)) →
  ∀ trial, post (ancestorOpUse_inputs rec l trial) fd (fun _ fd' => fd' = fd).
Proof.
  intros Hrec. induction l as [|[vn|] l IH]; intros trial; cbn [ancestorOpUse_inputs].
  - by apply post_ret.
  - apply post_bind. eapply post_mono; [apply Hrec |]. intros [b t] fd' ->.
    cbn [fst snd]. destruct b; [by apply post_ret | apply IH].
  - by apply post_throw.
Qed.

Lemma ancestorOpUse_keeps fd :
  no_marks fd →
  ∀ (fuel : nat) (maxlevel : Z) (invn op : nat) (trial : ParamTrial),
    -2^31 ≤ maxlevel < 2^31 →
    (Z.to_nat (maxlevel mod 2^32) < fuel)%nat →
    post (ancestorOpUse fuel maxlevel invn op trial) fd (fun _ fd' => fd' = fd).
Proof.
  intros Hnm.
  induction fuel as [|fuel IH]; intros maxlevel invn op trial Hr Hfuel; [lia |].
  cbn [ancestorOpUse].
  destruct (decide (maxlevel = 0)) as [|Hne]; [by apply post_ret |].
  destruct (int4_wrap_pred maxlevel Hr Hne) as [Hr' Hm'].
  assert (Hrec : ∀ vn t, post (ancestorOpUse fuel (int4_wrap (maxlevel - 1)) vn op t) fd
                           (fun _ fd' => fd' = fd)).
  { intros vn t. apply IH; [done |]. rewrite Hm'.
    assert (0 ≤ maxlevel mod 2^32) by (apply Z.mod_pos_bound; done).
    assert (maxlevel mod 2^32 ≠ 0).
    { change (2^31) with 2147483648 in *. change (2^32) with 4294967296 in *.
      Z.to_euclidean_division_equations. lia. }
    lia. }
  assert (Honly : ∀ t, post (b <- onlyOpUse invn op t ;; ret (b, t)) fd
                         (fun _ fd' => fd' = fd)).
  { intros t. apply post_bind. eapply post_mono.
    - apply onlyOpUse_keeps. intros v Hv. by eapply Hnm.
    - intros b fd' ->. by apply post_ret. }
  apply post_bind, post_readonly; [apply readonly_getVn |]. intros v.
  destruct (getDef v) as [defop|].
  2: { destruct (isInput v); cbn [negb]; [| by apply post_ret].
       destruct (isTypeLock v); cbn [negb]; [apply Honly | by apply post_ret]. }
  apply post_bind, post_readonly; [apply readonly_getOp |]. intros def.
  destruct (code def); try apply Honly.
  - (* CPUI_COPY *)
    destruct (_ || _); [| apply Honly].
    apply post_bind, post_readonly; [apply readonly_getInVn |]. intros in0.
    apply post_bind. eapply post_mono; [apply Hrec |]. intros [b t] fd' ->.
    cbn [fst snd]. destruct b; by apply post_ret.
  - (* CPUI_CALL *) by apply post_ret.
  - (* CPUI_CALLIND *) by apply post_ret.
  - (* CPUI_MULTIEQUAL *) by apply ancestorOpUse_inputs_keeps.
  - (* CPUI_INDIRECT *)
    destruct (isIndirectCreation def); [by apply post_ret |].
    by apply ancestorOpUse_inputs_keeps.
  - (* CPUI_PIECE *)
    apply post_bind, post_readonly; [apply readonly_getInVn |]. intros in1.
    apply Hrec.
  - (* CPUI_SUBPIECE *)
    apply post_bind, post_readonly; [apply readonly_getInVn |]. intros in1.
    apply post_bind, post_readonly; [apply readonly_getVn |]. intros v1.
    apply post_bind, post_readonly.
    { repeat readonly_step. }
    intros t. apply Honly.
Qed.

(** X12: [Funcdata::onlyOpUse], a [const] member that marks the Varnodes
    it visits, takes back every mark it sets: started on a Varnode that
    is not marked, it returns with the store exactly as it found it (or
    stops on a dangling reference); the traversal never runs out of the
    fuel of its model. *)
Theorem onlyOpUse_restores_store (fd : Funcdata) (invn opmatch : nat)
    (trial : ParamTrial) (v : Varnode) :
  vbank fd !! invn = Some v → isMark v = false →
  post (onlyOpUse invn opmatch trial) fd (fun _ fd' => fd' = fd).
Proof.
  intros Hv Hm. apply onlyOpUse_keeps. intros v' Hv'.
  assert (v' = v) by congruence. by subst v'.
Qed.

Lemma onlyOpUse_restores_store_witness :
  ∃ b, onlyOpUse 0 1 ex_trial ex_cycle = Ok b ex_cycle.
Proof.
  pose proof (onlyOpUse_restores_store ex_cycle 0 1 ex_trial
                (vnode 4 (reg 0) (Some 0%nat) [0%nat; 0%nat; 1%nat])
                eq_refl eq_refl) as H.
  unfold post in H.
  destruct (onlyOpUse 0 1 ex_trial ex_cycle) as [b fd'|e] eqn:E.
  - exists b. by rewrite H.
  - exfalso. vm_compute in E. discriminate E.
Defined.



(** * Binding outputs *)

(** Binding the Varnode [vn], which has no definer, as the output of
    [op], which has no output. *)
Lemma defs_wf_link fd fd' op vn :
  defs_wf fd →
  getOut <$> obank fd !! op = Some None →
  getDef <$> vbank fd !! vn = Some None →
  getOut <$> obank fd' !! op = Some (Some vn) →
  getDef <$> vbank fd' !! vn = Some (Some op) →
  (∀ x, x ≠ op → getOut <$> obank fd' !! x = getOut <$> obank fd !! x) →
  (∀ y, y ≠ vn → getDef <$> vbank fd' !! y = getDef <$> vbank fd !! y) →
  defs_wf fd'.
Proof.
  intros (H1 & H2) Ho Hv Ho' Hv' Eo Ev. split.
  - intros x o' y Hx Hout. destruct (decide (x = op)) as [->|Hne].
    + rewrite Hx in Ho'. cbn in Ho'. assert (y = vn) by congruence. subst y.
      destruct (vbank fd' !! vn) as [v'|]; [| done]. exists v'. split; [done |].
      cbn in Hv'. congruence.
    + destruct (fmap_lookup_eq _ _ _ _ (Eo x Hne) Hx) as (o & Hox & Ei).
      rewrite <- Ei in Hout. destruct (H1 _ _ _ Hox Hout) as (v & Hy & Hd).
      assert (y ≠ vn). { intros ->. rewrite Hy in Hv. cbn in Hv. congruence. }
      pose proof (Ev y H) as Ey. symmetry in Ey.
      destruct (fmap_lookup_eq _ _ _ _ Ey Hy) as (v' & Hy' & Ed).
      exists v'. split; [done | congruence].
  - intros y v' x Hy Hd. destruct (decide (y = vn)) as [->|Hne].
    + rewrite Hy in Hv'. cbn in Hv'. assert (x = op) by congruence. subst x.
      destruct (obank fd' !! op) as [o'|]; [| done]. exists o'. split; [done |].
      cbn in Ho'. congruence.
    + destruct (fmap_lookup_eq _ _ _ _ (Ev y Hne) Hy) as (v & Hyv & Ed).
      rewrite <- Ed in Hd. destruct (H2 _ _ _ Hyv Hd) as (o & Hx & Hout).
      assert (x ≠ op). { intros ->. rewrite Hx in Ho. cbn in Ho. congruence. }
      pose proof (Eo x H) as Ex. symmetry in Ex.
      destruct (fmap_lookup_eq _ _ _ _ Ex Hx) as (o' & Hx' & Eo').
      exists o'. split; [done | congruence].
Qed.

(** The last three steps of [opSetOutput], on a free Varnode and an op
    without output. *)
Lemma bind_output_run fd op o vn v :
  readers_wf fd → defs_wf fd → blocks_wf fd →
  obank fd !! op = Some o → getOut o = None →
  vbank fd !! vn = Some v → isFree v = true →
  ∃ fd' v',
    (vn' <- VarnodeBank_setDef vn op ;;
     setVarnodeProperties vn' ;;
     PcodeOp_setOutput op (Some vn')) fd = Ok tt fd'
    ∧ readers_wf fd' ∧ defs_wf fd' ∧ blocks_wf fd'
    ∧ obank fd' = <[op := op_setOut (Some vn) o]> (obank fd)
    ∧ vbank fd' = <[vn := v']> (vbank fd)
    ∧ getDef v' = Some op ∧ descend v' = descend v
    ∧ bblocks fd' = bblocks fd.
Proof.
  intros Hr Hd Hb Ho Hout Hv Hfree.
  assert (Hdef : getDef v = None).
  { unfold isFree, isWritten in Hfree. apply andb_prop in Hfree as [Hw _].
    apply negb_true_iff, bool_decide_eq_false in Hw.
    destruct (getDef v); [| done]. exfalso. apply Hw. by eexists. }
  set (fd1 := set_vbank (insert vn (vn_setDef (Some op) v)) fd).
  destruct (setVarnodeProperties_run fd1 vn (vn_setDef (Some op) v))
    as (v' & E2 & Hs1 & Hs2 & Hs3 & Hs4).
  { unfold fd1. store_simpl. by rewrite lookup_insert_eq. }
  exists (set_obank (insert op (op_setOut (Some vn) o)) (set_vbank (insert vn v') fd1)), v'.
  split.
  { unfold VarnodeBank_setDef.
    rewrite bind_assoc, (bind_Ok _ _ _ _ _ (getVn_Ok _ _ _ Hv)), Hfree.
    rewrite !bind_assoc, (bind_Ok _ _ _ _ _ (modVn_Ok _ _ _ _ Hv)), bind_ret_l.
    fold fd1. rewrite (bind_Ok _ _ _ _ _ E2). unfold PcodeOp_setOutput.
    apply modOp_Ok. by store_simpl. }
  unfold fd1.
  split_and!; store_simpl; rewrite ?insert_insert_eq; try done.
  - eapply readers_wf_ext; [exact Hr | |]; intros x; store_simpl;
      rewrite ?insert_insert_eq.
    + destruct (decide (x = op)) as [->|]; [| by rewrite lookup_insert_ne].
      by rewrite lookup_insert_eq, Ho.
    + destruct (decide (x = vn)) as [->|]; [| by rewrite lookup_insert_ne].
      rewrite lookup_insert_eq, Hv. cbn. by rewrite Hs4.
  - eapply (defs_wf_link fd _ op vn); [exact Hd | | | | | |]; store_simpl;
      rewrite ?insert_insert_eq.
    + by rewrite Ho, <- Hout.
    + by rewrite Hv, <- Hdef.
    + by rewrite lookup_insert_eq.
    + rewrite lookup_insert_eq. cbn. by rewrite Hs3.
    + intros x Hx. by rewrite lookup_insert_ne.
    + intros y Hy. by rewrite lookup_insert_ne.
  - eapply blocks_wf_ext; [exact Hb | |]; intros x; store_simpl; [| done].
    destruct (decide (x = op)) as [->|]; [| by rewrite lookup_insert_ne].
    by rewrite lookup_insert_eq, Ho.
Qed.



Lemma newUniqueOut_keeps (fd : Funcdata) (s : Z) (op : nat)
    (o : PcodeOp) :
  readers_wf fd → defs_wf fd → vbank_fresh fd →
  obank fd !! op = Some o →
  ∃ fd' uv o',
    newUniqueOut s op fd = Ok (vbank_create_index fd) fd'
    ∧ vbank fd !! vbank_create_index fd = None
    ∧ vbank fd' !! vbank_create_index fd = Some uv
    ∧ getSize uv = s ∧ vn_loc uv = mkAddress unique_space (vbank_uniqid fd)
    ∧ getDef uv = Some op ∧ descend uv = []
    ∧ obank fd' !! op = Some o' ∧ getOut o' = Some (vbank_create_index fd)
    ∧ inrefs o' = inrefs o
    ∧ vbank_uniqid fd' = vbank_uniqid fd + s
    ∧ readers_wf fd' ∧ vbank_fresh fd'
    ∧ (defs_wf fd' ↔ getOut o = None)
    ∧ o' = op_setOut (Some (vbank_create_index fd)) o
    ∧ (∀ x, x ≠ op → obank fd' !! x = obank fd !! x)
    ∧ (∀ x, x ≠ vbank_create_index fd → vbank fd' !! x = vbank fd !! x)
    ∧ bblocks fd' = bblocks fd.
Proof.
  intros Hr (Hd1 & Hd2) Hfr Ho.
  destruct (newUniqueOut_run fd s op o Ho) as (uv & E & Hsz & Hloc & Hdef & Hdesc).
  assert (Hnew : vbank fd !! vbank_create_index fd = None) by (apply Hfr; lia).
  eexists _, uv, (op_setOut (Some (vbank_create_index fd)) o).
  split; [exact E |]. unfold fd_new_vn.
  split_and!; store_simpl; try done.
  - by rewrite lookup_insert_eq.
  - by rewrite lookup_insert_eq.
  - eapply readers_wf_ext; [apply (readers_wf_new_vn fd uv Hr Hnew Hdesc) | |];
      intros x; unfold fd_new_vn; store_simpl; [| done].
    destruct (decide (x = op)) as [->|]; [| by rewrite lookup_insert_ne].
    by rewrite lookup_insert_eq, Ho.
  - intros j Hj. store_simpl. rewrite lookup_insert_ne by lia. apply Hfr. lia.
  - split.
    + intros (Hd1' & Hd2'). destruct (getOut o) as [out|] eqn:Hout; [| done]. exfalso.
      destruct (Hd1 _ _ _ Ho Hout) as (ov & Hov & Hdo).
      assert (out ≠ vbank_create_index fd) by congruence.
      destruct (Hd2' out ov op) as (o' & Ho' & Hout'); store_simpl.
      * by rewrite lookup_insert_ne.
      * done.
      * rewrite lookup_insert_eq in Ho'. injection Ho' as <-. cbn in Hout'. congruence.
    + intros Hout. split.
      * intros x ox y. store_simpl. intros Hx Hy.
        destruct (decide (x = op)) as [->|Hne].
        { rewrite lookup_insert_eq in Hx. injection Hx as <-. cbn in Hy.
          injection Hy as <-. exists uv. by rewrite lookup_insert_eq. }
        rewrite lookup_insert_ne in Hx by done.
        destruct (Hd1 _ _ _ Hx Hy) as (v & Hv & Hdv). exists v. split; [| done].
        rewrite lookup_insert_ne; [done | congruence].
      * intros y yv x. store_simpl. intros Hy Hdy.
        destruct (decide (y = vbank_create_index fd)) as [->|Hne].
        { rewrite lookup_insert_eq in Hy. injection Hy as <-.
          assert (x = op) by congruence. subst x. eexists.
          by rewrite lookup_insert_eq. }
        rewrite lookup_insert_ne in Hy by done.
        destruct (Hd2 _ _ _ Hy Hdy) as (ox & Hx & Hox). exists ox. split; [| done].
        rewrite lookup_insert_ne; [done |]. intros ->. congruence.
  - intros x Hx. by rewrite lookup_insert_ne.
  - intros x Hx. by rewrite lookup_insert_ne.
Qed.

(** X15: [Funcdata::newUniqueOut] makes a new temporary of the given size
    at the next free offset of the unique space, without readers, bound
    as the output of the op; the reader lists stay exact. It stores the
    new output into the op without unsetting an output the op may have:
    the definers stay consistent exactly when the op had no output
    (otherwise the former output still names the op as its definer). *)
Theorem newUniqueOut_binds_new_temporary (fd : Funcdata) (s : Z) (op : nat)
    (o : PcodeOp) :
  readers_wf fd → defs_wf fd → vbank_fresh fd →
  obank fd !! op = Some o →
  ∃ fd' uv o',
    newUniqueOut s op fd = Ok (vbank_create_index fd) fd'
    ∧ vbank fd !! vbank_create_index fd = None
    ∧ vbank fd' !! vbank_create_index fd = Some uv
    ∧ getSize uv = s ∧ vn_loc uv = mkAddress unique_space (vbank_uniqid fd)
    ∧ getDef uv = Some op ∧ descend uv = []
    ∧ obank fd' !! op = Some o' ∧ getOut o' = Some (vbank_create_index fd)
    ∧ inrefs o' = inrefs o
    ∧ vbank_uniqid fd' = vbank_uniqid fd + s
    ∧ readers_wf fd' ∧ vbank_fresh fd'
    ∧ (defs_wf fd' ↔ getOut o = None).
Proof.
  intros Hr Hd Hfr Ho.
  destruct (newUniqueOut_keeps fd s op o Hr Hd Hfr Ho)
    as (fd' & uv & o' & E & H1 & H2 & H3 & H4 & H5 & H6 & H7 & H8 & H9 & H10 & H11
        & H12 & H13 & _).
  exists fd', uv, o'. by split_and!.
Qed.

Lemma newUniqueOut_binds_new_temporary_witness :
  ∃ fd' uv,
    newUniqueOut 4 3 ex_diamond = Ok 7%nat fd'
    ∧ vbank fd' !! 7%nat = Some uv
    ∧ vn_loc uv = mkAddress unique_space 0x1000 ∧ getDef uv = Some 3%nat
    ∧ readers_wf fd' ∧ defs_wf fd'.
Proof.
  destruct (newUniqueOut_binds_new_temporary ex_diamond 4 3
              (liveop CPUI_CALL None [Some 6%nat] 3 3))
    as (fd' & uv & o' & E & _ & Hv & _ & Hloc & Hdef & _ & _ & _ & _ & _ & Hr & _ & Hd);
    [apply ex_diamond_readers_wf | apply ex_diamond_defs_wf
    | intros j; apply mkStore_vbank_fresh | reflexivity |].
  exists fd', uv. split_and!; try done. by apply Hd.
Defined.

(** * Destroying an op, setting all its inputs *)

(** The loop that unsets every linked input of an op. *)
Lemma unsetLinked_loop op : ∀ m a fd o,
  readers_wf fd → obank fd !! op = Some o → (a + m = numInput o)%nat →
  ∃ fd',
    forM_ (List.seq a m) (fun i =>
      vn <- getIn op i ;;
      when (bool_decide (vn ≠ None)) (opUnsetInput op i)) fd = Ok tt fd'
    ∧ readers_wf fd'
    ∧ obank fd' = <[op := op_setInrefs (take a (inrefs o) ++ replicate m None) o]> (obank fd)
    ∧ same_but_readers fd fd'
    ∧ (∀ x, is_Some (vbank fd' !! x) → is_Some (vbank fd !! x))
    ∧ bblocks fd' = bblocks fd
    ∧ vbank_create_index fd' = vbank_create_index fd.
Proof.
  unfold forM_. induction m as [|m IH]; intros a fd o Hwf Ho Ham; cbn [List.seq foldM].
  - exists fd. split_and!; try done.
    + rewrite app_nil_r, take_ge by (unfold numInput in Ham; lia).
      by rewrite op_setInrefs_id, insert_id.
    + apply same_but_readers_refl.
  - destruct (lookup_lt_is_Some_2 (inrefs o) a) as [r Hs]; [unfold numInput in Ham; lia |].
    assert (Hget : getIn op a fd = Ok r fd).
    { unfold getIn. rewrite (bind_Ok _ _ _ _ _ (getOp_Ok _ _ _ Ho)). by rewrite Hs. }
    rewrite bind_assoc, (bind_Ok _ _ _ _ _ Hget).
    assert (∃ fd1 o1,
      when (bool_decide (r ≠ None)) (opUnsetInput op a) fd = Ok tt fd1
      ∧ readers_wf fd1 ∧ obank fd1 = <[op := o1]> (obank fd)
      ∧ o1 = op_setInrefs (<[a := None]> (inrefs o)) o
      ∧ same_but_readers fd fd1
      ∧ (∀ x, is_Some (vbank fd1 !! x) → is_Some (vbank fd !! x))
      ∧ bblocks fd1 = bblocks fd
      ∧ vbank_create_index fd1 = vbank_create_index fd)
      as (fd1 & o1 & E1 & Hwf1 & Hob1 & Ho1 & Hsb1 & Hdom1 & Hbl1 & Hci1).
    { destruct r as [w|].
      - destruct (opUnsetInput_keeps fd op o a w Hwf Ho Hs)
          as (fd1 & wv & l & E & Hwf1 & Hw & Hl & ->).
        eexists _, _. rewrite bool_decide_eq_true_2 by done.
        split; [exact E |]. split_and!; try done.
        + intros y yv Hy. store_simpl. destruct (decide (y = w)) as [->|Hne].
          * rewrite lookup_insert_eq. eexists. split; [done |]. by simplify_eq.
          * rewrite lookup_insert_ne by done. by exists yv.
        + intros x Hx. store_simpl. destruct (decide (x = w)) as [->|Hne];
            [by rewrite Hw |]. by rewrite lookup_insert_ne in Hx.
      - exists fd, o. rewrite bool_decide_eq_false_2 by (by intros []).
        split_and!; try done.
        + by rewrite insert_id.
        + rewrite list_insert_id by done. by rewrite op_setInrefs_id.
        + apply same_but_readers_refl. }
    rewrite (bind_Ok _ _ _ _ _ E1).
    destruct (IH (S a) fd1 o1) as (fd' & E' & Hwf' & Hob & Hsb & Hdom & Hbl & Hci);
      try done.
    { by rewrite Hob1, lookup_insert_eq. }
    { subst o1. unfold numInput in *. store_simpl. rewrite length_insert. lia. }
    exists fd'. split_and!; try done.
    + rewrite Hob, Hob1. rewrite insert_insert_eq. f_equal. subst o1.
      destruct o as [c F out ins par sq]. unfold op_setInrefs. store_simpl.
      f_equal. cbn in Hs.
      rewrite (take_S_r _ _ None)
        by (apply list_lookup_insert_eq; by eapply lookup_lt_Some).
      rewrite take_insert_ge by lia. by rewrite <- app_assoc.
    + by eapply same_but_readers_trans.
    + intros x Hx. by apply Hdom1, Hdom.
    + congruence.
    + congruence.
Qed.

(** The loop that links the inputs of the vector, from slot [a] on. *)
Lemma setInputs_loop op fd0 (vvec : list nat) : ∀ m a fd o,
  readers_wf fd → vbank_fresh fd → same_but_readers fd0 fd →
  obank fd !! op = Some o → numInput o = length vvec → (a + m = length vvec)%nat →
  (∀ vn, vn ∈ vvec → is_Some (vbank fd0 !! vn)) →
  ∃ fd' o',
    forM_ (List.seq a m) (fun i =>
      match vvec !! i with
      | Some vn => opSetInput op vn i
      | None => throw Fault
      end) fd = Ok tt fd'
    ∧ readers_wf fd' ∧ vbank_fresh fd'
    ∧ obank fd' !! op = Some o'
    ∧ (∀ x, x ≠ op → obank fd' !! x = obank fd !! x)
    ∧ numInput o' = length vvec
    ∧ (∀ k, (k < a)%nat → inrefs o' !! k = inrefs o !! k)
    ∧ code o' = code o ∧ getOut o' = getOut o ∧ getParent o' = getParent o
    ∧ (∀ k vn, (a ≤ k)%nat → vvec !! k = Some vn →
         ∃ r, inrefs o' !! k = Some r ∧ holds_input fd0 fd' vn r)
    ∧ same_but_readers fd fd'
    ∧ bblocks fd' = bblocks fd
    ∧ (∀ x xv', vbank fd' !! x = Some xv' → vbank fd !! x = None → getDef xv' = None).
Proof.
  unfold forM_.
  induction m as [|m IH]; intros a fd o Hwf Hfr Hsb0 Ho Hn Ham Hin; cbn [List.seq foldM].
  - exists fd, o. split_and!; try done.
    + intros k vn Hk Hvk. apply lookup_lt_Some in Hvk. lia.
    + apply same_but_readers_refl.
    + intros; congruence.
  - destruct (lookup_lt_is_Some_2 vvec a) as [vn Hva]; [lia |].
    rewrite Hva.
    destruct (Hin vn) as [v0 Hv0]; [by eapply list_elem_of_lookup_2 |].
    destruct (Hsb0 _ _ Hv0) as (v & Hv & Ev).
    apply same_fields_props in Ev as (F1 & F2 & F3 & F4).
    destruct (lookup_lt_is_Some_2 (inrefs o) a) as [cur Hs]; [unfold numInput in Hn; lia |].
    destruct (opSetInput_run_general fd op o vn v a cur Hwf Hfr Ho Hs Hv)
      as (fd1 & o1 & t & tv & E1 & Hwf1 & Hfr1 & Ho1 & Hin1 & Hc1 & Hout1 & Hp1
          & Ht & Hsz & Hoff & Hcst & _ & Hdup & Hfo1 & Hbl1 & Heq1 & Hsb1 & Hnew1).
    rewrite (bind_Ok _ _ _ _ _ E1).
    destruct (IH (S a) fd1 o1)
      as (fd' & o' & E' & Hwf' & Hfr' & Ho' & Hoth' & Hn' & Hlow' & Hc' & Hout' & Hp'
          & Hhi' & Hsb' & Hbl' & Hnew'); try done.
    { by eapply same_but_readers_trans. }
    { unfold numInput. rewrite Hin1, length_insert. exact Hn. }
    { lia. }
    exists fd', o'. split_and!; try done; try congruence.
    + intros x Hx. rewrite Hoth' by done. by apply Hfo1.
    + intros k Hk. rewrite Hlow' by lia. rewrite Hin1.
      apply list_lookup_insert_ne. lia.
    + intros k vn' Hk Hvk. destruct (decide (k = a)) as [->|Hne].
      * assert (vn' = vn) by congruence. subst vn'.
        exists (Some t). split.
        { rewrite Hlow' by lia. rewrite Hin1. apply list_lookup_insert_eq.
          by eapply lookup_lt_Some. }
        destruct (Hsb' _ _ Ht) as (tv' & Htv' & Etv).
        apply same_fields_props in Etv as (G1 & G2 & G3 & G4).
        exists t, tv', v0. split_and!; try done; try congruence.
        intros Hb. rewrite <- F3, <- F4 in Hb.
        replace (isConstant v && negb (hasNoDescend v) && negb (isSpacebase v)
                 && negb (bool_decide (cur = Some vn)))
          with false in Hdup; [done |].
        symmetry. destruct (isConstant v), (isSpacebase v); try done.
        cbn. by rewrite andb_false_r.
      * apply Hhi'; [lia | done].
    + by eapply same_but_readers_trans.
    + intros x xv' Hx Hnone. destruct (vbank fd1 !! x) as [xv1|] eqn:Hx1.
      * destruct (Hsb' _ _ Hx1) as (xv'' & Hx'' & E).
        assert (xv'' = xv') by congruence. subst xv''.
        apply same_fields in E as (_ & _ & _ & E). rewrite E. by eapply Hnew1.
      * by eapply Hnew'.
Qed.



(** The store once the op [op] of the block [bl] has been taken out of
    the block. *)
Lemma uninserted_wf fd op o bl b i :
  readers_wf fd → defs_wf fd → blocks_wf fd →
  obank fd !! op = Some o → getParent o = Some bl →
  bblocks fd !! bl = Some b → bl_op b !! i = Some op →
  let fd2 := set_bblocks
               (insert bl (mkBlockBasic (delete i (bl_op b)) (bl_intothis b)
                             (bl_outofthis b) (getStart b) (bl_isDead b)))
               (set_obank
                  (insert op (op_setParent None (op_setFlags {[PcodeOp_dead]} o))) fd) in
  readers_wf fd2 ∧ defs_wf fd2 ∧ blocks_wf fd2
  ∧ (∀ bl' b', bblocks fd2 !! bl' = Some b' → op ∉ bl_op b').
Proof.
  intros Hr Hd Hb Ho Hp Hbb Hli fd2. pose proof Hb as (Hb1 & Hb2).
  destruct (Hb1 _ _ Hbb) as (Hnd & Hown).
  assert (Hb2' : blocks_wf fd2).
  { split.
    - intros bl' b'. unfold fd2. store_simpl. intros Hb'.
      destruct (decide (bl' = bl)) as [->|Hne].
      + rewrite lookup_insert_eq in Hb'. injection Hb' as <-. store_simpl.
        split; [by apply NoDup_delete_at |].
        intros x [Hx Hxo]%(elem_of_delete_NoDup _ _ op); [| done | done].
        destruct (Hown _ Hx) as (ox & Hox & Hpx). exists ox.
        by rewrite lookup_insert_ne.
      + rewrite lookup_insert_ne in Hb' by done.
        destruct (Hb1 _ _ Hb') as (Hnd' & Hown'). split; [done |].
        intros x Hx. destruct (Hown' _ Hx) as (ox & Hox & Hpx). exists ox.
        rewrite lookup_insert_ne; [done |]. intros ->. congruence.
    - intros x ox bl'. unfold fd2. store_simpl. intros Hox Hpx.
      destruct (decide (x = op)) as [->|Hx].
      { rewrite lookup_insert_eq in Hox. injection Hox as <-. done. }
      rewrite lookup_insert_ne in Hox by done.
      destruct (Hb2 _ _ _ Hox Hpx) as (b' & Hb' & Hin').
      destruct (decide (bl' = bl)) as [->|Hne].
      + assert (b' = b) by congruence. subst b'. eexists.
        rewrite lookup_insert_eq. split; [done |]. store_simpl.
        by apply (elem_of_delete_NoDup _ _ op).
      + exists b'. by rewrite lookup_insert_ne. }
  split_and!; [| | done |].
  - eapply readers_wf_ext; [exact Hr | | done]. intros x. unfold fd2. store_simpl.
    destruct (decide (x = op)) as [->|]; [| by rewrite lookup_insert_ne].
    by rewrite lookup_insert_eq, Ho.
  - eapply defs_wf_ext; [exact Hd | | done]. intros x. unfold fd2. store_simpl.
    destruct (decide (x = op)) as [->|]; [| by rewrite lookup_insert_ne].
    by rewrite lookup_insert_eq, Ho.
  - intros bl' b' Hb' Hin'. destruct Hb2' as (Hb21 & _).
    destruct (Hb21 _ _ Hb') as (_ & Hown'). destruct (Hown' _ Hin') as (ox & Hox & Hpx).
    unfold fd2 in Hox. store_simpl. rewrite lookup_insert_eq in Hox. by simplify_eq.
Qed.

Lemma removal_run fd op o bl b i :
  obank fd !! op = Some o →
  bblocks fd !! bl = Some b → index_of op (bl_op b) 0 = Some i →
  (PcodeOpBank_markDead op ;; BlockBasic_removeOp bl op) fd
  = Ok tt (set_bblocks
             (insert bl (mkBlockBasic (delete i (bl_op b)) (bl_intothis b)
                           (bl_outofthis b) (getStart b) (bl_isDead b)))
             (set_obank
                (insert op (op_setParent None (op_setFlags {[PcodeOp_dead]} o))) fd)).
Proof.
  intros Ho Hb Hi. unfold PcodeOpBank_markDead, BlockBasic_removeOp.
  mrun. rewrite Hi. mrun. by rewrite set_obank_insert_insert.
Qed.

(** X17: in a consistent store, [Funcdata::opDestroy] of an op whose
    output, if it has one, is not an input Varnode succeeds: the output
    is destroyed and every read of it is null, and the op is left
    without output, with null inputs only, in no block; no Varnode names
    the op as reader or definer, and the store stays consistent. *)
Theorem opDestroy_detaches_and_destroys_output (fd : Funcdata) (op : nat)
    (o : PcodeOp) :
  readers_wf fd → defs_wf fd → blocks_wf fd →
  obank fd !! op = Some o →
  (∀ out ov, getOut o = Some out → vbank fd !! out = Some ov → isInput ov = false) →
  ∃ fd' o',
    opDestroy op fd = Ok tt fd'
    ∧ readers_wf fd' ∧ defs_wf fd' ∧ blocks_wf fd'
    ∧ obank fd' !! op = Some o'
    ∧ getOut o' = None ∧ inrefs o' = replicate (numInput o) None
    ∧ getParent o' = None ∧ code o' = code o
    ∧ (∀ out, getOut o = Some out →
         vbank fd' !! out = None
         ∧ ∀ x ox, obank fd' !! x = Some ox → Some out ∉ inrefs ox)
    ∧ (∀ x xv, vbank fd' !! x = Some xv → (op ∉ descend xv) ∧ getDef xv ≠ Some op)
    ∧ (∀ bl b, bblocks fd' !! bl = Some b → op ∉ bl_op b).
Proof.
  intros Hr Hd Hb Ho Hni.
  (* the output is destroyed *)
  assert (∃ fd1 o1,
    match getOut o with Some out => destroyVarnode out | None => ret tt end fd = Ok tt fd1
    ∧ readers_wf fd1 ∧ defs_wf fd1 ∧ blocks_wf fd1
    ∧ obank fd1 !! op = Some o1
    ∧ getOut o1 = None ∧ numInput o1 = numInput o
    ∧ getParent o1 = getParent o ∧ code o1 = code o
    ∧ (∀ x, inrefs <$> obank fd1 !! x
            = (λ ox, match getOut o with
                     | Some out => clear_ref out <$> inrefs ox
                     | None => inrefs ox
                     end) <$> obank fd !! x)
    ∧ (∀ out, getOut o = Some out → vbank fd1 !! out = None))
    as (fd1 & o1 & E1 & Hr1 & Hd1 & Hb1 & Ho1 & Hout1 & Hn1 & Hp1 & Hc1 & Hin1 & Hgone1).
  { destruct (getOut o) as [out|] eqn:Hout.
    - destruct Hd as (Hda & Hdb). destruct (Hda _ _ _ Ho Hout) as (ov & Hov & Hdo).
      destruct (destroyVarnode_keeps fd out ov Hr (conj Hda Hdb) Hov (Hni _ _ eq_refl Hov))
        as (fd1 & E1 & Hr1 & Hd1 & Hvb1 & Hob1 & _ & Hbl1).
      exists fd1, (without_refs out o). split_and!; try done.
      + eapply blocks_wf_ext; [exact Hb | | by rewrite Hbl1].
        intros x. rewrite Hob1. by destruct (obank fd !! x) as [[]|].
      + by rewrite Hob1, Ho.
      + unfold without_refs, clear_ref. store_simpl. by rewrite Hout, decide_True.
      + unfold numInput, without_refs. store_simpl. by rewrite length_fmap.
      + intros x. rewrite Hob1. by destruct (obank fd !! x) as [[]|].
      + intros ? [= <-]. rewrite Hvb1. apply lookup_delete_eq.
    - exists fd, o. split_and!; try done. }
  (* the inputs are unlinked *)
  destruct (unsetLinked_loop op (numInput o1) 0 fd1 o1 Hr1 Ho1 eq_refl)
    as (fd2 & E2 & Hr2 & Hob2 & Hsb2 & Hdom2 & Hbl2 & _).
  rewrite take_0, app_nil_l in Hob2.
  set (o2 := op_setInrefs (replicate (numInput o1) None) o1) in *.
  assert (Ho2 : obank fd2 !! op = Some o2) by (by rewrite Hob2, lookup_insert_eq).
  pose proof (same_but_readers_fmap _ _ Hsb2 Hdom2) as Hvf.
  assert (Hd2 : defs_wf fd2).
  { eapply defs_wf_ext; [exact Hd1 | | by apply same_but_readers_getDef].
    intros x. rewrite Hob2. destruct (decide (x = op)) as [->|]; [| by rewrite lookup_insert_ne].
    by rewrite lookup_insert_eq, Ho1. }
  assert (Hb2 : blocks_wf fd2).
  { eapply blocks_wf_ext; [exact Hb1 | | by rewrite Hbl2].
    intros x. rewrite Hob2. destruct (decide (x = op)) as [->|]; [| by rewrite lookup_insert_ne].
    by rewrite lookup_insert_eq, Ho1. }
  assert (Hf2 : getOut o2 = None ∧ inrefs o2 = replicate (numInput o) None
               ∧ getParent o2 = getParent o ∧ code o2 = code o).
  { unfold o2. store_simpl. by rewrite Hn1. }
  destruct Hf2 as (Hout2 & Hin2 & Hp2 & Hc2).
  assert (Hgone2 : ∀ out, getOut o = Some out →
            vbank fd2 !! out = None
            ∧ ∀ x ox, obank fd2 !! x = Some ox → Some out ∉ inrefs ox).
  { intros out Hout. split.
    - destruct (vbank fd2 !! out) eqn:Hv2; [| done].
      destruct (Hdom2 out) as [? Hx]; [by rewrite Hv2 |]. by rewrite Hgone1 in Hx.
    - intros x ox. rewrite Hob2. destruct (decide (x = op)) as [->|Hx].
      + rewrite lookup_insert_eq. intros [= <-]. rewrite Hin2.
        intros [? _]%elem_of_replicate. done.
      + rewrite lookup_insert_ne by done. intros Hox.
        pose proof (Hin1 x) as Hix. rewrite Hox, Hout in Hix. cbn in Hix.
        destruct (obank fd !! x) as [ox0|]; [| done]. cbn in Hix.
        injection Hix as ->. apply clear_ref_not_elem. }
  assert (Hnone : ∀ fd' o', readers_wf fd' → defs_wf fd' →
            obank fd' !! op = Some o' → getOut o' = None →
            inrefs o' = replicate (numInput o) None →
            ∀ x xv, vbank fd' !! x = Some xv → (op ∉ descend xv) ∧ getDef xv ≠ Some op).
  { intros fd' o' (Hc' & _) (_ & Hd2') Ho' Hout' Hin' x xv Hx. split.
    - apply count_in_zero. rewrite (Hc' _ _ _ _ Ho' Hx). unfold reads. rewrite Hin'.
      apply count_in_zero. intros [? _]%elem_of_replicate. done.
    - intros Hdx. destruct (Hd2' _ _ _ Hx Hdx) as (o'' & Ho'' & Hout''). congruence. }
  assert (Hrun : opDestroy op fd
                 = match getParent o with
                   | Some bl => (PcodeOpBank_markDead op ;; BlockBasic_removeOp bl op) fd2
                   | None => Ok tt fd2
                   end).
  { unfold opDestroy.
    rewrite (bind_Ok _ _ _ _ _ (getOp_Ok _ _ _ Ho)), (bind_Ok _ _ _ _ _ E1).
    rewrite (bind_Ok _ _ _ _ _ (getOp_Ok _ _ _ Ho1)), (bind_Ok _ _ _ _ _ E2).
    rewrite (bind_Ok _ _ _ _ _ (getOp_Ok _ _ _ Ho2)), Hp2. by destruct (getParent o). }
  rewrite Hrun.
  destruct (getParent o) as [bl|] eqn:Hp.
  - pose proof Hb2 as (Hb21 & Hb22).
    destruct (Hb22 op o2 bl Ho2) as (b & Hbb & Hinb); [congruence |].
    destruct (index_of_elem op (bl_op b) 0 Hinb) as (i & Hi & Hli). cbn in Hi.
    rewrite (removal_run fd2 op o2 bl b i Ho2 Hbb Hi).
    destruct (uninserted_wf fd2 op o2 bl b i Hr2 Hd2 Hb2 Ho2 ltac:(congruence) Hbb Hli)
      as (Hr3 & Hd3 & Hb3 & Hnob).
    eexists _, (op_setParent None (op_setFlags {[PcodeOp_dead]} o2)).
    split; [reflexivity |]. split_and!; try done.
    + store_simpl. by rewrite lookup_insert_eq.
    + intros out Hout. destruct (Hgone2 _ Hout) as (Hg & Hno). split; [done |].
      intros x ox. store_simpl. destruct (decide (x = op)) as [->|Hx].
      * rewrite lookup_insert_eq. intros [= <-]. store_simpl. by eapply Hno.
      * rewrite lookup_insert_ne by done. apply Hno.
    + apply (Hnone _ (op_setParent None (op_setFlags {[PcodeOp_dead]} o2)) Hr3 Hd3);
        [store_simpl; by rewrite lookup_insert_eq | done | done].
  - exists fd2, o2. split_and!; try done.
    + by apply (Hnone fd2 o2).
    + intros bl' b' Hb' Hin'. destruct Hb2 as (Hb21 & _).
      destruct (Hb21 _ _ Hb') as (_ & Hown'). destruct (Hown' _ Hin') as (ox & Hox & Hpx).
      congruence.
Qed.

Lemma opDestroy_detaches_and_destroys_output_witness :
  ∃ fd' o',
    opDestroy 0 ex_diamond = Ok tt fd'
    ∧ readers_wf fd' ∧ defs_wf fd' ∧ blocks_wf fd'
    ∧ obank fd' !! 0%nat = Some o'
    ∧ getOut o' = None ∧ inrefs o' = [None] ∧ getParent o' = None
    ∧ vbank fd' !! 0%nat = None.
Proof.
  destruct (opDestroy_detaches_and_destroys_output ex_diamond 0
              (liveop CPUI_COPY (Some 0%nat) [Some 3%nat] 0 0))
    as (fd' & o' & E & Hr & Hd & Hb & Ho & Hout & Hin & Hp & _ & Hgone & _);
    [apply ex_diamond_readers_wf | apply ex_diamond_defs_wf | apply ex_diamond_blocks_wf
    | reflexivity | |].
  - by intros out ov [= <-] [= <-].
  - destruct (Hgone 0%nat eq_refl) as (Hg & _). by exists fd', o'.
Defined.

(** * Inserting an op before or after another *)

Lemma index_of_lookup op l : ∀ i k,
  index_of op l i = Some k → (i ≤ k)%nat ∧ l !! (k - i)%nat = Some op.
Proof.
  induction l as [|x l IH]; intros i k; cbn [index_of]; [done |].
  destruct (decide (x = op)) as [->|Hne].
  - intros [= <-]. split; [lia |]. by rewrite Nat.sub_diag.
  - intros H. destruct (IH _ _ H) as (Hle & Hl). split; [lia |].
    replace (k - i)%nat with (S (k - S i)) by lia. done.
Qed.

(** The ops counted by the backward loop of [opInsertBefore]. *)
Lemma before_position_spec p cs iter :
  (iter ≤ length cs)%nat →
  let n := count_prefix p (reverse (take iter cs)) in
  (n ≤ iter)%nat
  ∧ (∀ j c, (iter - n ≤ j < iter)%nat → cs !! j = Some c → p c = true)
  ∧ (∀ c, (0 < iter - n)%nat → cs !! (iter - n - 1)%nat = Some c → p c = false).
Proof.
  intros Hi n.
  assert (Hlen : length (reverse (take iter cs)) = iter).
  { rewrite length_reverse, length_take. lia. }
  assert (Hn : (n ≤ iter)%nat).
  { pose proof (count_prefix_le p (reverse (take iter cs))) as H. fold n in H. lia. }
  split; [done |]. split.
  - intros j c Hj Hc. apply (count_prefix_lt p (reverse (take iter cs)) (iter - S j)).
    + fold n. lia.
    + rewrite reverse_lookup by (rewrite length_take; lia).
      rewrite length_take, Nat.min_l by lia.
      replace (iter - S (iter - S j))%nat with j by lia.
      by rewrite lookup_take_lt by lia.
  - intros c Hpos Hc. apply (count_prefix_at p (reverse (take iter cs))). fold n.
    rewrite reverse_lookup by (rewrite length_take; lia).
    rewrite length_take, Nat.min_l by lia.
    replace (iter - S n)%nat with (iter - n - 1)%nat by lia.
    by rewrite lookup_take_lt by lia.
Qed.

(** X18: [Funcdata::opInsertBefore] puts the op into the block of [follow]
    above [follow] and above the INDIRECTs that directly precede it (an
    INDIRECT directly above [follow]): in the op list only INDIRECTs stand
    between the op and [follow]. It does not look at MULTIEQUALs or
    branches: the ordering invariant of the block is kept when neither
    the op nor [follow] is a MULTIEQUAL and the op is not a branch. *)
Theorem opInsertBefore_places_above_indirects (fd : Funcdata) (follow : nat)
    (f : PcodeOp) (bl : nat) (b : BlockBasic) (cs : list OpCode) (iter : nat)
    (op : nat) (o : PcodeOp) :
  obank fd !! follow = Some f → getParent f = Some bl →
  bblocks fd !! bl = Some b → index_of follow (bl_op b) 0 = Some iter →
  block_codes fd b cs → multiequal_first cs → branch_last cs →
  obank fd !! op = Some o →
  code o ≠ CPUI_MULTIEQUAL → code f ≠ CPUI_MULTIEQUAL →
  opc_isFlowBreak (code o) = false →
  ∃ fd' b' k,
    opInsertBefore op follow fd = Ok tt fd'
    ∧ block_ordered fd' bl
    ∧ bblocks fd' !! bl = Some b'
    ∧ bl_op b' = take k (bl_op b) ++ op :: drop k (bl_op b)
    ∧ (k ≤ iter)%nat
    ∧ (code o = CPUI_INDIRECT → k = iter)
    ∧ (∀ j c, (k ≤ j < iter)%nat → cs !! j = Some c → c = CPUI_INDIRECT)
    ∧ (code o ≠ CPUI_INDIRECT →
       ∀ c, (0 < k)%nat → cs !! (k - 1)%nat = Some c → c ≠ CPUI_INDIRECT).
Proof.
  intros Hf Hp Hb Hi Hc Hm Hl Ho Hnm Hfm Hfb.
  pose proof (Forall2_length _ _ _ Hc) as Hlen.
  destruct (index_of_lookup _ _ _ _ Hi) as (_ & Hfi). rewrite Nat.sub_0_r in Hfi.
  assert (Hit : (iter < length cs)%nat) by (rewrite <- Hlen; by eapply lookup_lt_Some).
  assert (Hcf : cs !! iter = Some (code f)).
  { destruct (Forall2_lookup_l _ _ _ _ _ Hc Hfi) as (c & Hci & of' & Hof & <-).
    congruence. }
  destruct (before_position_spec (is_code CPUI_INDIRECT) cs iter ltac:(lia))
    as (Hn & Hind & Habove).
  set (n := count_prefix (is_code CPUI_INDIRECT) (reverse (take iter cs))) in *.
  set (k := if decide (code o ≠ CPUI_INDIRECT) then (iter - n)%nat else iter).
  assert (Hk : (k ≤ iter)%nat) by (unfold k; case_decide; lia).
  assert (E : opInsertBefore op follow fd = Ok tt (fd_inserted fd op o bl b k)).
  { unfold k. destruct (decide (code o ≠ CPUI_INDIRECT)) as [Hni|Hind'].
    - by apply (opInsertBefore_run _ _ f _ _ cs).
    - unfold opInsertBefore.
      rewrite (bind_Ok _ _ _ _ _ (getBasicIter_run _ _ _ _ _ _ Hf Hp Hb Hi)).
      rewrite (bind_Ok _ _ _ _ _ (getBlock_Ok _ _ _ Hb)).
      rewrite (bind_Ok _ _ _ _ _ (getOp_Ok _ _ _ Ho)).
      rewrite decide_False by done. rewrite bind_ret_l.
      by rewrite (opInsert_run _ _ _ _ _ _ Ho Hb). }
  assert (Hbetween : ∀ j c, (k ≤ j < iter)%nat → cs !! j = Some c → c = CPUI_INDIRECT).
  { intros j c Hj Hcj. unfold k in Hj. case_decide; [| lia].
    pose proof (Hind j c Hj Hcj) as Hp'. unfold is_code in Hp'.
    by apply bool_decide_eq_true in Hp'. }
  eexists _, _, k. split; [exact E |]. unfold fd_inserted.
  split_and!; try done.
  - eexists _, (list_insert_at k (code o) cs). split_and!.
    + store_simpl. by rewrite lookup_insert_eq.
    + by apply block_codes_insert.
    + apply multiequal_first_insert; [lia | done | | done].
      intros j cj Hj Hcj ->. destruct (decide (j < iter)%nat).
      * by pose proof (Hbetween j _ ltac:(lia) Hcj).
      * destruct (decide (j = iter)) as [->|]; [congruence |].
        apply Hfm. by apply (Hm iter j (code f) ltac:(lia)).
    + apply branch_last_insert; [lia | done | | done].
      intros i c' Hik Hci. destruct (opc_isFlowBreak c') eqn:Hfl; [| done].
      pose proof (Hl _ _ Hci Hfl). lia.
  - store_simpl. by rewrite lookup_insert_eq.
  - reflexivity.
  - unfold k. intros Hio. by rewrite decide_False by (by intros []).
  - intros Hni c Hpos Hck. unfold k in *. rewrite decide_True in * by done.
    intros ->. pose proof (Habove _ Hpos Hck) as Hq. unfold is_code in Hq.
    by apply bool_decide_eq_false in Hq.
Qed.

(** X19: [Funcdata::opInsertAfter], for an op that is not a MULTIEQUAL
    and a [prev] that is not an INDIRECT, puts the op into the block of
    [prev] below [prev] and below the MULTIEQUALs that directly follow
    it: only MULTIEQUALs stand between [prev] and the op, and the op that
    comes next is not a MULTIEQUAL. It does not look at branches: the
    ordering invariant of the block is kept when neither the op nor
    [prev] is a branch. *)
Theorem opInsertAfter_places_below_multiequals (fd : Funcdata) (prev : nat)
    (p : PcodeOp) (bl : nat) (b : BlockBasic) (cs : list OpCode) (iter : nat)
    (op : nat) (o : PcodeOp) :
  obank fd !! prev = Some p → code p ≠ CPUI_INDIRECT → getParent p = Some bl →
  bblocks fd !! bl = Some b → index_of prev (bl_op b) 0 = Some iter →
  block_codes fd b cs → multiequal_first cs → branch_last cs →
  obank fd !! op = Some o →
  code o ≠ CPUI_MULTIEQUAL →
  opc_isFlowBreak (code o) = false → opc_isFlowBreak (code p) = false →
  ∃ fd' b' k,
    opInsertAfter op prev fd = Ok tt fd'
    ∧ block_ordered fd' bl
    ∧ bblocks fd' !! bl = Some b'
    ∧ bl_op b' = take k (bl_op b) ++ op :: drop k (bl_op b)
    ∧ (iter < k ≤ length (bl_op b))%nat
    ∧ (∀ j c, (iter < j < k)%nat → cs !! j = Some c → c = CPUI_MULTIEQUAL)
    ∧ (∀ c, cs !! k = Some c → c ≠ CPUI_MULTIEQUAL).
Proof.
  intros Hpv Hnind Hp Hb Hi Hc Hm Hl Ho Hnm Hfb Hpfb.
  pose proof (Forall2_length _ _ _ Hc) as Hlen.
  destruct (index_of_lookup _ _ _ _ Hi) as (_ & Hfi). rewrite Nat.sub_0_r in Hfi.
  assert (Hit : (iter < length cs)%nat) by (rewrite <- Hlen; by eapply lookup_lt_Some).
  assert (Hcp : cs !! iter = Some (code p)).
  { destruct (Forall2_lookup_l _ _ _ _ _ Hc Hfi) as (c & Hci & of' & Hof & <-).
    congruence. }
  set (n := count_prefix (is_code CPUI_MULTIEQUAL) (drop (S iter) cs)).
  assert (Hn : (S iter + n ≤ length cs)%nat).
  { pose proof (count_prefix_le (is_code CPUI_MULTIEQUAL) (drop (S iter) cs)) as H.
    fold n in H. rewrite length_drop in H. lia. }
  assert (Hbetween : ∀ j c, (iter < j < S iter + n)%nat → cs !! j = Some c →
                            c = CPUI_MULTIEQUAL).
  { intros j c Hj Hcj.
    pose proof (count_prefix_lt (is_code CPUI_MULTIEQUAL) (drop (S iter) cs)
                  (j - S iter) c) as H.
    fold n in H. rewrite lookup_drop in H.
    replace (S iter + (j - S iter))%nat with j in H by lia.
    specialize (H ltac:(lia) Hcj). unfold is_code in H.
    by apply bool_decide_eq_true in H. }
  assert (Hnext : ∀ c, cs !! (S iter + n)%nat = Some c → c ≠ CPUI_MULTIEQUAL).
  { intros c Hck ->.
    pose proof (count_prefix_at (is_code CPUI_MULTIEQUAL) (drop (S iter) cs)
                  CPUI_MULTIEQUAL) as H.
    fold n in H. rewrite lookup_drop in H. specialize (H Hck).
    unfold is_code in H. by apply bool_decide_eq_false in H. }
  exists (fd_inserted fd op o bl b (after_position cs iter)).
  eexists _, (S iter + n)%nat.
  split; [by apply (opInsertAfter_run _ _ p _ _ cs) |].
  unfold after_position, fd_inserted. fold n.
  split_and!; try done.
  - eexists _, (list_insert_at (S iter + n) (code o) cs). split_and!.
    + store_simpl. by rewrite lookup_insert_eq.
    + by apply block_codes_insert.
    + apply multiequal_first_insert; [lia | done | | done].
      intros j cj Hj Hcj ->.
      destruct (decide (j = S iter + n)%nat) as [->|]; [by eapply Hnext |].
      destruct (lookup_lt_is_Some_2 cs (S iter + n)) as [c Hck].
      { apply lookup_lt_Some in Hcj. lia. }
      apply (Hnext _ Hck). by apply (Hm (S iter + n)%nat j c ltac:(lia)).
    + apply branch_last_insert; [lia | done | | done].
      intros i c' Hik Hci. destruct (opc_isFlowBreak c') eqn:Hfl; [| done].
      destruct (decide (i = iter)) as [->|]; [congruence |].
      destruct (decide (i < iter)%nat).
      * pose proof (Hl _ _ Hci Hfl). lia.
      * by rewrite (Hbetween i c' ltac:(lia) Hci) in Hfl.
  - store_simpl. by rewrite lookup_insert_eq.
  - reflexivity.
  - lia.
  - lia.
Qed.

(** The codes of block 3 of the diamond, which a new (dead) COPY, op 4,
    is inserted into. *)
Lemma ex_diamond_block3 :
  let fd := fd_new_op ex_diamond 0 (ram 0x130) in
  let b := mkBlockBasic [1%nat; 2%nat; 3%nat] [1%nat; 2%nat] [] (ram 0x130) false in
  let cs := [CPUI_MULTIEQUAL; CPUI_INDIRECT; CPUI_CALL] in
  bblocks fd !! 3%nat = Some b ∧ block_codes fd b cs
  ∧ multiequal_first cs ∧ branch_last cs.
Proof.
  cbn zeta. split_and!.
  - reflexivity.
  - repeat constructor; eexists; (split; [vm_compute; reflexivity | done]).
  - intros [|[|[|i]]] [|[|[|j]]] ci Hij; try lia; try done.
  - intros [|[|[|i]]] c; try done; by intros [= <-].
Qed.

Lemma opInsertBefore_places_above_indirects_witness :
  ∃ fd' b',
    opInsertBefore 4 3 (fd_new_op ex_diamond 0 (ram 0x130)) = Ok tt fd'
    ∧ block_ordered fd' 3
    ∧ bblocks fd' !! 3%nat = Some b'
    ∧ bl_op b' = [1%nat; 4%nat; 2%nat; 3%nat].
Proof.
  destruct ex_diamond_block3 as (Hb & Hc & Hm & Hl).
  destruct (opInsertBefore_places_above_indirects
              (fd_new_op ex_diamond 0 (ram 0x130)) 3
              (liveop CPUI_CALL None [Some 6%nat] 3 3) 3 _ _ 2 4
              (mkPcodeOp CPUI_COPY {[PcodeOp_dead]} None [] None
                 (mkSeqNum (ram 0x130) 4 0))
              eq_refl eq_refl Hb eq_refl Hc Hm Hl eq_refl
              ltac:(done) ltac:(done) eq_refl)
    as (fd' & b' & k & E & Hord & Hb' & Hops & Hk & _ & Hbetween & Habove).
  exists fd', b'. split_and!; try done.
  assert (k = 1%nat) as ->.
  { destruct k as [|[|[|k]]]; [| done | | lia].
    - by specialize (Hbetween 0%nat CPUI_MULTIEQUAL ltac:(lia) eq_refl).
    - by specialize (Habove ltac:(done) CPUI_INDIRECT ltac:(lia) eq_refl). }
  exact Hops.
Defined.

Lemma opInsertAfter_places_below_multiequals_witness :
  ∃ fd' b',
    opInsertAfter 4 1 (fd_new_op ex_diamond 0 (ram 0x130)) = Ok tt fd'
    ∧ block_ordered fd' 3
    ∧ bblocks fd' !! 3%nat = Some b'
    ∧ bl_op b' = [1%nat; 4%nat; 2%nat; 3%nat].
Proof.
  destruct ex_diamond_block3 as (Hb & Hc & Hm & Hl).
  destruct (opInsertAfter_places_below_multiequals
              (fd_new_op ex_diamond 0 (ram 0x130)) 1
              (liveop CPUI_MULTIEQUAL (Some 2%nat) [Some 0%nat; Some 1%nat] 3 1)
              3 _ _ 0 4
              (mkPcodeOp CPUI_COPY {[PcodeOp_dead]} None [] None
                 (mkSeqNum (ram 0x130) 4 0))
              eq_refl ltac:(done) eq_refl Hb eq_refl Hc Hm Hl eq_refl
              ltac:(done) eq_refl eq_refl)
    as (fd' & b' & k & E & Hord & Hb' & Hops & Hk & Hbetween & Hnext).
  exists fd', b'. split_and!; try done.
  assert (k = 1%nat) as ->.
  { destruct k as [|[|[|[|k]]]]; [lia | done | | | cbn in Hk; lia].
    - by specialize (Hbetween 1%nat CPUI_INDIRECT ltac:(lia) eq_refl).
    - by specialize (Hbetween 1%nat CPUI_INDIRECT ltac:(lia) eq_refl). }
  exact Hops.
Defined.

(** * The earliest read of a Varnode in a block *)

Lemma earliestUseInBlock_loop fd bl : ∀ l seen res,
  (∀ op, op ∈ l → is_Some (obank fd !! op)) →
  earliest_in fd bl seen res →
  ∃ res',
    foldM (fun res op =>
      o <- getOp op ;;
      if decide (getParent o ≠ Some bl) then ret res
      else
        match res with
        | None => ret (Some op)
        | Some r =>
            ro <- getOp r ;;
            if (getOrder (getSeqNum o) <? getOrder (getSeqNum ro))%nat
            then ret (Some op)
            else ret res
        end) l res fd = Ok res' fd
    ∧ earliest_in fd bl (seen ++ l) res'.
Proof.
  induction l as [|op l IH]; intros seen res Hdom Hres; cbn [foldM].
  - exists res. by rewrite app_nil_r.
  - destruct (Hdom op) as [o Ho]; [by left |].
    rewrite bind_assoc, (bind_Ok _ _ _ _ _ (getOp_Ok _ _ _ Ho)).
    assert (Hdom' : ∀ x, x ∈ l → is_Some (obank fd !! x)).
    { intros x Hx. apply Hdom. by right. }
    replace (seen ++ op :: l) with ((seen ++ [op]) ++ l) by (by rewrite <- app_assoc).
    destruct (decide (getParent o ≠ Some bl)) as [Hp|Hp].
    + rewrite bind_ret_l. apply IH; [done |].
      destruct res as [r|]; cbn in *.
      * destruct Hres as (ro & Hr & Hro & Hpr & Hmin). exists ro.
        split_and!; try done; [apply elem_of_app; by left |].
        intros x ox [Hx | ->%list_elem_of_singleton]%elem_of_app Hox Hpx;
          [by eapply Hmin | congruence].
      * intros x ox [Hx | ->%list_elem_of_singleton]%elem_of_app Hox;
          [by eapply Hres | congruence].
    + apply dec_stable in Hp. destruct res as [r|]; cbn in Hres.
      * destruct Hres as (ro & Hr & Hro & Hpr & Hmin).
        rewrite bind_assoc, (bind_Ok _ _ _ _ _ (getOp_Ok _ _ _ Hro)).
        destruct (getOrder (getSeqNum o) <? getOrder (getSeqNum ro))%nat eqn:Hlt.
        -- rewrite bind_ret_l. apply Nat.ltb_lt in Hlt. apply IH; [done |].
           exists o. split_and!; try done; [apply elem_of_app; right; by left |].
           intros x ox [Hx | ->%list_elem_of_singleton]%elem_of_app Hox Hpx.
           ++ pose proof (Hmin _ _ Hx Hox Hpx). lia.
           ++ assert (ox = o) by congruence. subst ox. lia.
        -- rewrite bind_ret_l. apply Nat.ltb_ge in Hlt. apply IH; [done |].
           exists ro. split_and!; try done; [apply elem_of_app; by left |].
           intros x ox [Hx | ->%list_elem_of_singleton]%elem_of_app Hox Hpx.
           ++ by eapply Hmin.
           ++ assert (ox = o) by congruence. by subst ox.
      * rewrite bind_ret_l. apply IH; [done |].
        exists o. split_and!; try done; [apply elem_of_app; right; by left |].
        intros x ox [Hx | ->%list_elem_of_singleton]%elem_of_app Hox Hpx.
        -- exfalso. by eapply Hres.
        -- assert (ox = o) by congruence. by subst ox.
Qed.

(** X20: [earliestUseInBlock] leaves the store alone and returns a reader
    of the Varnode that stands in the given block and that no reader in
    the block precedes in the order of the block; it returns null exactly
    when no reader of the Varnode stands in the block. *)
Theorem earliestUseInBlock_finds_first_reader (fd : Funcdata) (vn : nat)
    (v : Varnode) (bl : nat) :
  vbank fd !! vn = Some v →
  (∀ op, op ∈ descend v → is_Some (obank fd !! op)) →
  ∃ res,
    earliestUseInBlock vn bl fd = Ok res fd
    ∧ earliest_in fd bl (descend v) res.
Proof.
  intros Hv Hdom. unfold earliestUseInBlock.
  rewrite (bind_Ok _ _ _ _ _ (getVn_Ok _ _ _ Hv)).
  destruct (earliestUseInBlock_loop fd bl (descend v) [] None Hdom) as (res & E & Hres).
  { intros op o Hop. by apply elem_of_nil in Hop. }
  by exists res.
Qed.

Lemma earliestUseInBlock_finds_first_reader_witness :
  earliestUseInBlock 0 3 ex_diamond = Ok (Some 1%nat) ex_diamond
  ∧ earliestUseInBlock 0 1 ex_diamond = Ok None ex_diamond.
Proof.
  split.
  - destruct (earliestUseInBlock_finds_first_reader ex_diamond 0
                (vnode 4 (reg 0) (Some 0%nat) [1%nat; 2%nat]) 3 eq_refl)
      as (res & E & Hres).
    { intros op Hop. unfold ex_diamond. rewrite mkStore_obank.
      apply lookup_lt_is_Some_2.
      repeat (apply elem_of_cons in Hop as [-> | Hop]; [cbn; lia |]).
      by apply elem_of_nil in Hop. }
    rewrite E. f_equal. vm_compute in E. by injection E as <-.
  - destruct (earliestUseInBlock_finds_first_reader ex_diamond 0
                (vnode 4 (reg 0) (Some 0%nat) [1%nat; 2%nat]) 1 eq_refl)
      as (res & E & Hres).
    { intros op Hop. unfold ex_diamond. rewrite mkStore_obank.
      apply lookup_lt_is_Some_2.
      repeat (apply elem_of_cons in Hop as [-> | Hop]; [cbn; lia |]).
      by apply elem_of_nil in Hop. }
    rewrite E. f_equal. vm_compute in E. by injection E as <-.
Defined.

(** * Freeing the Varnodes that nothing refers to *)

Lemma clearDeadVarnodes_step_run fd x v :
  vbank fd !! x = Some v →
  clearDeadVarnodes_step x fd
  = Ok tt (if is_dead v then set_vbank (delete x) fd else fd).
Proof.
  intros Hv. unfold clearDeadVarnodes_step, is_dead.
  rewrite (bind_Ok _ _ _ _ _ (getVn_Ok _ _ _ Hv)).
  destruct (hasNoDescend v) eqn:Hnd; cbn [andb]; [| done].
  destruct (isInput v && negb (isMark v) && (isSpacebase v || negb (isTypeLock v)))
    eqn:Hcond.
  - rewrite orb_true_r.
    apply andb_prop in Hcond as [Hc1 Hc2]. rewrite Hc1, Hc2. unfold when.
    set (v2 := vn_setCover false
                 (vn_clearFlags {[Varnode_input; Varnode_indirect_creation]}
                    (vn_setDef None v))).
    assert (E1 : (VarnodeBank_makeFree x ;; Varnode_clearCover x) fd
                 = Ok tt (set_vbank (insert x v2) fd)).
    { unfold VarnodeBank_makeFree, Varnode_clearCover. mrun.
      by rewrite set_vbank_insert_insert. }
    assert (Hv2 : vbank (set_vbank (insert x v2) fd) !! x = Some v2).
    { store_simpl. by rewrite lookup_insert_eq. }
    assert (Hf2 : isFree v2 = true) by apply (isFree_makeFree v).
    rewrite (bind_Ok _ _ _ _ _ E1), (bind_Ok _ _ _ _ _ (getVn_Ok _ _ _ Hv2)), Hf2.
    unfold VarnodeBank_destroy.
    rewrite (bind_Ok _ _ _ _ _ (getVn_Ok _ _ _ Hv2)), Hf2.
    replace (hasNoDescend v2) with true by done. cbn [andb].
    unfold modify. f_equal. destruct fd. unfold set_vbank. store_simpl. f_equal.
    by rewrite delete_insert_eq.
  - rewrite orb_false_r.
    assert (E : when (isInput v && negb (isMark v))
                  (when (isSpacebase v || negb (isTypeLock v))
                     (VarnodeBank_makeFree x ;; Varnode_clearCover x)) fd = Ok tt fd).
    { unfold when. destruct (isInput v && negb (isMark v)); [| done].
      cbn in Hcond. by rewrite Hcond. }
    rewrite (bind_Ok _ _ _ _ _ E), (bind_Ok _ _ _ _ _ (getVn_Ok _ _ _ Hv)).
    destruct (isFree v) eqn:Hfree; [| done]. unfold when, VarnodeBank_destroy.
    rewrite (bind_Ok _ _ _ _ _ (getVn_Ok _ _ _ Hv)), Hfree, Hnd. done.
Qed.

Lemma clearDeadVarnodes_loop : ∀ l fd,
  NoDup l → (∀ x, x ∈ l → is_Some (vbank fd !! x)) →
  ∃ fd',
    forM_ l clearDeadVarnodes_step fd = Ok tt fd'
    ∧ (∀ x, vbank fd' !! x
            = if decide (x ∈ l)
              then v ← vbank fd !! x; if is_dead v then None else Some v
              else vbank fd !! x)
    ∧ obank fd' = obank fd ∧ bblocks fd' = bblocks fd.
Proof.
  unfold forM_. induction l as [|y l IH]; intros fd Hnd Hdom; cbn [foldM].
  - exists fd. by split_and!.
  - apply NoDup_cons in Hnd as [Hy Hnd].
    destruct (Hdom y) as [v Hv]; [by left |].
    rewrite (bind_Ok _ _ _ _ _ (clearDeadVarnodes_step_run _ _ _ Hv)).
    set (fd1 := if is_dead v then set_vbank (delete y) fd else fd).
    assert (Hoth : ∀ x, x ≠ y → vbank fd1 !! x = vbank fd !! x).
    { intros x Hx. unfold fd1. destruct (is_dead v); [| done]. store_simpl.
      by rewrite lookup_delete_ne. }
    destruct (IH fd1 Hnd) as (fd' & E & Hvb & Hob & Hbl).
    { intros x Hx. rewrite Hoth by (by intros ->). apply Hdom. by right. }
    exists fd'. split; [exact E |]. split_and!.
    + intros x. rewrite Hvb. destruct (decide (x = y)) as [->|Hne].
      * rewrite decide_False by done. rewrite decide_True by (by left).
        rewrite Hv. cbn. unfold fd1. destruct (is_dead v); [| done].
        store_simpl. apply lookup_delete_eq.
      * rewrite Hoth by done. destruct (decide (x ∈ l)).
        -- rewrite decide_True by (by right). done.
        -- rewrite decide_False; [done |]. by apply not_elem_of_cons.
    + rewrite Hob. unfold fd1. by destruct (is_dead v).
    + rewrite Hbl. unfold fd1. by destruct (is_dead v).
Qed.

(** X21: [Funcdata::clearDeadVarnodes] always succeeds and takes out of
    the bank exactly the Varnodes without readers that are free, or are
    inputs that are neither marked nor type-locked (or are spacebases);
    every other Varnode, every op and every block is left as it was. No
    op refers to a Varnode it removes: exact reader lists stay exact, and
    consistent definers stay consistent when no input Varnode has a
    definer. *)
Theorem clearDeadVarnodes_removes_unreferenced (fd : Funcdata) :
  ∃ fd',
    clearDeadVarnodes fd = Ok tt fd'
    ∧ (∀ x, vbank fd' !! x
            = v ← vbank fd !! x; if is_dead v then None else Some v)
    ∧ obank fd' = obank fd ∧ bblocks fd' = bblocks fd
    ∧ (readers_wf fd → readers_wf fd')
    ∧ (defs_wf fd →
       (∀ x v, vbank fd !! x = Some v → isInput v = true → getDef v = None) →
       defs_wf fd').
Proof.
  destruct (clearDeadVarnodes_loop (map fst (map_to_list (vbank fd))) fd)
    as (fd' & E & Hvb & Hob & Hbl).
  { apply NoDup_fst_map_to_list. }
  { intros x (kv & -> & Hkv)%list_elem_of_fmap. destruct kv as [k v].
    apply elem_of_map_to_list in Hkv. by exists v. }
  assert (Hvb' : ∀ x, vbank fd' !! x
                      = v ← vbank fd !! x; if is_dead v then None else Some v).
  { intros x. rewrite Hvb. destruct (decide (x ∈ map fst (map_to_list (vbank fd))))
      as [|Hn]; [done |].
    destruct (vbank fd !! x) as [v|] eqn:Hx; [| done]. exfalso. apply Hn.
    apply list_elem_of_fmap. exists (x, v). split; [done |].
    by apply elem_of_map_to_list. }
  assert (Hkeep : ∀ x v', vbank fd' !! x = Some v' →
            vbank fd !! x = Some v' ∧ is_dead v' = false).
  { intros x v' Hx. rewrite Hvb' in Hx. destruct (vbank fd !! x) as [v|]; [| done].
    cbn in Hx. destruct (is_dead v) eqn:Hd; [done |]. by injection Hx as ->. }
  exists fd'. split_and!; try done.
  - intros (Hc & Hvs & Hos). split_and!.
    + intros op o x xv Ho Hx. rewrite Hob in Ho. destruct (Hkeep _ _ Hx) as [Hx0 _].
      by eapply Hc.
    + intros op o sl x Ho Hs. rewrite Hob in Ho.
      destruct (Hvs _ _ _ _ Ho Hs) as [v Hv]. rewrite Hvb', Hv. cbn.
      destruct (is_dead v) eqn:Hd; [| by eexists]. exfalso.
      unfold is_dead in Hd. apply andb_prop in Hd as [Hnd _].
      assert (Hin : Some x ∈ inrefs o) by (by eapply list_elem_of_lookup_2).
      apply count_in_pos in Hin. fold (reads o x) in Hin.
      rewrite <- (Hc _ _ _ _ Ho Hv) in Hin.
      unfold hasNoDescend in Hnd. destruct (descend v); [| done].
      rewrite count_in_nil in Hin. lia.
    + intros x xv op Hx Hop. rewrite Hob. destruct (Hkeep _ _ Hx) as [Hx0 _].
      by eapply Hos.
  - intros (Hd1 & Hd2) Hinp. split.
    + intros op o x Ho Hout. rewrite Hob in Ho.
      destruct (Hd1 _ _ _ Ho Hout) as (v & Hv & Hdv). exists v. split; [| done].
      rewrite Hvb', Hv. cbn. destruct (is_dead v) eqn:Hd; [| done]. exfalso.
      unfold is_dead in Hd. apply andb_prop in Hd as [_ [Hf | Hi]%orb_prop].
      * unfold isFree, isWritten in Hf. apply andb_prop in Hf as [Hw _].
        apply negb_true_iff, bool_decide_eq_false in Hw. apply Hw. by eexists.
      * apply andb_prop in Hi as [[Hi _]%andb_prop _].
        rewrite (Hinp _ _ Hv Hi) in Hdv. done.
    + intros x xv op Hx Hdx. rewrite Hob. destruct (Hkeep _ _ Hx) as [Hx0 _].
      by eapply Hd2.
Qed.

(** * A new op in front of another *)

(** ** The invariants under the steps of the factory *)

Lemma defs_wf_grow fd fd' :
  defs_wf fd →
  (∀ op, getOut <$> obank fd' !! op = getOut <$> obank fd !! op) →
  same_but_readers fd fd' →
  (∀ x xv', vbank fd' !! x = Some xv' → vbank fd !! x = None → getDef xv' = None) →
  defs_wf fd'.
Proof.
  intros (H1 & H2) Eo Hsb Hnew. split.
  - intros op o' vn Ho' Hout.
    destruct (fmap_lookup_eq _ _ _ _ (Eo op) Ho') as (o & Ho & Ei).
    rewrite <- Ei in Hout. destruct (H1 _ _ _ Ho Hout) as (v & Hv & Hd).
    destruct (Hsb _ _ Hv) as (v' & Hv' & E). exists v'. split; [done |].
    apply same_fields in E as (_ & _ & _ & E). congruence.
  - intros vn v' op Hv' Hd.
    destruct (vbank fd !! vn) as [v|] eqn:Hv.
    + destruct (Hsb _ _ Hv) as (v'' & Hv'' & E).
      assert (v'' = v') by congruence. subst v''.
      apply same_fields in E as (_ & _ & _ & E). rewrite E in Hd.
      destruct (H2 _ _ _ Hv Hd) as (o & Ho & Hout).
      pose proof (Eo op) as Eop. symmetry in Eop.
      destruct (fmap_lookup_eq _ _ _ _ Eop Ho) as (o' & Ho' & Ei).
      exists o'. split; [done | congruence].
    + rewrite (Hnew _ _ Hv' Hv) in Hd. done.
Qed.

Lemma new_op_wf fd n pc :
  obank_fresh fd → readers_wf fd → defs_wf fd → blocks_wf fd →
  readers_wf (fd_new_op fd n pc) ∧ defs_wf (fd_new_op fd n pc)
  ∧ blocks_wf (fd_new_op fd n pc) ∧ obank_fresh (fd_new_op fd n pc).
Proof.
  intros Hfo (Hc & Hvs & Hos) (Hd1 & Hd2) (Hb1 & Hb2).
  assert (Hnew : obank fd !! obank_uniqid fd = None) by (apply Hfo; lia).
  unfold fd_new_op. split_and!.
  - split_and!.
    + intros op o x xv. store_simpl. intros Ho Hx.
      destruct (decide (op = obank_uniqid fd)) as [->|Hne].
      * rewrite lookup_insert_eq in Ho. injection Ho as <-. unfold reads. store_simpl.
        rewrite count_in_replicate_ne by done. apply count_in_zero. intros Hin.
        destruct (Hos _ _ _ Hx Hin) as [? ?]. congruence.
      * rewrite lookup_insert_ne in Ho by done. by eapply Hc.
    + intros op o sl x. store_simpl. intros Ho Hs.
      destruct (decide (op = obank_uniqid fd)) as [->|Hne].
      * rewrite lookup_insert_eq in Ho. injection Ho as <-. store_simpl.
        apply lookup_replicate in Hs as [? _]. done.
      * rewrite lookup_insert_ne in Ho by done. by eapply Hvs.
    + intros x xv op Hx Hin. store_simpl.
      destruct (decide (op = obank_uniqid fd)) as [->|Hne];
        [by rewrite lookup_insert_eq | rewrite lookup_insert_ne by done; by eapply Hos].
  - split.
    + intros op o x. store_simpl. intros Ho Hout.
      destruct (decide (op = obank_uniqid fd)) as [->|Hne].
      * rewrite lookup_insert_eq in Ho. by injection Ho as <-.
      * rewrite lookup_insert_ne in Ho by done. by eapply Hd1.
    + intros x xv op Hx Hdx. store_simpl. destruct (Hd2 _ _ _ Hx Hdx) as (o & Ho & Hout).
      exists o. rewrite lookup_insert_ne; [done | congruence].
  - split.
    + intros bl b Hb. store_simpl. destruct (Hb1 _ _ Hb) as (Hnd & Hown).
      split; [done |]. intros op Hop. destruct (Hown _ Hop) as (o & Ho & Hp).
      exists o. rewrite lookup_insert_ne; [done | congruence].
    + intros op o bl. store_simpl. intros Ho Hp.
      destruct (decide (op = obank_uniqid fd)) as [->|Hne].
      * rewrite lookup_insert_eq in Ho. by injection Ho as <-.
      * rewrite lookup_insert_ne in Ho by done. by eapply Hb2.
  - intros j Hj. store_simpl. rewrite lookup_insert_ne by lia. apply Hfo. lia.
Qed.

(** A change of an op that keeps its links. *)
Lemma modOp_links_wf fd op o o' :
  obank fd !! op = Some o →
  inrefs o' = inrefs o → getOut o' = getOut o → getParent o' = getParent o →
  (readers_wf fd → readers_wf (set_obank (insert op o') fd))
  ∧ (defs_wf fd → defs_wf (set_obank (insert op o') fd))
  ∧ (blocks_wf fd → blocks_wf (set_obank (insert op o') fd)).
Proof.
  intros Ho Hi Hout Hp. split_and!; intros H.
  - eapply readers_wf_ext; [exact H | | done]. intros x. store_simpl.
    destruct (decide (x = op)) as [->|]; [| by rewrite lookup_insert_ne].
    rewrite lookup_insert_eq, Ho. cbn. by rewrite Hi.
  - eapply defs_wf_ext; [exact H | | done]. intros x. store_simpl.
    destruct (decide (x = op)) as [->|]; [| by rewrite lookup_insert_ne].
    rewrite lookup_insert_eq, Ho. cbn. by rewrite Hout.
  - eapply blocks_wf_ext; [exact H | | done]. intros x. store_simpl.
    destruct (decide (x = op)) as [->|]; [| by rewrite lookup_insert_ne].
    rewrite lookup_insert_eq, Ho. cbn. by rewrite Hp.
Qed.

(** [opSetInput] under all the invariants. *)
Lemma opSetInput_keeps_all fd op o vn v slot :
  readers_wf fd → vbank_fresh fd → defs_wf fd → blocks_wf fd →
  obank fd !! op = Some o → (slot < numInput o)%nat →
  vbank fd !! vn = Some v →
  ∃ fd' o' t tv,
    opSetInput op vn slot fd = Ok tt fd'
    ∧ readers_wf fd' ∧ vbank_fresh fd' ∧ defs_wf fd' ∧ blocks_wf fd'
    ∧ obank fd' !! op = Some o' ∧ o' = op_setInrefs (<[slot := Some t]> (inrefs o)) o
    ∧ vbank fd' !! t = Some tv
    ∧ getSize tv = getSize v ∧ vn_getOffset tv = vn_getOffset v
    ∧ isConstant tv = isConstant v
    ∧ (isConstant v && negb (isSpacebase v) = false → t = vn)
    ∧ (∀ x, x ≠ op → obank fd' !! x = obank fd !! x)
    ∧ bblocks fd' = bblocks fd
    ∧ same_but_readers fd fd'.
Proof.
  intros Hwf Hfr Hd Hb Ho Hlt Hv.
  destruct (lookup_lt_is_Some_2 (inrefs o) slot Hlt) as [cur Hs].
  destruct (opSetInput_run_general fd op o vn v slot cur Hwf Hfr Ho Hs Hv)
    as (fd' & o' & t & tv & E & Hwf' & Hfr' & Ho' & Hin' & Hc' & Hout' & Hp'
        & Ht & Hsz & Hoff & Hcst & _ & Hdup & Hoth & Hbl & Heq & Hsb & Hnew).
  assert (Eo : ∀ f : PcodeOp → option nat,
            f o' = f o → ∀ x, f <$> obank fd' !! x = f <$> obank fd !! x).
  { intros f Hf x. destruct (decide (x = op)) as [->|Hne].
    - rewrite Ho', Ho. cbn. by rewrite Hf.
    - by rewrite Hoth. }
  exists fd', o', t, tv. split_and!; try done.
  - eapply defs_wf_grow; [exact Hd | by apply Eo | done | done].
  - eapply blocks_wf_ext; [exact Hb | by apply Eo | by rewrite Hbl].
  - intros Hbf.
    replace (isConstant v && negb (hasNoDescend v) && negb (isSpacebase v)
             && negb (bool_decide (cur = Some vn)))
      with false in Hdup; [done |].
    symmetry. destruct (isConstant v), (isSpacebase v); try done.
    cbn. by rewrite andb_false_r.
Qed.

Lemma block_codes_exists fd bl b :
  blocks_wf fd → bblocks fd !! bl = Some b → ∃ cs, block_codes fd b cs.
Proof.
  intros (Hb1 & _) Hb. destruct (Hb1 _ _ Hb) as (_ & Hown). unfold block_codes.
  induction (bl_op b) as [|x l IH]; [by exists [] |].
  destruct IH as (cs & Hcs); [intros op Hop; apply Hown; by right |].
  destruct (Hown x) as (o & Ho & _); [by left |].
  exists (code o :: cs). constructor; [by exists o | done].
Qed.

Lemma NoDup_insert_at {A} (x : A) l k :
  NoDup l → x ∉ l → NoDup (list_insert_at k x l).
Proof.
  intros Hnd Hx. unfold list_insert_at.
  rewrite <- (take_drop k l) in Hnd, Hx.
  apply NoDup_app in Hnd as (H1 & H2 & H3). apply not_elem_of_app in Hx as [Hx1 Hx2].
  apply NoDup_app. split_and!; [done | | by apply NoDup_cons].
  intros y Hy [-> | Hy']%elem_of_cons; [done | by eapply H2].
Qed.

Lemma elem_of_insert_at {A} (x y : A) l k :
  y ∈ list_insert_at k x l ↔ y = x ∨ y ∈ l.
Proof.
  unfold list_insert_at. rewrite <- (take_drop k l) at 3.
  rewrite !elem_of_app, elem_of_cons. tauto.
Qed.

(** The store once a detached op has been put into a block. *)
Lemma inserted_wf fd op o bl b k :
  readers_wf fd → defs_wf fd → blocks_wf fd →
  obank fd !! op = Some o → getParent o = None →
  bblocks fd !! bl = Some b →
  readers_wf (fd_inserted fd op o bl b k) ∧ defs_wf (fd_inserted fd op o bl b k)
  ∧ blocks_wf (fd_inserted fd op o bl b k).
Proof.
  intros Hr Hd Hb Ho Hp Hbb. pose proof Hb as (Hb1 & Hb2). unfold fd_inserted.
  assert (Hnot : ∀ bl' b', bblocks fd !! bl' = Some b' → op ∉ bl_op b').
  { intros bl' b' Hb' Hin. destruct (Hb1 _ _ Hb') as (_ & Hown).
    destruct (Hown _ Hin) as (? & ? & ?). congruence. }
  split_and!.
  - eapply readers_wf_ext; [exact Hr | | done]. intros x. store_simpl.
    destruct (decide (x = op)) as [->|]; [| by rewrite lookup_insert_ne].
    by rewrite lookup_insert_eq, Ho.
  - eapply defs_wf_ext; [exact Hd | | done]. intros x. store_simpl.
    destruct (decide (x = op)) as [->|]; [| by rewrite lookup_insert_ne].
    by rewrite lookup_insert_eq, Ho.
  - split.
    + intros bl' b'. store_simpl. intros Hb'.
      destruct (decide (bl' = bl)) as [->|Hne].
      * rewrite lookup_insert_eq in Hb'. injection Hb' as <-. store_simpl.
        destruct (Hb1 _ _ Hbb) as (Hnd & Hown).
        split; [apply NoDup_insert_at; [done | by eapply Hnot] |].
        intros x [-> | Hx]%elem_of_insert_at.
        -- eexists. by rewrite lookup_insert_eq.
        -- destruct (Hown _ Hx) as (ox & Hox & Hpx). exists ox.
           rewrite lookup_insert_ne; [done |]. intros ->. congruence.
      * rewrite lookup_insert_ne in Hb' by done.
        destruct (Hb1 _ _ Hb') as (Hnd & Hown). split; [done |].
        intros x Hx. destruct (Hown _ Hx) as (ox & Hox & Hpx). exists ox.
        rewrite lookup_insert_ne; [done |]. intros ->. congruence.
    + intros x ox bl'. store_simpl. intros Hox Hpx.
      destruct (decide (x = op)) as [->|Hx].
      * rewrite lookup_insert_eq in Hox. injection Hox as <-. store_simpl.
        injection Hpx as <-. eexists. rewrite lookup_insert_eq. split; [done |].
        store_simpl. apply elem_of_insert_at. by left.
      * rewrite lookup_insert_ne in Hox by done.
        destruct (Hb2 _ _ _ Hox Hpx) as (b' & Hb' & Hin).
        destruct (decide (bl' = bl)) as [->|Hne].
        -- assert (b' = b) by congruence. subst b'. eexists.
           rewrite lookup_insert_eq. split; [done |]. store_simpl.
           apply elem_of_insert_at. by right.
        -- exists b'. by rewrite lookup_insert_ne.
Qed.

(** Where [opInsertBefore] puts the op, whatever its op-code. *)
Lemma opInsertBefore_run_at fd follow f bl b cs iter op o :
  obank fd !! follow = Some f → getParent f = Some bl →
  bblocks fd !! bl = Some b → index_of follow (bl_op b) 0 = Some iter →
  block_codes fd b cs →
  obank fd !! op = Some o →
  ∃ k,
    opInsertBefore op follow fd = Ok tt (fd_inserted fd op o bl b k)
    ∧ (k ≤ iter)%nat
    ∧ (∀ j c, (k ≤ j < iter)%nat → cs !! j = Some c → c = CPUI_INDIRECT).
Proof.
  intros Hf Hp Hb Hi Hc Ho.
  pose proof (Forall2_length _ _ _ Hc) as Hlen.
  destruct (index_of_lookup _ _ _ _ Hi) as (_ & Hfi). rewrite Nat.sub_0_r in Hfi.
  assert (Hit : (iter < length cs)%nat) by (rewrite <- Hlen; by eapply lookup_lt_Some).
  destruct (before_position_spec (is_code CPUI_INDIRECT) cs iter ltac:(lia))
    as (Hn & Hind & _).
  set (n := count_prefix (is_code CPUI_INDIRECT) (reverse (take iter cs))) in *.
  destruct (decide (code o ≠ CPUI_INDIRECT)) as [Hni|Hind'].
  - exists (iter - n)%nat. split_and!; [| lia |].
    + by apply (opInsertBefore_run _ _ f _ _ cs).
    + intros j c Hj Hcj. pose proof (Hind j c Hj Hcj) as Hq. unfold is_code in Hq.
      by apply bool_decide_eq_true in Hq.
  - exists iter. split_and!; [| lia | intros; lia].
    unfold opInsertBefore.
    rewrite (bind_Ok _ _ _ _ _ (getBasicIter_run _ _ _ _ _ _ Hf Hp Hb Hi)).
    rewrite (bind_Ok _ _ _ _ _ (getBlock_Ok _ _ _ Hb)).
    rewrite (bind_Ok _ _ _ _ _ (getOp_Ok _ _ _ Ho)).
    rewrite decide_False by done. rewrite bind_ret_l.
    by rewrite (opInsert_run _ _ _ _ _ _ Ho Hb).
Qed.

Lemma newOpBefore_inputs_as_loop {A} op in1 in2 in3 (k : M A) fd :
  (opSetInput op in1 0 ;; opSetInput op in2 1 ;;
   match in3 with Some i3 => opSetInput op i3 2 | None => ret tt end ;; k) fd
  = (forM_ (List.seq 0 (length (in1 :: in2 :: option_list in3))) (fun i =>
       match (in1 :: in2 :: option_list in3) !! i with
       | Some vn => opSetInput op vn i
       | None => throw Fault
       end) ;; k) fd.
Proof.
  destruct in3 as [in3|]; unfold forM_; cbn; unfold bind;
    repeat match goal with
           | |- context [opSetInput ?a ?b ?c ?d] =>
               destruct (opSetInput a b c d) as [[] ?|]; try done
           end.
Qed.



(** ** [descend2Undef] *)

Lemma post_run {A} (c : M A) fd (Q : A → Funcdata → Prop) a fd' :
  post c fd Q → c fd = Ok a fd' → Q a fd'.
Proof. intros H E. unfold post in H. by rewrite E in H. Qed.

Lemma keeps_ouid_readonly {A} (c : M A) : readonly c → keeps_ouid c.
Proof. intros H fd. eapply post_mono; [apply H |]. by intros a fd' ->. Qed.

Lemma keeps_ouid_bind {A B} (c : M A) (k : A → M B) :
  keeps_ouid c → (∀ a, keeps_ouid (k a)) → keeps_ouid (bind c k).
Proof.
  intros Hc Hk fd. apply post_bind. eapply post_mono; [apply Hc |].
  intros a fd' E. eapply post_mono; [apply Hk |]. intros b fd'' E'. cbn in *. congruence.
Qed.

Lemma keeps_ouid_modify f :
  (∀ fd, obank_uniqid (f fd) = obank_uniqid fd) → keeps_ouid (modify f).
Proof. intros H fd. unfold post, modify. apply H. Qed.

Lemma keeps_ouid_ret {A} (a : A) : keeps_ouid (ret a).
Proof. by intros fd. Qed.

Lemma keeps_ouid_throw {A} e : e ≠ OutOfFuel → keeps_ouid (@throw A e).
Proof. by intros He fd. Qed.

Lemma keeps_ouid_modVn vn f : keeps_ouid (modVn vn f).
Proof.
  unfold modVn. apply keeps_ouid_bind; [apply keeps_ouid_readonly, readonly_getVn |].
  intros v. by apply keeps_ouid_modify.
Qed.

Lemma keeps_ouid_modOp op f : keeps_ouid (modOp op f).
Proof.
  unfold modOp. apply keeps_ouid_bind; [apply keeps_ouid_readonly, readonly_getOp |].
  intros v. by apply keeps_ouid_modify.
Qed.

Lemma keeps_ouid_when b (c : M unit) : keeps_ouid c → keeps_ouid (when b c).
Proof. intros Hc. destruct b; [done | apply keeps_ouid_ret]. Qed.

(** Decomposes a goal [keeps_ouid c] along the structure of [c]. *)
Ltac ouid_step :=
  first
    [ apply keeps_ouid_ret
    | apply keeps_ouid_throw; discriminate
    | apply keeps_ouid_modVn
    | apply keeps_ouid_modOp
    | apply keeps_ouid_readonly; repeat readonly_step; fail
    | apply keeps_ouid_modify; done
    | apply keeps_ouid_when
    | apply keeps_ouid_bind; [| intros ?]
    | match goal with
      | |- keeps_ouid (if ?b then _ else _) => destruct b
      | |- keeps_ouid (match ?x with _ => _ end) => destruct x
      end ].

Lemma keeps_ouid_assignHigh vn : keeps_ouid (assignHigh vn).
Proof. unfold assignHigh. repeat ouid_step. Qed.

Lemma keeps_ouid_newConstant s val : keeps_ouid (newConstant s val).
Proof.
  unfold newConstant, VarnodeBank_create. repeat first [apply keeps_ouid_assignHigh | ouid_step].
Qed.

Lemma keeps_ouid_opUnsetInput op slot : keeps_ouid (opUnsetInput op slot).
Proof.
  unfold opUnsetInput, Varnode_eraseDescend, PcodeOp_clearInput, PcodeOp_setInput.
  repeat ouid_step.
Qed.

Lemma keeps_ouid_opSetInput op vn slot : keeps_ouid (opSetInput op vn slot).
Proof.
  unfold opSetInput, Varnode_copySymbol, Varnode_addDescend, PcodeOp_setInput.
  repeat first [apply keeps_ouid_newConstant | apply keeps_ouid_opUnsetInput | ouid_step].
Qed.

(** *** The invariants under the steps *)

Lemma store_wf_new_vn fd c :
  store_wf fd → descend c = [] → getDef c = None → store_wf (fd_new_vn fd c).
Proof.
  intros (Hr & Hd & Hb & Hfv & Hfo) Hdc Hdef.
  assert (Hnew : vbank fd !! vbank_create_index fd = None) by (apply Hfv; lia).
  split_and!.
  - by apply readers_wf_new_vn.
  - eapply defs_wf_grow; [exact Hd | done | |].
    + intros x xv Hx. exists xv. split; [| done]. unfold fd_new_vn. store_simpl.
      rewrite lookup_insert_ne; [done | congruence].
    + intros x xv'. unfold fd_new_vn. store_simpl. intros Hx Hn.
      destruct (decide (x = vbank_create_index fd)) as [->|Hne].
      * rewrite lookup_insert_eq in Hx. by injection Hx as <-.
      * rewrite lookup_insert_ne in Hx by done. congruence.
  - by eapply blocks_wf_ext.
  - by apply vbank_fresh_new_vn.
  - exact Hfo.
Qed.

Lemma opSetInput_store_wf fd op o vn v slot :
  store_wf fd → obank fd !! op = Some o → (slot < numInput o)%nat →
  vbank fd !! vn = Some v →
  ∃ fd' t,
    opSetInput op vn slot fd = Ok tt fd'
    ∧ store_wf fd'
    ∧ obank fd' !! op = Some (op_setInrefs (<[slot := Some t]> (inrefs o)) o)
    ∧ (t = vn ∨ vbank fd !! t = None)
    ∧ (isConstant v = false → t = vn)
    ∧ (∃ tv, vbank fd' !! t = Some tv ∧ getSize tv = getSize v
             ∧ vn_getOffset tv = vn_getOffset v ∧ isConstant tv = isConstant v)
    ∧ (∀ x, x ≠ op → obank fd' !! x = obank fd !! x)
    ∧ bblocks fd' = bblocks fd
    ∧ same_but_readers fd fd'.
Proof.
  intros (Hr & Hd & Hb & Hfv & Hfo) Ho Hlt Hv.
  destruct (opSetInput_keeps_all fd op o vn v slot Hr Hfv Hd Hb Ho Hlt Hv)
    as (fd' & o' & t & tv & E & Hr' & Hfv' & Hd' & Hb' & Ho' & Heq & Ht & Htsz & Htoff
        & Htc & Hnc & Hoth & Hbl & Hsb).
  destruct (lookup_lt_is_Some_2 (inrefs o) slot Hlt) as [cur Hs].
  destruct (opSetInput_run_general fd op o vn v slot cur Hr Hfv Ho Hs Hv)
    as (fd2 & o2 & t2 & tv2 & E2 & _ & _ & Ho2 & Hin2 & _ & _ & _ & _ & _ & _ & _ & _
        & Hdup & _).
  rewrite E in E2. injection E2 as <-.
  assert (t2 = t).
  { rewrite Ho' in Ho2. injection Ho2 as <-. rewrite Heq in Hin2. cbn in Hin2.
    apply (f_equal (λ l, l !! slot)) in Hin2.
    rewrite !list_lookup_insert_eq in Hin2 by done. congruence. }
  subst t2. exists fd', t. split; [done |]. split.
  { split_and!; try done.
    intros j Hj. pose proof (post_run _ _ _ _ _ (keeps_ouid_opSetInput op vn slot fd) E)
      as Hu. cbn in Hu. rewrite Hu in Hj.
    destruct (decide (j = op)) as [->|Hne].
    + rewrite (Hfo _ Hj) in Ho. done.
    + rewrite Hoth by done. by apply Hfo. }
  split_and!; try done.
  - rewrite Ho'. by rewrite Heq.
  - destruct (_ && _) in Hdup; [right | by left].
    destruct Hdup as [-> _]. apply Hfv. lia.
  - intros Hc. apply Hnc. by rewrite Hc.
  - by exists tv.
Qed.

Lemma keeps_ouid_newUniqueOut s op : keeps_ouid (newUniqueOut s op).
Proof.
  unfold newUniqueOut, VarnodeBank_createDefUnique, VarnodeBank_createUnique,
    VarnodeBank_create, PcodeOp_setOutput.
  repeat first [apply keeps_ouid_assignHigh | ouid_step].
Qed.

Lemma same_but_readers_None fd fd' x :
  same_but_readers fd fd' → vbank fd' !! x = None → vbank fd !! x = None.
Proof.
  intros Hsb Hx. destruct (vbank fd !! x) as [xv|] eqn:E; [| done].
  destruct (Hsb _ _ E) as (? & ? & _). congruence.
Qed.

(** The COPY of the constant that a marker op is made to read: a new op
    with a new temporary as output, not yet in a block. *)
Lemma undef_copy_run {A} fd bc c size addr (k : opptr → vnptr → M A) :
  store_wf fd → vbank fd !! bc = Some c →
  ∃ fd' co t uv,
    (copyop <- newOp 1 addr ;;
     inputvn <- newUniqueOut size copyop ;;
     opSetOpcode copyop CPUI_COPY ;;
     opSetInput copyop bc 0 ;;
     k copyop inputvn) fd
    = k (obank_uniqid fd) (vbank_create_index fd) fd'
    ∧ store_wf fd'
    ∧ obank fd !! obank_uniqid fd = None
    ∧ obank fd' !! obank_uniqid fd = Some co
    ∧ code co = CPUI_COPY ∧ inrefs co = [Some t]
    ∧ (t = bc ∨ vbank fd !! t = None)
    ∧ getOut co = Some (vbank_create_index fd) ∧ getParent co = None
    ∧ (∀ x, x ≠ obank_uniqid fd → obank fd' !! x = obank fd !! x)
    ∧ bblocks fd' = bblocks fd
    ∧ same_but_readers fd fd'
    ∧ vbank fd !! vbank_create_index fd = None
    ∧ vbank fd' !! vbank_create_index fd = Some uv
    ∧ isConstant uv = false
    ∧ getSize uv = size ∧ getDef uv = Some (obank_uniqid fd)
    ∧ (∃ tv, vbank fd' !! t = Some tv ∧ getSize tv = getSize c
             ∧ vn_getOffset tv = vn_getOffset c ∧ isConstant tv = isConstant c).
Proof.
  intros (Hr & Hd & Hb & Hfv & Hfo) Hbc.
  set (n := obank_uniqid fd).
  assert (Hnew : obank fd !! n = None) by (apply Hfo; unfold n; lia).
  destruct (new_op_wf fd 1 addr Hfo Hr Hd Hb) as (Hr2 & Hd2 & Hb2 & Hfo2).
  set (fd2 := fd_new_op fd 1 addr) in *.
  set (o1 := mkPcodeOp CPUI_COPY {[PcodeOp_dead]} None (replicate 1 None) None
               (mkSeqNum addr n 0)).
  assert (Ho1 : obank fd2 !! n = Some o1).
  { unfold fd2, fd_new_op. store_simpl. by rewrite lookup_insert_eq. }
  assert (Hfv2 : vbank_fresh fd2) by exact Hfv.
  destruct (newUniqueOut_keeps fd2 size n o1 Hr2 Hd2 Hfv2 Ho1)
    as (fd3 & uv & o3 & E3 & Hvn & Huv & Hsz & Hloc & Hdef & _ & Ho3 & Hout3 & Hin3
        & _ & Hr3 & Hfv3 & Hd3 & Heq3 & Hoth3 & Hvoth3 & Hbl3).
  assert (Hd3' : defs_wf fd3) by (by apply Hd3).
  assert (Hb3 : blocks_wf fd3).
  { eapply blocks_wf_ext; [exact Hb2 | | by rewrite Hbl3]. intros x.
    destruct (decide (x = n)) as [->|Hx]; [| by rewrite Hoth3].
    rewrite Ho3, Ho1. cbn. by rewrite Heq3. }
  pose proof (post_run _ _ _ _ _ (keeps_ouid_newUniqueOut size n fd2) E3) as Hu3.
  cbn in Hu3.
  assert (Hfo3 : obank_fresh fd3).
  { intros j Hj. rewrite Hu3 in Hj. rewrite Hoth3; [by apply Hfo2 |].
    intros ->. rewrite (Hfo2 _ Hj) in Ho1. done. }
  set (o4 := op_setCode CPUI_COPY o3).
  set (fd4 := set_obank (insert n o4) fd3).
  destruct (modOp_links_wf fd3 n o3 o4 Ho3 eq_refl eq_refl eq_refl) as (Hr4 & Hd4 & Hb4).
  specialize (Hr4 Hr3). specialize (Hd4 Hd3'). specialize (Hb4 Hb3).
  fold fd4 in Hr4, Hd4, Hb4.
  assert (Ho4 : obank fd4 !! n = Some o4).
  { unfold fd4. store_simpl. by rewrite lookup_insert_eq. }
  assert (Hfo4 : obank_fresh fd4).
  { intros j Hj. unfold fd4. store_simpl.
    change (obank_uniqid fd4) with (obank_uniqid fd3) in Hj.
    rewrite lookup_insert_ne; [by apply Hfo3 |].
    intros <-. rewrite (Hfo3 _ Hj) in Ho3. done. }
  assert (Hbc4 : vbank fd4 !! bc = Some c).
  { change (vbank fd4) with (vbank fd3). rewrite Hvoth3; [exact Hbc |].
    intros ->. change (vbank fd2) with (vbank fd) in Hvn. congruence. }
  assert (Hn4 : (0 < numInput o4)%nat).
  { unfold numInput, o4. store_simpl. rewrite Hin3. unfold o1. cbn. lia. }
  destruct (opSetInput_store_wf fd4 n o4 bc c 0
              (conj Hr4 (conj Hd4 (conj Hb4 (conj Hfv3 Hfo4)))) Ho4 Hn4 Hbc4)
    as (fd5 & t & E5 & Hwf5 & Ho5 & Ht & _ & Ht5 & Hoth5 & Hbl5 & Hsb5).
  assert (Hsb03 : same_but_readers fd fd3).
  { intros x xv Hx. exists xv. split; [| done]. rewrite Hvoth3; [done |].
    intros ->. change (vbank fd2) with (vbank fd) in Hvn. congruence. }
  assert (Hsb05 : same_but_readers fd fd5).
  { eapply same_but_readers_trans; [exact Hsb03 | exact Hsb5]. }
  destruct (Hsb5 _ _ Huv) as (uv5 & Huv5 & Euv).
  exists fd5, (op_setInrefs (<[0%nat := Some t]> (inrefs o4)) o4), t, uv5.
  split_and!; try done.
  - rewrite (bind_Ok _ _ _ _ _ (newOp_run fd 1 addr)). fold n fd2.
    rewrite (bind_Ok _ _ _ _ _ E3).
    assert (E4 : opSetOpcode n CPUI_COPY fd3 = Ok tt fd4).
    { unfold opSetOpcode, PcodeOpBank_changeOpcode. by rewrite (modOp_Ok _ _ _ _ Ho3). }
    by rewrite (bind_Ok _ _ _ _ _ E4), (bind_Ok _ _ _ _ _ E5).
  - store_simpl. unfold o4. store_simpl. rewrite Hin3. done.
  - destruct Ht as [-> | Ht]; [by left | right].
    change (vbank fd4) with (vbank fd3) in Ht.
    exact (same_but_readers_None fd fd3 t Hsb03 Ht).
  - cbn. by rewrite Heq3.
  - intros x Hx. rewrite Hoth5 by done. unfold fd4. store_simpl.
    rewrite lookup_insert_ne by done. rewrite Hoth3 by done.
    unfold fd2, fd_new_op. store_simpl. by rewrite lookup_insert_ne.
  - by rewrite Hbl5.
  - apply same_fields in Euv as (_ & Hl & _). unfold isConstant. rewrite Hl, Hloc. done.
  - apply same_fields in Euv as (Hs & _). congruence.
  - apply same_fields in Euv as (_ & _ & _ & Hdf). congruence.
Qed.

Lemma inserted_store_wf fd op o bl b k :
  store_wf fd → obank fd !! op = Some o → getParent o = None →
  bblocks fd !! bl = Some b → store_wf (fd_inserted fd op o bl b k).
Proof.
  intros (Hr & Hd & Hb & Hfv & Hfo) Ho Hp Hbb.
  destruct (inserted_wf fd op o bl b k Hr Hd Hb Ho Hp Hbb) as (Hr' & Hd' & Hb').
  split_and!; try done.
  intros j Hj. unfold fd_inserted. store_simpl.
  change (obank_uniqid (fd_inserted fd op o bl b k)) with (obank_uniqid fd) in Hj.
  rewrite lookup_insert_ne; [by apply Hfo |].
  intros <-. rewrite (Hfo _ Hj) in Ho. done.
Qed.

Lemma same_but_readers_new_vn fd c :
  vbank_fresh fd → same_but_readers fd (fd_new_vn fd c).
Proof.
  intros Hfv x xv Hx. exists xv. split; [| done]. unfold fd_new_vn. store_simpl.
  rewrite lookup_insert_ne; [done |]. intros <-. rewrite Hfv in Hx; [done | lia].
Qed.

Lemma same_but_readers_lookup fd fd' x xv :
  same_but_readers fd fd' → vbank fd !! x = Some xv →
  ∃ xv', vbank fd' !! x = Some xv' ∧ getSize xv' = getSize xv
         ∧ vn_getOffset xv' = vn_getOffset xv ∧ isConstant xv' = isConstant xv
         ∧ getDef xv' = getDef xv.
Proof.
  intros Hsb Hx. destruct (Hsb _ _ Hx) as (xv' & Hx' & E).
  apply same_fields in E as (H1 & H2 & _ & H4). exists xv'.
  unfold vn_getOffset, isConstant. rewrite H2. by split_and!.
Qed.

(** A read by a marker op: the op is made to read the output of a new
    COPY of the constant, which [ins] puts into a block. *)
Lemma undef_marker_run fd size op o i bc c (ins : opptr → M unit) addr :
  store_wf fd → vbank fd !! bc = Some c →
  obank fd !! op = Some o → (i < numInput o)%nat →
  (∀ fd5 co,
     blocks_wf fd5 → bblocks fd5 = bblocks fd →
     (∀ x, x ≠ obank_uniqid fd → obank fd5 !! x = obank fd !! x) →
     obank fd5 !! obank_uniqid fd = Some co →
     ∃ bl' b' k,
       bblocks fd5 !! bl' = Some b'
       ∧ ins (obank_uniqid fd) fd5
         = Ok tt (fd_inserted fd5 (obank_uniqid fd) co bl' b' k)) →
  ∃ fd' t,
    (copyop <- newOp 1 addr ;;
     inputvn <- newUniqueOut size copyop ;;
     opSetOpcode copyop CPUI_COPY ;;
     opSetInput copyop bc 0 ;;
     ins copyop ;;
     opSetInput op inputvn i) fd = Ok tt fd'
    ∧ store_wf fd'
    ∧ obank fd' !! op = Some (op_setInrefs (<[i := Some t]> (inrefs o)) o)
    ∧ vbank fd !! t = None
    ∧ (∀ x ox, x ≠ op → obank fd !! x = Some ox → obank fd' !! x = Some ox)
    ∧ (∀ x ox', obank fd' !! x = Some ox' → obank fd !! x = None →
         code ox' = CPUI_COPY
         ∧ ∀ y, Some y ∈ inrefs ox' → y = bc ∨ vbank fd !! y = None)
    ∧ (∀ bl, (λ b, (bl_isDead b, bl_intothis b)) <$> bblocks fd' !! bl
             = (λ b, (bl_isDead b, bl_intothis b)) <$> bblocks fd !! bl)
    ∧ same_but_readers fd fd'
    ∧ (∃ tv co t0 t0v,
         vbank fd' !! t = Some tv ∧ getSize tv = size
         ∧ getDef tv = Some (obank_uniqid fd)
         ∧ obank fd !! obank_uniqid fd = None
         ∧ obank fd' !! obank_uniqid fd = Some co
         ∧ code co = CPUI_COPY ∧ inrefs co = [Some t0]
         ∧ (t0 = bc ∨ vbank fd !! t0 = None)
         ∧ vbank fd' !! t0 = Some t0v ∧ getSize t0v = getSize c
         ∧ vn_getOffset t0v = vn_getOffset c ∧ isConstant t0v = isConstant c).
Proof.
  intros Hwf Hbc Ho Hi Hins.
  destruct (undef_copy_run fd bc c size addr
              (λ copyop inputvn, ins copyop ;; opSetInput op inputvn i) Hwf Hbc)
    as (fd5 & co & t0 & uv & E5 & Hwf5 & Hnew & Hco & Hcc & Hcin & Ht0 & Hcout & Hcp
        & Hoth5 & Hbl5 & Hsb5 & Hu & Huv & Hucst & Husz & Hudef
        & (t0v & Ht0v & Hs0 & Hoff0 & Hc0)).
  set (n := obank_uniqid fd) in *. set (u := vbank_create_index fd) in *.
  assert (Hne : op ≠ n) by congruence.
  pose proof Hwf5 as (Hr5 & Hd5 & Hb5 & Hfv5 & Hfo5).
  destruct (Hins fd5 co Hb5 Hbl5 Hoth5 Hco) as (bl' & b' & k & Hbb' & E6).
  pose proof (inserted_store_wf fd5 n co bl' b' k Hwf5 Hco Hcp Hbb') as Hwf6.
  set (fd6 := fd_inserted fd5 n co bl' b' k) in *.
  assert (Ho6 : obank fd6 !! op = Some o).
  { unfold fd6, fd_inserted. store_simpl. rewrite lookup_insert_ne by done.
    by rewrite Hoth5. }
  assert (Hco6 : obank fd6 !! n
                 = Some (op_setParent (Some bl') (op_clearFlags {[PcodeOp_dead]} co))).
  { unfold fd6, fd_inserted. store_simpl. by rewrite lookup_insert_eq. }
  assert (Huv6 : vbank fd6 !! u = Some uv) by exact Huv.
  assert (Ht0v6 : vbank fd6 !! t0 = Some t0v) by exact Ht0v.
  destruct (opSetInput_store_wf fd6 op o u uv i Hwf6 Ho6 Hi Huv6)
    as (fd7 & t & E7 & Hwf7 & Ho7 & Ht & Htu & (tv & Htv & Htsz & _) & Hoth7 & Hbl7
        & Hsb7).
  specialize (Htu Hucst). subst t.
  destruct (same_but_readers_lookup fd6 fd7 u uv Hsb7 Huv6)
    as (uv7 & Huv7 & _ & _ & _ & Hdef7).
  assert (uv7 = tv) by congruence. subst uv7.
  destruct (same_but_readers_lookup fd6 fd7 t0 t0v Hsb7 Ht0v6)
    as (t0v7 & Ht0v7 & Hs7 & Hoff7 & Hc7 & _).
  exists fd7, u. split_and!; try done.
  - rewrite E5. by rewrite (bind_Ok _ _ _ _ _ E6).
  - intros x ox Hx Hox. assert (x ≠ n) by congruence.
    rewrite Hoth7 by done. unfold fd6, fd_inserted. store_simpl.
    rewrite lookup_insert_ne by done. by rewrite Hoth5.
  - intros x ox' Hx' Hx. assert (x ≠ op) by congruence.
    rewrite Hoth7 in Hx' by done.
    destruct (decide (x = n)) as [->|Hxn].
    + rewrite Hco6 in Hx'. injection Hx' as <-. cbn. split; [done |].
      rewrite Hcin. intros y ->%list_elem_of_singleton%(inj Some). exact Ht0.
    + unfold fd6, fd_inserted in Hx'. store_simpl.
      rewrite lookup_insert_ne in Hx' by done. rewrite Hoth5 in Hx' by done. congruence.
  - intros bl. rewrite Hbl7. unfold fd6, fd_inserted. store_simpl. rewrite Hbl5.
    destruct (decide (bl = bl')) as [->|Hb].
    + rewrite lookup_insert_eq. rewrite Hbl5 in Hbb'. rewrite Hbb'. done.
    + by rewrite lookup_insert_ne.
  - eapply same_but_readers_trans; [exact Hsb5 |]. exact Hsb7.
  - exists tv, (op_setParent (Some bl') (op_clearFlags {[PcodeOp_dead]} co)), t0, t0v7.
    split_and!; try done; try congruence.
    rewrite Hoth7 by done. exact Hco6.
Qed.

(** One round of the loop of [descend2Undef], for a reader in a block
    that is not dead. *)
Lemma descend2Undef_read_live fd vn v size res op o bl b :
  store_wf fd → in_edges_wf fd → vbank fd !! vn = Some v →
  obank fd !! op = Some o → getParent o = Some bl → bblocks fd !! bl = Some b →
  bl_isDead b = false → Some vn ∈ inrefs o →
  ∃ fd' t,
    descend2Undef_read vn size res op fd
    = Ok (if decide (sizeIn b ≠ 0%nat) then true else res) fd'
    ∧ store_wf fd'
    ∧ obank fd' !! op = Some (op_setInrefs (<[getSlot o vn := Some t]> (inrefs o)) o)
    ∧ inrefs o !! getSlot o vn = Some (Some vn)
    ∧ reads_const fd fd' size 0xBADDEF t
    ∧ (∀ x ox, x ≠ op → obank fd !! x = Some ox → obank fd' !! x = Some ox)
    ∧ (∀ x ox', obank fd' !! x = Some ox' → obank fd !! x = None →
         code ox' = CPUI_COPY ∧ ∀ y, Some y ∈ inrefs ox' → vbank fd !! y = None)
    ∧ (∀ bl, (λ b, (bl_isDead b, bl_intothis b)) <$> bblocks fd' !! bl
             = (λ b, (bl_isDead b, bl_intothis b)) <$> bblocks fd !! bl)
    ∧ same_but_readers fd fd'.
Proof.
  intros Hwf Hie Hv Ho Hp Hbb Hlive Hin.
  pose proof Hwf as (Hr & Hd & Hb & Hfv & Hfo).
  pose proof (getSlot_spec o vn Hin) as Hslot. set (i := getSlot o vn) in *.
  assert (Hi : (i < numInput o)%nat) by (by apply lookup_lt_Some in Hslot).
  destruct (newConstant_run fd size 0xBADDEF)
    as (c & E1 & Hcsz & Hcloc & Hcdef & Hcdesc & _).
  assert (Hcc : isConstant c = true) by (unfold isConstant; by rewrite Hcloc).
  assert (Hcoff : vn_getOffset c = 0xBADDEF) by (unfold vn_getOffset; by rewrite Hcloc).
  set (bc := vbank_create_index fd) in *.
  pose proof (store_wf_new_vn fd c Hwf Hcdesc Hcdef) as Hwf1.
  pose proof (same_but_readers_new_vn fd c Hfv) as Hsb1.
  set (fd1 := fd_new_vn fd c) in *.
  assert (Hbc0 : vbank fd !! bc = None) by (apply Hfv; unfold bc; lia).
  assert (Hbc : vbank fd1 !! bc = Some c).
  { unfold fd1, fd_new_vn. store_simpl. by rewrite lookup_insert_eq. }
  assert (Ho1 : obank fd1 !! op = Some o) by exact Ho.
  assert (Hfresh : ∀ y, y = bc ∨ vbank fd1 !! y = None → vbank fd !! y = None).
  { intros y [-> | Hy]; [done |]. exact (same_but_readers_None fd fd1 y Hsb1 Hy). }
  assert (Hmarker : ∀ (ins : opptr → M unit) addr,
    (∀ fd5 co,
       blocks_wf fd5 → bblocks fd5 = bblocks fd1 →
       (∀ x, x ≠ obank_uniqid fd1 → obank fd5 !! x = obank fd1 !! x) →
       obank fd5 !! obank_uniqid fd1 = Some co →
       ∃ bl' b' k,
         bblocks fd5 !! bl' = Some b'
         ∧ ins (obank_uniqid fd1) fd5
           = Ok tt (fd_inserted fd5 (obank_uniqid fd1) co bl' b' k)) →
    ∃ fd' t,
      (copyop <- newOp 1 addr ;;
       inputvn <- newUniqueOut size copyop ;;
       opSetOpcode copyop CPUI_COPY ;;
       opSetInput copyop bc 0 ;;
       ins copyop ;;
       opSetInput op inputvn i) fd1 = Ok tt fd'
      ∧ store_wf fd'
      ∧ obank fd' !! op = Some (op_setInrefs (<[i := Some t]> (inrefs o)) o)
      ∧ reads_const fd fd' size 0xBADDEF t
      ∧ (∀ x ox, x ≠ op → obank fd !! x = Some ox → obank fd' !! x = Some ox)
      ∧ (∀ x ox', obank fd' !! x = Some ox' → obank fd !! x = None →
           code ox' = CPUI_COPY ∧ ∀ y, Some y ∈ inrefs ox' → vbank fd !! y = None)
      ∧ (∀ bl, (λ b, (bl_isDead b, bl_intothis b)) <$> bblocks fd' !! bl
               = (λ b, (bl_isDead b, bl_intothis b)) <$> bblocks fd !! bl)
      ∧ same_but_readers fd1 fd').
  { intros ins addr Hins.
    destruct (undef_marker_run fd1 size op o i bc c ins addr Hwf1 Hbc Ho1 Hi Hins)
      as (fd' & t & E & Hwf' & Ho' & Ht & Hoth & Hnew & Hbl & Hsb
          & (tv & co & t0 & t0v & Htv & Htsz & Htdef & Hn0 & Hco & Hcoc & Hcoin & Ht0
             & Ht0v & Hs0 & Hoff0 & Hc0)).
    exists fd', t. split_and!; try done.
    - right. split; [by apply Hfresh; right |].
      exists tv, (obank_uniqid fd1), co, t0. split_and!; try done.
      split; [by apply Hfresh |]. exists t0v. split_and!; congruence.
    - intros x ox' Hx' Hx. destruct (Hnew x ox' Hx' Hx) as (Hc' & Hy).
      split; [done |]. intros y Hin'. by apply Hfresh, Hy. }
  (* the three ways of replacing the read *)
  assert (Hbranch : ∃ fd' t,
    (if decide (code o = CPUI_MULTIEQUAL) then
       inbl <- BlockBasic_getIn bl i ;;
       ib <- getBlock inbl ;;
       copyop <- newOp 1 (getStart ib) ;;
       inputvn <- newUniqueOut size copyop ;;
       opSetOpcode copyop CPUI_COPY ;;
       opSetInput copyop bc 0 ;;
       opInsertEnd copyop inbl ;;
       opSetInput op inputvn i
     else if decide (code o = CPUI_INDIRECT) then
       copyop <- newOp 1 (getAddr (getSeqNum o)) ;;
       inputvn <- newUniqueOut size copyop ;;
       opSetOpcode copyop CPUI_COPY ;;
       opSetInput copyop bc 0 ;;
       opInsertBefore copyop op ;;
       opSetInput op inputvn i
     else opSetInput op bc i) fd1 = Ok tt fd'
    ∧ store_wf fd'
    ∧ obank fd' !! op = Some (op_setInrefs (<[i := Some t]> (inrefs o)) o)
    ∧ reads_const fd fd' size 0xBADDEF t
    ∧ (∀ x ox, x ≠ op → obank fd !! x = Some ox → obank fd' !! x = Some ox)
    ∧ (∀ x ox', obank fd' !! x = Some ox' → obank fd !! x = None →
         code ox' = CPUI_COPY ∧ ∀ y, Some y ∈ inrefs ox' → vbank fd !! y = None)
    ∧ (∀ bl, (λ b, (bl_isDead b, bl_intothis b)) <$> bblocks fd' !! bl
             = (λ b, (bl_isDead b, bl_intothis b)) <$> bblocks fd !! bl)
    ∧ same_but_readers fd1 fd').
  { destruct (decide (code o = CPUI_MULTIEQUAL)) as [Hme|Hnme];
      [| destruct (decide (code o = CPUI_INDIRECT)) as [Hind|Hnind]].
    - (* Cannot put constant directly into MULTIEQUAL *)
      destruct (Hie op o bl b i Ho Hme Hp Hbb Hi) as (inbl & Hinbl & [ib Hib]).
      assert (E0 : BlockBasic_getIn bl i fd1 = Ok inbl fd1).
      { unfold BlockBasic_getIn.
        assert (Hbb1 : bblocks fd1 !! bl = Some b) by exact Hbb.
        by rewrite (bind_Ok _ _ _ _ _ (getBlock_Ok _ _ _ Hbb1)), Hinbl. }
      assert (Hib1 : bblocks fd1 !! inbl = Some ib) by exact Hib.
      rewrite (bind_Ok _ _ _ _ _ E0), (bind_Ok _ _ _ _ _ (getBlock_Ok _ _ _ Hib1)).
      apply (Hmarker (λ copyop, opInsertEnd copyop inbl) (getStart ib)).
      intros fd5 co Hb5 Hbl5 Hoth5 Hco.
      assert (Hib5 : bblocks fd5 !! inbl = Some ib) by (by rewrite Hbl5).
      destruct (block_codes_exists fd5 inbl ib Hb5 Hib5) as (cs & Hcs).
      exists inbl, ib, (end_position cs). split; [done |].
      by apply opInsertEnd_run.
    - (* Cannot put constant directly into INDIRECT *)
      apply (Hmarker (λ copyop, opInsertBefore copyop op) (getAddr (getSeqNum o))).
      intros fd5 co Hb5 Hbl5 Hoth5 Hco.
      assert (Hne : op ≠ obank_uniqid fd).
      { intros ->. rewrite Hfo in Ho; [done | lia]. }
      assert (Hbb5 : bblocks fd5 !! bl = Some b) by (by rewrite Hbl5).
      assert (Ho5 : obank fd5 !! op = Some o) by (by rewrite Hoth5).
      destruct (block_codes_exists fd5 bl b Hb5 Hbb5) as (cs & Hcs).
      destruct Hb as (_ & Hb2). destruct (Hb2 _ _ _ Ho Hp) as (b0 & Hbb0 & Hopin).
      assert (b0 = b) by congruence. subst b0.
      destruct (index_of_elem op (bl_op b) 0 Hopin) as (iter & Hiter & _).
      cbn in Hiter.
      destruct (opInsertBefore_run_at fd5 op o bl b cs iter (obank_uniqid fd) co
                  Ho5 Hp Hbb5 Hiter Hcs Hco) as (k & E & _).
      by exists bl, b, k.
    - destruct (opSetInput_store_wf fd1 op o bc c i Hwf1 Ho1 Hi Hbc)
        as (fd' & t & E & Hwf' & Ho' & Ht & _ & (tv & Htv & Htsz & Htoff & Htc) & Hoth
            & Hbl & Hsb).
      exists fd', t. split_and!; try done.
      + left. split; [by apply Hfresh |]. exists tv. split_and!; congruence.
      + intros x ox Hx Hox. by rewrite Hoth.
      + intros x ox' Hx' Hx. assert (x ≠ op) by congruence.
        rewrite Hoth in Hx' by done. change (obank fd1) with (obank fd) in Hx'.
        congruence.
      + intros bl'. by rewrite Hbl. }
  destruct Hbranch as (fd' & t & E & Hwf' & Ho' & Ht & Hoth & Hnew & Hbl & Hsb).
  exists fd', t. split_and!; try done.
  - unfold descend2Undef_read, getParentBlock.
    rewrite (bind_Ok _ _ _ _ _ (getOp_Ok _ _ _ Ho)), Hp, bind_ret_l.
    rewrite (bind_Ok _ _ _ _ _ (getBlock_Ok _ _ _ Hbb)), Hlive.
    fold i. rewrite (bind_Ok _ _ _ _ _ E1). fold bc fd1.
    by rewrite (bind_Ok _ _ _ _ _ E).
  - eapply same_but_readers_trans; [exact Hsb1 | exact Hsb].
Qed.

(** *** The loop *)

Lemma block_flags_eq fd fd' bl b :
  (∀ bl, (λ b, (bl_isDead b, bl_intothis b)) <$> bblocks fd' !! bl
         = (λ b, (bl_isDead b, bl_intothis b)) <$> bblocks fd !! bl) →
  bblocks fd !! bl = Some b →
  ∃ b', bblocks fd' !! bl = Some b' ∧ bl_isDead b' = bl_isDead b
        ∧ bl_intothis b' = bl_intothis b.
Proof.
  intros Hbl Hb. specialize (Hbl bl). rewrite Hb in Hbl. cbn in Hbl.
  destruct (bblocks fd' !! bl) as [b'|]; [| done]. cbn in Hbl.
  injection Hbl as H1 H2. by exists b'.
Qed.

Lemma block_flags_sym fd fd' :
  (∀ bl, (λ b, (bl_isDead b, bl_intothis b)) <$> bblocks fd' !! bl
         = (λ b, (bl_isDead b, bl_intothis b)) <$> bblocks fd !! bl) →
  (∀ bl, (λ b, (bl_isDead b, bl_intothis b)) <$> bblocks fd !! bl
         = (λ b, (bl_isDead b, bl_intothis b)) <$> bblocks fd' !! bl).
Proof. intros H bl. by rewrite H. Qed.

Lemma dead_in_frame fd fd' o o' :
  (∀ bl, (λ b, (bl_isDead b, bl_intothis b)) <$> bblocks fd' !! bl
         = (λ b, (bl_isDead b, bl_intothis b)) <$> bblocks fd !! bl) →
  getParent o' = getParent o → dead_in fd o → dead_in fd' o'.
Proof.
  intros Hbl Hp (bl & b & Hpo & Hb & Hd).
  destruct (block_flags_eq fd fd' bl b Hbl Hb) as (b' & Hb' & Hd' & _).
  exists bl, b'. split_and!; congruence.
Qed.

Lemma new_const_stable fd0 fd fd' size val t :
  new_const fd0 fd size val t → same_but_readers fd fd' → new_const fd0 fd' size val t.
Proof.
  intros (H0 & tv & Ht & Hs & Hc & Hoff) Hsb. split; [done |].
  destruct (same_but_readers_lookup fd fd' t tv Hsb Ht) as (tv' & Ht' & ? & ? & ? & _).
  exists tv'. split_and!; congruence.
Qed.

Lemma reads_const_stable vn b fd0 fd fd' size val val' t :
  reads_const fd0 fd size val t → replace_frame vn size val' b fd fd' →
  is_Some (vbank fd0 !! vn) → reads_const fd0 fd' size val t.
Proof.
  intros [Hu | (H0 & tv & c & co & bc & Ht & Hs & Hd & Hc0 & Hc & Hcc & Hci & Hu)]
    (_ & A1 & _ & _ & A4) [v0 Hv0].
  - left. by eapply new_const_stable.
  - right. split; [done |].
    destruct (same_but_readers_lookup fd fd' t tv A4 Ht) as (tv' & Ht' & ? & _ & _ & ?).
    destruct (A1 _ _ Hc) as (co' & Hco' & Hcode & _ & _ & Hn & Hs' & _).
    exists tv', c, co', bc. split_and!; try congruence.
    + assert (Hbc : bc ≠ vn) by (destruct Hu as (? & _); congruence).
      assert (H0' : inrefs co' !! 0%nat = Some (Some bc)).
      { apply Hs'; [by rewrite Hci | congruence]. }
      unfold numInput in Hn. rewrite Hci in Hn. cbn in Hn.
      destruct (inrefs co') as [|r [|r' l]]; try done. cbn in H0'. congruence.
    + by eapply new_const_stable.
Qed.

Lemma reads_const_base fd0 fd1 fd size val t :
  reads_const fd1 fd size val t → same_but_readers fd0 fd1 →
  (∀ x, obank fd1 !! x = None → obank fd0 !! x = None) →
  reads_const fd0 fd size val t.
Proof.
  intros [(H0 & Hu) | (H0 & tv & c & co & bc & Ht & Hs & Hd & Hc0 & Hc & Hcc & Hci
                        & Hb0 & Hu)] Hsb Hob.
  - left. split; [by eapply same_but_readers_None | done].
  - right. split; [by eapply same_but_readers_None |].
    exists tv, c, co, bc. split_and!; try done; [by apply Hob |].
    split; [by eapply same_but_readers_None | done].
Qed.

Lemma replace_frame_refl vn size val b fd :
  is_Some (vbank fd !! vn) → replace_frame vn size val b fd fd.
Proof.
  intros Hvn. split_and!; try done.
  - intros x o Ho. exists o. split_and!; try done. intros slot Hs. by left.
  - intros x o' Ho' Ho. congruence.
  - apply same_but_readers_refl.
Qed.

Lemma replace_frame_ops b fd fd' vn size val x :
  replace_frame vn size val b fd fd' → obank fd' !! x = None → obank fd !! x = None.
Proof.
  intros (_ & A1 & _) Hx. destruct (obank fd !! x) as [o|] eqn:Ho; [| done].
  destruct (A1 _ _ Ho) as (? & ? & _). congruence.
Qed.

Lemma replace_frame_trans vn size val b1 b2 fd1 fd2 fd3 :
  replace_frame vn size val b1 fd1 fd2 → replace_frame vn size val b2 fd2 fd3 →
  same_but_readers b1 b2 → (∀ x, obank b2 !! x = None → obank b1 !! x = None) →
  is_Some (vbank b1 !! vn) →
  replace_frame vn size val b1 fd1 fd3.
Proof.
  intros HA HB Hsb Hob Hvn. pose proof HA as (A0 & A1 & A2 & A3 & A4).
  pose proof HB as (B0 & B1 & B2 & B3 & B4). split_and!; [done | | | |].
  - intros x o Ho.
    destruct (A1 _ _ Ho) as (o2 & Ho2 & Hc2 & Hout2 & Hp2 & Hn2 & Hs2 & Hv2).
    destruct (B1 _ _ Ho2) as (o3 & Ho3 & Hc3 & Hout3 & Hp3 & Hn3 & Hs3 & Hv3).
    exists o3. split_and!; try congruence.
    + intros slot r Hr Hne. apply Hs3; [| done]. by apply Hs2.
    + intros slot Hslot. destruct (Hv2 _ Hslot) as [H2 | (t & H2 & Ht)].
      * destruct (Hv3 _ H2) as [H3 | (t & H3 & Ht)]; [by left | right].
        exists t. split; [done |]. by eapply reads_const_base.
      * right. exists t. split.
        -- apply Hs3; [done |]. intros [= ->]. destruct Hvn as [? Hvn].
           destruct Ht as [(Ht & _) | (Ht & _)]; congruence.
        -- by eapply reads_const_stable.
  - intros x o3 Ho3 Ho1. destruct (obank fd2 !! x) as [o2|] eqn:Ho2.
    + destruct (A2 _ _ Ho2 Ho1) as (Hc2 & Hin2).
      destruct (B1 _ _ Ho2) as (o3' & Ho3' & Hc3 & _ & _ & Hn3 & Hs3 & _).
      assert (o3' = o3) by congruence. subst o3'. split; [congruence |].
      assert (inrefs o3 = inrefs o2) as ->; [| done].
      apply list_eq_same_length with (numInput o2); [done | done |].
      intros slot r3 r2 Hslot Hr3 Hr2.
      assert (r2 ≠ Some vn).
      { intros ->. apply Hin2. by eapply list_elem_of_lookup_2. }
      rewrite (Hs3 _ _ Hr2) in Hr3 by done. congruence.
    + by apply (B2 x).
  - intros bl. by rewrite B3.
  - by eapply same_but_readers_trans.
Qed.

Lemma reader_has_in_frame vn size val b0 fd fd' x :
  replace_frame vn size val b0 fd fd' → is_Some (obank fd !! x) →
  reader_has_in fd' x = reader_has_in fd x.
Proof.
  intros (_ & A1 & _ & A3 & _) [o Ho].
  destruct (A1 _ _ Ho) as (o' & Ho' & _ & _ & Hp & _).
  unfold reader_has_in. rewrite Ho, Ho', Hp.
  destruct (getParent o) as [bl|]; [| done].
  specialize (A3 bl). destruct (bblocks fd !! bl) as [b|], (bblocks fd' !! bl) as [b'|];
    try done.
  cbn in A3. injection A3 as H1 H2. unfold sizeIn. by rewrite H1, H2.
Qed.

Lemma in_edges_wf_frame vn size val b0 fd fd' :
  replace_frame vn size val b0 fd fd' → in_edges_wf fd → in_edges_wf fd'.
Proof.
  intros (_ & A1 & A2 & A3 & _) Hie op o' bl b' i Ho' Hme Hp Hb' Hi.
  destruct (obank fd !! op) as [o|] eqn:Ho.
  - destruct (A1 _ _ Ho) as (o2 & Ho2 & Hc & _ & Hpa & Hn & _).
    assert (o2 = o') by congruence. subst o2.
    destruct (block_flags_eq fd' fd bl b' (block_flags_sym _ _ A3) Hb')
      as (b & Hb & _ & Hin).
    destruct (Hie op o bl b i Ho ltac:(congruence) ltac:(congruence) Hb ltac:(congruence))
      as (inbl & Hinbl & [ib Hib]).
    exists inbl. split; [congruence |].
    destruct (block_flags_eq fd fd' inbl ib A3 Hib) as (ib' & -> & _). done.
  - destruct (A2 _ _ Ho' Ho) as (Hc & _). congruence.
Qed.

Lemma existsb_eq_on {A} (f g : A → bool) l :
  (∀ x, x ∈ l → f x = g x) → existsb f l = existsb g l.
Proof.
  induction l as [|y l IH]; intros H; [done |]. cbn.
  rewrite (H y) by (by left). rewrite IH; [done |]. intros x Hx. apply H. by right.
Qed.

Lemma descend2Undef_loop vn size : ∀ l fd res,
  undef_inv vn fd l →
  ∃ res' fd',
    foldM (descend2Undef_read vn size) l res fd = Ok res' fd'
    ∧ res' = res || existsb (reader_has_in fd) l
    ∧ undef_inv vn fd' [] ∧ replace_frame vn size 0xBADDEF fd fd fd'
    ∧ dead_kept fd fd'.
Proof.
  induction l as [|x l IH]; intros fd res Hinv.
  { exists res, fd. split_and!; try done; [by rewrite orb_false_r | |].
    - apply replace_frame_refl. by destruct Hinv as (_ & _ & ? & _).
    - by intros x o Ho _. }
  pose proof Hinv as (Hwf & Hie & [v Hv] & Hl & Hcnt).
  pose proof Hwf as (Hr & Hd & Hb & Hfv & Hfo).
  destruct (Hl x ltac:(by left)) as (o & Ho & [bl Hp]).
  destruct Hb as (Hb1 & Hb2). destruct (Hb2 _ _ _ Ho Hp) as (b & Hbb & _).
  cbn [foldM].
  destruct (bl_isDead b) eqn:Hdead.
  - (* a reader in a dead block is passed over *)
    assert (E : descend2Undef_read vn size res x fd = Ok res fd).
    { unfold descend2Undef_read, getParentBlock.
      rewrite (bind_Ok _ _ _ _ _ (getOp_Ok _ _ _ Ho)), Hp, bind_ret_l.
      by rewrite (bind_Ok _ _ _ _ _ (getBlock_Ok _ _ _ Hbb)), Hdead. }
    rewrite (bind_Ok _ _ _ _ _ E).
    destruct (IH fd res) as (res' & fd' & E' & Hres & Hinv' & Hfr & Hdk).
    { split_and!; try done.
      - intros y Hy. apply Hl. by right.
      - intros y oy Hy Hnd. rewrite (Hcnt _ _ Hy Hnd), count_in_cons.
        destruct (decide (x = y)) as [->|Hne]; [| done].
        exfalso. apply Hnd. assert (oy = o) by congruence. subst oy. by exists bl, b. }
    exists res', fd'. split_and!; try done.
    rewrite Hres. cbn [existsb]. unfold reader_has_in at 2. by rewrite Ho, Hp, Hbb, Hdead.
  - assert (Hnd : ¬ dead_in fd o).
    { intros (bl' & b' & Hp' & Hb' & Hd'). congruence. }
    assert (Hin : Some vn ∈ inrefs o).
    { apply count_in_pos. fold (reads o vn). rewrite (Hcnt _ _ Ho Hnd), count_in_cons.
      rewrite decide_True by done. lia. }
    destruct (descend2Undef_read_live fd vn v size res x o bl b Hwf Hie Hv Ho Hp Hbb
                Hdead Hin)
      as (fd1 & t & E & Hwf1 & Ho1 & Hslot & Ht & Hoth & Hnew & Hbl & Hsb).
    assert (Ht0 : vbank fd !! t = None) by (by destruct Ht as [(? & _) | (? & _)]).
    assert (Htv : t ≠ vn) by congruence.
    assert (Hfr1 : replace_frame vn size 0xBADDEF fd fd fd1).
    { split_and!; try done.
      - intros y oy Hy. destruct (decide (y = x)) as [->|Hne].
        + assert (oy = o) by congruence. subst oy. eexists. split; [exact Ho1 |].
          split_and!; try done.
          * unfold numInput. cbn. by rewrite length_insert.
          * cbn. intros slot r Hs Hrne.
            rewrite list_lookup_insert_ne; [done |]. intros <-. congruence.
          * cbn. intros slot Hs. destruct (decide (slot = getSlot o vn)) as [->|Hsl].
            -- right. exists t. split; [| done]. apply list_lookup_insert_eq.
               by apply lookup_lt_Some in Hs.
            -- left. by rewrite list_lookup_insert_ne.
        + exists oy. split_and!; try done; [by apply Hoth |]. intros slot Hs. by left.
      - intros y oy' Hy' Hy. destruct (Hnew _ _ Hy' Hy) as (Hc & Hfresh).
        split; [done |]. intros Hvin. rewrite (Hfresh _ Hvin) in Hv. done. }
    rewrite (bind_Ok _ _ _ _ _ E).
    assert (Hdk1 : dead_kept fd fd1).
    { intros y oy Hy Hdd. destruct (decide (y = x)) as [->|Hne]; [| by apply Hoth].
      assert (oy = o) by congruence. by subst oy. }
    destruct (IH fd1 (if decide (sizeIn b ≠ 0%nat) then true else res))
      as (res' & fd' & E' & Hres & Hinv' & Hfr & Hdk).
    { split_and!; try done.
      - by eapply in_edges_wf_frame.
      - destruct (Hsb _ _ Hv) as (v' & -> & _). done.
      - intros y Hy. destruct (Hl y ltac:(by right)) as (oy & Hoy & Hpy).
        destruct Hfr1 as (_ & A1 & _).
        destruct (A1 _ _ Hoy) as (oy' & Hoy' & _ & _ & Hp' & _).
        exists oy'. split; [done |]. by rewrite Hp'.
      - intros y oy' Hy' Hnd'.
        destruct (obank fd !! y) as [oy|] eqn:Hy.
        + destruct (decide (y = x)) as [->|Hne].
          * assert (oy = o) by congruence. subst oy.
            rewrite Ho1 in Hy'. injection Hy' as <-.
            change (count_in (Some vn) (<[getSlot o vn := Some t]> (inrefs o))
                    = count_in x l).
            pose proof (count_in_insert (Some vn) (inrefs o) (getSlot o vn) (Some vn)
                          (Some t) Hslot) as Hci.
            rewrite decide_True in Hci by done.
            rewrite decide_False in Hci by congruence.
            pose proof (Hcnt _ _ Ho Hnd) as Hc0. unfold reads in Hc0.
            rewrite count_in_cons, decide_True in Hc0 by done. lia.
          * rewrite (Hoth _ _ Hne Hy) in Hy'. injection Hy' as <-.
            rewrite (Hcnt _ _ Hy), count_in_cons, decide_False by
              (try done; intros Hdd; apply Hnd'; by apply (dead_in_frame fd fd1 oy oy)).
            done.
        + destruct (Hnew _ _ Hy' Hy) as (_ & Hfresh).
          assert (Hz : reads oy' vn = 0%nat).
          { apply count_in_zero. intros Hvin. rewrite (Hfresh _ Hvin) in Hv. done. }
          rewrite Hz. symmetry. apply count_in_zero. intros Hyl.
          destruct (Hl y ltac:(by right)) as (? & ? & _). congruence. }
    exists res', fd'. split_and!; try done.
    + rewrite Hres. cbn [existsb]. unfold reader_has_in at 2. rewrite Ho, Hp, Hbb, Hdead.
      rewrite (existsb_eq_on (reader_has_in fd1) (reader_has_in fd)).
      * destruct (decide (sizeIn b ≠ 0%nat)) as [Hs|Hs].
        -- apply Nat.eqb_neq in Hs. rewrite Hs. cbn. by rewrite orb_true_r.
        -- assert (sizeIn b = 0%nat) as -> by lia. done.
      * intros y Hy. apply (reader_has_in_frame vn size 0xBADDEF fd); [done |].
        destruct (Hl y ltac:(by right)) as (? & -> & _). done.
    + eapply replace_frame_trans; [exact Hfr1 | exact Hfr | by destruct Hfr1 as (_&_&_&_&?)
                                 | | by exists v].
      intros y. by apply (replace_frame_ops fd fd fd1 vn size 0xBADDEF).
    + intros y oy Hy Hdd. apply Hdk; [by apply Hdk1 |].
      destruct Hfr1 as (_ & _ & _ & A3 & _). by apply (dead_in_frame fd fd1 oy oy).
Qed.

(** X23: in a consistent store where every reader of the Varnode stands
    in a block, [Funcdata::descend2Undef] succeeds and leaves the store
    consistent. Outside the dead blocks no op reads the Varnode any more:
    each slot that read it reads a new constant [0xBADDEF] of its size,
    or the output of a new COPY of such a constant; every other slot,
    and every op of a dead block, is as before, and the new ops are
    COPYs. The result is true exactly when a reader stands in a block
    that is not dead and has an in-edge. *)
Theorem descend2Undef_replaces_live_reads (fd : Funcdata) (vn : nat) (v : Varnode) :
  readers_wf fd → defs_wf fd → blocks_wf fd → vbank_fresh fd → obank_fresh fd →
  in_edges_wf fd →
  vbank fd !! vn = Some v →
  (∀ op o, op ∈ descend v → obank fd !! op = Some o → is_Some (getParent o)) →
  ∃ res fd' v',
    descend2Undef vn fd = Ok res fd'
    ∧ res = existsb (reader_has_in fd) (descend v)
    ∧ readers_wf fd' ∧ defs_wf fd' ∧ blocks_wf fd'
    ∧ vbank fd' !! vn = Some v'
    ∧ (∀ op o', op ∈ descend v' → obank fd' !! op = Some o' → dead_in fd' o')
    ∧ (∀ op o, obank fd !! op = Some o →
         ∃ o', obank fd' !! op = Some o'
               ∧ code o' = code o ∧ getOut o' = getOut o
               ∧ getParent o' = getParent o ∧ numInput o' = numInput o
               ∧ (dead_in fd o → o' = o)
               ∧ (∀ slot r, inrefs o !! slot = Some r → r ≠ Some vn →
                    inrefs o' !! slot = Some r)
               ∧ (¬ dead_in fd o → ∀ slot, inrefs o !! slot = Some (Some vn) →
                    ∃ t, inrefs o' !! slot = Some (Some t)
                         ∧ reads_const fd fd' (getSize v) 0xBADDEF t))
    ∧ (∀ op o', obank fd' !! op = Some o' → obank fd !! op = None →
         code o' = CPUI_COPY).
Proof.
  intros Hr Hd Hb Hfv Hfo Hie Hv Hpar.
  destruct (descend2Undef_loop vn (getSize v) (descend v) fd false)
    as (res & fd' & E & Hres & Hinv & Hfr & Hdk).
  { split_and!; try done.
    - intros x Hx. destruct Hr as (_ & _ & Hos).
      destruct (Hos _ _ _ Hv Hx) as [o Ho]. exists o. split; [done |]. by eapply Hpar.
    - intros x o Ho _. symmetry. by apply Hr. }
  destruct Hinv as ((Hr' & Hd' & Hb' & _ & _) & _ & [v' Hv'] & _ & Hcnt).
  pose proof Hfr as (_ & A1 & A2 & A3 & A4).
  assert (Hlive : ∀ op o', obank fd' !! op = Some o' → ¬ dead_in fd' o' →
            Some vn ∉ inrefs o').
  { intros op o' Ho' Hnd. apply count_in_zero. fold (reads o' vn).
    by rewrite (Hcnt _ _ Ho' Hnd). }
  exists res, fd', v'. split_and!; try done.
  - unfold descend2Undef. by rewrite (bind_Ok _ _ _ _ _ (getVn_Ok _ _ _ Hv)).
  - intros op o' Hop Ho'.
    assert (Hrd : Some vn ∈ inrefs o').
    { apply count_in_pos. fold (reads o' vn). destruct Hr' as (Hc' & _).
      rewrite <- (Hc' _ _ _ _ Ho' Hv'). by apply count_in_pos. }
    destruct (getParent o') as [bl|] eqn:Hp.
    + destruct Hb' as (_ & Hb2'). destruct (Hb2' _ _ _ Ho' Hp) as (b & Hbb & _).
      destruct (bl_isDead b) eqn:Hdead; [by exists bl, b |].
      exfalso. apply (Hlive op o' Ho'); [| done].
      intros (bl' & b' & Hp' & Hb'' & Hd''). congruence.
    + exfalso. apply (Hlive op o' Ho'); [| done].
      intros (bl' & b' & Hp' & _). congruence.
  - intros op o Ho.
    destruct (A1 _ _ Ho) as (o' & Ho' & Hc & Hout & Hp & Hn & Hs & Hvs).
    exists o'. split_and!; try done.
    { intros Hdd. pose proof (Hdk _ _ Ho Hdd). congruence. }
    intros Hnd slot Hslot. destruct (Hvs _ Hslot) as [Hstill | Hrep]; [| done].
    exfalso. apply (Hlive op o' Ho').
    + intros Hdead. apply Hnd.
      by apply (dead_in_frame fd' fd o' o); [apply block_flags_sym | |].
    + by eapply list_elem_of_lookup_2.
  - intros op o' Ho' Ho. by destruct (A2 _ _ Ho' Ho).
Qed.

Lemma ex_diamond_in_edges_wf : in_edges_wf ex_diamond.
Proof.
  intros op o bl b i Ho Hme Hp Hb Hi. unfold ex_diamond in *.
  rewrite mkStore_obank in Ho. rewrite mkStore_bblocks in Hb.
  destruct op as [|[|[|[|op]]]]; cbn in Ho; try done; injection Ho as <-;
    cbn in Hme; try done.
  cbn in Hp. injection Hp as <-. cbn in Hb. injection Hb as <-.
  unfold numInput in Hi. cbn in Hi.
  destruct i as [|[|i]]; [| | lia];
    (eexists; split; [reflexivity |]; rewrite mkStore_bblocks; by eexists).
Qed.

Lemma descend2Undef_replaces_live_reads_witness :
  ∃ fd' v',
    descend2Undef 0 ex_diamond = Ok true fd'
    ∧ readers_wf fd' ∧ defs_wf fd' ∧ blocks_wf fd'
    ∧ vbank fd' !! 0%nat = Some v'.
Proof.
  destruct (descend2Undef_replaces_live_reads ex_diamond 0
              (vnode 4 (reg 0) (Some 0%nat) [1%nat; 2%nat]))
    as (res & fd' & v' & E & Hres & Hr & Hd & Hb & Hv & _);
    [apply ex_diamond_readers_wf | apply ex_diamond_defs_wf | apply ex_diamond_blocks_wf
    | intros j; apply mkStore_vbank_fresh | | apply ex_diamond_in_edges_wf
    | reflexivity | |].
  - intros j Hj. unfold ex_diamond. rewrite mkStore_obank. apply lookup_ge_None_2.
    exact Hj.
  - intros op o Hop Ho. unfold ex_diamond in Ho. rewrite mkStore_obank in Ho.
    repeat (apply elem_of_cons in Hop as [-> | Hop];
            [cbn in Ho; injection Ho as <-; by eexists |]).
    by apply elem_of_nil in Hop.
  - exists fd', v'. rewrite E, Hres. by split_and!.
Defined.

(** * The marks of [AncestorRealistic] *)

Lemma after_run {A} (c : M A) fd (Q : A → Funcdata → Prop) a fd' :
  after c fd Q → c fd = Ok a fd' → Q a fd'.
Proof. intros H E. unfold after in H. by rewrite E in H. Qed.

Lemma after_bind {A B} (c : M A) (k : A → M B) fd Q :
  after c fd (fun a fd' => after (k a) fd' Q) → after (bind c k) fd Q.
Proof. unfold after, bind. by destruct (c fd). Qed.

Lemma after_ret {A} (a : A) fd (Q : A → Funcdata → Prop) : Q a fd → after (ret a) fd Q.
Proof. done. Qed.

Lemma after_throw {A} e fd (Q : A → Funcdata → Prop) : after (throw e) fd Q.
Proof. done. Qed.

Lemma after_mono {A} (c : M A) fd (Q Q' : A → Funcdata → Prop) :
  after c fd Q → (∀ a fd', Q a fd' → Q' a fd') → after c fd Q'.
Proof. unfold after. destruct (c fd); eauto. Qed.

Lemma keeps_store_readonly {A} (c : M A) : readonly c → keeps_store c.
Proof. intros H fd. specialize (H fd). unfold post in H. unfold after. by destruct (c fd). Qed.

Lemma keeps_store_bind {A B} (c : M A) (k : A → M B) :
  keeps_store c → (∀ a, keeps_store (k a)) → keeps_store (bind c k).
Proof.
  intros Hc Hk fd. apply after_bind. eapply after_mono; [apply Hc |].
  intros a fd' ->. apply Hk.
Qed.

Lemma keeps_store_ret {A} (a : A) : keeps_store (ret a).
Proof. by intros fd. Qed.

Lemma keeps_store_throw {A} e : keeps_store (@throw A e).
Proof. by intros fd. Qed.

Lemma keeps_store_getBlock bl : keeps_store (getBlock bl).
Proof. intros fd. unfold after, getBlock. by destruct (bblocks fd !! bl). Qed.

(** Decomposes a goal [keeps_store c] along the structure of [c]. *)
Ltac keeps_step :=
  first
    [ apply keeps_store_ret
    | apply keeps_store_throw
    | apply keeps_store_getBlock
    | apply keeps_store_readonly; repeat readonly_step; fail
    | apply keeps_store_bind; [| intros ?]
    | match goal with
      | |- keeps_store (if ?b then _ else _) => destruct b
      | |- keeps_store (match ?x with _ => _ end) => destruct x
      end ].

Lemma keeps_store_enterNode_copies fuel : ∀ op, keeps_store (enterNode_copies fuel op).
Proof.
  induction fuel as [|fuel IH]; intros op; cbn [enterNode_copies];
    [apply keeps_store_throw |].
  repeat first [apply IH | keeps_step].
Qed.

Lemma keeps_store_State_new o s : keeps_store (State_new o s).
Proof. unfold State_new. repeat keeps_step. Qed.

Lemma keeps_store_checkConditionalExe state : keeps_store (checkConditionalExe state).
Proof.
  unfold checkConditionalExe, getParentBlock, BlockBasic_getIn.
  repeat keeps_step.
Qed.

Lemma keepQ_bind {A B} (c : M A) (k : A → M B) fd (Q : B → Prop) :
  keeps_store c →
  (∀ a, after (k a) fd (fun b fd' => fd' = fd ∧ Q b)) →
  after (bind c k) fd (fun b fd' => fd' = fd ∧ Q b).
Proof.
  intros Hc Hk. apply after_bind. eapply after_mono; [apply Hc |].
  intros a fd' ->. apply Hk.
Qed.

(** Decomposes a goal [after c fd (fun b fd' => fd' = fd ∧ Q b)]. *)
Ltac keepQ_step :=
  first
    [ apply after_ret; split; reflexivity
    | apply after_throw
    | apply keepQ_bind;
        [ repeat first [ apply keeps_store_enterNode_copies
                       | apply keeps_store_State_new
                       | apply keeps_store_checkConditionalExe
                       | keeps_step ]; fail
        | intros ? ]
    | match goal with
      | |- after (if ?b then _ else _) _ _ => destruct b
      | |- after (match ?x with _ => _ end) _ _ => destruct x
      end ].

(** [enterNode] marks the Varnode it enters, which was not marked, and
    records it; it changes nothing else. *)
Lemma enterNode_marks fd0 fuel ar fd :
  marked_from fd0 fd (markedVn ar) →
  after (enterNode fuel ar) fd (fun r fd' => marked_from fd0 fd' (markedVn r.2)).
Proof.
  intros Hm. unfold enterNode. destruct (stateStack ar) as [|state rest];
    [apply after_throw |].
  apply after_bind. destruct (State.vn state) as [vn|]; [| apply after_throw].
  apply after_ret. apply after_bind. unfold after at 1, getVn.
  destruct (vbank fd !! vn) as [v|] eqn:Hv; [| done].
  destruct (isMark v) eqn:Hmk; [by apply after_ret |].
  destruct (getDef v) as [opp|].
  2: { repeat (match goal with |- after (if ?b then _ else _) _ _ => destruct b end);
       by apply after_ret. }
  apply after_bind. unfold after at 1, mark.
  rewrite (bind_Ok _ _ _ _ _ (modVn_Ok _ _ _ _ Hv)). cbn [ret].
  set (fd1 := set_vbank (insert vn (vn_setMark v)) fd).
  set (ar1 := ar_setMarkedVn (markedVn ar ++ [vn]) ar).
  apply after_mono with (Q := fun r fd' => fd' = fd1 ∧ markedVn r.2 = markedVn ar1).
  - repeat keepQ_step.
  - intros r fd' [-> ->]. by apply marked_from_snoc.
Qed.

(** [uponPop] changes neither the store nor the list of marked Varnodes. *)
Lemma uponPop_keeps ar c fd :
  after (uponPop ar c) fd (fun r fd' => fd' = fd ∧ markedVn r.2 = markedVn ar).
Proof.
  unfold uponPop. destruct (stateStack ar) as [|state below]; [apply after_throw |].
  repeat keepQ_step.
Qed.

Lemma execute_loop_marks fd0 : ∀ fuel c ar fd,
  marked_from fd0 fd (markedVn ar) →
  after (execute_loop fuel c ar) fd (fun r fd' => marked_from fd0 fd' (markedVn r.2)).
Proof.
  induction fuel as [|fuel IH]; intros c ar fd Hm.
  - cbn [execute_loop]. destruct (stateStack ar); [by apply after_ret | apply after_throw].
  - cbn [execute_loop]. destruct (stateStack ar) eqn:Hst; [by apply after_ret |].
    apply after_bind.
    assert (Hstep : after (match c with
                          | enter_node => enterNode (S fuel) ar
                          | _ => uponPop ar c
                          end) fd
                      (fun r fd' => marked_from fd0 fd' (markedVn r.2))).
    { destruct c; try (by apply enterNode_marks);
        (eapply after_mono; [apply uponPop_keeps |]; intros r fd' [-> ->]; exact Hm). }
    eapply after_mono; [exact Hstep |]. intros r fd' Hm'. by apply IH.
Qed.

Lemma marked_from_nil fd : marked_from fd fd [].
Proof.
  split_and!; try done.
  - apply NoDup_nil_2.
  - intros x Hx. by apply elem_of_nil in Hx.
  - by destruct fd.
Qed.

(** X24: [AncestorRealistic::execute] takes back the marks it leaves
    along the way: when it returns, the store is the one it was given. *)
Theorem execute_restores_store (fd : Funcdata) (fuel : nat) (op : nat) (slot : nat)
    (t : ParamTrial) (allowFail : bool) (r : bool * ParamTrial) (fd' : Funcdata) :
  execute fuel op slot t allowFail fd = Ok r fd' → fd' = fd.
Proof.
  intros E.
  assert (H : after (execute fuel op slot t allowFail) fd (fun _ fd' => fd' = fd)).
  { unfold execute. apply after_bind.
    eapply after_mono; [apply keeps_store_readonly, readonly_getInVn |].
    intros vn fd1 ->. apply after_bind.
    eapply after_mono; [apply keeps_store_readonly, readonly_getVn |].
    intros v fd1 ->. destruct (isInput v && negb (hasCondExeEffect t));
      [by apply after_ret |].
    apply after_bind. eapply after_mono; [apply keeps_store_State_new |].
    intros s fd1 ->. apply after_bind.
    eapply after_mono; [apply (execute_loop_marks fd), marked_from_nil |].
    intros res fd1 Hm. apply after_bind. unfold after at 1.
    rewrite (clearMarks_restores fd (markedVn res.2) fd1 Hm).
    destruct (_ && _); by apply after_ret. }
  exact (after_run _ _ _ _ _ H E).
Qed.

Lemma execute_restores_store_witness :
  ∃ t', execute 20 7 1 ex_trial true ex_nested = Ok (true, t') ex_nested.
Proof.
  destruct (execute 20 7 1 ex_trial true ex_nested) as [r fd'|e] eqn:E.
  - rewrite (execute_restores_store ex_nested 20 7 1 ex_trial true r fd' E).
    vm_compute in E. injection E as <- _. by eexists.
  - vm_compute in E. discriminate E.
Defined.

(** * Truncating the data-flow through an INDIRECT *)

(** X25: [Funcdata::truncateIndirect] on an INDIRECT with an output makes
    the op an indirect creation whose input 0 is a new constant zero of
    the size of the output, flagged as indirectly created like the
    output; the reader lists stay exact. [AncestorRealistic::enterNode]
    on the output, if it is not marked, then marks it, records the
    indirect creation in the trial and answers [pop_failkill]. *)
Theorem truncateIndirect_stops_ancestor_walk (fd : Funcdata) (indop : nat)
    (o : PcodeOp) (out : nat) (ov : Varnode) :
  readers_wf fd → vbank_fresh fd →
  obank fd !! indop = Some o → code o = CPUI_INDIRECT → (0 < numInput o)%nat →
  getOut o = Some out → vbank fd !! out = Some ov →
  getDef ov = Some indop → isMark ov = false →
  ∃ fd' o' c ov',
    truncateIndirect indop fd = Ok tt fd'
    ∧ readers_wf fd'
    ∧ obank fd' !! indop = Some o'
    ∧ isIndirectCreation o' = true
    ∧ inrefs o' = <[0%nat := Some (vbank_create_index fd)]> (inrefs o)
    ∧ vbank fd !! vbank_create_index fd = None
    ∧ vbank fd' !! vbank_create_index fd = Some c
    ∧ getSize c = getSize ov ∧ vn_getOffset c = 0 ∧ isIndirectZero c = true
    ∧ vbank fd' !! out = Some ov'
    ∧ vn_hasFlag Varnode_indirect_creation ov' = true
    ∧ (∀ fuel ar st rest,
         stateStack ar = st :: rest → State.vn st = Some out →
         ∃ fd'' ar',
           enterNode fuel ar fd' = Ok (pop_failkill, ar') fd''
           ∧ hasIndCreateFormed (trial ar') = true
           ∧ markedVn ar' = markedVn ar ++ [out]).
Proof.
  intros Hr Hfv Ho Hcode Hn Hout Hov Hdef Hmark.
  destruct (newConstant_run fd (getSize ov) 0)
    as (c0 & E1 & Hcsz & Hcloc & Hcdef & Hcdesc & Hcfl & _).
  set (newin := vbank_create_index fd) in *.
  assert (Hnew : vbank fd !! newin = None) by (apply Hfv; unfold newin; lia).
  assert (Hne : out ≠ newin) by congruence.
  set (fd1 := fd_new_vn fd c0) in *.
  pose proof (readers_wf_new_vn fd c0 Hr Hnew Hcdesc) as Hr1.
  pose proof (vbank_fresh_new_vn fd c0 Hfv) as Hfv1. fold fd1 in Hr1, Hfv1.
  set (o2 := op_setFlags {[PcodeOp_indirect_creation]} o).
  set (fd2 := set_obank (insert indop o2) fd1).
  assert (Hr2 : readers_wf fd2).
  { eapply readers_wf_ext; [exact Hr1 | | done]. intros x. unfold fd2. store_simpl.
    destruct (decide (x = indop)) as [->|Hx].
    - rewrite lookup_insert_eq. change (obank fd1) with (obank fd). by rewrite Ho.
    - by rewrite lookup_insert_ne. }
  set (c1 := vn_setFlags {[Varnode_indirect_creation]} c0).
  set (fd3 := set_vbank (insert newin c1) fd2).
  assert (Hc2 : vbank fd2 !! newin = Some c0).
  { unfold fd2, fd1, fd_new_vn. store_simpl. by rewrite lookup_insert_eq. }
  pose proof (readers_wf_flags fd2 newin c0 c1 Hr2 Hc2 eq_refl) as Hr3.
  pose proof (vbank_fresh_insert fd2 newin c0 c1 Hfv1 Hc2) as Hfv3. fold fd3 in Hr3, Hfv3.
  set (ov4 := vn_setFlags {[Varnode_indirect_creation]} ov).
  set (fd4 := set_vbank (insert out ov4) fd3).
  assert (Hov3 : vbank fd3 !! out = Some ov).
  { unfold fd3, fd2, fd1, fd_new_vn. store_simpl. by rewrite !lookup_insert_ne. }
  pose proof (readers_wf_flags fd3 out ov ov4 Hr3 Hov3 eq_refl) as Hr4.
  pose proof (vbank_fresh_insert fd3 out ov ov4 Hfv3 Hov3) as Hfv4. fold fd4 in Hr4, Hfv4.
  assert (Ho4 : obank fd4 !! indop = Some o2).
  { unfold fd4, fd3, fd2. store_simpl. by rewrite lookup_insert_eq. }
  assert (Hc4 : vbank fd4 !! newin = Some c1).
  { unfold fd4, fd3. store_simpl. rewrite lookup_insert_ne by done.
    by rewrite lookup_insert_eq. }
  destruct (lookup_lt_is_Some_2 (inrefs o2) 0 Hn) as [cur Hcur].
  destruct (opSetInput_run_general fd4 indop o2 newin c1 0 cur Hr4 Hfv4 Ho4 Hcur Hc4)
    as (fd5 & o5 & t & tv & E5 & Hr5 & _ & Ho5 & Hin5 & _ & _ & _ & Ht & Htsz & Htoff
        & Htc & _ & Hdup & _ & _ & Heq5 & Hsb5 & _).
  assert (t = newin).
  { unfold c1 in Hdup. unfold hasNoDescend in Hdup. store_simpl. rewrite Hcdesc in Hdup.
    cbn in Hdup. by rewrite andb_false_r in Hdup. }
  subst t.
  assert (Hov4 : vbank fd4 !! out = Some ov4).
  { unfold fd4. store_simpl. by rewrite lookup_insert_eq. }
  destruct (Hsb5 _ _ Hov4) as (ov5 & Hov5 & Eov).
  apply same_fields in Eov as (_ & _ & Hfl5 & Hdef5).
  destruct (Hsb5 _ _ Hc4) as (c5 & Hc5 & Ec).
  assert (c5 = tv) by congruence. subst c5.
  apply same_fields in Ec as (Hs5 & Hl5 & Hf5 & _).
  assert (Hzero : isIndirectZero tv = true).
  { unfold isIndirectZero, vn_hasFlag, isConstant. rewrite Hf5, Hl5. unfold c1.
    store_simpl. rewrite Hcloc. cbn.
    rewrite bool_decide_eq_true_2 by set_solver. done. }
  exists fd5, o5, tv, ov5. split_and!; try done.
  - unfold truncateIndirect.
    rewrite (bind_Ok _ _ _ _ _ (getOp_Ok _ _ _ Ho)), Hout, bind_ret_l.
    rewrite (bind_Ok _ _ _ _ _ (getVn_Ok _ _ _ Hov)), (bind_Ok _ _ _ _ _ E1).
    assert (Ho1 : obank fd1 !! indop = Some o) by exact Ho.
    rewrite (bind_Ok _ _ _ _ _ (modOp_Ok _ _ _ _ Ho1)). fold o2 fd2.
    rewrite (bind_Ok _ _ _ _ _ (modVn_Ok _ _ _ _ Hc2)). fold c1 fd3.
    rewrite (bind_Ok _ _ _ _ _ (modVn_Ok _ _ _ _ Hov3)). fold ov4 fd4.
    exact E5.
  - rewrite Heq5. unfold isIndirectCreation, op_hasFlag, o2. store_simpl.
    apply bool_decide_eq_true_2. set_solver.
  - rewrite Hs5. unfold c1. store_simpl. done.
  - unfold vn_getOffset. rewrite Hl5. unfold c1. store_simpl. by rewrite Hcloc.
  - unfold vn_hasFlag. rewrite Hfl5. unfold ov4. store_simpl.
    apply bool_decide_eq_true_2. set_solver.
  - intros fuel ar st rest Hst Hvn.
    assert (Hm5 : isMark ov5 = false).
    { unfold isMark, vn_hasFlag in *. rewrite Hfl5. unfold ov4. store_simpl.
      apply bool_decide_eq_false_2. apply bool_decide_eq_false in Hmark. set_solver. }
    assert (Hd5 : getDef ov5 = Some indop) by (by rewrite Hdef5).
    set (fd6 := set_vbank (insert out (vn_setMark ov5)) fd5).
    set (ar1 := ar_setMarkedVn (markedVn ar ++ [out]) ar).
    exists fd6, (ar_setTrial (trial_setIndCreateFormed (trial ar1)) ar1).
    split; [| done].
    unfold enterNode. rewrite Hst, Hvn, bind_ret_l.
    rewrite (bind_Ok _ _ _ _ _ (getVn_Ok _ _ _ Hov5)), Hm5, Hd5.
    unfold mark. rewrite bind_assoc, (bind_Ok _ _ _ _ _ (modVn_Ok _ _ _ _ Hov5)).
    rewrite bind_ret_l. fold fd6 ar1.
    assert (Ho6 : obank fd6 !! indop = Some o5) by exact Ho5.
    rewrite (bind_Ok _ _ _ _ _ (getOp_Ok _ _ _ Ho6)).
    assert (Hc6 : code o5 = CPUI_INDIRECT) by (by rewrite Heq5).
    rewrite Hc6.
    assert (Hic : isIndirectCreation o5 = true).
    { rewrite Heq5. unfold isIndirectCreation, op_hasFlag, o2. store_simpl.
      apply bool_decide_eq_true_2. set_solver. }
    rewrite Hic.
    assert (E0 : getInVn indop 0 fd6 = Ok newin fd6).
    { unfold getInVn, getIn. rewrite bind_assoc, (bind_Ok _ _ _ _ _ (getOp_Ok _ _ _ Ho6)).
      rewrite Hin5, list_lookup_insert_eq by done. done. }
    rewrite (bind_Ok _ _ _ _ _ E0).
    assert (Ht6 : vbank fd6 !! newin = Some tv).
    { unfold fd6. store_simpl. by rewrite lookup_insert_ne. }
    by rewrite (bind_Ok _ _ _ _ _ (getVn_Ok _ _ _ Ht6)), Hzero.
Qed.

Lemma truncateIndirect_stops_ancestor_walk_witness :
  ∃ fd' fd'' ar',
    truncateIndirect 2 ex_diamond = Ok tt fd'
    ∧ readers_wf fd'
    ∧ enterNode 1 (mkAncestorRealistic ex_trial [State.mk 3 (Some 5%nat) 0 0] [] 0 false)
        fd' = Ok (pop_failkill, ar') fd''
    ∧ markedVn ar' = [5%nat].
Proof.
  destruct (truncateIndirect_stops_ancestor_walk ex_diamond 2
              (liveop CPUI_INDIRECT (Some 5%nat) [Some 0%nat; Some 4%nat] 3 2) 5
              (vnode 4 (reg 0) (Some 2%nat) []))
    as (fd' & o' & c & ov' & E & Hr & _ & _ & _ & _ & _ & _ & _ & _ & _ & _ & Hwalk);
    [apply ex_diamond_readers_wf | intros j; apply mkStore_vbank_fresh | reflexivity
    | reflexivity | cbn; lia | reflexivity | reflexivity | reflexivity | reflexivity |].
  destruct (Hwalk 1%nat
              (mkAncestorRealistic ex_trial [State.mk 3 (Some 5%nat) 0 0] [] 0 false)
              (State.mk 3 (Some 5%nat) 0 0) [] eq_refl eq_refl)
    as (fd'' & ar' & Hen & _ & Hm).
  by exists fd', fd'', ar'.
Defined.

(** * [totalReplaceConstant] *)

Lemma store_wf_new_op fd n pc : store_wf fd → store_wf (fd_new_op fd n pc).
Proof.
  intros (Hr & Hd & Hb & Hfv & Hfo).
  destruct (new_op_wf fd n pc Hfo Hr Hd Hb) as (? & ? & ? & ?). by split_and!.
Qed.

Lemma store_wf_modOp fd op o o' :
  store_wf fd → obank fd !! op = Some o →
  inrefs o' = inrefs o → getOut o' = getOut o → getParent o' = getParent o →
  store_wf (set_obank (insert op o') fd).
Proof.
  intros (Hr & Hd & Hb & Hfv & Hfo) Ho Hi Hout Hp.
  destruct (modOp_links_wf fd op o o' Ho Hi Hout Hp) as (Hr' & Hd' & Hb').
  split_and!; [by apply Hr' | by apply Hd' | by apply Hb' | done |].
  intros j Hj. store_simpl.
  change (obank_uniqid (set_obank (insert op o') fd)) with (obank_uniqid fd) in Hj.
  rewrite lookup_insert_ne; [by apply Hfo |].
  intros <-. rewrite (Hfo _ Hj) in Ho. done.
Qed.

Lemma newUniqueOut_store_wf fd s op o :
  store_wf fd → obank fd !! op = Some o → getOut o = None →
  ∃ fd' uv,
    newUniqueOut s op fd = Ok (vbank_create_index fd) fd'
    ∧ store_wf fd'
    ∧ vbank fd !! vbank_create_index fd = None
    ∧ vbank fd' !! vbank_create_index fd = Some uv
    ∧ getSize uv = s ∧ isConstant uv = false ∧ getDef uv = Some op
    ∧ obank fd' !! op = Some (op_setOut (Some (vbank_create_index fd)) o)
    ∧ (∀ x, x ≠ op → obank fd' !! x = obank fd !! x)
    ∧ bblocks fd' = bblocks fd
    ∧ same_but_readers fd fd'.
Proof.
  intros (Hr & Hd & Hb & Hfv & Hfo) Ho Hout.
  destruct (newUniqueOut_keeps fd s op o Hr Hd Hfv Ho)
    as (fd3 & uv & o3 & E3 & Hvn & Huv & Hsz & Hloc & Hdef & _ & Ho3 & Hout3 & Hin3
        & _ & Hr3 & Hfv3 & Hd3 & Heq3 & Hoth3 & Hvoth3 & Hbl3).
  pose proof (post_run _ _ _ _ _ (keeps_ouid_newUniqueOut s op fd) E3) as Hu3.
  cbn in Hu3.
  exists fd3, uv. split; [done |]. split.
  { split_and!; try done.
    - by apply Hd3.
    - eapply blocks_wf_ext; [exact Hb | | by rewrite Hbl3]. intros x.
      destruct (decide (x = op)) as [->|Hx]; [| by rewrite Hoth3].
      rewrite Ho3, Ho. cbn. by rewrite Heq3.
    - intros j Hj. rewrite Hu3 in Hj. rewrite Hoth3; [by apply Hfo |].
      intros ->. rewrite (Hfo _ Hj) in Ho. done. }
  split_and!; try done.
  - unfold isConstant. by rewrite Hloc.
  - by rewrite Ho3, Heq3.
  - intros x xv Hx. exists xv. split; [| done]. rewrite Hvoth3; [done |].
    intros ->. congruence.
Qed.

(** The COPY of the constant that the marker ops are made to read: a new
    op with a new temporary as output, not yet in a block. *)
Lemma const_copy_run {A} fd size val addr (k : opptr → vnptr → M A) :
  store_wf fd →
  ∃ fd' co t uv tv,
    (copyop <- newOp 1 addr ;;
     opSetOpcode copyop CPUI_COPY ;;
     newrep <- newUniqueOut size copyop ;;
     c <- newConstant size val ;;
     opSetInput copyop c 0 ;;
     k copyop newrep) fd
    = k (obank_uniqid fd) (vbank_create_index fd) fd'
    ∧ store_wf fd'
    ∧ obank fd !! obank_uniqid fd = None
    ∧ obank fd' !! obank_uniqid fd = Some co
    ∧ code co = CPUI_COPY ∧ inrefs co = [Some t]
    ∧ getOut co = Some (vbank_create_index fd) ∧ getParent co = None
    ∧ (∀ x, x ≠ obank_uniqid fd → obank fd' !! x = obank fd !! x)
    ∧ bblocks fd' = bblocks fd
    ∧ same_but_readers fd fd'
    ∧ vbank fd !! vbank_create_index fd = None
    ∧ vbank fd' !! vbank_create_index fd = Some uv
    ∧ isConstant uv = false ∧ getSize uv = size
    ∧ getDef uv = Some (obank_uniqid fd)
    ∧ vbank fd !! t = None
    ∧ vbank fd' !! t = Some tv
    ∧ getSize tv = size ∧ vn_getOffset tv = val ∧ isConstant tv = true.
Proof.
  intros Hwf. pose proof Hwf as (Hr & Hd & Hb & Hfv & Hfo).
  set (n := obank_uniqid fd). set (u := vbank_create_index fd).
  assert (Hnew : obank fd !! n = None) by (apply Hfo; unfold n; lia).
  pose proof (store_wf_new_op fd 1 addr Hwf) as Hwf2.
  set (fd2 := fd_new_op fd 1 addr) in *.
  set (o1 := mkPcodeOp CPUI_COPY {[PcodeOp_dead]} None (replicate 1 None) None
               (mkSeqNum addr n 0)).
  assert (Ho1 : obank fd2 !! n = Some o1).
  { unfold fd2, fd_new_op. store_simpl. by rewrite lookup_insert_eq. }
  set (o3 := op_setCode CPUI_COPY o1).
  pose proof (store_wf_modOp fd2 n o1 o3 Hwf2 Ho1 eq_refl eq_refl eq_refl) as Hwf3.
  set (fd3 := set_obank (insert n o3) fd2) in *.
  assert (Ho3 : obank fd3 !! n = Some o3).
  { unfold fd3. store_simpl. by rewrite lookup_insert_eq. }
  destruct (newUniqueOut_store_wf fd3 size n o3 Hwf3 Ho3 eq_refl)
    as (fd4 & uv & E4 & Hwf4 & Hu & Huv & Husz & Huc & Hudef & Ho4 & Hoth4 & Hbl4 & Hsb4).
  change (vbank_create_index fd3) with u in *.
  change (vbank fd3) with (vbank fd) in Hu.
  destruct (newConstant_run fd4 size val) as (c0 & E5 & Hcsz & Hcloc & Hcdef & Hcdesc & _).
  pose proof (store_wf_new_vn fd4 c0 Hwf4 Hcdesc Hcdef) as Hwf5.
  pose proof Hwf4 as (_ & _ & _ & Hfv4 & _).
  pose proof (same_but_readers_new_vn fd4 c0 Hfv4) as Hsb5.
  set (bc := vbank_create_index fd4) in *. set (fd5 := fd_new_vn fd4 c0) in *.
  assert (Hbc4 : vbank fd4 !! bc = None) by (apply Hfv4; unfold bc; lia).
  assert (Hbc : vbank fd5 !! bc = Some c0).
  { unfold fd5, fd_new_vn. store_simpl. by rewrite lookup_insert_eq. }
  assert (Ho5 : obank fd5 !! n = Some (op_setOut (Some u) o3)) by exact Ho4.
  destruct (opSetInput_store_wf fd5 n (op_setOut (Some u) o3) bc c0 0 Hwf5 Ho5
              ltac:(cbn; lia) Hbc)
    as (fd6 & t & E6 & Hwf6 & Ho6 & Ht & _ & (tv & Htv & Htsz & Htoff & Htc) & Hoth6
        & Hbl6 & Hsb6).
  assert (Hsb04 : same_but_readers fd fd4) by exact Hsb4.
  assert (Hsb06 : same_but_readers fd fd6).
  { eapply same_but_readers_trans; [exact Hsb04 |].
    eapply same_but_readers_trans; [exact Hsb5 | exact Hsb6]. }
  assert (Huv5 : vbank fd5 !! u = Some uv).
  { unfold fd5, fd_new_vn. store_simpl. rewrite lookup_insert_ne; [done |].
    intros Heq. fold bc in Heq. rewrite Heq in Hbc4. congruence. }
  destruct (same_but_readers_lookup fd5 fd6 u uv Hsb6 Huv5)
    as (uv6 & Huv6 & Hs6 & _ & Hc6 & Hd6).
  exists fd6, (op_setInrefs (<[0%nat := Some t]> (inrefs (op_setOut (Some u) o3)))
                 (op_setOut (Some u) o3)), t, uv6, tv.
  split; [| split; [exact Hwf6 |]; split_and!; try done; try congruence].
  - rewrite (bind_Ok _ _ _ _ _ (newOp_run fd 1 addr)). fold n fd2.
    assert (E3 : opSetOpcode n CPUI_COPY fd2 = Ok tt fd3).
    { unfold opSetOpcode, PcodeOpBank_changeOpcode. by rewrite (modOp_Ok _ _ _ _ Ho1). }
    rewrite (bind_Ok _ _ _ _ _ E3), (bind_Ok _ _ _ _ _ E4), (bind_Ok _ _ _ _ _ E5).
    fold bc fd5. by rewrite (bind_Ok _ _ _ _ _ E6).
  - intros x Hx. rewrite Hoth6 by done. change (obank fd5) with (obank fd4).
    rewrite Hoth4 by done. unfold fd3, fd2, fd_new_op. store_simpl.
    by rewrite !lookup_insert_ne.
  - by rewrite Hbl6.
  - destruct Ht as [-> | Ht].
    + exact (same_but_readers_None fd fd4 bc Hsb04 Hbc4).
    + apply (same_but_readers_None fd fd4 t Hsb04).
      exact (same_but_readers_None fd4 fd5 t Hsb5 Ht).
  - rewrite Htoff. unfold vn_getOffset. by rewrite Hcloc.
  - rewrite Htc. unfold isConstant. by rewrite Hcloc.
Qed.

Lemma reads_const_kept vn fd0 fd fd' size val t :
  reads_const fd0 fd size val t →
  (∀ x o, obank fd !! x = Some o →
     ∃ o', obank fd' !! x = Some o' ∧ code o' = code o ∧ numInput o' = numInput o
           ∧ ∀ slot r, inrefs o !! slot = Some r → r ≠ Some vn →
               inrefs o' !! slot = Some r) →
  same_but_readers fd fd' →
  is_Some (vbank fd0 !! vn) → reads_const fd0 fd' size val t.
Proof.
  intros [Hu | (H0 & tv & c & co & bc & Ht & Hs & Hd & Hc0 & Hc & Hcc & Hci & Hu)]
    A1 A4 [v0 Hv0].
  - left. by eapply new_const_stable.
  - right. split; [done |].
    destruct (same_but_readers_lookup fd fd' t tv A4 Ht) as (tv' & Ht' & ? & _ & _ & ?).
    destruct (A1 _ _ Hc) as (co' & Hco' & Hcode & Hn & Hs').
    exists tv', c, co', bc. split_and!; try congruence.
    + assert (Hbc : bc ≠ vn) by (destruct Hu as (? & _); congruence).
      assert (H0' : inrefs co' !! 0%nat = Some (Some bc)).
      { apply Hs'; [by rewrite Hci | congruence]. }
      unfold numInput in Hn. rewrite Hci in Hn. cbn in Hn.
      destruct (inrefs co') as [|r [|r' l]]; try done. cbn in H0'. congruence.
    + by eapply new_const_stable.
Qed.

(** The frame of one replaced read. *)
Lemma replace_frame_step vn size val b fd fd' op o i t v :
  vbank fd !! vn = Some v → obank fd !! op = Some o →
  inrefs o !! i = Some (Some vn) →
  obank fd' !! op = Some (op_setInrefs (<[i := Some t]> (inrefs o)) o) →
  reads_const b fd' size val t →
  (∀ x ox, x ≠ op → obank fd !! x = Some ox → obank fd' !! x = Some ox) →
  (∀ x ox', obank fd' !! x = Some ox' → obank fd !! x = None →
     code ox' = CPUI_COPY ∧ Some vn ∉ inrefs ox') →
  (∀ bl, (λ b, (bl_isDead b, bl_intothis b)) <$> bblocks fd' !! bl
         = (λ b, (bl_isDead b, bl_intothis b)) <$> bblocks fd !! bl) →
  same_but_readers fd fd' →
  replace_frame vn size val b fd fd'.
Proof.
  intros Hv Ho Hslot Ho' Ht Hoth Hnew Hbl Hsb. split_and!; try done.
  intros y oy Hy. destruct (decide (y = op)) as [->|Hne].
  - assert (oy = o) by congruence. subst oy. eexists. split; [exact Ho' |].
    split_and!; try done.
    + unfold numInput. cbn. by rewrite length_insert.
    + cbn. intros slot r Hs Hrne.
      rewrite list_lookup_insert_ne; [done |]. intros <-. congruence.
    + cbn. intros slot Hs. destruct (decide (slot = i)) as [->|Hsl].
      * right. exists t. split; [| done]. apply list_lookup_insert_eq.
        by apply lookup_lt_Some in Hs.
      * left. by rewrite list_lookup_insert_ne.
  - exists oy. split_and!; try done; [by apply Hoth |]. intros slot Hs. by left.
Qed.

(** The end of a round of the loop: the read is redirected to the
    replacement [nr] that the round has chosen. *)
Lemma const_step_finish vn size val fd0 fd fd1 cp cp' op o l nr nrv v0 :
  const_inv vn size val fd0 fd cp (op :: l) →
  vbank fd0 !! vn = Some v0 →
  obank fd !! op = Some o →
  store_wf fd1 →
  (∀ x ox, obank fd !! x = Some ox → obank fd1 !! x = Some ox) →
  (∀ x ox', obank fd1 !! x = Some ox' → obank fd !! x = None →
     cp = None ∧ cp' = Some x ∧ code ox' = CPUI_COPY
     ∧ ∀ y, Some y ∈ inrefs ox' → vbank fd !! y = None) →
  (∀ bl, (λ b, (bl_isDead b, bl_intothis b)) <$> bblocks fd1 !! bl
         = (λ b, (bl_isDead b, bl_intothis b)) <$> bblocks fd !! bl) →
  same_but_readers fd fd1 →
  vbank fd1 !! nr = Some nrv →
  (cp' = cp ∨ cp = None) →
  (if isMarker o
   then isConstant nrv = false ∧ reads_const fd0 fd1 size val nr
        ∧ ∃ c co, cp' = Some c ∧ obank fd0 !! c = None
                  ∧ obank fd1 !! c = Some co ∧ getOut co = Some nr
   else cp' = cp ∧ vbank fd !! nr = None ∧ getSize nrv = size
        ∧ vn_getOffset nrv = val ∧ isConstant nrv = true) →
  ∃ fd', (opSetInput op nr (getSlot o vn) ;; ret cp') fd1 = Ok cp' fd'
         ∧ const_inv vn size val fd0 fd' cp' l.
Proof.
  intros (Hwf & Hfr & Hl & Hcnt & Honly & Hcp) Hv0 Ho Hwf1 Hex Hnew Hfl Hsb Hnr Hcpc
    Hcase.
  pose proof Hfr as (_ & F1 & F2 & F3 & F4).
  destruct (same_but_readers_lookup fd0 fd vn v0 F4 Hv0) as (v & Hv & _).
  assert (Hin : Some vn ∈ inrefs o).
  { apply count_in_pos. fold (reads o vn). rewrite (Hcnt _ _ Ho), count_in_cons.
    rewrite decide_True by done. lia. }
  pose proof (getSlot_spec o vn Hin) as Hslot. set (i := getSlot o vn) in *.
  assert (Hi : (i < numInput o)%nat) by (by apply lookup_lt_Some in Hslot).
  pose proof (Hex _ _ Ho) as Ho1.
  destruct (opSetInput_store_wf fd1 op o nr nrv i Hwf1 Ho1 Hi Hnr)
    as (fd' & t & E & Hwf' & Ho' & Ht & Htnc & (tv & Htv & Htsz & Htoff & Htc) & Hoth'
        & Hbl' & Hsb').
  assert (Hsb01 : same_but_readers fd0 fd1) by (by eapply same_but_readers_trans).
  assert (Hkept : ∀ x ox, obank fd1 !! x = Some ox →
            ∃ o', obank fd' !! x = Some o' ∧ code o' = code ox
                  ∧ numInput o' = numInput ox
                  ∧ ∀ slot r, inrefs ox !! slot = Some r → r ≠ Some vn →
                      inrefs o' !! slot = Some r).
  { intros x ox Hx. destruct (decide (x = op)) as [->|Hne].
    - assert (ox = o) by congruence. subst ox. eexists. split; [exact Ho' |].
      split_and!; try done.
      + unfold numInput. cbn. by rewrite length_insert.
      + cbn. intros slot r Hs Hrne. rewrite list_lookup_insert_ne; [done |].
        intros <-. congruence.
    - exists ox. rewrite Hoth' by done. by split_and!. }
  assert (HRC : reads_const fd0 fd' size val t).
  { destruct (isMarker o).
    - destruct Hcase as (Hnc & Hrc & _). rewrite (Htnc Hnc).
      eapply reads_const_kept; [exact Hrc | exact Hkept | done | by exists v0].
    - destruct Hcase as (_ & Hnr0 & Hs & Hoff & Hc). left. split.
      + apply (same_but_readers_None fd0 fd t F4). destruct Ht as [-> | Ht]; [done |].
        exact (same_but_readers_None fd fd1 t Hsb Ht).
      + exists tv. split_and!; congruence. }
  assert (Htvn : t ≠ vn).
  { intros ->. destruct HRC as [(H0 & _) | (H0 & _)]; congruence. }
  assert (Hstep : replace_frame vn size val fd0 fd fd').
  { eapply (replace_frame_step vn size val fd0 fd fd' op o i t v); try done.
    - intros x ox Hx Hox. rewrite Hoth' by done. by apply Hex.
    - intros x ox' Hx' Hx. assert (x ≠ op) by congruence.
      rewrite Hoth' in Hx' by done. destruct (Hnew _ _ Hx' Hx) as (_ & _ & Hc & Hfresh).
      split; [done |]. intros Hvin. rewrite (Hfresh _ Hvin) in Hv. done.
    - intros bl. rewrite Hbl'. apply Hfl.
    - by eapply same_but_readers_trans. }
  exists fd'. split; [by rewrite (bind_Ok _ _ _ _ _ E) |].
  split_and!.
  - exact Hwf'.
  - eapply replace_frame_trans; [exact Hfr | exact Hstep | apply same_but_readers_refl
                                | done | by exists v0].
  - intros x Hx. destruct (Hl x ltac:(by right)) as [ox Hox].
    destruct (Hkept _ _ (Hex _ _ Hox)) as (o'' & -> & _). done.
  - intros x ox' Hx'. destruct (obank fd !! x) as [ox|] eqn:Hx.
    + destruct (decide (x = op)) as [->|Hne].
      * assert (ox = o) by congruence. subst ox.
        rewrite Ho' in Hx'. injection Hx' as <-.
        change (count_in (Some vn) (<[i := Some t]> (inrefs o)) = count_in op l).
        pose proof (count_in_insert (Some vn) (inrefs o) i (Some vn) (Some t) Hslot)
          as Hci.
        rewrite decide_True in Hci by done.
        rewrite decide_False in Hci by congruence.
        pose proof (Hcnt _ _ Ho) as Hc0. unfold reads in Hc0.
        rewrite count_in_cons, decide_True in Hc0 by done. lia.
      * rewrite Hoth' in Hx' by done. rewrite (Hex _ _ Hx) in Hx'. injection Hx' as <-.
        rewrite (Hcnt _ _ Hx), count_in_cons, decide_False by done. done.
    + assert (x ≠ op) by congruence. rewrite Hoth' in Hx' by done.
      destruct (Hnew _ _ Hx' Hx) as (_ & _ & _ & Hfresh).
      assert (Hz : reads ox' vn = 0%nat).
      { apply count_in_zero. intros Hvin. rewrite (Hfresh _ Hvin) in Hv. done. }
      rewrite Hz. symmetry. apply count_in_zero. intros Hxl.
      destruct (Hl x ltac:(by right)) as [? ?]. congruence.
  - intros x [ox' Hx'] Hx0. destruct (obank fd !! x) as [ox|] eqn:Hx.
    + pose proof (Honly x ltac:(done) Hx0) as Hcpx.
      destruct Hcpc as [-> | ->]; [done | done].
    + assert (x ≠ op) by congruence. rewrite Hoth' in Hx' by done.
      by destruct (Hnew _ _ Hx' Hx) as (_ & -> & _).
  - assert (Hnotop : ∀ c co, obank fd0 !! c = None → obank fd1 !! c = Some co → c ≠ op).
    { intros c co Hc0 Hc1 ->. assert (co = o) by congruence. subst co.
      destruct (F2 _ _ Ho Hc0) as (_ & Hnv). done. }
    destruct (isMarker o).
    + destruct Hcase as (Hnc & Hrc & c & co & -> & Hc0 & Hc1 & Hout).
      destruct (same_but_readers_lookup fd1 fd' nr nrv Hsb' Hnr)
        as (nrv' & Hnr' & _ & _ & Hc' & _).
      exists co, nr, nrv'. split_and!; try done; try congruence.
      * rewrite Hoth'; [done |]. by eapply Hnotop.
      * by rewrite <- (Htnc Hnc).
    + destruct Hcase as (-> & _). destruct cp as [c|]; [| done].
      destruct Hcp as (co & nr0 & nrv0 & Hc0 & Hc & Hout & Hnr0 & Hnc0 & Hrc0).
      pose proof (Hex _ _ Hc) as Hc1.
      destruct (same_but_readers_lookup fd fd' nr0 nrv0
                  ltac:(by eapply same_but_readers_trans) Hnr0)
        as (nrv' & Hnr' & _ & _ & Hc' & _).
      exists co, nr0, nrv'. split_and!; try done; try congruence.
      * rewrite Hoth'; [done |]. by eapply Hnotop.
      * eapply reads_const_kept; [| exact Hkept | done | by exists v0].
        eapply reads_const_kept; [exact Hrc0 | | done | by exists v0].
        intros x ox Hx. exists ox. split_and!; try done. by apply Hex.
Qed.

(** The first marker read: the COPY is made and [ins] puts it into a
    block. *)
Lemma const_marker_first fd size val addr (ins : opptr → M unit) :
  store_wf fd →
  (∀ fd6 co,
     blocks_wf fd6 → bblocks fd6 = bblocks fd →
     (∀ x, x ≠ obank_uniqid fd → obank fd6 !! x = obank fd !! x) →
     obank fd6 !! obank_uniqid fd = Some co → code co = CPUI_COPY →
     ∃ bl' b' k,
       bblocks fd6 !! bl' = Some b'
       ∧ ins (obank_uniqid fd) fd6
         = Ok tt (fd_inserted fd6 (obank_uniqid fd) co bl' b' k)) →
  ∃ fd' co uv,
    (copyop <- newOp 1 addr ;;
     opSetOpcode copyop CPUI_COPY ;;
     newrep <- newUniqueOut size copyop ;;
     c <- newConstant size val ;;
     opSetInput copyop c 0 ;;
     ins copyop ;;
     ret (Some copyop, newrep)) fd
    = Ok (Some (obank_uniqid fd), vbank_create_index fd) fd'
    ∧ store_wf fd'
    ∧ obank fd !! obank_uniqid fd = None
    ∧ obank fd' !! obank_uniqid fd = Some co
    ∧ code co = CPUI_COPY ∧ getOut co = Some (vbank_create_index fd)
    ∧ (∀ y, Some y ∈ inrefs co → vbank fd !! y = None)
    ∧ (∀ x, x ≠ obank_uniqid fd → obank fd' !! x = obank fd !! x)
    ∧ (∀ bl, (λ b, (bl_isDead b, bl_intothis b)) <$> bblocks fd' !! bl
             = (λ b, (bl_isDead b, bl_intothis b)) <$> bblocks fd !! bl)
    ∧ same_but_readers fd fd'
    ∧ vbank fd' !! vbank_create_index fd = Some uv ∧ isConstant uv = false
    ∧ reads_const fd fd' size val (vbank_create_index fd).
Proof.
  intros Hwf Hins.
  destruct (const_copy_run fd size val addr
              (λ copyop newrep, ins copyop ;; ret (Some copyop, newrep)) Hwf)
    as (fd6 & co & t & uv & tv & E6 & Hwf6 & Hnew & Hco & Hcc & Hcin & Hcout & Hcp
        & Hoth6 & Hbl6 & Hsb6 & Hu & Huv & Hucst & Husz & Hudef & Ht & Htv & Htsz
        & Htoff & Htc).
  set (n := obank_uniqid fd) in *. set (u := vbank_create_index fd) in *.
  pose proof Hwf6 as (_ & _ & Hb6 & _).
  destruct (Hins fd6 co Hb6 Hbl6 Hoth6 Hco Hcc) as (bl' & b' & k & Hbb' & E7).
  pose proof (inserted_store_wf fd6 n co bl' b' k Hwf6 Hco Hcp Hbb') as Hwf7.
  set (fd7 := fd_inserted fd6 n co bl' b' k) in *.
  set (co7 := op_setParent (Some bl') (op_clearFlags {[PcodeOp_dead]} co)).
  assert (Hco7 : obank fd7 !! n = Some co7).
  { unfold fd7, fd_inserted. store_simpl. by rewrite lookup_insert_eq. }
  exists fd7, co7, uv. split; [| split; [exact Hwf7 |]; split_and!; try done].
  - rewrite E6. by rewrite (bind_Ok _ _ _ _ _ E7).
  - cbn. rewrite Hcin. by intros y ->%list_elem_of_singleton%(inj Some).
  - intros x Hx. unfold fd7, fd_inserted. store_simpl.
    rewrite lookup_insert_ne by done. by apply Hoth6.
  - intros bl. unfold fd7, fd_inserted. store_simpl. rewrite Hbl6.
    destruct (decide (bl = bl')) as [->|Hb].
    + rewrite lookup_insert_eq. rewrite Hbl6 in Hbb'. rewrite Hbb'. done.
    + by rewrite lookup_insert_ne.
  - right. split; [done |]. exists uv, n, co7, t. split_and!; try done.
    split; [done |]. by exists tv.
Qed.

(** One round of the loop of [totalReplaceConstant]. *)
Lemma totalReplaceConstant_read_step vn size val fd0 fd cp op l v0 :
  const_inv vn size val fd0 fd cp (op :: l) →
  vbank fd0 !! vn = Some v0 → getSize v0 = size →
  (∀ def d, getDef v0 = Some def → obank fd0 !! def = Some d →
     code d ≠ CPUI_INDIRECT ∧ is_Some (getParent d)) →
  (getDef v0 = None → is_Some (bblocks fd0 !! 0%nat)) →
  ∃ cp' fd',
    totalReplaceConstant_read vn val cp op fd = Ok cp' fd'
    ∧ const_inv vn size val fd0 fd' cp' l.
Proof.
  intros Hinv Hv0 Hsize Hdef Hnodef.
  pose proof Hinv as (Hwf & Hfr & Hl & Hcnt & Honly & Hcp).
  pose proof Hfr as (_ & F1 & F2 & F3 & F4).
  pose proof Hwf as (Hr & Hd & Hb & Hfv & Hfo).
  destruct (Hl op ltac:(by left)) as [o Ho].
  destruct (same_but_readers_lookup fd0 fd vn v0 F4 Hv0) as (v & Hv & Hvs & _ & _ & Hvd).
  assert (Hmono : ∀ x, obank fd !! x = None → obank fd0 !! x = None).
  { intros x. by apply (replace_frame_ops fd0 fd0 fd vn size val). }
  unfold totalReplaceConstant_read.
  rewrite (bind_Ok _ _ _ _ _ (getOp_Ok _ _ _ Ho)).
  assert (Hfin : ∀ fd1 cp' nr nrv (c : M (option opptr * vnptr)),
    c fd = Ok (cp', nr) fd1 →
    store_wf fd1 →
    (∀ x ox, obank fd !! x = Some ox → obank fd1 !! x = Some ox) →
    (∀ x ox', obank fd1 !! x = Some ox' → obank fd !! x = None →
       cp = None ∧ cp' = Some x ∧ code ox' = CPUI_COPY
       ∧ ∀ y, Some y ∈ inrefs ox' → vbank fd !! y = None) →
    (∀ bl, (λ b, (bl_isDead b, bl_intothis b)) <$> bblocks fd1 !! bl
           = (λ b, (bl_isDead b, bl_intothis b)) <$> bblocks fd !! bl) →
    same_but_readers fd fd1 →
    vbank fd1 !! nr = Some nrv →
    (cp' = cp ∨ cp = None) →
    (if isMarker o
     then isConstant nrv = false ∧ reads_const fd0 fd1 size val nr
          ∧ ∃ c co, cp' = Some c ∧ obank fd0 !! c = None
                    ∧ obank fd1 !! c = Some co ∧ getOut co = Some nr
     else cp' = cp ∧ vbank fd !! nr = None ∧ getSize nrv = size
          ∧ vn_getOffset nrv = val ∧ isConstant nrv = true) →
    ∃ cp' fd',
      (r <- c ;; opSetInput op r.2 (getSlot o vn) ;; ret r.1) fd = Ok cp' fd'
      ∧ const_inv vn size val fd0 fd' cp' l).
  { intros fd1 cp' nr nrv c E Hwf1 Hex Hnew Hfl Hsb Hnr Hcpc Hcase.
    destruct (const_step_finish vn size val fd0 fd fd1 cp cp' op o l nr nrv v0
                Hinv Hv0 Ho Hwf1 Hex Hnew Hfl Hsb Hnr Hcpc Hcase) as (fd' & E' & Hinv').
    exists cp', fd'. split; [| done]. by rewrite (bind_Ok _ _ _ _ _ E). }
  destruct (isMarker o) eqn:Hm.
  - destruct cp as [c|].
    + (* the COPY exists *)
      destruct Hcp as (co & nr & nrv & Hc0 & Hc & Hout & Hnr & Hnc & Hrc).
      eapply (Hfin fd (Some c) nr nrv); try done.
      * by rewrite (bind_Ok _ _ _ _ _ (getOp_Ok _ _ _ Hc)), Hout.
      * intros x ox' Hx' Hx. congruence.
      * apply same_but_readers_refl.
      * by left.
      * split_and!; try done. by exists c, co.
    + (* the first marker read *)
      assert (Hcopy : ∀ (ins : opptr → M unit) addr,
        (∀ fd6 co,
           blocks_wf fd6 → bblocks fd6 = bblocks fd →
           (∀ x, x ≠ obank_uniqid fd → obank fd6 !! x = obank fd !! x) →
           obank fd6 !! obank_uniqid fd = Some co → code co = CPUI_COPY →
           ∃ bl' b' k,
             bblocks fd6 !! bl' = Some b'
             ∧ ins (obank_uniqid fd) fd6
               = Ok tt (fd_inserted fd6 (obank_uniqid fd) co bl' b' k)) →
        ∃ cp' fd',
          (r <- (copyop <- newOp 1 addr ;;
                 opSetOpcode copyop CPUI_COPY ;;
                 newrep <- newUniqueOut (getSize v) copyop ;;
                 c <- newConstant (getSize v) val ;;
                 opSetInput copyop c 0 ;;
                 ins copyop ;;
                 ret (Some copyop, newrep)) ;;
           opSetInput op r.2 (getSlot o vn) ;; ret r.1) fd = Ok cp' fd'
          ∧ const_inv vn size val fd0 fd' cp' l).
      { intros ins addr Hins.
        destruct (const_marker_first fd (getSize v) val addr ins Hwf Hins)
          as (fd1 & co & uv & E & Hwf1 & Hn & Hco & Hcc & Hcout & Hcin & Hoth & Hfl
              & Hsb & Huv & Hucst & Hrc).
        eapply (Hfin fd1 (Some (obank_uniqid fd)) (vbank_create_index fd) uv);
          try done.
        - intros x ox Hx. rewrite Hoth; [done |]. congruence.
        - intros x ox' Hx' Hx. destruct (decide (x = obank_uniqid fd)) as [->|Hne].
          + assert (ox' = co) by congruence. subst ox'. by split_and!.
          + rewrite Hoth in Hx' by done. congruence.
        - by right.
        - split_and!; try done.
          + rewrite <- Hsize, <- Hvs. eapply reads_const_base; [exact Hrc | done | done].
          + exists (obank_uniqid fd), co. split_and!; try done. by apply Hmono. }
      rewrite bind_assoc, (bind_Ok _ _ _ _ _ (getVn_Ok _ _ _ Hv)).
      destruct (getDef v) as [def|] eqn:Hgd.
      * (* after the op that defines the Varnode *)
        destruct Hd as (_ & Hd2). destruct (Hd2 _ _ _ Hv Hgd) as (d & Hdd & _).
        assert (Hdprop : code d ≠ CPUI_INDIRECT ∧ is_Some (getParent d)).
        { destruct (obank fd0 !! def) as [d0|] eqn:Hd0.
          - destruct (F1 _ _ Hd0) as (d' & Hd' & Hc' & _ & Hp' & _).
            assert (d' = d) by congruence. subst d'. rewrite Hc', Hp'.
            apply (Hdef def d0); [congruence | done].
          - pose proof (Honly def ltac:(done) Hd0). done. }
        destruct Hdprop as (Hdc & [bl Hdp]).
        destruct Hb as (_ & Hb2). destruct (Hb2 _ _ _ Hdd Hdp) as (b & Hbb & Hdin).
        destruct (index_of_elem def (bl_op b) 0 Hdin) as (iter & Hiter & _).
        cbn in Hiter.
        rewrite bind_assoc, (bind_Ok _ _ _ _ _ (getOp_Ok _ _ _ Hdd)).
        apply (Hcopy (λ copyop, opInsertAfter copyop def) (getAddr (getSeqNum d))).
        intros fd6 co Hb6 Hbl6 Hoth6 Hco Hcc.
        assert (Hne : def ≠ obank_uniqid fd).
        { intros ->. rewrite Hfo in Hdd; [done | lia]. }
        assert (Hbb6 : bblocks fd6 !! bl = Some b) by (by rewrite Hbl6).
        assert (Hd6 : obank fd6 !! def = Some d) by (by rewrite Hoth6).
        destruct (block_codes_exists fd6 bl b Hb6 Hbb6) as (cs & Hcs).
        exists bl, b, (after_position cs iter). split; [done |].
        apply (opInsertAfter_run fd6 def d bl b cs iter); try done. by rewrite Hcc.
      * (* at the start of the first block *)
        assert (Hbb : is_Some (bblocks fd !! 0%nat)).
        { destruct (Hnodef ltac:(congruence)) as [bb0 Hbb0].
          destruct (block_flags_eq fd0 fd 0%nat bb0 F3 Hbb0) as (bb & -> & _). done. }
        destruct Hbb as [bb Hbb].
        rewrite bind_assoc, (bind_Ok _ _ _ _ _ (getBlock_Ok _ _ _ Hbb)).
        apply (Hcopy (λ copyop, opInsertBegin copyop 0%nat) (getStart bb)).
        intros fd6 co Hb6 Hbl6 Hoth6 Hco Hcc.
        assert (Hbb6 : bblocks fd6 !! 0%nat = Some bb) by (by rewrite Hbl6).
        destruct (block_codes_exists fd6 0%nat bb Hb6 Hbb6) as (cs & Hcs).
        exists 0%nat, bb, (count_prefix (is_code CPUI_MULTIEQUAL) cs). split; [done |].
        apply opInsertBegin_run; try done. by rewrite Hcc.
  - (* a new constant for the read *)
    destruct (newConstant_run fd (getSize v) val)
      as (c0 & E1 & Hcsz & Hcloc & Hcdef & Hcdesc & _).
    eapply (Hfin (fd_new_vn fd c0) cp (vbank_create_index fd) c0); try done.
    + by rewrite (bind_Ok _ _ _ _ _ (getVn_Ok _ _ _ Hv)), (bind_Ok _ _ _ _ _ E1).
    + by apply store_wf_new_vn.
    + intros x ox' Hx' Hx. change (obank (fd_new_vn fd c0)) with (obank fd) in Hx'.
      congruence.
    + by apply same_but_readers_new_vn.
    + unfold fd_new_vn. store_simpl. by rewrite lookup_insert_eq.
    + by left.
    + split_and!; try done.
      * apply Hfv. lia.
      * congruence.
      * unfold vn_getOffset. by rewrite Hcloc.
      * unfold isConstant. by rewrite Hcloc.
Qed.

Lemma totalReplaceConstant_loop vn size val fd0 v0 :
  vbank fd0 !! vn = Some v0 → getSize v0 = size →
  (∀ def d, getDef v0 = Some def → obank fd0 !! def = Some d →
     code d ≠ CPUI_INDIRECT ∧ is_Some (getParent d)) →
  (getDef v0 = None → is_Some (bblocks fd0 !! 0%nat)) →
  ∀ l fd cp,
    const_inv vn size val fd0 fd cp l →
    ∃ cp' fd',
      foldM (totalReplaceConstant_read vn val) l cp fd = Ok cp' fd'
      ∧ const_inv vn size val fd0 fd' cp' [].
Proof.
  intros Hv0 Hsize Hdef Hnodef. induction l as [|op l IH]; intros fd cp Hinv.
  { by exists cp, fd. }
  destruct (totalReplaceConstant_read_step vn size val fd0 fd cp op l v0 Hinv Hv0 Hsize
              Hdef Hnodef) as (cp1 & fd1 & E & Hinv1).
  destruct (IH fd1 cp1 Hinv1) as (cp' & fd' & E' & Hinv').
  exists cp', fd'. split; [| done]. cbn [foldM]. by rewrite (bind_Ok _ _ _ _ _ E).
Qed.

(** X26: in a consistent store, [Funcdata::totalReplaceConstant] succeeds
    when the Varnode has a defining op that stands in a block and is not
    an INDIRECT, or has none and block 0 exists. Afterwards the Varnode
    has no readers: each slot that read it reads a new constant of the
    given value and of its size, or the output of a new COPY of such a
    constant; every other slot is as before. At most one op is new, a
    COPY, and the store stays consistent. *)
Theorem totalReplaceConstant_replaces_every_read (fd : Funcdata) (vn : nat)
    (v : Varnode) (val : Z) :
  readers_wf fd → defs_wf fd → blocks_wf fd → vbank_fresh fd → obank_fresh fd →
  vbank fd !! vn = Some v →
  (∀ def d, getDef v = Some def → obank fd !! def = Some d →
     code d ≠ CPUI_INDIRECT ∧ is_Some (getParent d)) →
  (getDef v = None → is_Some (bblocks fd !! 0%nat)) →
  ∃ fd' v',
    totalReplaceConstant vn val fd = Ok tt fd'
    ∧ readers_wf fd' ∧ defs_wf fd' ∧ blocks_wf fd'
    ∧ vbank fd' !! vn = Some v' ∧ descend v' = []
    ∧ (∀ op o, obank fd !! op = Some o →
         ∃ o', obank fd' !! op = Some o'
               ∧ code o' = code o ∧ getOut o' = getOut o
               ∧ getParent o' = getParent o ∧ numInput o' = numInput o
               ∧ (∀ slot r, inrefs o !! slot = Some r → r ≠ Some vn →
                    inrefs o' !! slot = Some r)
               ∧ (∀ slot, inrefs o !! slot = Some (Some vn) →
                    ∃ t, inrefs o' !! slot = Some (Some t)
                         ∧ reads_const fd fd' (getSize v) val t))
    ∧ (∀ x y ox oy,
         obank fd' !! x = Some ox → obank fd !! x = None →
         obank fd' !! y = Some oy → obank fd !! y = None →
         x = y ∧ code ox = CPUI_COPY).
Proof.
  intros Hr Hd Hb Hfv Hfo Hv Hdef Hnodef.
  destruct (totalReplaceConstant_loop vn (getSize v) val fd v Hv eq_refl Hdef Hnodef
              (descend v) fd None) as (cp' & fd' & E & Hinv).
  { split_and!; try done.
    - apply replace_frame_refl. by exists v.
    - intros x Hx. destruct Hr as (_ & _ & Hos). by eapply Hos.
    - intros x o Ho. symmetry. by apply Hr.
    - intros x [o Ho] Hx. congruence. }
  destruct Hinv as ((Hr' & Hd' & Hb' & _ & _) & Hfr & _ & Hcnt & Honly & _).
  pose proof Hfr as (_ & F1 & F2 & F3 & F4).
  destruct (F4 _ _ Hv) as (v' & Hv' & _).
  exists fd', v'. split_and!; try done.
  - unfold totalReplaceConstant.
    rewrite (bind_Ok _ _ _ _ _ (getVn_Ok _ _ _ Hv)). by rewrite (bind_Ok _ _ _ _ _ E).
  - destruct (descend v') as [|op l] eqn:Hdesc; [done |]. exfalso.
    destruct Hr' as (Hc' & _ & Hos').
    destruct (Hos' vn v' op Hv' ltac:(rewrite Hdesc; by left)) as [o' Ho'].
    pose proof (Hc' _ _ _ _ Ho' Hv') as Hco. rewrite (Hcnt _ _ Ho'), count_in_nil in Hco.
    apply count_in_zero in Hco. apply Hco. rewrite Hdesc. by left.
  - intros op o Ho.
    destruct (F1 _ _ Ho) as (o' & Ho' & Hc & Hout & Hp & Hn & Hs & Hvs).
    exists o'. split_and!; try done.
    intros slot Hslot. destruct (Hvs _ Hslot) as [Hstill | Hrep]; [| done].
    exfalso. pose proof (Hcnt _ _ Ho') as Hz. rewrite count_in_nil in Hz.
    apply count_in_zero in Hz. apply Hz. by eapply list_elem_of_lookup_2.
  - intros x y ox oy Hx' Hx Hy' Hy.
    pose proof (Honly x ltac:(done) Hx) as Hcx.
    pose proof (Honly y ltac:(done) Hy) as Hcy.
    split; [congruence |]. by destruct (F2 _ _ Hx' Hx).
Qed.

Lemma totalReplaceConstant_replaces_every_read_witness :
  ∃ fd' v',
    totalReplaceConstant 0 7 ex_diamond = Ok tt fd'
    ∧ readers_wf fd' ∧ defs_wf fd' ∧ blocks_wf fd'
    ∧ vbank fd' !! 0%nat = Some v' ∧ descend v' = [].
Proof.
  destruct (totalReplaceConstant_replaces_every_read ex_diamond 0
              (vnode 4 (reg 0) (Some 0%nat) [1%nat; 2%nat]) 7)
    as (fd' & v' & E & Hr & Hd & Hb & Hv & Hdesc & _);
    [apply ex_diamond_readers_wf | apply ex_diamond_defs_wf | apply ex_diamond_blocks_wf
    | intros j; apply mkStore_vbank_fresh | | reflexivity | | |].
  - intros j Hj. unfold ex_diamond. rewrite mkStore_obank. apply lookup_ge_None_2.
    exact Hj.
  - intros def d [= <-] Hd. unfold ex_diamond in Hd. rewrite mkStore_obank in Hd.
    cbn in Hd. injection Hd as <-. split; [done | by eexists].
  - intros [=].
  - by exists fd', v'.
Defined.
